(* ===== verification/_CoqProject ===== *)
-Q . S2P
Prelude.v
Time.v
BTree.v
Proto.v
Metrics.v
MetricsFacts.v
FlushLoop.v
FlushLoopFacts.v
Ledger.v
FlushWake.v
FlushTime.v
Logs.v
LogsFacts.v
F64.v
Backoff.v
Text.v
Serde.v
Concrete.v
Errors.v
Token.v
Config.v
Crypto.v
Dek.v
Fs.v
FsFacts.v
Lkg.v
LkgFacts.v
License.v
Creds.v
Status.v
Client.v
Runner.v
Inbound.v
Control.v
Agent.v
LoopControl.v
Handles.v
SessionFacts.v
LoopFacts.v
LoopPacing.v
Session.v
SessionSafety.v
SessionStranding.v
SessionRefinement.v
SessionWire.v
SessionControl.v
LicenseBinding.v
SessionTime.v
Lifetime.v
LifetimeRefinement.v
Shutdown.v
LifetimeShutdown.v
LifetimeBilling.v
LifetimeFlush.v
TestMetrics.v
TestLanes.v
TestStorage.v
TestAgent.v
