(* ===== verification/Prelude.v ===== *)
(** * Verification of mcpg-control-plane-client

    The crate under [src/] connects an MCPG gateway to its control plane.  An
    [AgentRunner] enrols the instance (Register), keeps the issued credentials on
    disk, opens a long-lived gRPC Channel, and on that Channel sends heartbeats,
    tool-call metrics, log lines and status reports while it applies what the
    control plane pushes: configuration bundles, rotated credentials, quota
    states and licences.  When a session ends it reconnects; when asked to, it
    ships what is buffered and stops.

    ** The parts and the files that model them

    Foundations:
    - [Prelude] (this file): [Result] and [?], machine integers at their widths,
      list and option lemmas, the hint database [cpc].
    - [Time]: [Duration] in nanoseconds, [DateTime], protobuf [Timestamp].
    - [F64]: [f64] arithmetic as rounding to 53 significant bits on rationals,
      with [as_secs_f64] and [from_secs_f64]; exponent overflow and subnormals do
      not occur in the ranges it is used on.
    - [Text]: the [str] operations used (split, trim with Unicode white space,
      parse, print) on UTF-8 byte strings.
    - [BTree]: the sorted map of the event rollup, over a class of key orders.
    - [Proto]: the outbound wire messages, with the fields the code fills.
    - [Serde]: JSON trees, derived struct deserialisation with
      [#[serde(default)]], and the classes [Json], [Base64], [Rfc3339] for the
      third-party codecs with the laws relied on; [Crypto]: the same for AES-GCM
      and HKDF.  [Concrete] (and the end of [Crypto]) instantiates every class, so
      that the laws are known to be satisfiable and the examples run.
    - [Fs], [FsFacts]: the file system, system randomness and the clock as a state
      and error monad in which every call may fail, writes may be torn, and every
      disk a crash could leave is recorded; atomic replacement is proved once and
      used three times.

    Components:
    - [Metrics], [MetricsFacts]: [MetricsBuffer] of [src/metrics.rs] ([record],
      [drain], [requeue_front], the event rollup, [batch_to_message]).
    - [FlushLoop], [FlushLoopFacts]: its flush task, as a function of one round, as
      a step relation interleaved with recorders and a cancellation
      ([flush_task_step]), and as the system of the tasks of all sessions on the one
      buffer ([system_step]), where a task that was aborted may still hold a batch,
      and return it, when its successor is running; [Ledger]: the accounting of calls shared with the session; [FlushWake]: the
      early wake-up; [FlushTime]: the task with its ticker and spacing in time.
    - [Logs], [LogsFacts]: the log ring and its flush loop, [src/logs.rs].
    - [Status]: snapshots, reports and the status loop, [src/status.rs].
    - [Backoff]: [src/backoff.rs].
    - [Dek]: payload encryption, [src/payload_dek.rs].
    - [Lkg], [LkgFacts]: the last-known-good cache, [src/lkg.rs].
    - [License]: the licence cache, [src/license_delivery.rs].
    - [Config]: the plugin configuration, [src/config.rs].
    - [Client]: the connection, token and TLS state, [src/client.rs].
    - [Token], [Errors], [Creds]: of [src/agent.rs], the tokens, the
      classification of session errors, and the credentials file.
    - [Runner]: the state of an [AgentRunner] and what its methods do to it,
      Register and one definition per arm of [read_inbound]; [Inbound]: the same
      reader stopped at each of its [await]s, where a shutdown can drop it;
      [Agent]: [flush_remaining], [run_session], [run_loop] and [run].
      [SessionFacts], [LoopFacts] and [LoopPacing] hold their properties.
    - [Session]: one Channel session as an executable concurrent system: the
      reader, the heartbeat, metrics, log and status tasks, the bounded outbound
      channel, the [abort]s and the shutdown flush, run against the host and the
      transport.  [SessionSafety], [SessionStranding], [SessionRefinement] and
      [SessionWire] hold its properties; [SessionTime] runs it with the tickers of its
      tasks in time.
    - [Control]: the part of a runner that the tasks of a session do not touch, as an
      equivalence the reader and ([LoopControl]) the run loop respect;
      [SessionControl]: a concurrent session is the [run_session] of [Agent] on it;
      [LicenseBinding]: the licences it gives to the host.
    - [Lifetime]: the run loop over concurrent sessions, whose aborted tasks may
      outlive them; [LifetimeRefinement]: it is the [run_loop] of [Agent];
      [LifetimeShutdown]: it implements the protocol of [Shutdown] and ends;
      [LifetimeBilling]: what its shutdown has shipped; [LifetimeFlush]: its metrics
      tasks are the system of [FlushLoop].
    - [Handles]: construction, the hook builders and the handles of the runner
      over a heap of shared cells, refined to independent [Runner]s.
    - [Shutdown]: [AgentShutdown] and the run loop as interleaved atomic steps.
    - [TestMetrics], [TestLanes], [TestStorage], [TestAgent]: the crate's own tests,
      assertion by assertion, evaluated on the definitions above; the tests against
      a control plane run the whole loop against the fake of the source.

    State that the code shares through [Arc], locks and atomics is explicit state;
    a critical section is one step.  A [Result] is a value of [Result] or of the
    monad of [Fs]; a panic is [None] or a constructor of its own and is proved
    unreachable where the code relies on it.  What the network, the host's hooks
    and the random generator do is an argument, quantified in the theorems.

    ** What the theorems show

    - Metrics: the drop policy is the documented one, a billable call is never
      given up for a non-billable one, a drained batch that cannot be sent comes
      back in order, every call is shipped, in flight, buffered or counted in
      every interleaving of the tasks of all sessions, and the buffer stays well
      formed.  The shipped timeline keeps the recording order as long as a task is
      spawned only after its predecessors have let go of their batches, and no early
      wake-up is lost as long as the tasks of earlier sessions leave the buffer alone:
      both conditions are needed ([late_return_reorders], [late_return_wakes_nobody]).
      One tick ships the whole buffer, and the rounds are paced: early ones a second
      apart, their number bounded in time.
    - Logs: the lines are accounted for while the channel is open; a failed send
      loses the batch it carried.
    - Persistence: save and load of the cache, of the licence and of the
      credentials are inverse; each replacement is atomic under arbitrary I/O
      faults and crashes of the process; the node secret is created once.
    - Session: acknowledgements are truthful, rotations and Register responses
      take effect in memory and across restarts, inbound handling stops at the first
      failure, the shutdown flush ships everything.
    - Session as a concurrent system: in every execution no call is lost or counted
      twice, what the tasks count as shipped is what the channel accepted, at most
      64 accepted messages wait, and the end takes at most 71 steps of
      [run_session].  Undisturbed, its end is [flush_remaining].  A handler dropped at
      an [await] tears nothing apart.  Every execution has the result and the control
      state of the sequential [run_session] on exactly the items its reader was polled
      with and the answers its host gave, and its traffic is bounded by its duration.
      At every moment the host has the licences received so far, bound to the Channel,
      and the last one is on disk.  A batch the metrics task holds when the session
      ends is stranded if the task is cancelled only after the flush.
    - The agent as a concurrent system: over its whole life, with the tasks of
      finished sessions still running beside the next one, no call is lost or
      counted twice; every execution has the outcome and the control state of the
      sequential [run_loop] on the environments its connects met, the items its
      readers were polled with and the answers its host gave, so that what is proved
      of [run_loop] holds of it: it never fails or panics, and ends only on a requested
      shutdown.  Until a shutdown flush, its metrics tasks are the system of flush
      tasks.  Its shutdown is that of the abstract protocol; once its session was told,
      the loop has at most 74 steps of its own left and opens no other session, though
      a re-enrolment whose Register gets no answer can keep it from returning; and a
      session that flushes
      after its metrics tasks stopped leaves an empty buffer, the reports of all
      sessions then accounting for every call of the agent's life.
    - Handles: every handle shows its own runner's state, whenever it was taken.
    - Run loop: it returns only on a requested shutdown and never fails or
      panics; a session starts on a good token whenever one can be had; rejected
      credentials are discarded only when they can be replaced; a held slot is
      waited for without backing off; retries end with the first success; no pause
      is longer than the configured maximum (or the wait for a slot) allows, and
      every failed session is followed by a pause of a known least length.
    - Shutdown: [finished] never misses the end; at most one session starts after
      a request; and a request made during a connect is lost to that session, which
      then ends only with its stream.
    - Tokens, errors, client, configuration: exact characterisations.

    Five theorems state behaviour that differs from what the code's own
    documentation says: a rejected bundle is preloaded after a restart, a rotated
    payload key of a wrong length costs the capability at the next restart, the log
    lane loses a batch whose send fails, a request during a connect is lost, and the
    shutdown flush can leave a batch behind because an abort takes effect only
    later.

    ** Bounds and fuel

    Loops that the code bounds are bounded the same way ([batches_per_tick],
    sixteen shutdown batches).  Loops without a bound of their own run over the
    list of what happens to them (ticks, stream items, attempts, iterations), so
    no result depends on fuel; the theorems hold for lists of any length, and say
    what happens when the list ends first ([RPending], [LPending]).  An execution of
    [Session] is a list of actions, each possible where it is taken; that
    [run_session], or a stopped agent, gets to its end is a bound on its own steps
    together with the ability to go on.  A handler passes at most two [await]s ([HANDLER_AWAITS]).
    Trimming and
    printing numbers recurse on a length that is proved or evidently enough: one
    step per character, one digit per bit.  Sequence numbers and drop counters
    wrap at 2^64, delays saturate at [Duration::MAX], and the jitter's
    no-panic result is for maxima up to 2^63 seconds.

    ** Not modelled

    The text syntax of JSON, base64, RFC 3339 and protobuf, the cryptographic
    algorithms, and gRPC are third-party code and enter through the classes above
    or as arguments; secrecy is not a subject.  Endpoint timeouts and keepalives are
    not represented; that an interval of zero panics is excluded by hypothesis.  In
    [Lifetime] what the run loop does from one load of [stopping] to the next (its
    sleeps and Register included) is a step before the session and a step after it:
    it works on the control state, which nothing that runs beside it touches.  Of [tokio], channels, [Notify], intervals and task
    cancellation have their documented behaviour, the scheduler is arbitrary.
    Power loss, as opposed to a crash of the process, is not covered by the
    atomicity results: the code does not sync files.  Log output ([tracing]) and the
    attempt counter it prints, and the re-exports of [src/lib.rs], are left out. *)

From stdpp Require Import base list strings gmap sorting relations.
From Stdlib Require Import ZArith Lia.

(** ** Rust's [Result] *)

(** [Result<T, E>] of the standard library. *)
Inductive Result (A E : Type) : Type :=
| Ok (a : A)
| Err (e : E).
Arguments Ok {A E} a.
Arguments Err {A E} e.

(** [Result::ok]. *)
Definition result_ok {A E} (r : Result A E) : option A :=
  match r with Ok a => Some a | Err _ => None end.

(** [Result::map_err]. *)
Definition map_err {A E F} (f : E → F) (r : Result A E) : Result A F :=
  match r with Ok a => Ok a | Err e => Err (f e) end.

Definition is_ok {A E} (r : Result A E) : bool :=
  match r with Ok _ => true | Err _ => false end.

(** The [?] operator: bind in the error monad. *)
Declare Scope rust_scope.
Delimit Scope rust_scope with rust.
Notation "x ←? c1 ; c2" :=
  (match c1 with Ok x => c2 | Err e => Err e end)
    (at level 20, c1 at level 100, c2 at level 200, right associativity,
     only parsing) : rust_scope.

(** ** Machine integers

    A [w]-bit integer is a [Z] in its range; the operations below write out
    what Rust does at the bounds. *)
Definition U32_MAX : Z := 2 ^ 32 - 1.
Definition U64_MAX : Z := 2 ^ 64 - 1.
Definition I64_MAX : Z := 2 ^ 63 - 1.
Definition I64_MIN : Z := - 2 ^ 63.

Definition in_u32 (z : Z) : Prop := (0 ≤ z ≤ U32_MAX)%Z.
Definition in_u64 (z : Z) : Prop := (0 ≤ z ≤ U64_MAX)%Z.
Definition in_i64 (z : Z) : Prop := (I64_MIN ≤ z ≤ I64_MAX)%Z.

(** [AtomicU64::fetch_add]: addition wraps around on overflow. *)
Definition wrap_u64 (z : Z) : Z := (z mod 2 ^ 64)%Z.

(** [u64::saturating_add], [u32::saturating_add], [i64::saturating_sub]. *)
Definition saturating_add_u64 (a b : Z) : Z := Z.min U64_MAX (a + b).
Definition saturating_add_u32 (a b : Z) : Z := Z.min U32_MAX (a + b).
Definition saturating_sub_i64 (a b : Z) : Z :=
  Z.max I64_MIN (Z.min I64_MAX (a - b)).

(** [x as i64] for a [u64]: the bit pattern read in two's complement. *)
Definition u64_as_i64 (z : Z) : Z :=
  if (z <=? I64_MAX)%Z then z else (z - 2 ^ 64)%Z.

Lemma wrap_u64_range z : in_u64 (wrap_u64 z).
Proof.
  unfold in_u64, wrap_u64, U64_MAX.
  pose proof (Z.mod_pos_bound z (2 ^ 64)). lia.
Qed.

Lemma wrap_u64_small z : in_u64 z → wrap_u64 z = z.
Proof. unfold in_u64, wrap_u64, U64_MAX. intros. apply Z.mod_small. lia. Qed.

(** Congruence modulo [2^64], the equality of wrapping counters. *)
Definition eq64 (a b : Z) : Prop := wrap_u64 a = wrap_u64 b.

#[export] Instance eq64_equivalence : Equivalence eq64.
Proof.
  split; unfold eq64; [intros ?; done | intros ???; done | ].
  intros ????; congruence.
Qed.

#[export] Instance eq64_add_proper : Proper (eq64 ==> eq64 ==> eq64) Z.add.
Proof.
  unfold eq64, wrap_u64. intros a a' Ha b b' Hb.
  rewrite Z.add_mod, Ha, Hb, <- Z.add_mod; lia.
Qed.

Lemma eq64_of_eq a b : a = b → eq64 a b.
Proof. by intros ->. Qed.

Lemma eq64_shift a b c : eq64 a b → eq64 (a + c) (b + c).
Proof. intros H. by rewrite H. Qed.

Lemma wrap_u64_eq64 z : eq64 (wrap_u64 z) z.
Proof. unfold eq64, wrap_u64. apply Z.mod_mod. lia. Qed.

Lemma eq64_small a b : in_u64 a → in_u64 b → eq64 a b → a = b.
Proof. unfold eq64. intros Ha Hb. rewrite !wrap_u64_small; auto. Qed.

(** What every step keeps an execution keeps. *)
Lemma rtc_preserve {A} (R : relation A) (P : A → Prop) x y :
  (∀ x y, R x y → P x → P y) → rtc R x y → P x → P y.
Proof. intros Hs Hr. induction Hr; eauto. Qed.

(** ** Options and lists *)

(** [Option::unwrap_or_default] on strings and byte vectors. *)
Definition unwrap_str (o : option string) : string := default ""%string o.

(** [str::is_empty]. *)
Definition str_is_empty (s : string) : bool :=
  match s with EmptyString => true | _ => false end.

(** [<[T]>::is_empty]. *)
Definition vec_is_empty {A} (l : list A) : bool :=
  match l with [] => true | _ => false end.

Lemma str_is_empty_true s : str_is_empty s = true ↔ s = ""%string.
Proof. destruct s; simpl; split; congruence. Qed.

Lemma str_is_empty_false s : str_is_empty s = false ↔ s ≠ ""%string.
Proof. destruct s; simpl; split; congruence. Qed.

Lemma vec_is_empty_true {A} (l : list A) : vec_is_empty l = true ↔ l = [].
Proof. destruct l; simpl; split; congruence. Qed.

(** An execution that is known to end, named by its end. *)
Lemma some_default {A} (o : option A) (d : A) : bool_decide (is_Some o) = true → o = Some (default d o).
Proof. intros H. apply bool_decide_eq_true in H as [x ->]. done. Qed.

Lemma vec_is_empty_false {A} (l : list A) : vec_is_empty l = false ↔ l ≠ [].
Proof. destruct l; simpl; split; congruence. Qed.

(** How many elements satisfy a boolean predicate: [iter().filter(p).count()]. *)
Fixpoint count_if {A} (p : A → bool) (l : list A) : nat :=
  match l with
  | [] => 0
  | x :: l => (if p x then 1 else 0) + count_if p l
  end.

(** [iter().position(p)]. *)
Fixpoint position {A} (p : A → bool) (l : list A) : option nat :=
  match l with
  | [] => None
  | x :: l => if p x then Some 0 else S <$> position p l
  end.

(** [VecDeque::remove(i)]: the element at [i] and the rest, [None] when out of
    range. *)
Definition vec_remove {A} (i : nat) (l : list A) : option (A * list A) :=
  match l !! i with
  | Some x => Some (x, take i l ++ drop (S i) l)
  | None => None
  end.

Section count_if.
Context {A : Type} (p : A → bool).

Lemma count_if_app l1 l2 : count_if p (l1 ++ l2) = count_if p l1 + count_if p l2.
Proof. induction l1 as [|x l1 IH]; simpl; [done|]. rewrite IH. lia. Qed.

Lemma count_if_le_length l : count_if p l ≤ length l.
Proof. induction l as [|x l IH]; simpl; [done|]. case_match; lia. Qed.

Lemma count_if_negb l : count_if p l + count_if (λ x, negb (p x)) l = length l.
Proof. induction l as [|x l IH]; simpl; [done|]. destruct (p x); simpl; lia. Qed.

Lemma count_if_take_drop n l : count_if p (take n l) + count_if p (drop n l) = count_if p l.
Proof. rewrite <- count_if_app, take_drop. done. Qed.

Lemma count_if_pos_position l : 0 < count_if p l → is_Some (position p l).
Proof.
  induction l as [|x l IH]; simpl; [lia|].
  destruct (p x); [eauto|]. intros. destruct IH as [i ->]; [lia|]. simpl; eauto.
Qed.

Lemma position_split l i :
  position p l = Some i →
  ∃ l1 x l2, l = l1 ++ x :: l2 ∧ length l1 = i ∧ p x = true ∧
             Forall (λ y, p y = false) l1.
Proof.
  revert i; induction l as [|x l IH]; intros i; simpl; [done|].
  destruct (p x) eqn:Hx; [intros [= <-]; exists [], x, l; auto|].
  destruct (position p l) as [j|]; [|done]. intros [= <-].
  destruct (IH j) as (l1 & y & l2 & -> & <- & Hy & Hl1); [done|].
  exists (x :: l1), y, l2. simpl; auto.
Qed.

Lemma count_if_zero l : count_if p l = 0 ↔ Forall (λ y, p y = false) l.
Proof.
  induction l as [|x l IH]; simpl; [done|].
  rewrite Forall_cons, <- IH. destruct (p x); simpl; split; intros; [lia|naive_solver|auto with lia|naive_solver].
Qed.
End count_if.

(** Taking a list apart around one of its elements. *)
Lemma split_middle {A} (l1 : list A) x l2 :
  take (length l1) (l1 ++ x :: l2) = l1 ∧
  drop (S (length l1)) (l1 ++ x :: l2) = l2 ∧
  (l1 ++ x :: l2) !! length l1 = Some x.
Proof.
  split_and!; [apply take_app_length| |by apply list_lookup_middle].
  rewrite drop_app_ge by lia. by replace (S (length l1) - length l1) with 1 by lia.
Qed.

Lemma vec_remove_middle {A} (l1 : list A) x l2 :
  vec_remove (length l1) (l1 ++ x :: l2) = Some (x, l1 ++ l2).
Proof. unfold vec_remove. destruct (split_middle l1 x l2) as (-> & -> & ->). done. Qed.

Lemma vec_remove_0 {A} (x : A) l : vec_remove 0 (x :: l) = Some (x, l).
Proof. done. Qed.

(** ** Automation *)

(** Case analysis on every [match] and [if] of the goal and hypotheses. *)
Ltac break :=
  repeat (case_match; simplify_eq/=; try done).

Create HintDb cpc discriminated.
#[export] Hint Resolve wrap_u64_range : cpc.
#[export] Hint Resolve count_if_le_length : cpc.
