(* ===== verification/Time.v ===== *)
(** * Time values

    [std::time::Duration], [chrono::DateTime<Utc>] and the protobuf
    [Timestamp], as far as the client computes with them.  A [Duration] is its
    number of nanoseconds, between [0] and [Duration::MAX]. *)

From stdpp Require Import base list.
From Stdlib Require Import ZArith Lia.
From S2P Require Import Prelude.

Local Open Scope Z_scope.

(** ** [Duration] *)

Definition Duration : Type := Z.

Definition NANOS_PER_SEC : Z := 1000000000.
Definition NANOS_PER_MILLI : Z := 1000000.

(** [Duration::MAX]: [u64::MAX] seconds and 999 999 999 nanoseconds. *)
Definition DURATION_MAX : Duration := U64_MAX * NANOS_PER_SEC + 999999999.

Definition in_duration (d : Duration) : Prop := 0 ≤ d ≤ DURATION_MAX.

Definition from_secs (s : Z) : Duration := s * NANOS_PER_SEC.
Definition from_millis (ms : Z) : Duration := ms * NANOS_PER_MILLI.
Definition as_secs (d : Duration) : Z := d / NANOS_PER_SEC.
Definition subsec_nanos (d : Duration) : Z := d mod NANOS_PER_SEC.
Definition as_millis (d : Duration) : Z := d / NANOS_PER_MILLI.

(** [Duration::saturating_mul]. *)
Definition dur_saturating_mul (d : Duration) (k : Z) : Duration :=
  Z.min DURATION_MAX (d * k).

(** [Duration + Duration], which panics ([None]) past [Duration::MAX]. *)
Definition dur_add (d1 d2 : Duration) : option Duration :=
  if d1 + d2 <=? DURATION_MAX then Some (d1 + d2) else None.

(** ** [DateTime<Utc>] *)

(** Seconds since the epoch and the nanoseconds within the second. *)
Record DateTime := mkDateTime { timestamp_secs : Z; timestamp_subsec_nanos : Z }.

Definition dt_leb (a b : DateTime) : bool :=
  (timestamp_secs a <? timestamp_secs b) ||
  ((timestamp_secs a =? timestamp_secs b) &&
   (timestamp_subsec_nanos a <=? timestamp_subsec_nanos b)).

(** [Ord::min]: the first argument when the two compare equal. *)
Definition dt_min (a b : DateTime) : DateTime := if dt_leb a b then a else b.

(** ** [prost_types::Timestamp] *)
Record Timestamp := mkTimestamp { seconds : Z; nanos : Z }.

#[export] Instance DateTime_eq_dec : EqDecision DateTime.
Proof. solve_decision. Defined.

#[export] Instance Timestamp_eq_dec : EqDecision Timestamp.
Proof. solve_decision. Defined.

Lemma dt_leb_refl a : dt_leb a a = true.
Proof. unfold dt_leb. rewrite Z.ltb_irrefl, Z.eqb_refl, Z.leb_refl. done. Qed.

Lemma dt_min_id a : dt_min a a = a.
Proof. unfold dt_min. by rewrite dt_leb_refl. Qed.

Lemma dt_min_l a b : dt_leb a b = true → dt_min a b = a.
Proof. unfold dt_min. by intros ->. Qed.

Lemma dt_min_le_r a b : dt_leb (dt_min a b) b = true.
Proof.
  unfold dt_min. destruct (dt_leb a b) eqn:E; [done|]. apply dt_leb_refl.
Qed.

Lemma dt_min_le_l a b : dt_leb (dt_min a b) a = true.
Proof.
  unfold dt_min. destruct (dt_leb a b) eqn:E; [apply dt_leb_refl|].
  unfold dt_leb in *. lia.
Qed.

(** A duration splits into its seconds and its sub-second nanoseconds. *)
Lemma duration_split d : d = from_secs (as_secs d) + subsec_nanos d.
Proof.
  unfold from_secs, as_secs, subsec_nanos, NANOS_PER_SEC.
  pose proof (Z.div_mod d 1000000000). lia.
Qed.

Lemma as_secs_range d : in_duration d → in_u64 (as_secs d).
Proof.
  unfold in_duration, DURATION_MAX, in_u64, as_secs, NANOS_PER_SEC, U64_MAX.
  intros H. split; [apply Z.div_pos; lia|].
  assert (d / 1000000000 < 2 ^ 64); [|lia]. apply Z.div_lt_upper_bound; lia.
Qed.

Lemma dur_saturating_mul_range d k :
  in_duration d → 0 ≤ k → in_duration (dur_saturating_mul d k).
Proof.
  unfold in_duration, dur_saturating_mul. intros [? ?] ?.
  split; [|lia]. apply Z.min_glb; [|nia].
  unfold DURATION_MAX, U64_MAX, NANOS_PER_SEC. lia.
Qed.

#[export] Hint Resolve dt_leb_refl as_secs_range dur_saturating_mul_range : cpc.
