(* ===== verification/BTree.v ===== *)
(** * [std::collections::BTreeMap]

    An ordered map as the list of its entries in strictly increasing key
    order, which is also the order [into_iter] yields them in.  The client uses
    one operation that changes it: [entry(k).or_default()] followed by an
    update of the value in place. *)

From stdpp Require Import base list strings sorting.
From Stdlib Require Import ZArith Lia.
From S2P Require Import Prelude.

(** What [Ord] promises of a key type. *)
Class KeyOrder (K : Type) := {
  key_ltb : K → K → bool;
  key_ltb_irrefl k : key_ltb k k = false;
  key_ltb_trans a b c : key_ltb a b = true → key_ltb b c = true → key_ltb a c = true;
  key_ltb_total a b : key_ltb a b = true ∨ a = b ∨ key_ltb b a = true
}.

Section BTreeMap.
Context {K V : Type} `{!EqDecision K, !KeyOrder K}.
Implicit Types (m : list (K * V)) (k : K) (v : V).

(** [get]. *)
Fixpoint bt_lookup k m : option V :=
  match m with
  | [] => None
  | (k', v) :: m => if decide (k = k') then Some v else bt_lookup k m
  end.

(** [*entry(k).or_default() = f(..)]: update in place, or insert the updated
    default at the key's position. *)
Fixpoint bt_entry_update (d : V) (f : V → V) k m : list (K * V) :=
  match m with
  | [] => [(k, f d)]
  | (k', v) :: m' =>
      if decide (k = k') then (k', f v) :: m'
      else if key_ltb k k' then (k, f d) :: m
      else (k', v) :: bt_entry_update d f k m'
  end.

(** Keys strictly increase. *)
Fixpoint bt_sorted m : Prop :=
  match m with
  | [] => True
  | (k, _) :: m => Forall (λ e, key_ltb k e.1 = true) m ∧ bt_sorted m
  end.

Lemma bt_lookup_entry_update_eq d f k m :
  bt_sorted m →
  bt_lookup k (bt_entry_update d f k m) = Some (f (default d (bt_lookup k m))).
Proof.
  induction m as [|[k' v] m IH]; simpl; [by rewrite decide_True by done|].
  intros [Hlt Hs]. destruct (decide (k = k')) as [->|Hne]; simpl.
  { by rewrite decide_True by done. }
  destruct (key_ltb k k') eqn:Hk; simpl.
  - rewrite decide_True by done.
    assert (bt_lookup k m = None) as ->; [|done].
    clear IH Hs. induction m as [|[k2 v2] m IH]; [done|]. simpl.
    apply Forall_cons in Hlt as [H2 Hlt]. simpl in *.
    rewrite decide_False; [auto|]. intros ->.
    pose proof (key_ltb_trans _ _ _ Hk H2) as Hc. by rewrite key_ltb_irrefl in Hc.
  - rewrite decide_False by done. auto.
Qed.

Lemma bt_lookup_entry_update_ne d f k k' m :
  k ≠ k' → bt_lookup k' (bt_entry_update d f k m) = bt_lookup k' m.
Proof.
  intros Hne. induction m as [|[k2 v] m IH]; simpl.
  { by rewrite decide_False by done. }
  destruct (decide (k = k2)) as [->|]; simpl; [by rewrite !decide_False by done|].
  destruct (key_ltb k k2); simpl; [by rewrite decide_False by done|].
  by rewrite IH.
Qed.

Lemma bt_entry_update_Forall (P : K * V → Prop) d f k m :
  Forall P m → P (k, f d) → (∀ v, (k, v) ∈ m → P (k, v) → P (k, f v)) →
  Forall P (bt_entry_update d f k m).
Proof.
  intros Hm Hd Hf. induction m as [|[k' v] m IH]; simpl; [auto|].
  apply Forall_cons in Hm as [Hv Hm]. destruct (decide (k = k')) as [->|].
  { constructor; [apply Hf; [left|]; done|done]. }
  case_match; [auto|]. constructor; [done|]. apply IH; [done|].
  intros w Hw. apply Hf. by right.
Qed.

Lemma bt_entry_update_sorted d f k m :
  bt_sorted m → bt_sorted (bt_entry_update d f k m).
Proof.
  induction m as [|[k' v] m IH]; simpl; [auto|]. intros [Hlt Hs].
  destruct (decide (k = k')) as [->|Hne]; simpl; [done|].
  destruct (key_ltb k k') eqn:Hk; simpl.
  - split; [|done]. constructor; [done|].
    eapply Forall_impl; [exact Hlt|]. simpl. eauto using key_ltb_trans.
  - split; [|auto].
    apply (bt_entry_update_Forall (λ e, key_ltb k' e.1 = true)); [done| |done].
    destruct (key_ltb_total k k') as [?|[?|?]]; simpl; congruence.
Qed.

Lemma bt_entry_update_nonempty d f k m : bt_entry_update d f k m ≠ [].
Proof. destruct m as [|[k' v] m]; simpl; [done|]. break. Qed.

(** Updating a key past every present one appends its entry. *)
Lemma bt_entry_update_snoc d f k m :
  Forall (λ e, key_ltb e.1 k = true) m →
  bt_entry_update d f k m = m ++ [(k, f d)].
Proof.
  induction m as [|[k' v] m IH]; simpl; [done|].
  intros [Hk' Hm]%Forall_cons. simpl in Hk'.
  rewrite decide_False by (intros ->; rewrite key_ltb_irrefl in Hk'; done).
  destruct (key_ltb k k') eqn:E.
  { pose proof (key_ltb_trans _ _ _ Hk' E) as Hc. by rewrite key_ltb_irrefl in Hc. }
  by rewrite IH.
Qed.

Lemma bt_sorted_app_inv m1 e m2 :
  bt_sorted (m1 ++ e :: m2) → Forall (λ e', key_ltb e'.1 e.1 = true) m1.
Proof.
  induction m1 as [|[k v] m1 IH]; simpl; [done|]. intros [Hlt Hs].
  apply Forall_app in Hlt as [_ [He _]%Forall_cons]. constructor; auto.
Qed.
End BTreeMap.

(** ** The order of [(String, String)]: bytewise, first component first *)

Lemma string_compare_lt_trans (a b c : string) :
  String.compare a b = Lt → String.compare b c = Lt → String.compare a c = Lt.
Proof.
  intros Hab Hbc.
  assert (String.le a c) as Hac.
  { etrans; [|instantiate (1 := b)];
      unfold String.le, String.leb; [by rewrite Hab|by rewrite Hbc]. }
  unfold String.le, String.leb in Hac.
  destruct (String.compare a c) eqn:E; [|done|done].
  apply String.compare_eq_iff in E as ->.
  rewrite String.compare_antisym, Hbc in Hab. done.
Qed.

Definition string_pair_ltb (a b : string * string) : bool :=
  match String.compare a.1 b.1 with
  | Lt => true
  | Gt => false
  | Eq => match String.compare a.2 b.2 with Lt => true | _ => false end
  end.

Lemma string_compare_refl (s : string) : String.compare s s = Eq.
Proof.
  induction s as [|a s IH]; simpl; [done|].
  unfold Ascii.compare. by rewrite N.compare_refl.
Qed.

#[export] Program Instance string_pair_order : KeyOrder (string * string) := {
  key_ltb := string_pair_ltb
}.
Next Obligation.
  intros [a b]. unfold string_pair_ltb; simpl. by rewrite !string_compare_refl.
Qed.
Next Obligation.
  intros [a1 a2] [b1 b2] [c1 c2]. unfold string_pair_ltb; simpl.
  destruct (String.compare a1 b1) eqn:E1; [|intros _|done].
  - apply String.compare_eq_iff in E1 as ->.
    destruct (String.compare b1 c1) eqn:E2; [|done..].
    destruct (String.compare a2 b2) eqn:E3; [done| |done]. intros _.
    destruct (String.compare b2 c2) eqn:E4; [done| |done].
    by rewrite (string_compare_lt_trans _ _ _ E3 E4).
  - destruct (String.compare b1 c1) eqn:E2; [|intros _|done].
    + apply String.compare_eq_iff in E2 as ->. by rewrite E1.
    + by rewrite (string_compare_lt_trans _ _ _ E1 E2).
Qed.
Next Obligation.
  intros [a1 a2] [b1 b2]. unfold string_pair_ltb; simpl.
  rewrite (String.compare_antisym b1), (String.compare_antisym b2).
  destruct (String.compare a1 b1) eqn:E1; simpl; [|auto..].
  apply String.compare_eq_iff in E1 as ->.
  destruct (String.compare a2 b2) eqn:E2; simpl; [|auto..].
  apply String.compare_eq_iff in E2 as ->. auto.
Qed.

#[export] Hint Resolve bt_entry_update_sorted : cpc.
