(* ===== verification/Proto.v ===== *)
(** * Outbound wire messages

    The shapes of the [mcpg.cp.v1] messages the agent sends, with the fields the
    client's exhaustive struct literals name.  The messages are declared by the
    [mcpg-control-plane-core] crate; nothing of their encoding is modelled, and
    the integer an enum value travels as is a parameter of the definitions that
    need it. *)

From stdpp Require Import base list strings.
From Stdlib Require Import ZArith SpecFloat.
From Stdlib.Strings Require Byte.
From S2P Require Import Prelude Time.

Abbreviation byte := Byte.byte.
Abbreviation bytes := (list Byte.byte).

#[export] Instance byte_eq_dec : EqDecision byte := Byte.byte_eq_dec.

(** [ToolOutcome], the variants [SampleOutcome::to_proto] names. *)
Inductive ToolOutcome :=
| ToolOk | ToolClientError | ToolServerError | ToolPolicyDenied
| ToolQuotaExceeded | ToolIdempotentReplay.

(** [LogLevel] of the protocol, the variants [LogLevel::to_proto] names. *)
Inductive ProtoLevel :=
| ProtoTrace | ProtoDebug | ProtoInfo | ProtoWarn | ProtoError.

Record ToolInvocationSample := {
  tis_plugin_id : string;
  tis_tool_name : string;
  tis_binding_id : string;
  tis_started_at : option Timestamp;
  tis_duration_ms : Z;
  tis_outcome : Z;
  tis_error_code : string;
  tis_error_hash : string;
  tis_request_id : string;
  tis_caller_subject : string;
  tis_request_payload : bytes;
  tis_response_payload : bytes;
  tis_payload_encrypted : bool;
  tis_dek_version : Z
}.

Record EventUsageSample := {
  eus_event_name : string;
  eus_mode : string;
  eus_delivered : Z;
  eus_abandoned : Z;
  eus_ingested : Z;
  eus_bytes : Z;
  eus_window_start : option Timestamp;
  eus_window_end : option Timestamp
}.

Record MetricsReport := {
  mr_at : option Timestamp;
  mr_seq : Z;
  mr_invocations : list ToolInvocationSample;
  mr_dropped_overflow : Z;
  mr_dropped_non_billable : Z;
  mr_events : list EventUsageSample
}.

Record LogLine := {
  ll_at : option Timestamp;
  ll_level : Z;
  ll_target : string;
  ll_message : string;
  ll_plugin_id : string
}.

Record LogBatch := {
  lb_at : option Timestamp;
  lb_seq : Z;
  lb_lines : list LogLine;
  lb_dropped_overflow : Z
}.

Record PluginStatus := {
  ps_id : string;
  ps_version : string;
  ps_state : string;
  ps_error : string;
  ps_invocations : Z
}.

Record ClusterStatus := {
  cs_kind : string;
  cs_backend_up : option bool;
  cs_peers : option Z
}.

Record DeliveryRefusal := { dr_reason : string; dr_proof_kid : string }.

(** [resources] is always unset by this client, so its type is left out. *)
Record StatusReport := {
  sr_at : option Timestamp;
  sr_config_hash : string;
  sr_plugins : list PluginStatus;
  sr_resources : option unit;
  sr_warnings : list string;
  sr_cluster : option ClusterStatus;
  sr_secrets_digest : string;
  sr_delivery_refusal : option DeliveryRefusal
}.

Record Heartbeat := {
  hb_at : option Timestamp;
  hb_seq : Z;
  hb_health : string;
  hb_active_connections : Z;
  hb_cpu_load_avg : spec_float;
  hb_memory_rss_bytes : Z
}.

Record ConfigAck := {
  ca_config_hash : string;
  ca_applied_at : option Timestamp;
  ca_applied_state : string;
  ca_error : string
}.

(** The kinds of [AgentMessage] this client sends. *)
Inductive AgentKind :=
| KHeartbeat (h : Heartbeat)
| KMetricsReport (r : MetricsReport)
| KLogBatch (b : LogBatch)
| KStatusReport (r : StatusReport)
| KConfigAck (a : ConfigAck).

Record AgentMessage := { kind : option AgentKind }.
