(* ===== verification/Metrics.v ===== *)
(** * The metrics lane: [src/metrics.rs]

    The bounded ring of tool-call samples, its drop policy and counters, the
    MCP Events rollup, the drain/requeue pair the flush task uses, and the wire
    message built from a drained batch.  The buffer is one shared object behind
    an [Arc]: its state is the record [Inner], and every operation takes the
    ring's lock for its whole body, so each is one atomic step on [Inner]. *)

From stdpp Require Import base list strings.
From Stdlib Require Import ZArith Lia.
From S2P Require Import Prelude Time BTree Proto.

(** ** Constants *)

Definition DEFAULT_BUFFER_CAP : nat := Z.to_nat 5000.
Definition DEFAULT_BATCH_CAP : nat := Z.to_nat 500.
Definition EARLY_FLUSH_SPACING : Duration := from_secs 1.
Definition DEFAULT_FLUSH_INTERVAL : Duration := from_secs 30.

(** ** Samples *)

Module SampleOutcome.
(** The outcome of a tool call. *)
Inductive SampleOutcome :=
| Ok | ClientError | ServerError | PolicyDenied | QuotaExceeded | IdempotentReplay.

#[export] Instance SampleOutcome_eq_dec : EqDecision SampleOutcome.
Proof. solve_decision. Defined.

(** [SampleOutcome::is_billable]. *)
Definition is_billable (o : SampleOutcome) : bool :=
  negb (match o with
        | PolicyDenied | QuotaExceeded | IdempotentReplay => true
        | _ => false
        end).

(** [SampleOutcome::to_proto]. *)
Definition to_proto (o : SampleOutcome) : ToolOutcome :=
  match o with
  | Ok => ToolOk
  | ClientError => ToolClientError
  | ServerError => ToolServerError
  | PolicyDenied => ToolPolicyDenied
  | QuotaExceeded => ToolQuotaExceeded
  | IdempotentReplay => ToolIdempotentReplay
  end.
End SampleOutcome.

Abbreviation SampleOutcome := SampleOutcome.SampleOutcome.
Abbreviation is_billable := SampleOutcome.is_billable.

Record ToolCallSample := {
  plugin_id : string;
  tool_name : string;
  binding_id : option string;
  started_at : DateTime;
  duration : Duration;
  outcome : SampleOutcome;
  error_code : option string;
  error_hash : option string;
  request_id : option string;
  caller_subject : option string;
  request_payload : option bytes;
  response_payload : option bytes;
  payload_encrypted : bool;
  dek_version : Z
}.

(** The two halves of [ring.samples] by billability. *)
Definition billable (s : ToolCallSample) : bool := is_billable (outcome s).
Definition non_billable_sample (s : ToolCallSample) : bool := negb (billable s).

(** ** MCP Events rollup *)

Record EventCounts := { delivered : Z; abandoned : Z; ingested : Z; ec_bytes : Z }.

Definition EventCounts_default : EventCounts :=
  {| delivered := 0; abandoned := 0; ingested := 0; ec_bytes := 0 |}.

#[export] Instance EventCounts_eq_dec : EqDecision EventCounts.
Proof. solve_decision. Defined.

(** [EventCounts::add]: every counter saturates. *)
Definition EventCounts_add (self other : EventCounts) : EventCounts :=
  {| delivered := saturating_add_u64 (delivered self) (delivered other);
     abandoned := saturating_add_u64 (abandoned self) (abandoned other);
     ingested := saturating_add_u64 (ingested self) (ingested other);
     ec_bytes := saturating_add_u64 (ec_bytes self) (ec_bytes other) |}.

Record EventsRollup := {
  since : option DateTime;
  counts : list ((string * string) * EventCounts)
}.

Definition EventsRollup_default : EventsRollup := {| since := None; counts := [] |}.

Record EventUsage := {
  event_name : string;
  mode : string;
  eu_counts : EventCounts;
  window_start : DateTime;
  window_end : DateTime
}.

(** ** The ring *)

Record Ring := { samples : list ToolCallSample; non_billable : nat }.

(** [usize::from(!sample.outcome.is_billable())]. *)
Definition non_billable_weight (s : ToolCallSample) : nat :=
  if non_billable_sample s then 1 else 0.

Definition Ring_push_back (r : Ring) (s : ToolCallSample) : Ring :=
  {| samples := samples r ++ [s];
     non_billable := non_billable r + non_billable_weight s |}.

Definition Ring_push_front (r : Ring) (s : ToolCallSample) : Ring :=
  {| samples := s :: samples r;
     non_billable := non_billable r + non_billable_weight s |}.

(** [Ring::remove]: the saturating subtraction is [Nat.sub]. *)
Definition Ring_remove (r : Ring) (at_ : nat) : option (ToolCallSample * Ring) :=
  match vec_remove at_ (samples r) with
  | Some (s, rest) =>
      Some (s, {| samples := rest;
                  non_billable := non_billable r - non_billable_weight s |})
  | None => None
  end.

(** ** The shared buffer *)

Record Inner := {
  buf : Ring;
  cap : nat;
  batch_cap : nat;
  flush_early_at : nat;
  (** Whether [flush_early] holds a permit: [notify_one] stores at most one. *)
  flush_early : bool;
  dropped_overflow : Z;
  dropped_non_billable : Z;
  seq : Z;
  events : EventsRollup
}.

Definition set_buf (b : Inner) (r : Ring) : Inner :=
  {| buf := r; cap := cap b; batch_cap := batch_cap b;
     flush_early_at := flush_early_at b; flush_early := flush_early b;
     dropped_overflow := dropped_overflow b;
     dropped_non_billable := dropped_non_billable b;
     seq := seq b; events := events b |}.

Definition set_flush_early (b : Inner) (p : bool) : Inner :=
  {| buf := buf b; cap := cap b; batch_cap := batch_cap b;
     flush_early_at := flush_early_at b; flush_early := p;
     dropped_overflow := dropped_overflow b;
     dropped_non_billable := dropped_non_billable b;
     seq := seq b; events := events b |}.

Definition set_dropped (b : Inner) (o n : Z) : Inner :=
  {| buf := buf b; cap := cap b; batch_cap := batch_cap b;
     flush_early_at := flush_early_at b; flush_early := flush_early b;
     dropped_overflow := o; dropped_non_billable := n;
     seq := seq b; events := events b |}.

Definition set_seq (b : Inner) (s : Z) : Inner :=
  {| buf := buf b; cap := cap b; batch_cap := batch_cap b;
     flush_early_at := flush_early_at b; flush_early := flush_early b;
     dropped_overflow := dropped_overflow b;
     dropped_non_billable := dropped_non_billable b;
     seq := s; events := events b |}.

Definition set_events (b : Inner) (e : EventsRollup) : Inner :=
  {| buf := buf b; cap := cap b; batch_cap := batch_cap b;
     flush_early_at := flush_early_at b; flush_early := flush_early b;
     dropped_overflow := dropped_overflow b;
     dropped_non_billable := dropped_non_billable b;
     seq := seq b; events := e |}.

(** A drained batch, and [Drained::is_empty]. *)
Record Drained := {
  d_samples : list ToolCallSample;
  d_dropped_overflow : Z;
  d_dropped_non_billable : Z;
  d_seq : Z;
  d_events : list EventUsage
}.

Definition Drained_is_empty (d : Drained) : bool :=
  vec_is_empty (d_samples d) &&
  (d_dropped_overflow d =? 0)%Z &&
  (d_dropped_non_billable d =? 0)%Z &&
  vec_is_empty (d_events d).

(** [MetricsBuffer::with_caps] and [MetricsBuffer::new]. *)
Definition with_caps (cap_ batch_cap_ : nat) : Inner :=
  {| buf := {| samples := []; non_billable := 0 |};
     cap := cap_; batch_cap := batch_cap_;
     flush_early_at := (cap_ - cap_ / 5) `max` 1;
     flush_early := false;
     dropped_overflow := 0; dropped_non_billable := 0; seq := 0;
     events := EventsRollup_default |}.

Definition MetricsBuffer_new : Inner := with_caps DEFAULT_BUFFER_CAP DEFAULT_BATCH_CAP.

(** [events.counts.entry((name, mode)).or_default().add(counts)]. *)
Definition rollup_add (key : string * string) (c : EventCounts)
    (m : list ((string * string) * EventCounts)) : list ((string * string) * EventCounts) :=
  bt_entry_update EventCounts_default (λ old, EventCounts_add old c) key m.

(** [MetricsBuffer::record_events], called at time [now]. *)
Definition record_events (now : DateTime) (name mode_ : string) (c : EventCounts)
    (b : Inner) : Inner :=
  if decide (c = EventCounts_default) then b
  else
    let since' := match since (events b) with Some t => Some t | None => Some now end in
    set_events b {| since := since'; counts := rollup_add (name, mode_) c (counts (events b)) |}.

(** [MetricsBuffer::count_drop]: the counters wrap ([AtomicU64::fetch_add]). *)
Definition count_drop (o : SampleOutcome) (b : Inner) : Inner :=
  if is_billable o
  then set_dropped b (wrap_u64 (dropped_overflow b + 1)) (dropped_non_billable b)
  else set_dropped b (dropped_overflow b) (wrap_u64 (dropped_non_billable b + 1)).

(** [MetricsBuffer::record]. *)
Definition record (sample : ToolCallSample) (b : Inner) : Inner :=
  let buffered := length (samples (buf b)) in
  let b := if flush_early_at b <=? buffered + 1 then set_flush_early b true else b in
  if cap b <=? buffered then
    if negb (is_billable (outcome sample)) then count_drop (outcome sample) b
    else
      let victim :=
        if 0 <? non_billable (buf b)
        then default 0 (position (λ s, negb (is_billable (outcome s))) (samples (buf b)))
        else 0 in
      let b :=
        match Ring_remove (buf b) victim with
        | Some (dropped, ring) => count_drop (outcome dropped) (set_buf b ring)
        | None => b
        end in
      set_buf b (Ring_push_back (buf b) sample)
  else set_buf b (Ring_push_back (buf b) sample).

(** [MetricsBuffer::drain], called at time [now]. *)
Definition drain (now : DateTime) (b : Inner) : Drained * Inner :=
  let ring := buf b in
  let n := length (samples ring) `min` batch_cap b in
  let drained := take n (samples ring) in
  let drained_non_billable := count_if (λ s, negb (is_billable (outcome s))) drained in
  let ring' := {| samples := drop n (samples ring);
                  non_billable := non_billable ring - drained_non_billable |} in
  let rollup := events b in
  let window_end_ := now in
  let window_start_ := default window_end_ (since rollup) in
  let evs := map (λ '((name, mode_), c),
                   {| event_name := name; mode := mode_; eu_counts := c;
                      window_start := window_start_; window_end := window_end_ |})
                 (counts rollup) in
  ({| d_samples := drained;
      d_dropped_overflow := dropped_overflow b;
      d_dropped_non_billable := dropped_non_billable b;
      d_seq := wrap_u64 (seq b + 1);
      d_events := evs |},
   set_events (set_seq (set_dropped (set_buf b ring') 0 0) (wrap_u64 (seq b + 1)))
              EventsRollup_default).

(** One sample of [requeue_front]'s reversed loop. *)
Definition requeue_sample (s : ToolCallSample) (b : Inner) : Inner :=
  if cap b <=? length (samples (buf b))
  then count_drop (outcome s) b
  else set_buf b (Ring_push_front (buf b) s).

(** One usage row of [requeue_front]'s second loop. *)
Definition requeue_usage (r : EventsRollup) (u : EventUsage) : EventsRollup :=
  let s := default (window_start u) (since r) in
  {| since := Some (dt_min s (window_start u));
     counts := rollup_add (event_name u, mode u) (eu_counts u) (counts r) |}.

(** [MetricsBuffer::requeue_front]. *)
Definition requeue_front (batch : Drained) (b : Inner) : Inner :=
  let b := fold_left (λ b s, requeue_sample s b) (rev (d_samples batch)) b in
  let b := set_dropped b (wrap_u64 (dropped_overflow b + d_dropped_overflow batch))
                         (wrap_u64 (dropped_non_billable b + d_dropped_non_billable batch)) in
  set_events b (fold_left requeue_usage (d_events batch) (events b)).

(** [MetricsBuffer::buffered]. *)
Definition buffered (b : Inner) : nat := length (samples (buf b)).

(** ** The wire message *)

(** [timestamp] of metrics.rs. *)
Definition timestamp (at_ : DateTime) : Timestamp :=
  {| seconds := timestamp_secs at_; nanos := timestamp_subsec_nanos at_ |}.

Section Wire.
(** [ToolOutcome as i32]: the enum numbering of the protocol crate. *)
Context (tool_outcome_i32 : ToolOutcome → Z).

(** The closure [batch_to_message] maps over the samples. *)
Definition sample_to_wire (s : ToolCallSample) : ToolInvocationSample :=
  {| tis_plugin_id := plugin_id s;
     tis_tool_name := tool_name s;
     tis_binding_id := unwrap_str (binding_id s);
     tis_started_at := Some {| seconds := timestamp_secs (started_at s);
                               nanos := timestamp_subsec_nanos (started_at s) |};
     tis_duration_ms := Z.min (as_millis (duration s)) U32_MAX;
     tis_outcome := tool_outcome_i32 (SampleOutcome.to_proto (outcome s));
     tis_error_code := unwrap_str (error_code s);
     tis_error_hash := unwrap_str (error_hash s);
     tis_request_id := unwrap_str (request_id s);
     tis_caller_subject := unwrap_str (caller_subject s);
     tis_request_payload := default [] (request_payload s);
     tis_response_payload := default [] (response_payload s);
     tis_payload_encrypted := payload_encrypted s;
     tis_dek_version := if payload_encrypted s then dek_version s else 0 |}.

(** The closure [batch_to_message] maps over the usage rows. *)
Definition usage_to_wire (u : EventUsage) : EventUsageSample :=
  {| eus_event_name := event_name u;
     eus_mode := mode u;
     eus_delivered := delivered (eu_counts u);
     eus_abandoned := abandoned (eu_counts u);
     eus_ingested := ingested (eu_counts u);
     eus_bytes := ec_bytes (eu_counts u);
     eus_window_start := Some (timestamp (window_start u));
     eus_window_end := Some (timestamp (window_end u)) |}.

(** [batch_to_message], called at second [now] of the epoch. *)
Definition batch_to_message (now : Z) (batch : Drained) : option AgentMessage :=
  if Drained_is_empty batch then None
  else Some {| kind := Some (KMetricsReport {|
         mr_at := Some {| seconds := now; nanos := 0 |};
         mr_seq := d_seq batch;
         mr_invocations := map sample_to_wire (d_samples batch);
         mr_dropped_overflow := d_dropped_overflow batch;
         mr_dropped_non_billable := d_dropped_non_billable batch;
         mr_events := map usage_to_wire (d_events batch) |}) |}.
End Wire.

(** [MetricsBuffer::hash_error], over BLAKE3's hex digest. *)
Definition hash_error (blake3_hex : string → string) (msg : string) : option string :=
  if str_is_empty msg then None else Some (blake3_hex msg).

(** ** Invariant *)

Record EventCounts_wf (c : EventCounts) : Prop := {
  ecw_delivered : in_u64 (delivered c);
  ecw_abandoned : in_u64 (abandoned c);
  ecw_ingested : in_u64 (ingested c);
  ecw_bytes : in_u64 (ec_bytes c)
}.

(** The rollup: keys sorted, counters in range, and a window opened exactly
    when something was counted. *)
Record EventsRollup_wf (r : EventsRollup) : Prop := {
  rw_sorted : bt_sorted (counts r);
  rw_counts : Forall (λ e, EventCounts_wf e.2) (counts r);
  rw_since : since r = None ↔ counts r = []
}.

(** The buffer: it never exceeds its cap (a cap of zero still holds one
    sample), [non_billable] counts the non-billable samples, the counters are
    in range. *)
Record Inner_wf (b : Inner) : Prop := {
  iw_len : length (samples (buf b)) ≤ cap b `max` 1;
  iw_non_billable : non_billable (buf b) = count_if non_billable_sample (samples (buf b));
  iw_dropped_overflow : in_u64 (dropped_overflow b);
  iw_dropped_non_billable : in_u64 (dropped_non_billable b);
  iw_seq : in_u64 (seq b);
  iw_events : EventsRollup_wf (events b)
}.

(** A batch that can come back: its counts are in range. *)
Record Drained_wf (d : Drained) : Prop := {
  dw_dropped_overflow : in_u64 (d_dropped_overflow d);
  dw_dropped_non_billable : in_u64 (d_dropped_non_billable d);
  dw_events : Forall (λ u, EventCounts_wf (eu_counts u)) (d_events d)
}.

(** ** The drop policy as a specification on plain lists *)

(** What recording [s] into a buffer holding [l] keeps, and what it drops. *)
Definition spec_record (cap_ : nat) (s : ToolCallSample) (l : list ToolCallSample) :
    list ToolCallSample * option ToolCallSample :=
  if length l <? cap_ then (l ++ [s], None)
  else if non_billable_sample s then (l, Some s)
  else match position non_billable_sample l with
       | Some i => (take i l ++ drop (S i) l ++ [s], l !! i)
       | None => match l with
                 | [] => ([s], None)
                 | oldest :: l' => (l' ++ [s], Some oldest)
                 end
       end.

(** How a drop moves the two counters. *)
Definition spec_count (d : option ToolCallSample) (c : Z * Z) : Z * Z :=
  match d with
  | None => c
  | Some s => if billable s then (wrap_u64 (c.1 + 1), c.2) else (c.1, wrap_u64 (c.2 + 1))
  end.

(** ** What an operation owes the ledger *)

Definition ledger_billable (b : Inner) : Z :=
  Z.of_nat (count_if billable (samples (buf b))) + dropped_overflow b.
Definition ledger_non_billable (b : Inner) : Z :=
  Z.of_nat (count_if non_billable_sample (samples (buf b))) + dropped_non_billable b.
Definition batch_billable (d : Drained) : Z :=
  Z.of_nat (count_if billable (d_samples d)) + d_dropped_overflow d.
Definition batch_non_billable (d : Drained) : Z :=
  Z.of_nat (count_if non_billable_sample (d_samples d)) + d_dropped_non_billable d.
