(* ===== verification/MetricsFacts.v ===== *)
(** * Properties of the metrics buffer

    The invariant of [Inner] and its preservation, the drop policy as a
    refinement of [spec_record], exactness of the drop counters (the ledger),
    and the drain/requeue round trip. *)

From stdpp Require Import base list strings.
From Stdlib Require Import ZArith Lia.
From S2P Require Import Prelude Time BTree Proto Metrics.

(** ** Projections of the setters *)

Lemma count_drop_proj o b :
  buf (count_drop o b) = buf b ∧ cap (count_drop o b) = cap b ∧
  batch_cap (count_drop o b) = batch_cap b ∧ seq (count_drop o b) = seq b ∧
  flush_early_at (count_drop o b) = flush_early_at b ∧
  flush_early (count_drop o b) = flush_early b ∧ events (count_drop o b) = events b.
Proof. unfold count_drop. by case_match. Qed.

Lemma count_drop_counters s b :
  (dropped_overflow (count_drop (outcome s) b), dropped_non_billable (count_drop (outcome s) b)) =
  spec_count (Some s) (dropped_overflow b, dropped_non_billable b).
Proof. unfold count_drop, spec_count, billable. by case_match. Qed.

Lemma Inner_ext b1 b2 :
  samples (buf b1) = samples (buf b2) → non_billable (buf b1) = non_billable (buf b2) →
  cap b1 = cap b2 → batch_cap b1 = batch_cap b2 →
  flush_early_at b1 = flush_early_at b2 → flush_early b1 = flush_early b2 →
  dropped_overflow b1 = dropped_overflow b2 →
  dropped_non_billable b1 = dropped_non_billable b2 →
  seq b1 = seq b2 → events b1 = events b2 → b1 = b2.
Proof. destruct b1 as [[]], b2 as [[]]; simpl; congruence. Qed.

(** ** [record] refines the drop policy *)

(** The victim [record] picks, given an exact [non_billable] count. *)
Lemma record_victim (l : list ToolCallSample) n :
  n = count_if non_billable_sample l →
  (if 0 <? n then default 0 (position non_billable_sample l) else 0) =
  default 0 (position non_billable_sample l).
Proof.
  intros ->. destruct (0 <? _) eqn:E; [done|].
  destruct (position non_billable_sample l) as [i|] eqn:Hp; [|done].
  apply position_split in Hp as (l1 & x & l2 & -> & _ & Hx & _).
  rewrite count_if_app in E. simpl in E. rewrite Hx in E.
  apply Nat.ltb_ge in E. lia.
Qed.

(** Removing the victim, as [spec_record] describes it. *)
Lemma remove_victim (r : Ring) :
  non_billable r = count_if non_billable_sample (samples r) →
  match Ring_remove r (default 0 (position non_billable_sample (samples r))) with
  | Some (x, r') =>
      non_billable r' = count_if non_billable_sample (samples r') ∧
      S (length (samples r')) = length (samples r) ∧
      match position non_billable_sample (samples r) with
      | Some i => samples r' = take i (samples r) ++ drop (S i) (samples r) ∧
                  samples r !! i = Some x ∧ billable x = false
      | None => samples r = x :: samples r' ∧ billable x = true
      end
  | None => samples r = []
  end.
Proof.
  intros Hnb. destruct (position non_billable_sample (samples r)) as [i|] eqn:Hp; simpl.
  - apply position_split in Hp as (l1 & x & l2 & Hl & <- & Hx & _).
    unfold Ring_remove. rewrite Hl, vec_remove_middle. simpl.
    unfold non_billable_sample in Hx. unfold non_billable_weight.
    destruct (split_middle l1 x l2) as (-> & -> & ->).
    rewrite Hnb, Hl, !count_if_app, !length_app. simpl.
    unfold non_billable_sample at 2 4. rewrite Hx.
    destruct (billable x); simpl in *; [done|]. split_and!; [lia|lia|done..].
  - unfold Ring_remove. destruct (samples r) as [|x l] eqn:Hl; [done|]. simpl.
    rewrite drop_0. split_and!; [|done|done|].
    + unfold non_billable_weight. rewrite Hnb. simpl. case_match; lia.
    + simpl in Hp. unfold non_billable_sample in Hp. destruct (billable x); [done|].
      done.
Qed.

(** The record step with its setters resolved: buffer and counters follow
    [spec_record], the rest is untouched, and the wake-up permit is raised at
    four-fifths of the cap. *)
Lemma record_refines s b :
  non_billable (buf b) = count_if non_billable_sample (samples (buf b)) →
  let r := spec_record (cap b) s (samples (buf b)) in
  samples (buf (record s b)) = r.1 ∧
  non_billable (buf (record s b)) = count_if non_billable_sample r.1 ∧
  (dropped_overflow (record s b), dropped_non_billable (record s b)) =
    spec_count r.2 (dropped_overflow b, dropped_non_billable b) ∧
  cap (record s b) = cap b ∧ batch_cap (record s b) = batch_cap b ∧
  flush_early_at (record s b) = flush_early_at b ∧
  flush_early (record s b) =
    (flush_early_at b <=? length (samples (buf b)) + 1) || flush_early b ∧
  seq (record s b) = seq b ∧ events (record s b) = events b.
Proof.
  intros Hnb r. subst r. unfold record, spec_record.
  set (early := flush_early_at b <=? _).
  set (b0 := if early then set_flush_early b true else b).
  assert (buf b0 = buf b ∧ cap b0 = cap b ∧ batch_cap b0 = batch_cap b ∧
          flush_early_at b0 = flush_early_at b ∧ flush_early b0 = early || flush_early b ∧
          dropped_overflow b0 = dropped_overflow b ∧
          dropped_non_billable b0 = dropped_non_billable b ∧
          seq b0 = seq b ∧ events b0 = events b)
    as (Hb & Hc & Hbc & Hfa & Hf & Ho & Hn & Hs & He) by (subst b0; by destruct early).
  rewrite Hb, Hc. clearbody b0.
  assert (∀ r, count_if non_billable_sample (r ++ [s]) =
               count_if non_billable_sample r + non_billable_weight s) as Hsnoc.
  { intros r. rewrite count_if_app. simpl. unfold non_billable_weight. lia. }
  destruct (Nat.leb_spec (cap b) (length (samples (buf b)))) as [Hfull|Hroom].
  2:{ rewrite (proj2 (Nat.ltb_lt _ _) Hroom). simpl. rewrite Hsnoc, Hnb, Ho, Hn. split_and!; auto. }
  rewrite (proj2 (Nat.ltb_ge _ _) Hfull).
  change (negb (is_billable (outcome s))) with (non_billable_sample s).
  destruct (non_billable_sample s) eqn:Hns.
  { destruct (count_drop_proj (outcome s) b0) as (E1 & E2 & E3 & E4 & E5 & E6 & E7).
    rewrite count_drop_counters, E1, E2, E3, E4, E5, E6, E7, Ho, Hn, Hb.
    split_and!; auto. }
  change (λ s0, negb (is_billable (outcome s0))) with non_billable_sample.
  rewrite record_victim by done.
  pose proof (remove_victim (buf b) Hnb) as Hrm.
  destruct (Ring_remove _ _) as [[x r']|]; simpl.
  - destruct Hrm as (Hnb' & _ & Hrm).
    destruct (count_drop_proj (outcome x) (set_buf b0 r')) as (E1 & E2 & E3 & E4 & E5 & E6 & E7).
    rewrite count_drop_counters, E1, E2, E3, E4, E5, E6, E7. simpl.
    rewrite Ho, Hn, Hnb'.
    destruct (position _ _) as [i|]; simpl.
    + destruct Hrm as (Hr' & Hi & Hx). rewrite Hr', Hi, <- app_assoc.
      rewrite app_assoc, Hsnoc, <- app_assoc. split_and!; auto.
    + destruct Hrm as (Hr' & Hx). rewrite Hr'. simpl. rewrite Hsnoc. split_and!; auto.
  - rewrite Hrm. simpl. rewrite Hb, Hnb, Hrm, Ho, Hn. simpl.
    unfold non_billable_weight. rewrite Hns. split_and!; auto.
Qed.

(** ** Facts about the drop policy *)

(** One for a sample that satisfies [p]. *)
Definition weight {A} (p : A → bool) (d : option A) : nat :=
  match d with Some x => if p x then 1 else 0 | None => 0 end.

Lemma spec_record_length cap_ s l :
  length l ≤ cap_ `max` 1 → length (spec_record cap_ s l).1 ≤ cap_ `max` 1.
Proof.
  intros Hl. unfold spec_record.
  destruct (Nat.ltb_spec (length l) cap_); simpl; [rewrite length_app; simpl; lia|].
  destruct (non_billable_sample s); simpl; [done|].
  destruct (position _ _) as [i|] eqn:Hp; simpl.
  - apply position_split in Hp as (l1 & x & l2 & -> & <- & _).
    rewrite length_app in Hl; simpl in Hl.
    destruct (split_middle l1 x l2) as (-> & -> & _). rewrite !length_app. simpl. lia.
  - destruct l as [|x l]; simpl in *; [lia|]. rewrite length_app. simpl. lia.
Qed.

(** Nothing is lost unaccounted: every sample of the buffer and the arriving
    one is either kept or the one dropped. *)
Lemma spec_record_count (p : ToolCallSample → bool) cap_ s l :
  count_if p (spec_record cap_ s l).1 + weight p (spec_record cap_ s l).2 =
  count_if p l + weight p (Some s).
Proof.
  unfold spec_record. destruct (Nat.ltb_spec (length l) cap_); simpl.
  { rewrite count_if_app. simpl. lia. }
  destruct (non_billable_sample s); simpl; [done|].
  destruct (position _ _) as [i|] eqn:Hp; simpl.
  - apply position_split in Hp as (l1 & x & l2 & -> & <- & _).
    destruct (split_middle l1 x l2) as (-> & -> & ->).
    rewrite !count_if_app. simpl. lia.
  - destruct l as [|x l]; simpl; [lia|]. rewrite count_if_app. simpl. lia.
Qed.

(** What is kept keeps its order. *)
Lemma spec_record_sublist cap_ s l : (spec_record cap_ s l).1 `sublist_of` l ++ [s].
Proof.
  unfold spec_record. destruct (length l <? cap_); simpl; [done|].
  destruct (non_billable_sample s); simpl; [by apply sublist_inserts_r|].
  destruct (position _ _) as [i|] eqn:Hp; simpl.
  - apply position_split in Hp as (l1 & x & l2 & -> & <- & _).
    destruct (split_middle l1 x l2) as (-> & -> & _). rewrite <- app_assoc.
    apply sublist_app; [done|]. simpl. by apply sublist_cons.
  - destruct l as [|x l]; simpl; [done|]. by apply sublist_cons.
Qed.

(** The counters move by the dropped sample's weight. *)
Lemma spec_count_eq64 d c :
  eq64 (spec_count d c).1 (c.1 + Z.of_nat (weight billable d)) ∧
  eq64 (spec_count d c).2 (c.2 + Z.of_nat (weight non_billable_sample d)).
Proof.
  destruct d as [x|]; simpl; [|by rewrite !Z.add_0_r].
  unfold non_billable_sample. destruct (billable x); simpl; rewrite Z.add_0_r;
    split; try done; apply wrap_u64_eq64.
Qed.

Lemma spec_count_range d c :
  (in_u64 c.1 → in_u64 (spec_count d c).1) ∧ (in_u64 c.2 → in_u64 (spec_count d c).2).
Proof. destruct d; simpl; [case_match; simpl|]; auto using wrap_u64_range. Qed.

(** ** Drain and requeue on the ring *)

(** [requeue_front]'s loop over a batch: what fits goes back in front in its
    order, the oldest overflow is counted. *)
Lemma requeue_samples l b :
  non_billable (buf b) = count_if non_billable_sample (samples (buf b)) →
  let k := length l - (cap b - length (samples (buf b))) in
  let b' := fold_left (λ b s, requeue_sample s b) (rev l) b in
  samples (buf b') = drop k l ++ samples (buf b) ∧
  non_billable (buf b') = count_if non_billable_sample (samples (buf b')) ∧
  eq64 (dropped_overflow b') (dropped_overflow b + Z.of_nat (count_if billable (take k l))) ∧
  eq64 (dropped_non_billable b')
       (dropped_non_billable b + Z.of_nat (count_if non_billable_sample (take k l))) ∧
  (in_u64 (dropped_overflow b) → in_u64 (dropped_overflow b')) ∧
  (in_u64 (dropped_non_billable b) → in_u64 (dropped_non_billable b')) ∧
  (k = 0 → dropped_overflow b' = dropped_overflow b ∧
           dropped_non_billable b' = dropped_non_billable b) ∧
  cap b' = cap b ∧ batch_cap b' = batch_cap b ∧ flush_early_at b' = flush_early_at b ∧
  flush_early b' = flush_early b ∧ seq b' = seq b ∧ events b' = events b.
Proof.
  induction l as [|s l IH]; intros Hnb; simpl.
  { rewrite !Z.add_0_r. simpl. split_and!; done. }
  specialize (IH Hnb). cbv zeta in IH.
  rewrite fold_left_app. simpl.
  set (b0 := fold_left _ (rev l) b) in *. clearbody b0.
  destruct IH as (Hs & Hn & Ho & Hnb' & Hro & Hrn & Hk & Hc & Hbc & Hfa & Hf & Hseq & He).
  unfold requeue_sample. rewrite Hc, Hs, length_app, length_drop.
  destruct (Nat.leb_spec (cap b) (length l - (length l - (cap b - length (samples (buf b))))
                                  + length (samples (buf b)))) as [Hfull|Hroom].
  - destruct (count_drop_proj (outcome s) b0) as (-> & -> & -> & -> & -> & -> & ->).
    pose proof (count_drop_counters s b0) as Hcd.
    destruct (spec_count_eq64 (Some s) (dropped_overflow b0, dropped_non_billable b0)) as [E1 E2].
    rewrite <- Hcd in E1, E2. cbn [fst snd] in E1, E2.
    destruct (spec_count_range (Some s) (dropped_overflow b0, dropped_non_billable b0)) as [R1 R2].
    rewrite <- Hcd in R1, R2. cbn [fst snd] in R1, R2.
    replace (S (length l) - (cap b - length (samples (buf b))))
      with (S (length l - (cap b - length (samples (buf b))))) by lia.
    cbn [take drop count_if].
    split_and!; auto; try lia.
    + rewrite E1, Ho. simpl. apply eq64_of_eq. lia.
    + rewrite E2, Hnb'. simpl. apply eq64_of_eq. lia.
  - simpl.
    replace (S (length l) - (cap b - length (samples (buf b)))) with 0 by lia.
    replace (length l - (cap b - length (samples (buf b)))) with 0 in * by lia.
    rewrite Hs, Hn. simpl. rewrite drop_0 in *. unfold non_billable_weight.
    rewrite Hs. simpl in *. split_and!; auto; try lia.
Qed.

(** ** The rollup *)

Lemma EventCounts_add_wf c1 c2 :
  EventCounts_wf c1 → EventCounts_wf c2 → EventCounts_wf (EventCounts_add c1 c2).
Proof.
  intros [] []. unfold in_u64 in *. split; simpl; unfold in_u64, saturating_add_u64; lia.
Qed.

Lemma EventCounts_default_wf : EventCounts_wf EventCounts_default.
Proof. split; unfold in_u64; simpl; unfold U64_MAX; lia. Qed.

Lemma EventCounts_add_default c : EventCounts_wf c → EventCounts_add EventCounts_default c = c.
Proof.
  intros []. destruct c; unfold EventCounts_add, saturating_add_u64, in_u64 in *; simpl in *.
  f_equal; lia.
Qed.

#[export] Hint Resolve EventCounts_add_wf EventCounts_default_wf : cpc.

Lemma rollup_add_Forall_wf key c m :
  EventCounts_wf c → Forall (λ e, EventCounts_wf e.2) m →
  Forall (λ e, EventCounts_wf e.2) (rollup_add key c m).
Proof. intros Hc Hm. apply bt_entry_update_Forall; simpl; eauto with cpc. Qed.

Lemma rollup_open_wf (r : EventsRollup) t key c :
  EventsRollup_wf r → EventCounts_wf c →
  EventsRollup_wf {| since := Some t; counts := rollup_add key c (counts r) |}.
Proof.
  intros [Hs Hf Hsi] Hc. split; simpl.
  - by apply bt_entry_update_sorted.
  - by apply rollup_add_Forall_wf.
  - split; [done|]. intros H. by apply bt_entry_update_nonempty in H.
Qed.

Lemma requeue_usages_wf us r :
  EventsRollup_wf r → Forall (λ u, EventCounts_wf (eu_counts u)) us →
  EventsRollup_wf (fold_left requeue_usage us r).
Proof.
  intros Hr Hus. revert r Hr. induction Hus as [|u us Hu Hus IH]; intros r Hr; simpl; [done|].
  apply IH. by apply rollup_open_wf.
Qed.

(** The rows a drain reads off a rollup. *)
Definition usage_rows (ws we : DateTime) (m : list ((string * string) * EventCounts)) :
    list EventUsage :=
  map (λ '((name, mode_), c),
        {| event_name := name; mode := mode_; eu_counts := c;
           window_start := ws; window_end := we |}) m.

(** Putting the rows of a window back one by one rebuilds the rollup they were
    read from. *)
Lemma requeue_usage_rows ws we m1 m2 :
  bt_sorted (m1 ++ m2) → Forall (λ e, EventCounts_wf e.2) m2 → m2 ≠ [] →
  ∀ s, (s = None ∨ s = Some ws) →
  fold_left requeue_usage (usage_rows ws we m2) {| since := s; counts := m1 |} =
  {| since := Some ws; counts := m1 ++ m2 |}.
Proof.
  revert m1. induction m2 as [|[[n md] c] m2 IH]; intros m1 Hs Hf Hne s Hsi; [done|].
  apply Forall_cons in Hf as [Hc Hf]. simpl in Hc. simpl.
  unfold requeue_usage at 2. simpl. unfold rollup_add.
  rewrite bt_entry_update_snoc by (by eapply bt_sorted_app_inv in Hs).
  rewrite EventCounts_add_default by done.
  assert (dt_min (default ws s) ws = ws) as ->.
  { destruct Hsi as [-> | ->]; simpl; apply dt_min_id. }
  destruct (decide (m2 = [])) as [->|Hm2]; [done|].
  rewrite IH; auto; by rewrite <- app_assoc.
Qed.

(** ** The invariant *)

Lemma with_caps_wf c bc : Inner_wf (with_caps c bc).
Proof.
  split; simpl; try done; try (unfold in_u64, U64_MAX; lia).
Qed.

Lemma record_wf s b : Inner_wf b → Inner_wf (record s b).
Proof.
  intros [Hl Hn Ho Hd Hs He].
  destruct (record_refines s b Hn) as (Es & En & Ec & Eca & _ & _ & _ & Eseq & Eev).
  destruct (spec_count_range (spec_record (cap b) s (samples (buf b))).2
              (dropped_overflow b, dropped_non_billable b)) as [R1 R2].
  rewrite <- Ec in R1, R2. simpl in R1, R2.
  split; rewrite ?Es, ?Eca, ?Eseq, ?Eev; auto using spec_record_length.
Qed.

Lemma record_events_wf now n md c b :
  EventCounts_wf c → Inner_wf b → Inner_wf (record_events now n md c b).
Proof.
  intros Hc [Hl Hn Ho Hd Hs He]. unfold record_events. case_decide; [done|].
  split; simpl; auto.
  by destruct (since (events b)); apply rollup_open_wf.
Qed.

Lemma drain_wf now b : Inner_wf b → Inner_wf (drain now b).2 ∧ Drained_wf (drain now b).1.
Proof.
  intros [Hl Hn Ho Hd Hs [Hes Hef He]]. split.
  - split; simpl; try (unfold in_u64, U64_MAX; lia); auto with cpc.
    + rewrite length_drop. lia.
    + change (λ s, negb (is_billable (outcome s))) with non_billable_sample.
      rewrite Hn. set (n := _ `min` _).
      pose proof (count_if_take_drop non_billable_sample n (samples (buf b))). lia.
    + by split; simpl.
  - split; simpl; auto. apply Forall_fmap.
    eapply Forall_impl; [exact Hef|]. by intros [[? ?] ?].
Qed.

Lemma requeue_front_wf d b : Inner_wf b → Drained_wf d → Inner_wf (requeue_front d b).
Proof.
  intros [Hl Hn Ho Hd Hs He] [Do Dn De].
  pose proof (requeue_samples (d_samples d) b Hn) as H. cbv zeta in H.
  unfold requeue_front. set (b' := fold_left _ _ b) in *. clearbody b'.
  destruct H as (Es & En & _ & _ & _ & _ & _ & Ec & _ & _ & _ & Eseq & Eev).
  split; simpl; auto with cpc.
  - rewrite Es, Ec, length_app, length_drop. lia.
  - by rewrite Eseq.
  - rewrite Eev. by apply requeue_usages_wf.
Qed.

#[export] Hint Resolve with_caps_wf record_wf record_events_wf requeue_front_wf : cpc.

(** ** The ledger *)

Lemma record_ledger s b :
  non_billable (buf b) = count_if non_billable_sample (samples (buf b)) →
  eq64 (ledger_billable (record s b)) (ledger_billable b + Z.of_nat (weight billable (Some s))) ∧
  eq64 (ledger_non_billable (record s b))
       (ledger_non_billable b + Z.of_nat (weight non_billable_sample (Some s))).
Proof.
  intros Hn. unfold ledger_billable, ledger_non_billable.
  destruct (record_refines s b Hn) as (Es & _ & Ec & _). rewrite Es.
  set (r := spec_record _ _ _) in *.
  destruct (spec_count_eq64 r.2 (dropped_overflow b, dropped_non_billable b)) as [E1 E2].
  rewrite <- Ec in E1, E2. cbn [fst snd] in E1, E2. rewrite E1, E2.
  pose proof (spec_record_count billable (cap b) s (samples (buf b))).
  pose proof (spec_record_count non_billable_sample (cap b) s (samples (buf b))).
  split; apply eq64_of_eq; subst r; lia.
Qed.

Lemma drain_ledger now b :
  let '(d, b') := drain now b in
  (batch_billable d + ledger_billable b' = ledger_billable b)%Z ∧
  (batch_non_billable d + ledger_non_billable b' = ledger_non_billable b)%Z.
Proof.
  unfold drain, batch_billable, batch_non_billable, ledger_billable, ledger_non_billable; simpl.
  set (n := _ `min` _).
  pose proof (count_if_take_drop billable n (samples (buf b))).
  pose proof (count_if_take_drop non_billable_sample n (samples (buf b))). lia.
Qed.

Lemma requeue_ledger d b :
  non_billable (buf b) = count_if non_billable_sample (samples (buf b)) →
  eq64 (ledger_billable (requeue_front d b)) (ledger_billable b + batch_billable d) ∧
  eq64 (ledger_non_billable (requeue_front d b)) (ledger_non_billable b + batch_non_billable d).
Proof.
  intros Hn. pose proof (requeue_samples (d_samples d) b Hn) as H. cbv zeta in H.
  unfold requeue_front, ledger_billable, ledger_non_billable, batch_billable, batch_non_billable.
  set (b' := fold_left _ (rev _) b) in *. clearbody b'.
  set (k := length (d_samples d) - _) in *.
  destruct H as (Es & _ & Eo & Ed & _). simpl. rewrite Es, !count_if_app.
  rewrite !wrap_u64_eq64, Eo, Ed.
  pose proof (count_if_take_drop billable k (d_samples d)).
  pose proof (count_if_take_drop non_billable_sample k (d_samples d)).
  split; apply eq64_of_eq; lia.
Qed.

(** What [drain] hands over and what it leaves. *)
Lemma drain_spec now b :
  let '(d, b') := drain now b in
  d_samples d ++ samples (buf b') = samples (buf b) ∧
  length (d_samples d) = length (samples (buf b)) `min` batch_cap b ∧
  d_dropped_overflow d = dropped_overflow b ∧
  d_dropped_non_billable d = dropped_non_billable b ∧
  d_events d = usage_rows (default now (since (events b))) now (counts (events b)) ∧
  d_seq d = wrap_u64 (seq b + 1) ∧ seq b' = d_seq d ∧
  dropped_overflow b' = 0%Z ∧ dropped_non_billable b' = 0%Z ∧
  events b' = EventsRollup_default ∧ cap b' = cap b ∧ batch_cap b' = batch_cap b ∧
  (Inner_wf b → Inner_wf b').
Proof.
  unfold drain. simpl. split_and!; try done; [apply take_drop|by rewrite length_take; lia|].
  intros Hwf. apply (drain_wf now b Hwf).
Qed.

(** [requeue_front] right after [drain] restores everything but the sequence
    number. *)
Lemma drain_requeue now b :
  Inner_wf b → 1 ≤ cap b →
  let '(d, b') := drain now b in
  requeue_front d b' = set_seq b (wrap_u64 (seq b + 1)).
Proof.
  intros Hwf Hcap. destruct (drain now b) as [d b'] eqn:Hdr.
  pose proof (drain_spec now b) as Hdt. rewrite Hdr in Hdt.
  destruct Hdt as (Hsm & _ & Hdo & Hdn & Hde & Hds & Hse & Hzo & Hzn & Hev & Hc & Hbc & Hwf').
  specialize (Hwf' Hwf). destruct Hwf as [Hl Hn Ho Hd Hs [Hes Hef He]].
  pose proof (requeue_samples (d_samples d) b' (iw_non_billable b' Hwf')) as H. cbv zeta in H.
  rewrite <- Hsm, length_app in Hl.
  replace (length (d_samples d) - _) with 0 in H by (rewrite Hc; lia).
  destruct H as (Es & En & _ & _ & _ & _ & Ek & Ec & Ebc & Efa & Ef & Eseq & Eev).
  destruct Ek as [Eo Ed]; [done|]. rewrite drop_0, Hsm in Es.
  assert (flush_early_at b' = flush_early_at b ∧ flush_early b' = flush_early b) as [Hfa Hfe].
  { unfold drain in Hdr. by simplify_eq. }
  apply Inner_ext; unfold requeue_front; cbn [buf cap batch_cap flush_early_at flush_early
    dropped_overflow dropped_non_billable seq events set_events set_dropped set_seq]; try congruence.
  - by rewrite Eo, Hzo, Hdo, wrap_u64_small.
  - by rewrite Ed, Hzn, Hdn, wrap_u64_small.
  - rewrite Eev, Hev, Hde. destruct (events b) as [si m]; simpl in *.
    destruct si as [t|]; simpl.
    + apply requeue_usage_rows with (m1 := []); auto. naive_solver.
    + by rewrite (proj1 He eq_refl).
Qed.

(** ** Main properties *)

(** C21: on a well-formed buffer, [record] implements the documented drop policy:
    the buffered samples, both drop counters and the count of non-billable
    samples are those of [spec_record] (room: append; full: drop an arriving
    non-billable sample, else the oldest non-billable one, else the oldest),
    and the flush loop is woken at four-fifths of the cap. *)
Theorem record_implements_drop_policy s b :
  Inner_wf b →
  let r := spec_record (cap b) s (samples (buf b)) in
  samples (buf (record s b)) = r.1 ∧
  (dropped_overflow (record s b), dropped_non_billable (record s b)) =
    spec_count r.2 (dropped_overflow b, dropped_non_billable b) ∧
  flush_early (record s b) =
    (flush_early_at b <=? length (samples (buf b)) + 1) || flush_early b ∧
  Inner_wf (record s b).
Proof.
  intros Hwf. destruct (record_refines s b (iw_non_billable b Hwf)) as (? & ? & ? & ? & ? & ? & ? & _).
  split_and!; auto with cpc.
Qed.

(** A full buffer never gives up a billable sample while it holds a
    non-billable one, or while the arriving sample is itself non-billable: the
    billable drop counter moves only when every buffered sample and the
    arriving one are billable, and then by exactly one. *)
Theorem billable_drop_only_when_all_billable s b :
  Inner_wf b →
  dropped_overflow (record s b) ≠ dropped_overflow b →
  dropped_overflow (record s b) = wrap_u64 (dropped_overflow b + 1) ∧
  cap b ≤ length (samples (buf b)) ∧
  Forall (λ x, billable x = true) (samples (buf b) ++ [s]).
Proof.
  intros Hwf Hne.
  destruct (record_refines s b (iw_non_billable b Hwf)) as (_ & _ & Hc & _).
  apply (f_equal fst) in Hc. simpl in Hc. rewrite Hc in *. clear Hc.
  unfold spec_record in *.
  destruct (Nat.ltb_spec (length (samples (buf b))) (cap b)); [done|].
  unfold non_billable_sample at 1 in Hne. unfold non_billable_sample at 1.
  destruct (billable s) eqn:Hs; simpl in *; [|by rewrite Hs in Hne].
  destruct (position non_billable_sample _) as [i|] eqn:Hp; simpl in *.
  { apply position_split in Hp as (l1 & x & l2 & Hl & <- & Hx & _). rewrite Hl in Hne.
    destruct (split_middle l1 x l2) as (_ & _ & E). rewrite E in Hne. simpl in Hne.
    unfold non_billable_sample in Hx. by destruct (billable x). }
  assert (Forall (λ x, billable x = true) (samples (buf b) ++ [s])) as Hall.
  { apply Forall_app; split; [|by constructor].
    destruct (decide (count_if non_billable_sample (samples (buf b)) = 0)) as [Hz|Hz].
    - apply count_if_zero in Hz. eapply Forall_impl; [exact Hz|].
      intros x. unfold non_billable_sample. by destruct (billable x).
    - destruct (count_if_pos_position non_billable_sample (samples (buf b))) as [i Hi]; [lia|].
      congruence. }
  destruct (samples (buf b)) as [|x l]; simpl in *; [done|].
  apply Forall_cons in Hall as [Hx Hall]. rewrite Hx in *. simpl in *. auto.
Qed.

(** [drain] takes the oldest [batch_cap] samples in order, leaves the rest,
    hands over both drop counters and the whole events rollup and resets them,
    and stamps the next sequence number. *)
Theorem drain_takes_oldest_batch now b :
  let '(d, b') := drain now b in
  d_samples d ++ samples (buf b') = samples (buf b) ∧
  length (d_samples d) = length (samples (buf b)) `min` batch_cap b ∧
  d_dropped_overflow d = dropped_overflow b ∧
  d_dropped_non_billable d = dropped_non_billable b ∧
  d_events d = usage_rows (default now (since (events b))) now (counts (events b)) ∧
  d_seq d = wrap_u64 (seq b + 1) ∧ seq b' = d_seq d ∧
  dropped_overflow b' = 0%Z ∧ dropped_non_billable b' = 0%Z ∧
  events b' = EventsRollup_default ∧ cap b' = cap b ∧ batch_cap b' = batch_cap b ∧
  (Inner_wf b → Inner_wf b').
Proof. apply drain_spec. Qed.

(** C36: a batch that was drained and could not be sent comes back unchanged:
    with no record in between, [requeue_front] after [drain] restores the
    samples in order, the counters and the events rollup with its window; only
    the sequence number has moved on. *)
Theorem drain_requeue_roundtrip now b :
  Inner_wf b → 1 ≤ cap b →
  let '(d, b') := drain now b in
  requeue_front d b' = set_seq b (wrap_u64 (seq b + 1)).
Proof. apply drain_requeue. Qed.

(** C35: when samples were recorded while a batch was in flight, [requeue_front]
    puts back as much of the batch as fits, the newest part, in order and ahead
    of what is buffered; what does not fit is counted by its billability, and
    together with the counts the batch carried no sample leaves the ledger. *)
Theorem requeue_keeps_newest_and_counts_rest d b :
  Inner_wf b →
  let k := length (d_samples d) - (cap b - length (samples (buf b))) in
  let b' := requeue_front d b in
  samples (buf b') = drop k (d_samples d) ++ samples (buf b) ∧
  eq64 (dropped_overflow b')
    (dropped_overflow b + d_dropped_overflow d + Z.of_nat (count_if billable (take k (d_samples d)))) ∧
  eq64 (dropped_non_billable b')
    (dropped_non_billable b + d_dropped_non_billable d +
     Z.of_nat (count_if non_billable_sample (take k (d_samples d)))) ∧
  (Drained_wf d → Inner_wf b').
Proof.
  intros Hwf k b'. subst k b'.
  pose proof (requeue_samples (d_samples d) b (iw_non_billable b Hwf)) as H. cbv zeta in H.
  destruct H as (Es & _ & Eo & Ed & _).
  split_and!; [exact Es| | |auto with cpc]; simpl; rewrite wrap_u64_eq64.
  - rewrite Eo. apply eq64_of_eq. lia.
  - rewrite Ed. apply eq64_of_eq. lia.
Qed.

(** [batch_to_message] sends nothing exactly when there is nothing to
    report; otherwise the report carries every sample and usage row in order and
    both drop counts, clamps each duration to a [u32] of milliseconds, and
    stamps a key version only on a payload marked encrypted. *)
Theorem batch_to_message_faithful code now d :
  match batch_to_message code now d with
  | None => d_samples d = [] ∧ d_dropped_overflow d = 0%Z ∧
            d_dropped_non_billable d = 0%Z ∧ d_events d = []
  | Some m => ∃ r, kind m = Some (KMetricsReport r) ∧
      mr_seq r = d_seq d ∧
      mr_dropped_overflow r = d_dropped_overflow d ∧
      mr_dropped_non_billable r = d_dropped_non_billable d ∧
      length (mr_events r) = length (d_events d) ∧
      Forall2 (λ s w, tis_plugin_id w = plugin_id s ∧ tis_tool_name w = tool_name s ∧
                 tis_outcome w = code (SampleOutcome.to_proto (outcome s)) ∧
                 tis_payload_encrypted w = payload_encrypted s ∧
                 (tis_dek_version w ≠ 0%Z → payload_encrypted s = true) ∧
                 ((0 ≤ duration s)%Z → in_u32 (tis_duration_ms w)))
        (d_samples d) (mr_invocations r)
  end.
Proof.
  unfold batch_to_message. destruct (Drained_is_empty d) eqn:He.
  { unfold Drained_is_empty in He. rewrite !andb_true_iff, !vec_is_empty_true, !Z.eqb_eq in He.
    naive_solver. }
  eexists. split; [done|]. simpl. rewrite length_map. split_and!; [done..|].
  induction (d_samples d) as [|s l IH]; simpl; constructor; [|done].
  unfold sample_to_wire; simpl. split_and!; try done.
  - by destruct (payload_encrypted s).
  - intros Hd. unfold in_u32, as_millis, NANOS_PER_MILLI.
    pose proof (Z.div_pos (duration s) 1000000). unfold U32_MAX in *. lia.
Qed.

(** ** The properties on concrete buffers *)

Definition epoch : DateTime := {| timestamp_secs := 0; timestamp_subsec_nanos := 0 |}.

Definition sample_of (tool : string) (o : SampleOutcome) : ToolCallSample :=
  {| plugin_id := "p"; tool_name := tool; binding_id := None; started_at := epoch;
     duration := from_millis 1; outcome := o; error_code := None; error_hash := None;
     request_id := None; caller_subject := None; request_payload := None;
     response_payload := None; payload_encrypted := false; dek_version := 0 |}.

(** A buffer of three that was full when the denial was recorded. *)
Definition demo_buffer : Inner :=
  record (sample_of "c" SampleOutcome.ServerError)
    (record (sample_of "b" SampleOutcome.PolicyDenied)
      (record (sample_of "a" SampleOutcome.Ok) (with_caps 3 2))).

Lemma demo_buffer_wf : Inner_wf demo_buffer.
Proof. unfold demo_buffer. auto with cpc. Qed.

(** A buffer full of billable samples. *)
Definition billable_buffer : Inner :=
  record (sample_of "b" SampleOutcome.ClientError)
    (record (sample_of "a" SampleOutcome.Ok) (with_caps 2 2)).

Lemma billable_buffer_wf : Inner_wf billable_buffer.
Proof. unfold billable_buffer. auto with cpc. Qed.

Lemma record_implements_drop_policy_witness :
  Inner_wf demo_buffer ∧
  tool_name <$> samples (buf (record (sample_of "d" SampleOutcome.Ok) demo_buffer)) =
    ["a"; "c"; "d"]%string ∧
  flush_early (record (sample_of "d" SampleOutcome.Ok) demo_buffer) = true.
Proof.
  destruct (record_implements_drop_policy (sample_of "d" SampleOutcome.Ok) demo_buffer
              demo_buffer_wf) as (Hs & _ & Hf & _).
  split; [exact demo_buffer_wf|]. rewrite Hs, Hf. split; reflexivity.
Defined.

Lemma billable_drop_only_when_all_billable_witness :
  let s := sample_of "c" SampleOutcome.Ok in
  dropped_overflow (record s billable_buffer) = 1%Z ∧
  Forall (λ x, billable x = true) (samples (buf billable_buffer) ++ [s]).
Proof.
  destruct (billable_drop_only_when_all_billable (sample_of "c" SampleOutcome.Ok) billable_buffer
              billable_buffer_wf) as (H1 & _ & H2); [vm_compute; discriminate|].
  split; [rewrite H1; reflexivity|exact H2].
Defined.

Lemma drain_requeue_roundtrip_witness :
  let '(d, b') := drain epoch demo_buffer in
  length (d_samples d) = 2 ∧ requeue_front d b' = set_seq demo_buffer 1.
Proof.
  pose proof (drain_requeue_roundtrip epoch demo_buffer demo_buffer_wf) as H.
  split; [reflexivity|]. apply H. vm_compute. lia.
Defined.

Lemma requeue_keeps_newest_and_counts_rest_witness :
  let '(d, b') := drain epoch billable_buffer in
  let b1 := record (sample_of "c" SampleOutcome.Ok) b' in
  tool_name <$> samples (buf (requeue_front d b1)) = ["b"; "c"]%string.
Proof.
  pose proof (requeue_keeps_newest_and_counts_rest (drain epoch billable_buffer).1
    (record (sample_of "c" SampleOutcome.Ok) (drain epoch billable_buffer).2)) as H.
  destruct H as (H & _).
  - apply record_wf. apply (drain_wf epoch billable_buffer billable_buffer_wf).
  - exact (eq_trans (f_equal (fmap tool_name) H) eq_refl).
Defined.
