(* ===== verification/FlushLoop.v ===== *)
(** * The metrics flush task: [flush_loop] of [src/metrics.rs]

    The background task of a Channel session that drains the buffer into
    [MetricsReport]s, with the [InFlight] guard around the batch it holds.  Two
    views of the same code:

    - [flush_round] runs one round of the loop (the [for] over
      [batches_per_tick]) as a function, against an outbound channel that
      accepts a given number of further messages before it closes;
    - [flush_step] is the task as a program counter that other threads run
      against: samples are recorded at any time, and a requested cancellation may
      drop the task at any of its [await] points;
    - [system_step] has the tasks of all sessions of an agent on its one buffer: a
      cancellation takes effect at some later time, so an aborted task may hand
      its batch back when the next session's task is running already. *)

From stdpp Require Import base list strings relations.
From Stdlib Require Import ZArith Lia.
From S2P Require Import Prelude Time BTree Proto Metrics MetricsFacts.

(** [Drop for InFlight]: an armed guard returns a batch that is not empty. *)
Definition InFlight_drop (batch : option Drained) (b : Inner) : Inner :=
  match batch with
  | Some d => if Drained_is_empty d then b else requeue_front d b
  | None => b
  end.

(** [buffer.inner.cap.div_ceil(buffer.inner.batch_cap.max(1)).max(1)]. *)
Definition div_ceil (a b : nat) : nat :=
  if a mod b =? 0 then a / b else a / b + 1.
Definition batches_per_tick (b : Inner) : nat :=
  div_ceil (cap b) (batch_cap b `max` 1) `max` 1.

Section FlushLoop.
Context (tool_outcome_i32 : ToolOutcome → Z).

(** ** One round *)

(** The [for] loop of one round, [n] iterations left, on a channel that accepts
    [room] more messages and is closed afterwards.  Returns what was queued,
    the buffer, and whether the loop broke out of the session. *)
Fixpoint flush_round (n room : nat) (now : DateTime) (b : Inner) :
    list AgentMessage * Inner * bool :=
  match n with
  | 0 => ([], b, false)
  | S n =>
      let '(batch, b) := drain now b in
      let count := length (d_samples batch) in
      match batch_to_message tool_outcome_i32 (timestamp_secs now) batch, room with
      | Some _, 0 => ([], InFlight_drop (Some batch) b, true)
      | Some msg, S room =>
          let b := InFlight_drop None b in
          if count <? batch_cap b then ([msg], b, false)
          else let '(msgs, b, closed) := flush_round n room now b in
               (msg :: msgs, b, closed)
      | None, _ =>
          let b := InFlight_drop None b in
          if count <? batch_cap b then ([], b, false)
          else flush_round n room now b
      end
  end.

(** ** The task *)

(** Where the task is.  [Starting] awaits the immediate first tick, [Idle] the
    [select!], [EarlySleep] the spacing sleep after an early wake-up, [Round n]
    is between awaits with [n] iterations left, [Sending] awaits [out_tx.send]
    with the batch in the guard, [Closed] has returned or was aborted. *)
Inductive FlushPc :=
| Starting
| Idle
| EarlySleep
| Round (n : nat)
| Sending (n : nat) (batch : Drained) (msg : AgentMessage)
| Closed.

(** The buffer, the task, the messages queued on [out_tx], and for the
    statements the batches those came from, everything ever recorded and how
    many drains there were. *)
Record FlushState := {
  fs_buf : Inner;
  fs_pc : FlushPc;
  fs_out : list AgentMessage;
  fs_shipped : list Drained;
  fs_recorded : list ToolCallSample;
  fs_drains : nat
}.

Definition flush_init (b : Inner) : FlushState :=
  {| fs_buf := b; fs_pc := Starting; fs_out := []; fs_shipped := [];
     fs_recorded := []; fs_drains := 0 |}.

(** Where the loop goes after a batch of [count] samples: [break] out of the
    [for] into the [select!], or the next iteration. *)
Definition after_batch (b : Inner) (count n : nat) : FlushPc :=
  if count <? batch_cap b then Idle else Round n.

(** The batch in the guard. *)
Definition in_flight (pc : FlushPc) : option Drained :=
  match pc with Sending _ d _ => Some d | _ => None end.

(** The points at which the future can be dropped. *)
Definition at_await (pc : FlushPc) : bool :=
  match pc with Round _ | Closed => false | _ => true end.

Definition with_task (st : FlushState) (b : Inner) (pc : FlushPc) : FlushState :=
  {| fs_buf := b; fs_pc := pc; fs_out := fs_out st; fs_shipped := fs_shipped st;
     fs_recorded := fs_recorded st; fs_drains := fs_drains st |}.

(** What the threads of the host do to the buffer at any time. *)
Inductive flush_host_step : FlushState → FlushState → Prop :=
| step_record st s :
    flush_host_step st
      {| fs_buf := record s (fs_buf st); fs_pc := fs_pc st; fs_out := fs_out st;
         fs_shipped := fs_shipped st; fs_recorded := fs_recorded st ++ [s];
         fs_drains := fs_drains st |}
| step_record_events st now n md c :
    EventCounts_wf c →
    flush_host_step st (with_task st (record_events now n md c (fs_buf st)) (fs_pc st)).

(** The steps of the task.  [step_abort] is the cancellation taking effect, which is
    any time after [abort] was called: the future is dropped at the [await] it is
    at, and with it the guard. *)
Inductive flush_task_step : FlushState → FlushState → Prop :=
| step_tick st :
    fs_pc st = Starting ∨ fs_pc st = Idle →
    flush_task_step st (with_task st (fs_buf st) (Round (batches_per_tick (fs_buf st))))
| step_early st :
    fs_pc st = Idle → flush_early (fs_buf st) = true →
    flush_task_step st (with_task st (set_flush_early (fs_buf st) false) EarlySleep)
| step_early_wake st :
    fs_pc st = EarlySleep →
    flush_task_step st (with_task st (fs_buf st) (Round (batches_per_tick (fs_buf st))))
| step_round_done st :
    fs_pc st = Round 0 → flush_task_step st (with_task st (fs_buf st) Idle)
| step_drain st n now d b' :
    fs_pc st = Round (S n) → drain now (fs_buf st) = (d, b') →
    flush_task_step st
      {| fs_buf := b';
         fs_pc := match batch_to_message tool_outcome_i32 (timestamp_secs now) d with
                  | Some msg => Sending n d msg
                  | None => after_batch b' (length (d_samples d)) n
                  end;
         fs_out := fs_out st; fs_shipped := fs_shipped st;
         fs_recorded := fs_recorded st; fs_drains := S (fs_drains st) |}
| step_sent st n d msg :
    fs_pc st = Sending n d msg →
    flush_task_step st
      {| fs_buf := InFlight_drop None (fs_buf st);
         fs_pc := after_batch (fs_buf st) (length (d_samples d)) n;
         fs_out := fs_out st ++ [msg]; fs_shipped := fs_shipped st ++ [d];
         fs_recorded := fs_recorded st; fs_drains := fs_drains st |}
| step_send_failed st n d msg :
    fs_pc st = Sending n d msg →
    flush_task_step st (with_task st (InFlight_drop (Some d) (fs_buf st)) Closed)
| step_abort st :
    at_await (fs_pc st) = true →
    flush_task_step st (with_task st (InFlight_drop (in_flight (fs_pc st)) (fs_buf st)) Closed).

(** One task and the host. *)
Inductive flush_step (st st' : FlushState) : Prop :=
| step_host : flush_host_step st st' → flush_step st st'
| step_task : flush_task_step st st' → flush_step st st'.

(** States one task reaches on a new buffer. *)
Definition flush_reachable (cap_ batch_cap_ : nat) (st : FlushState) : Prop :=
  rtc flush_step (flush_init (with_caps cap_ batch_cap_)) st.

(** ** The tasks of successive sessions *)

(** All flush tasks an agent ever spawned, oldest first, on its one buffer.  [abort]
    does not wait for the task, so the task of an earlier session may still be
    there, and may still hold a batch, when the next session spawns its own. *)
Record FlushSystem := {
  fl_buf : Inner;
  fl_tasks : list FlushPc;
  fl_out : list AgentMessage;
  fl_shipped : list Drained;
  fl_recorded : list ToolCallSample;
  fl_drains : nat
}.

Definition system_init (b : Inner) : FlushSystem :=
  {| fl_buf := b; fl_tasks := []; fl_out := []; fl_shipped := []; fl_recorded := [];
     fl_drains := 0 |}.

(** The system as a task at [pc] sees it, and with the list of tasks again. *)
Definition focus (pc : FlushPc) (y : FlushSystem) : FlushState :=
  {| fs_buf := fl_buf y; fs_pc := pc; fs_out := fl_out y; fs_shipped := fl_shipped y;
     fs_recorded := fl_recorded y; fs_drains := fl_drains y |}.
Definition unfocus (tasks : list FlushPc) (st : FlushState) : FlushSystem :=
  {| fl_buf := fs_buf st; fl_tasks := tasks; fl_out := fs_out st; fl_shipped := fs_shipped st;
     fl_recorded := fs_recorded st; fl_drains := fs_drains st |}.

Inductive system_step : FlushSystem → FlushSystem → Prop :=
| system_host y pc st :
    flush_host_step (focus pc y) st → system_step y (unfocus (fl_tasks y) st)
| system_task y i pc st :
    fl_tasks y !! i = Some pc → flush_task_step (focus pc y) st →
    system_step y (unfocus (<[i:=fs_pc st]> (fl_tasks y)) st)
| system_spawn y pc :
    system_step y (unfocus (fl_tasks y ++ [Starting]) (focus pc y)).

Definition system_reachable (cap_ batch_cap_ : nat) (y : FlushSystem) : Prop :=
  rtc system_step (system_init (with_caps cap_ batch_cap_)) y.

(** The tasks of the sessions before the last one. *)
Definition leftover (y : FlushSystem) : list FlushPc :=
  take (pred (length (fl_tasks y))) (fl_tasks y).
End FlushLoop.
