(* ===== verification/FlushLoopFacts.v ===== *)
(** * Properties of the metrics flush task

    Conservation of billable calls, well-formedness, delivery order and sequence
    numbers over the executions of [system_step], in which the tasks of successive
    sessions overlap; and completeness of one undisturbed round. *)

From stdpp Require Import base list strings relations sorting.
From Stdlib Require Import ZArith Lia.
From S2P Require Import Prelude Time BTree Proto Metrics MetricsFacts FlushLoop.

#[local] Arguments drain : simpl never.
#[local] Arguments requeue_front : simpl never.
#[local] Arguments InFlight_drop : simpl never.

(** What a list of batches owes the ledger. *)
Definition sum_over {A} (f : A → Z) (l : list A) : Z := foldr (λ x acc, f x + acc)%Z 0%Z l.

Lemma sum_over_app {A} (f : A → Z) l1 l2 :
  sum_over f (l1 ++ l2) = (sum_over f l1 + sum_over f l2)%Z.
Proof. induction l1 as [|x l1 IH]; simpl; lia. Qed.

#[export] Instance sum_over_proper {A} (f : A → Z) : Proper ((≡ₚ) ==> (=)) (sum_over f).
Proof. intros l l' H. induction H; simpl; lia. Qed.

(** The batches that left the buffer: shipped, then the one in the guard. *)
Definition batches_out (st : FlushState) : list Drained :=
  fs_shipped st ++ option_list (in_flight (fs_pc st)).

(** Billable calls accounted for anywhere: in shipped reports, in flight, in the
    buffer, or in a drop counter of one of those. *)
Definition accounted_billable (st : FlushState) : Z :=
  sum_over batch_billable (batches_out st) + ledger_billable (fs_buf st).
Definition accounted_non_billable (st : FlushState) : Z :=
  sum_over batch_non_billable (batches_out st) + ledger_non_billable (fs_buf st).

(** Every sample still on its way or delivered, oldest first. *)
Definition timeline (st : FlushState) : list ToolCallSample :=
  concat (d_samples <$> batches_out st) ++ samples (buf (fs_buf st)).

Lemma Drained_is_empty_zero d :
  Drained_is_empty d = true →
  d_samples d = [] ∧ batch_billable d = 0%Z ∧ batch_non_billable d = 0%Z.
Proof.
  unfold Drained_is_empty, batch_billable, batch_non_billable.
  rewrite !andb_true_iff, !vec_is_empty_true, !Z.eqb_eq.
  intros [[[-> ->] ->] _]. done.
Qed.

(** What the guard's drop does to a well-formed buffer. *)
Lemma InFlight_drop_facts o b :
  Inner_wf b → (∀ d, o = Some d → Drained_wf d) →
  let b' := InFlight_drop o b in
  Inner_wf b' ∧ seq b' = seq b ∧ cap b' = cap b ∧ batch_cap b' = batch_cap b ∧
  eq64 (ledger_billable b') (ledger_billable b + sum_over batch_billable (option_list o)) ∧
  eq64 (ledger_non_billable b')
       (ledger_non_billable b + sum_over batch_non_billable (option_list o)) ∧
  samples (buf b') `sublist_of` concat (d_samples <$> option_list o) ++ samples (buf b).
Proof.
  intros Hwf Ho. destruct o as [d|]; simpl; [|rewrite !Z.add_0_r; by split_and!].
  specialize (Ho d eq_refl). rewrite app_nil_r, !Z.add_0_r. unfold InFlight_drop.
  destruct (Drained_is_empty d) eqn:He.
  { destruct (Drained_is_empty_zero d He) as (-> & -> & ->). rewrite !Z.add_0_r. by split_and!. }
  pose proof (requeue_samples (d_samples d) b (iw_non_billable b Hwf)) as H. cbv zeta in H.
  destruct H as (Es & _ & _ & _ & _ & _ & _ & Ec & Ebc & _ & _ & Eseq & _).
  destruct (requeue_ledger d b (iw_non_billable b Hwf)) as [E1 E2].
  split_and!; [by apply requeue_front_wf|done..|].
  unfold requeue_front. cbn [buf set_events set_dropped]. rewrite Es.
  apply sublist_app; [|done]. apply sublist_drop.
Qed.

(** ** What a step of one task does *)

Section steps.
Context (code : ToolOutcome → Z).
Implicit Types (st : FlushState).

(** The batch in the guard is well formed. *)
Definition held_wf (pc : FlushPc) : Prop := Forall Drained_wf (option_list (in_flight pc)).

Lemma after_batch_flight b count n : in_flight (after_batch b count n) = None.
Proof. unfold after_batch. by case_match. Qed.

Lemma return_facts st :
  Inner_wf (fs_buf st) → held_wf (fs_pc st) →
  let b' := InFlight_drop (in_flight (fs_pc st)) (fs_buf st) in
  Inner_wf b' ∧ seq b' = seq (fs_buf st) ∧
  eq64 (ledger_billable b')
    (ledger_billable (fs_buf st) + sum_over batch_billable (option_list (in_flight (fs_pc st)))) ∧
  eq64 (ledger_non_billable b')
    (ledger_non_billable (fs_buf st) +
     sum_over batch_non_billable (option_list (in_flight (fs_pc st)))) ∧
  samples (buf b') `sublist_of`
    concat (d_samples <$> option_list (in_flight (fs_pc st))) ++ samples (buf (fs_buf st)).
Proof.
  intros Hw Hh. destruct (InFlight_drop_facts (in_flight (fs_pc st)) (fs_buf st) Hw)
    as (? & ? & _ & _ & ? & ? & ?); [|done].
  intros d Hd. unfold held_wf in Hh. rewrite Hd in Hh. by apply Forall_cons in Hh as [? _].
Qed.

(** A step of the task is one of these: nothing moves; a batch that is empty or is
    going to be sent leaves the buffer; the batch in the guard is shipped, or goes
    back to the buffer. *)
Inductive moves st : FlushState → Prop :=
| moves_nothing b' pc' :
    b' = fs_buf st ∨ b' = set_flush_early (fs_buf st) false →
    in_flight (fs_pc st) = None → in_flight pc' = None → moves st (with_task st b' pc')
| moves_out now d b' pc' :
    in_flight (fs_pc st) = None → drain now (fs_buf st) = (d, b') →
    (in_flight pc' = Some d ∧
       (∃ n msg, pc' = Sending n d msg ∧ batch_to_message code (timestamp_secs now) d = Some msg) ∨
     in_flight pc' = None ∧ Drained_is_empty d = true) →
    moves st {| fs_buf := b'; fs_pc := pc'; fs_out := fs_out st; fs_shipped := fs_shipped st;
                fs_recorded := fs_recorded st; fs_drains := S (fs_drains st) |}
| moves_on n d msg pc' :
    fs_pc st = Sending n d msg → in_flight pc' = None →
    moves st {| fs_buf := fs_buf st; fs_pc := pc'; fs_out := fs_out st ++ [msg];
                fs_shipped := fs_shipped st ++ [d]; fs_recorded := fs_recorded st;
                fs_drains := fs_drains st |}
| moves_back pc' :
    in_flight pc' = None →
    moves st (with_task st (InFlight_drop (in_flight (fs_pc st)) (fs_buf st)) pc').

Lemma task_step_moves st st' : flush_task_step code st st' → moves st st'.
Proof.
  intros [u [Hp|Hp]|u Hp Hf|u Hp|u Hp|u n now d b' Hp Hd|u n d msg Hp|u n d msg Hp|u Ha].
  1-5: apply moves_nothing; rewrite ?Hp; auto.
  - eapply moves_out; [by rewrite Hp|done|].
    destruct (batch_to_message code (timestamp_secs now) d) as [msg|] eqn:Hm; [left; eauto|right].
    split; [apply after_batch_flight|]. unfold batch_to_message in Hm. by destruct (Drained_is_empty d).
  - eapply moves_on; [done|apply after_batch_flight].
  - replace (Some d) with (in_flight (fs_pc u)) by (by rewrite Hp). by apply moves_back.
  - by apply moves_back.
Qed.

Lemma moves_wf st st' :
  moves st st' → Inner_wf (fs_buf st) → held_wf (fs_pc st) →
  Inner_wf (fs_buf st') ∧ held_wf (fs_pc st') ∧ fs_recorded st' = fs_recorded st.
Proof.
  intros [b' pc' Hb Hp Hp'|now d b' pc' Hp Hd Hp'|n d msg pc' Hp Hp'|pc' Hp'] Hw Hh;
    unfold held_wf; cbn.
  - rewrite Hp'. split_and!; [|constructor|done]. destruct Hb as [-> | ->]; [done|].
    destruct Hw; by split.
  - pose proof (drain_wf now _ Hw) as [Hw' Hd']. rewrite Hd in *. split_and!; [done| |done].
    destruct Hp' as [[-> _]|[-> _]]; repeat constructor; apply Hd'.
  - rewrite Hp'. split_and!; [done|constructor|done].
  - destruct (return_facts st Hw Hh) as (? & _). rewrite Hp'. split_and!; [done|constructor|done].
Qed.

Lemma moves_accounts st st' :
  moves st st' → Inner_wf (fs_buf st) → held_wf (fs_pc st) →
  eq64 (accounted_billable st') (accounted_billable st) ∧
  eq64 (accounted_non_billable st') (accounted_non_billable st).
Proof.
  intros Hm Hw Hh. unfold accounted_billable, accounted_non_billable, batches_out.
  rewrite !sum_over_app.
  destruct Hm as [b' pc' Hb Hp Hp'|now d b' pc' Hp Hd Hp'|n d msg pc' Hp Hp'|pc' Hp'];
    cbn [with_task fs_buf fs_pc fs_shipped]; rewrite ?sum_over_app.
  - rewrite Hp, Hp'. destruct Hb as [-> | ->]; by split.
  - pose proof (drain_ledger now (fs_buf st)) as L. rewrite Hd in L. destruct L as [L1 L2]. rewrite Hp.
    destruct Hp' as [[-> _]|[-> (_ & E1 & E2)%Drained_is_empty_zero]]; cbn;
      split; apply eq64_of_eq; lia.
  - rewrite Hp, Hp'. cbn. split; apply eq64_of_eq; lia.
  - destruct (return_facts st Hw Hh) as (_ & _ & E1 & E2 & _). rewrite Hp'. cbn.
    split; [rewrite E1|rewrite E2]; apply eq64_of_eq; lia.
Qed.

(** No step overtakes a sample. *)
Lemma moves_order st st' :
  moves st st' → Inner_wf (fs_buf st) → held_wf (fs_pc st) → timeline st' `sublist_of` timeline st.
Proof.
  intros Hm Hw Hh. unfold timeline, batches_out.
  destruct Hm as [b' pc' Hb Hp Hp'|now d b' pc' Hp Hd Hp'|n d msg pc' Hp Hp'|pc' Hp']; cbn.
  - rewrite Hp, Hp'. destruct Hb as [-> | ->]; done.
  - pose proof (drain_spec now (fs_buf st)) as L. rewrite Hd in L. destruct L as (Hsm & _).
    rewrite Hp, <- Hsm, !fmap_app, !concat_app. cbn.
    destruct Hp' as [[-> _]|[-> (-> & _)%Drained_is_empty_zero]]; cbn; rewrite ?app_nil_r, <- ?app_assoc; done.
  - rewrite Hp, Hp'. cbn. by rewrite !app_nil_r.
  - destruct (return_facts st Hw Hh) as (_ & _ & _ & _ & Hs). rewrite Hp'. cbn.
    rewrite app_nil_r, fmap_app, concat_app, <- app_assoc. by apply sublist_app.
Qed.

(** The batches that are out: some of those before, or they and one more with the
    next sequence number. *)
Lemma moves_seqs st st' :
  moves st st' → Inner_wf (fs_buf st) → held_wf (fs_pc st) →
  (batches_out st' `sublist_of` batches_out st ∧ fs_drains st' = fs_drains st ∧
     seq (fs_buf st') = seq (fs_buf st)) ∨
  (∃ d, batches_out st' `sublist_of` batches_out st ++ [d] ∧ fs_drains st' = S (fs_drains st) ∧
     seq (fs_buf st') = d_seq d ∧ d_seq d = wrap_u64 (seq (fs_buf st) + 1)).
Proof.
  intros Hm Hw Hh. unfold batches_out.
  destruct Hm as [b' pc' Hb Hp Hp'|now d b' pc' Hp Hd Hp'|n d msg pc' Hp Hp'|pc' Hp']; cbn.
  - left. rewrite Hp, Hp'. destruct Hb as [-> | ->]; by split.
  - pose proof (drain_spec now (fs_buf st)) as L. rewrite Hd in L.
    destruct L as (_ & _ & _ & _ & _ & Hds & Hse & _).
    right. exists d. split_and!; [|done..]. rewrite Hp. cbn. rewrite app_nil_r.
    destruct Hp' as [[-> _]|[-> _]]; cbn; [done|]. rewrite app_nil_r. by apply sublist_inserts_r.
  - left. rewrite Hp, Hp'. cbn. by rewrite app_nil_r.
  - left. destruct (return_facts st Hw Hh) as (_ & Hs & _). rewrite Hp'. cbn. split_and!; [|done..].
    rewrite app_nil_r. by apply sublist_inserts_r.
Qed.

(** Every accepted message is the report of its batch. *)
Definition reports (d : Drained) (m : AgentMessage) : Prop := ∃ now, batch_to_message code now d = Some m.
Definition sends_report (pc : FlushPc) : Prop := ∀ n d m, pc = Sending n d m → reports d m.

Lemma moves_reports st st' :
  moves st st' → Forall2 reports (fs_shipped st) (fs_out st) → sends_report (fs_pc st) →
  Forall2 reports (fs_shipped st') (fs_out st') ∧ sends_report (fs_pc st').
Proof.
  intros [b' pc' Hb Hp Hp'|now d b' pc' Hp Hd Hp'|n d msg pc' Hp Hp'|pc' Hp'] Hf Hr; cbn;
    (split; [|try (intros ? ? ? ->; done)]); try done.
  - intros n d' m ->. destruct Hp' as [[_ (n' & msg & [= -> -> ->] & Hm)]|[Hp' _]]; [|done].
    by exists (timestamp_secs now).
  - apply Forall2_app; [done|]. constructor; [|done]. by apply (Hr n).
Qed.
End steps.

(** ** Every interleaving of all tasks *)

Section system.
Context (code : ToolOutcome → Z).
Implicit Types (y : FlushSystem).

(** The batches the tasks hold, and all that left the buffer. *)
Definition held (tasks : list FlushPc) : list Drained :=
  concat ((option_list ∘ in_flight) <$> tasks).
Definition system_out y : list Drained := fl_shipped y ++ held (fl_tasks y).

(** Every sample still on its way or delivered, oldest first. *)
Definition system_timeline y : list ToolCallSample :=
  concat (d_samples <$> system_out y) ++ samples (buf (fl_buf y)).

Definition system_billable y : Z :=
  sum_over batch_billable (system_out y) + ledger_billable (fl_buf y).
Definition system_non_billable y : Z :=
  sum_over batch_non_billable (system_out y) + ledger_non_billable (fl_buf y).

Lemma held_app tasks tasks' : held (tasks ++ tasks') = held tasks ++ held tasks'.
Proof. unfold held. by rewrite fmap_app, concat_app. Qed.

(** Around one task. *)
Lemma held_middle tasks i pc pc' :
  tasks !! i = Some pc →
  held tasks = held (take i tasks) ++ option_list (in_flight pc) ++ held (drop (S i) tasks) ∧
  held (<[i:=pc']> tasks) =
    held (take i tasks) ++ option_list (in_flight pc') ++ held (drop (S i) tasks).
Proof.
  intros Hi. split; [rewrite <- (take_drop_middle tasks i pc Hi) at 1|
    rewrite insert_take_drop by (by eapply lookup_lt_Some)]; by rewrite held_app.
Qed.

(** The batches of the other tasks. *)
Definition others (tasks : list FlushPc) (i : nat) : list Drained :=
  held (take i tasks) ++ held (drop (S i) tasks).

Lemma system_out_focus y i pc st :
  fl_tasks y !! i = Some pc →
  system_out y ≡ₚ batches_out (focus pc y) ++ others (fl_tasks y) i ∧
  system_out (unfocus (<[i:=fs_pc st]> (fl_tasks y)) st) ≡ₚ batches_out st ++ others (fl_tasks y) i.
Proof.
  intros Hi. destruct (held_middle _ _ _ (fs_pc st) Hi) as [E1 E2].
  unfold system_out, batches_out, others, unfocus. cbn [fl_shipped fl_tasks focus fs_shipped fs_pc].
  rewrite E1, E2. split; solve_Permutation.
Qed.

(** Distinct numbers, none above the number of drains. *)
Definition numbered (n : nat) (ds : list Drained) : Prop :=
  NoDup (d_seq <$> ds) ∧ Forall (λ d, (d_seq d ≤ Z.of_nat n)%Z) ds.

Lemma numbered_submseteq n ds ds' : ds' ⊆+ ds → numbered n ds → numbered n ds'.
Proof.
  intros (k & Hp)%submseteq_Permutation [H1 H2]. unfold numbered. rewrite Hp in H1, H2.
  rewrite fmap_app in H1. apply NoDup_app in H1 as [? _]. by apply Forall_app in H2 as [? _].
Qed.

Lemma numbered_snoc n ds d :
  d_seq d = Z.of_nat (S n) → numbered n ds → numbered (S n) (d :: ds).
Proof.
  intros Hd [H1 H2]. split.
  - rewrite fmap_cons. apply NoDup_cons. split; [|done].
    intros (d' & E & Hin)%list_elem_of_fmap. rewrite Forall_forall in H2. specialize (H2 d' Hin). lia.
  - constructor; [lia|]. eapply Forall_impl; [exact H2|]. simpl. lia.
Qed.

Record system_inv y : Prop := {
  sy_wf : Inner_wf (fl_buf y);
  sy_held : Forall held_wf (fl_tasks y);
  sy_billable : eq64 (system_billable y) (Z.of_nat (count_if billable (fl_recorded y)));
  sy_non_billable :
    eq64 (system_non_billable y) (Z.of_nat (count_if non_billable_sample (fl_recorded y)));
  sy_seq : seq (fl_buf y) = wrap_u64 (Z.of_nat (fl_drains y));
  sy_seqs : (Z.of_nat (fl_drains y) ≤ U64_MAX)%Z →
            numbered (fl_drains y) (system_out y);
  sy_out : Forall2 (reports code) (fl_shipped y) (fl_out y);
  sy_sends : Forall (sends_report code) (fl_tasks y)
}.

Lemma system_inv_init c bc : system_inv (system_init (with_caps c bc)).
Proof. split; cbn; auto with cpc; try done. intros _; split; constructor. Qed.

Lemma system_inv_host y pc st :
  flush_host_step (focus pc y) st → system_inv y → system_inv (unfocus (fl_tasks y) st).
Proof.
  intros Hst [Hwf Hh Hb Hn Hs Hq Ho Hm]. remember (focus pc y) as x eqn:E.
  destruct Hst as [x s|x now n md c Hc]; subst x; cbn.
  - pose proof (iw_non_billable _ Hwf) as Hnb.
    destruct (record_ledger s (fl_buf y) Hnb) as [E1 E2].
    destruct (record_refines s (fl_buf y) Hnb) as (_ & _ & _ & _ & _ & _ & _ & Eseq & _).
    split; unfold system_billable, system_non_billable, system_out in *; cbn;
      rewrite ?count_if_app; auto with cpc; try congruence.
    + rewrite E1, Z.add_assoc, Hb. apply eq64_of_eq. simpl. lia.
    + rewrite E2, Z.add_assoc, Hn. apply eq64_of_eq. simpl. lia.
  - pose proof (record_events_wf now n md c (fl_buf y) Hc Hwf) as Hwf'.
    assert (buf (record_events now n md c (fl_buf y)) = buf (fl_buf y) ∧
      dropped_overflow (record_events now n md c (fl_buf y)) = dropped_overflow (fl_buf y) ∧
      dropped_non_billable (record_events now n md c (fl_buf y)) = dropped_non_billable (fl_buf y) ∧
      seq (record_events now n md c (fl_buf y)) = seq (fl_buf y)) as (E1 & E2 & E3 & E4)
      by (unfold record_events; by case_decide).
    split; unfold system_billable, system_non_billable, system_out, ledger_billable,
      ledger_non_billable in *; cbn; rewrite ?E1, ?E2, ?E3, ?E4; auto.
Qed.

Lemma system_inv_task y i pc st :
  fl_tasks y !! i = Some pc → flush_task_step code (focus pc y) st → system_inv y →
  system_inv (unfocus (<[i:=fs_pc st]> (fl_tasks y)) st).
Proof.
  intros Hi Hst%task_step_moves [Hwf Hh Hb Hn Hs Hq Ho Hm].
  assert (held_wf pc) as Hpc by (by eapply Forall_lookup_1 in Hh).
  assert (sends_report code pc) as Hpm by (by eapply Forall_lookup_1 in Hm).
  destruct (moves_wf _ _ _ Hst Hwf Hpc) as (Hwf' & Hpc' & Er).
  destruct (moves_accounts _ _ _ Hst Hwf Hpc) as (E1 & E2).
  destruct (moves_reports _ _ _ Hst Ho Hpm) as (Ho' & Hm').
  destruct (system_out_focus y i pc st Hi) as [P P'].
  unfold accounted_billable, accounted_non_billable in *.
  cbn [focus fs_buf fs_recorded] in Er, E1, E2.
  split; unfold system_billable, system_non_billable in *;
    cbn [fl_buf fl_tasks fl_recorded fl_drains fl_shipped fl_out unfocus]; try done.
  - by apply Forall_insert.
  - rewrite Er, <- Hb, P, P', !sum_over_app.
    set (o := sum_over _ (others _ _)). apply (eq64_shift _ _ o) in E1.
    etransitivity; [|etransitivity; [exact E1|]]; apply eq64_of_eq; lia.
  - rewrite Er, <- Hn, P, P', !sum_over_app.
    set (o := sum_over _ (others _ _)). apply (eq64_shift _ _ o) in E2.
    etransitivity; [|etransitivity; [exact E2|]]; apply eq64_of_eq; lia.
  - destruct (moves_seqs _ _ _ Hst Hwf Hpc) as [(_ & -> & ->)|(d & _ & -> & -> & ->)]; [done|].
    cbn. rewrite Hs. change (eq64 (wrap_u64 (Z.of_nat (fl_drains y)) + 1) (Z.of_nat (S (fl_drains y)))).
    rewrite wrap_u64_eq64. apply eq64_of_eq. lia.
  - intros Hmax. eapply numbered_submseteq; [by rewrite P'|].
    destruct (moves_seqs _ _ _ Hst Hwf Hpc) as [(Hsub & Ed & _)|(d & Hsub & Ed & _ & Hd)];
      cbn in Ed, Hsub; rewrite Ed in *.
    + apply (numbered_submseteq _ (system_out y)); [|by apply Hq]. rewrite P.
      by apply submseteq_app, reflexivity; apply sublist_submseteq.
    + apply (numbered_submseteq _ (d :: system_out y)).
      * rewrite P. etransitivity; [apply submseteq_app; [by apply sublist_submseteq|reflexivity]|].
        apply Permutation_submseteq. solve_Permutation.
      * apply numbered_snoc; [|apply Hq; lia]. cbn in Hd. rewrite Hd, Hs.
        rewrite <- (wrap_u64_small (Z.of_nat (S _))) by (unfold in_u64; lia).
        change (eq64 (wrap_u64 (Z.of_nat (fl_drains y)) + 1) (Z.of_nat (S (fl_drains y)))).
        rewrite wrap_u64_eq64. apply eq64_of_eq. lia.
  - by apply Forall_insert.
Qed.

Lemma system_step_inv y y' : system_step code y y' → system_inv y → system_inv y'.
Proof.
  intros [x pc st Hst|x i pc st Hi Hst|x pc] Hinv;
    [by eapply system_inv_host|by eapply system_inv_task|].
  destruct Hinv as [Hwf Hh Hb Hn Hs Hq Ho Hm].
  assert (system_out (unfocus (fl_tasks x ++ [Starting]) (focus pc x)) = system_out x) as E.
  { unfold system_out, unfocus. cbn [fl_shipped fl_tasks focus fs_shipped]. rewrite held_app.
    change (held [Starting]) with (@nil Drained). by rewrite app_nil_r. }
  split; unfold system_billable, system_non_billable in *; rewrite ?E; try done;
    apply Forall_app; repeat constructor; try done.
Qed.

Lemma system_reachable_inv c bc y : system_reachable code c bc y → system_inv y.
Proof.
  intros Hr. eapply rtc_preserve; [apply system_step_inv|exact Hr|apply system_inv_init].
Qed.


(** One task on its own is such a system. *)
Lemma flush_step_system st st' :
  flush_step code st st' → system_step code (unfocus [fs_pc st] st) (unfocus [fs_pc st'] st').
Proof.
  intros [Hst|Hst].
  - assert (fs_pc st' = fs_pc st) as E by (by destruct Hst). rewrite E.
    apply (system_host code (unfocus [fs_pc st] st) (fs_pc st)). by destruct st.
  - apply (system_task code (unfocus [fs_pc st] st) 0 (fs_pc st)); [done|]. by destruct st.
Qed.

Lemma flush_reachable_system c bc st :
  flush_reachable code c bc st → system_reachable code c bc (unfocus [fs_pc st] st).
Proof.
  intros Hr. eapply rtc_l; [apply (system_spawn code _ Closed)|].
  exact (rtc_congruence (λ st, unfocus [fs_pc st] st) (system_step code) _ _ flush_step_system Hr).
Qed.

Lemma flush_reachable_wf c bc st : flush_reachable code c bc st → Inner_wf (fs_buf st).
Proof. by intros [? _ _ _ _ _ _ _]%flush_reachable_system%system_reachable_inv. Qed.

(** *** Order *)

(** No task of an earlier session holds a batch. *)
Definition handed_over y : Prop := Forall (λ pc, in_flight pc = None) (leftover y).
Definition handover_step y y' : Prop := system_step code y y' ∧ handed_over y'.

Lemma held_none tasks : Forall (λ pc, in_flight pc = None) tasks → held tasks = [].
Proof. unfold held. induction 1 as [|pc tasks Hpc _ IH]; [done|]. cbn. by rewrite Hpc, IH. Qed.

(** The newest task, and the others. *)
Lemma leftover_split y i pc :
  fl_tasks y !! i = Some pc → handed_over y →
  (S i = length (fl_tasks y) ∧ system_out y = batches_out (focus pc y)) ∨
  (i < pred (length (fl_tasks y)) ∧ in_flight pc = None).
Proof.
  unfold handed_over, leftover. intros Hi Hh. pose proof (lookup_lt_Some _ _ _ Hi) as Hlt.
  destruct (decide (S i = length (fl_tasks y))) as [E|E]; [left|right].
  - split; [done|]. rewrite <- E in Hh. cbn in Hh. destruct (held_middle _ _ _ pc Hi) as [E1 _].
    unfold system_out, batches_out. rewrite E1, (held_none _ Hh). cbn.
    rewrite drop_ge by lia. cbn. by rewrite app_nil_r.
  - split; [lia|]. rewrite Forall_lookup in Hh. apply (Hh i). by rewrite lookup_take_lt by lia.
Qed.

(** A step of a task that holds nothing before and after ships nothing and moves no
    sample. *)
Lemma moves_empty st st' :
  moves code st st' → Inner_wf (fs_buf st) → held_wf (fs_pc st) →
  in_flight (fs_pc st) = None → in_flight (fs_pc st') = None →
  fs_shipped st' = fs_shipped st ∧ samples (buf (fs_buf st')) `sublist_of` samples (buf (fs_buf st)).
Proof.
  intros Hm Hw Hh E E'.
  assert (fs_shipped st' = fs_shipped st) as Es.
  { destruct Hm as [| |n d msg pc' Hp|]; [done|done| |done]. by rewrite Hp in E. }
  split; [done|]. pose proof (moves_order _ _ _ Hm Hw Hh) as Ho.
  unfold timeline, batches_out in Ho. rewrite E, E', Es in Ho. by apply sublist_app_inv_l in Ho.
Qed.

Lemma system_order_task y i pc st :
  fl_tasks y !! i = Some pc → flush_task_step code (focus pc y) st → system_inv y →
  handed_over y → handed_over (unfocus (<[i:=fs_pc st]> (fl_tasks y)) st) →
  system_timeline (unfocus (<[i:=fs_pc st]> (fl_tasks y)) st) `sublist_of` system_timeline y ∧
  fl_recorded (unfocus (<[i:=fs_pc st]> (fl_tasks y)) st) = fl_recorded y.
Proof.
  intros Hi Hst%task_step_moves Hinv Hh Hh'.
  assert (held_wf pc) as Hpc by (pose proof (sy_held _ Hinv) as H; by eapply Forall_lookup_1 in H).
  pose proof (sy_wf _ Hinv) as Hwf.
  destruct (moves_wf _ _ _ Hst Hwf Hpc) as (_ & _ & Er). split; [|exact Er].
  assert (<[i:=fs_pc st]> (fl_tasks y) !! i = Some (fs_pc st)) as Hi'
    by (apply list_lookup_insert_eq; by eapply lookup_lt_Some).
  destruct (leftover_split y i pc Hi Hh) as [[En Eo]|[Hlt Ho]].
  - destruct (leftover_split (unfocus _ st) i (fs_pc st) Hi' Hh') as [[_ Eo']|[Hlt _]].
    + unfold system_timeline. rewrite Eo, Eo'.
      pose proof (moves_order _ _ _ Hst Hwf Hpc) as Hsub. unfold timeline in Hsub. by destruct st.
    + cbn in Hlt. rewrite length_insert in Hlt. lia.
  - destruct (leftover_split (unfocus _ st) i (fs_pc st) Hi' Hh') as [[En _]|[_ Ho']].
    { cbn in En. rewrite length_insert in En. lia. }
    destruct (moves_empty _ _ Hst Hwf Hpc Ho Ho') as [Es Hb].
    unfold system_timeline, system_out, unfocus. cbn [fl_buf fl_tasks fl_shipped].
    destruct (held_middle _ _ _ (fs_pc st) Hi) as [E1 E2]. rewrite E1, E2, Es, Ho, Ho'.
    by apply sublist_app.
Qed.

Lemma system_order_step y y' :
  handover_step y y' → system_inv y → handed_over y →
  system_timeline y `sublist_of` fl_recorded y → system_timeline y' `sublist_of` fl_recorded y'.
Proof.
  intros [Hst Hh'] Hinv Hh Ho. destruct Hst as [x pc st Hst|x i pc st Hi Hst|x pc].
  - remember (focus pc x) as z eqn:E. destruct Hst as [z s|z now n md c Hc]; subst z.
    + destruct (record_refines s (fl_buf x) (iw_non_billable _ (sy_wf _ Hinv))) as (Es & _).
      unfold system_timeline, system_out in *. cbn. rewrite Es.
      etrans; [apply sublist_app; [done|apply spec_record_sublist]|].
      rewrite app_assoc. by apply sublist_app.
    + unfold system_timeline, system_out in *. cbn. unfold record_events. by case_decide.
  - destruct (system_order_task x i pc st Hi Hst Hinv Hh Hh') as [Hs ->]. by etrans.
  - unfold system_timeline, system_out, unfocus in *. cbn [fl_buf fl_tasks fl_shipped focus fs_buf
      fs_shipped fl_recorded fs_recorded]. rewrite held_app.
    change (held [Starting]) with (@nil Drained). by rewrite app_nil_r.
Qed.

Lemma handover_run c bc y :
  rtc handover_step (system_init (with_caps c bc)) y →
  system_inv y ∧ handed_over y ∧ system_timeline y `sublist_of` fl_recorded y.
Proof.
  intros Hr.
  eapply (rtc_preserve _ (λ y, system_inv y ∧ handed_over y ∧ system_timeline y `sublist_of` fl_recorded y));
    [|exact Hr|].
  - intros x z Hs (Hi & Hh & Ho). split_and!; [by eapply system_step_inv; [apply Hs|]|apply Hs|].
    by eapply system_order_step.
  - split_and!; [apply system_inv_init|constructor|done].
Qed.
End system.

(** ** Properties of every interleaving *)

(** No billable call is lost or counted twice, whatever the interleaving of
    recording threads, the flush tasks of all sessions, failed sends and
    cancellations: the billable calls in shipped reports, in flight and in the
    buffer, plus the billable drop counts of all three, add up (modulo the 64-bit
    counters) to the billable calls recorded; the same holds of the non-billable
    ones. *)
Theorem flush_conserves_calls code c bc y :
  system_reachable code c bc y →
  eq64 (system_billable y) (Z.of_nat (count_if billable (fl_recorded y))) ∧
  eq64 (system_non_billable y) (Z.of_nat (count_if non_billable_sample (fl_recorded y))).
Proof. intros H%system_reachable_inv. split; apply H. Qed.


(** Every message queued is the report of a batch that was drained, one
    message per batch, and, for fewer than 2^64 drains, no two have the same
    sequence number. *)
Theorem flush_reports_are_numbered code c bc y :
  system_reachable code c bc y →
  Forall2 (λ d m, ∃ now, batch_to_message code now d = Some m) (fl_shipped y) (fl_out y) ∧
  ((Z.of_nat (fl_drains y) ≤ U64_MAX)%Z → NoDup (d_seq <$> fl_shipped y)).
Proof.
  intros H%system_reachable_inv. split; [apply H|]. intros Hd.
  destruct (sy_seqs _ _ H Hd) as [Hs _]. unfold system_out in Hs. rewrite fmap_app in Hs.
  by apply NoDup_app in Hs as [? _].
Qed.

(** C40: in every reachable state, whatever the flush tasks of all sessions are doing,
    the buffer holds at most its cap of samples (one for a cap of zero), its
    [non_billable] count is exact and its counters are in range. *)
Theorem flush_keeps_buffer_well_formed code c bc y :
  system_reachable code c bc y → Inner_wf (fl_buf y).
Proof. intros H%system_reachable_inv. apply H. Qed.

(** ** One undisturbed round *)

(** The samples a message carries. *)
Definition invocations (m : AgentMessage) : list ToolInvocationSample :=
  match kind m with Some (KMetricsReport r) => mr_invocations r | _ => [] end.

Lemma batch_to_message_invocations code now d :
  match batch_to_message code now d with
  | Some m => invocations m = map (sample_to_wire code) (d_samples d)
  | None => d_samples d = []
  end.
Proof.
  unfold batch_to_message. destruct (Drained_is_empty d) eqn:E; [|done].
  by apply Drained_is_empty_zero in E as [? _].
Qed.

Lemma InFlight_drop_restores now b :
  Inner_wf b → 1 ≤ cap b →
  let '(d, b') := drain now b in
  samples (buf (InFlight_drop (Some d) b')) = samples (buf b).
Proof.
  intros Hwf Hcap. pose proof (drain_requeue now b Hwf Hcap) as Hrt.
  pose proof (drain_spec now b) as Hdt.
  destruct (drain now b) as [d b']. destruct Hdt as (Hsm & _). unfold InFlight_drop.
  destruct (Drained_is_empty d) eqn:E; [|by rewrite Hrt].
  apply Drained_is_empty_zero in E as [E _]. by rewrite <- Hsm, E.
Qed.

(** A round, stopped by a closed channel or not, ships a prefix and keeps the
    rest. *)
Lemma flush_round_split code n room now b :
  Inner_wf b → 1 ≤ cap b →
  let '(msgs, b', _) := flush_round code n room now b in
  concat (invocations <$> msgs) ++ map (sample_to_wire code) (samples (buf b')) =
    map (sample_to_wire code) (samples (buf b)) ∧
  Forall (λ m, length (invocations m) ≤ batch_cap b) msgs.
Proof.
  revert room b. induction n as [|n IH]; intros room b Hwf Hcap; [done|]. cbn [flush_round].
  pose proof (InFlight_drop_restores now b Hwf Hcap) as Hrs.
  pose proof (drain_spec now b) as Hdt.
  destruct (drain now b) as [d b1].
  destruct Hdt as (Hsm & Hlen & _ & _ & _ & _ & _ & _ & _ & _ & Hc & Hbc & Hwf1).
  pose proof (batch_to_message_invocations code (timestamp_secs now) d) as Hinv.
  specialize (IH (pred room) b1 (Hwf1 Hwf)) as IHs. rewrite Hc, Hbc in IHs.
  specialize (IHs Hcap). specialize (IH room b1 (Hwf1 Hwf)). rewrite Hc, Hbc in IH.
  specialize (IH Hcap). rewrite <- Hsm, map_app.
  destruct (batch_to_message code _ d) as [msg|].
  - destruct room as [|room]; [by cbn; rewrite Hrs, <- Hsm, map_app|].
    unfold InFlight_drop. rewrite Hbc.
    destruct (length (d_samples d) <? batch_cap b).
    + simpl. rewrite Hinv, app_nil_r. split; [done|]. constructor; [|done].
      rewrite Hinv, length_map. lia.
    + cbn [pred] in IHs. destruct (flush_round code n room now b1) as [[msgs b2] cl].
      destruct IHs as [E F]. rewrite fmap_cons. cbn [concat].
      rewrite Hinv, <- app_assoc, E. split; [done|].
      constructor; [|done]. rewrite Hinv, length_map. lia.
  - rewrite Hinv. unfold InFlight_drop. rewrite Hbc. destruct (_ <? _); [done|]. apply IH.
Qed.

(** An open channel takes every batch, so enough iterations empty the buffer. *)
Lemma flush_round_complete code n room now b :
  1 ≤ batch_cap b → length (samples (buf b)) ≤ n * batch_cap b → n ≤ room →
  let '(_, b', closed) := flush_round code n room now b in
  samples (buf b') = [] ∧ closed = false.
Proof.
  revert room b. induction n as [|n IH]; intros room b Hbc Hlen Hroom; cbn [flush_round].
  { split; [|done]. apply nil_length_inv. lia. }
  pose proof (drain_spec now b) as Hdt.
  destruct (drain now b) as [d b1].
  destruct Hdt as (Hsm & Hdl & _ & _ & _ & _ & _ & _ & _ & _ & _ & Hb1 & _).
  assert (length (samples (buf b)) = length (d_samples d) + length (samples (buf b1))) as Hl.
  { by rewrite <- Hsm, length_app. }
  assert (length (d_samples d) < batch_cap b → samples (buf b1) = []) as Hdone.
  { intros. apply nil_length_inv. lia. }
  destruct room as [|room]; [lia|].
  assert (length (samples (buf b1)) ≤ n * batch_cap b1 ∨ length (d_samples d) < batch_cap b) as Hn.
  { rewrite Hb1. simpl in Hlen. lia. }
  destruct (batch_to_message code _ d) as [msg|]; unfold InFlight_drop; rewrite Hb1;
    destruct (Nat.ltb_spec (length (d_samples d)) (batch_cap b)); auto.
  - specialize (IH room b1). rewrite Hb1 in IH.
    destruct (flush_round code n room now b1) as [[msgs b2] cl]. apply IH; lia.
  - specialize (IH (S room) b1). rewrite Hb1 in IH. apply IH; lia.
Qed.

Lemma batches_per_tick_enough b :
  Inner_wf b → 1 ≤ batch_cap b →
  length (samples (buf b)) ≤ batches_per_tick b * batch_cap b.
Proof.
  intros Hwf Hbc. pose proof (iw_len b Hwf) as Hl.
  unfold batches_per_tick, div_ceil. replace (batch_cap b `max` 1) with (batch_cap b) by lia.
  pose proof (Nat.div_mod_eq (cap b) (batch_cap b)).
  pose proof (Nat.mod_upper_bound (cap b) (batch_cap b)).
  destruct (Nat.eqb_spec (cap b mod batch_cap b) 0); nia.
Qed.

(** One tick on an open channel ships the whole buffer: the reports carry
    every buffered sample, in order, at most [batch_cap] in each, the buffer is
    empty afterwards and the session goes on. *)
Theorem one_tick_ships_whole_buffer code room now b :
  Inner_wf b → 1 ≤ cap b → 1 ≤ batch_cap b → batches_per_tick b ≤ room →
  let '(msgs, b', closed) := flush_round code (batches_per_tick b) room now b in
  concat (invocations <$> msgs) = map (sample_to_wire code) (samples (buf b)) ∧
  Forall (λ m, length (invocations m) ≤ batch_cap b) msgs ∧
  samples (buf b') = [] ∧ closed = false.
Proof.
  intros Hwf Hcap Hbc Hroom.
  pose proof (flush_round_split code (batches_per_tick b) room now b Hwf Hcap) as H1.
  pose proof (flush_round_complete code (batches_per_tick b) room now b Hbc
                (batches_per_tick_enough b Hwf Hbc) Hroom) as H2.
  destruct (flush_round code (batches_per_tick b) room now b) as [[msgs b'] closed].
  destruct H1 as [E F], H2 as [Hs Hcl]. rewrite Hs, app_nil_r in E. auto.
Qed.

(** A channel that closes in the middle of a round costs no sample: what was
    queued is a prefix of the buffer, and the batch whose send failed is back
    in front of the rest, in order. *)
Theorem closed_channel_loses_no_sample code n room now b :
  Inner_wf b → 1 ≤ cap b →
  let '(msgs, b', _) := flush_round code n room now b in
  concat (invocations <$> msgs) ++ map (sample_to_wire code) (samples (buf b')) =
    map (sample_to_wire code) (samples (buf b)) ∧
  Forall (λ m, length (invocations m) ≤ batch_cap b) msgs.
Proof. apply flush_round_split. Qed.

(** ** The properties on a concrete run *)

Definition outcome_code (o : ToolOutcome) : Z :=
  match o with
  | ToolOk => 1 | ToolClientError => 2 | ToolServerError => 3
  | ToolPolicyDenied => 4 | ToolQuotaExceeded => 5 | ToolIdempotentReplay => 6
  end.

(** The system run by a schedule. *)
Inductive TaskMove := TaTick | TaEarly | TaWake | TaDone | TaDrain (now : DateTime) | TaSent | TaFailed | TaAbort.
Inductive SystemMove := SyRecord (s : ToolCallSample) | SySpawn | SyTask (i : nat) (a : TaskMove).

Section exec.
Context (code : ToolOutcome → Z).

Definition task_exec (a : TaskMove) (st : FlushState) : option FlushState :=
  let round := with_task st (fs_buf st) (Round (batches_per_tick (fs_buf st))) in
  match a, fs_pc st with
  | TaTick, Starting | TaTick, Idle => Some round
  | TaEarly, Idle =>
      if flush_early (fs_buf st) then Some (with_task st (set_flush_early (fs_buf st) false) EarlySleep)
      else None
  | TaWake, EarlySleep => Some round
  | TaDone, Round 0 => Some (with_task st (fs_buf st) Idle)
  | TaDrain now, Round (S n) =>
      let '(d, b) := drain now (fs_buf st) in
      Some {| fs_buf := b;
              fs_pc := match batch_to_message code (timestamp_secs now) d with
                       | Some msg => Sending n d msg
                       | None => after_batch b (length (d_samples d)) n
                       end;
              fs_out := fs_out st; fs_shipped := fs_shipped st;
              fs_recorded := fs_recorded st; fs_drains := S (fs_drains st) |}
  | TaSent, Sending n d msg =>
      Some {| fs_buf := InFlight_drop None (fs_buf st);
              fs_pc := after_batch (fs_buf st) (length (d_samples d)) n;
              fs_out := fs_out st ++ [msg]; fs_shipped := fs_shipped st ++ [d];
              fs_recorded := fs_recorded st; fs_drains := fs_drains st |}
  | TaFailed, Sending n d msg => Some (with_task st (InFlight_drop (Some d) (fs_buf st)) Closed)
  | TaAbort, pc =>
      if at_await pc then Some (with_task st (InFlight_drop (in_flight pc) (fs_buf st)) Closed) else None
  | _, _ => None
  end.

Lemma task_exec_sound a st st' : task_exec a st = Some st' → flush_task_step code st st'.
Proof.
  unfold task_exec. destruct a; cbv zeta.
  8: { destruct (at_await _) eqn:Ea; [|done]. intros [= <-]. by apply step_abort. }
  all: destruct (fs_pc st) as [| | |[|n]|n d msg|] eqn:Ep; try done;
    try (destruct (flush_early (fs_buf st)) eqn:Ef; [|done]);
    try (destruct (drain now _) as [d b] eqn:Ed); intros [= <-].
  all: first [by apply step_tick; auto|by apply step_early|by apply step_early_wake
    |by apply step_round_done|by apply step_drain|by eapply step_sent|by eapply step_send_failed].
Qed.

Definition system_exec (a : SystemMove) (y : FlushSystem) : option FlushSystem :=
  match a with
  | SyRecord s =>
      Some (unfocus (fl_tasks y)
        {| fs_buf := record s (fl_buf y); fs_pc := Closed; fs_out := fl_out y;
           fs_shipped := fl_shipped y; fs_recorded := fl_recorded y ++ [s]; fs_drains := fl_drains y |})
  | SySpawn => Some (unfocus (fl_tasks y ++ [Starting]) (focus Closed y))
  | SyTask i a =>
      pc ← fl_tasks y !! i;
      st ← task_exec a (focus pc y);
      Some (unfocus (<[i:=fs_pc st]> (fl_tasks y)) st)
  end.

Lemma system_exec_sound a y y' : system_exec a y = Some y' → system_step code y y'.
Proof.
  destruct a as [s| |i a]; cbn [system_exec].
  - intros [= <-]. apply (system_host code y Closed), step_record.
  - intros [= <-]. apply system_spawn.
  - intros (pc & Hi & (st & Hst & [= <-])%bind_Some)%bind_Some.
    eapply system_task; [done|by eapply task_exec_sound].
Qed.

(** A schedule whose moves and the states after them all pass a test. *)
Fixpoint system_run (ok : SystemMove → FlushSystem → bool) (acts : list SystemMove)
    (y : FlushSystem) : option FlushSystem :=
  match acts with
  | [] => Some y
  | a :: acts => y' ← system_exec a y; if ok a y' then system_run ok acts y' else None
  end.

Lemma system_run_sound ok (R : relation FlushSystem) acts y y' :
  (∀ a x x', system_exec a x = Some x' → ok a x' = true → R x x') →
  system_run ok acts y = Some y' → rtc R y y'.
Proof.
  intros Hok. revert y. induction acts as [|a acts IH]; intros y; cbn; [intros [= <-]; constructor|].
  intros (x & Hx & Hr)%bind_Some. destruct (ok a x) eqn:Eo; [|done].
  eapply rtc_l; [by eapply Hok|by apply IH].
Qed.

Definition is_handed_over (_ : SystemMove) (y : FlushSystem) : bool :=
  forallb (λ pc, match in_flight pc with None => true | _ => false end) (leftover y).

Lemma is_handed_over_spec a y : is_handed_over a y = true → handed_over y.
Proof.
  unfold is_handed_over, handed_over. intros H%Is_true_true%forallb_True.
  eapply Forall_impl; [exact H|]. intros pc. simpl. by destruct (in_flight pc).
Qed.
End exec.

(** A call recorded, drained by the task of a first session and handed back when that
    is aborted, and shipped by the task of the next. *)
Definition next_session_schedule : list SystemMove :=
  [SyRecord (sample_of "a" SampleOutcome.Ok); SySpawn; SyTask 0 TaTick; SyTask 0 (TaDrain epoch);
   SyTask 0 TaAbort; SySpawn; SyTask 1 TaTick; SyTask 1 (TaDrain epoch); SyTask 1 TaSent].

Definition next_session_run : FlushSystem :=
  default (system_init (with_caps 2 2))
    (system_run outcome_code is_handed_over next_session_schedule (system_init (with_caps 2 2))).

Lemma next_session_run_handed_over :
  rtc (handover_step outcome_code) (system_init (with_caps 2 2)) next_session_run.
Proof.
  assert (system_run outcome_code is_handed_over next_session_schedule (system_init (with_caps 2 2)) =
    Some next_session_run) as E by (apply some_default; vm_compute; reflexivity).
  eapply system_run_sound; [|exact E]. intros a x x' Hx Ho.
  split; [by eapply system_exec_sound|by eapply is_handed_over_spec].
Qed.

(** The batch of an aborted task that comes back only after the next session's task
    has shipped a later call is behind it in the timeline. *)
Definition late_return_schedule : list SystemMove :=
  [SyRecord (sample_of "a" SampleOutcome.Ok); SySpawn; SyTask 0 TaTick; SyTask 0 (TaDrain epoch);
   SySpawn; SyRecord (sample_of "b" SampleOutcome.Ok); SyTask 1 TaTick; SyTask 1 (TaDrain epoch);
   SyTask 1 TaSent; SyTask 0 TaAbort].

Definition late_return_run : FlushSystem :=
  default (system_init (with_caps 2 2))
    (system_run outcome_code (λ _ _, true) late_return_schedule (system_init (with_caps 2 2))).

Lemma late_return_reorders :
  system_reachable outcome_code 2 2 late_return_run ∧
  tool_name <$> fl_recorded late_return_run = ["a"; "b"] ∧
  tool_name <$> system_timeline late_return_run = ["b"; "a"].
Proof.
  split; [|by vm_compute].
  assert (system_run outcome_code (λ _ _, true) late_return_schedule (system_init (with_caps 2 2)) =
    Some late_return_run) as E by (apply some_default; vm_compute; reflexivity).
  eapply system_run_sound; [|exact E]. intros a x x' Hx _. by eapply system_exec_sound.
Qed.

Lemma next_session_run_reachable : system_reachable outcome_code 2 2 next_session_run.
Proof.
  eapply rtc_subrel; [|exact next_session_run_handed_over]. by intros y y' [? _].
Qed.

Lemma flush_conserves_calls_witness :
  length (fl_shipped next_session_run) = 1 ∧ count_if billable (fl_recorded next_session_run) = 1 ∧
  eq64 (system_billable next_session_run) (Z.of_nat (count_if billable (fl_recorded next_session_run))).
Proof.
  split; [vm_compute; reflexivity|]. split; [vm_compute; reflexivity|].
  exact (proj1 (flush_conserves_calls outcome_code 2 2 next_session_run next_session_run_reachable)).
Defined.


Lemma flush_reports_are_numbered_witness :
  length (fl_out next_session_run) = 1 ∧ NoDup (d_seq <$> fl_shipped next_session_run).
Proof.
  split; [vm_compute; reflexivity|].
  apply (proj2 (flush_reports_are_numbered outcome_code 2 2 next_session_run next_session_run_reachable)).
  vm_compute. discriminate.
Defined.

Lemma flush_keeps_buffer_well_formed_witness :
  length (fl_tasks next_session_run) = 2 ∧ Inner_wf (fl_buf next_session_run).
Proof.
  split; [vm_compute; reflexivity|].
  exact (flush_keeps_buffer_well_formed outcome_code 2 2 next_session_run next_session_run_reachable).
Defined.

Lemma one_tick_ships_whole_buffer_witness :
  let '(msgs, b', closed) := flush_round outcome_code (batches_per_tick demo_buffer) 5 epoch demo_buffer in
  concat (invocations <$> msgs) = map (sample_to_wire outcome_code) (samples (buf demo_buffer)) ∧
  length msgs = 2 ∧ samples (buf b') = [] ∧ closed = false.
Proof.
  pose proof (one_tick_ships_whole_buffer outcome_code 5 epoch demo_buffer demo_buffer_wf) as H.
  specialize (H ltac:(vm_compute; lia) ltac:(vm_compute; lia) ltac:(vm_compute; lia)).
  assert (length (flush_round outcome_code (batches_per_tick demo_buffer) 5 epoch demo_buffer).1.1 = 2)
    as Hlen by (vm_compute; reflexivity).
  destruct (flush_round _ _ _ _ _) as [[msgs b'] closed]. destruct H as (H1 & _ & H2 & H3).
  split; [exact H1|]. split; [exact Hlen|]. split; [exact H2|exact H3].
Defined.

Lemma closed_channel_loses_no_sample_witness :
  let '(msgs, b', closed) := flush_round outcome_code 2 1 epoch demo_buffer in
  closed = true ∧ length msgs = 1 ∧
  concat (invocations <$> msgs) ++ map (sample_to_wire outcome_code) (samples (buf b')) =
    map (sample_to_wire outcome_code) (samples (buf demo_buffer)).
Proof.
  pose proof (closed_channel_loses_no_sample outcome_code 2 1 epoch demo_buffer demo_buffer_wf) as H.
  specialize (H ltac:(vm_compute; lia)).
  split; [reflexivity|]. split; [reflexivity|]. exact (proj1 H).
Defined.
