(* ===== verification/Ledger.v ===== *)
(** * A ledger calculus for the metrics buffer

    What [MetricsBuffer]'s operations do to the account of tool calls: the calls in
    the buffer, in the batches that left it and in the drop counters, against the
    calls recorded.  One lemma per operation, for the executions of a whole session
    ([Session]), in which two tasks drain the same buffer. *)

From stdpp Require Import base list.
From Stdlib Require Import ZArith Lia.
From S2P Require Import Prelude Time BTree Proto Metrics MetricsFacts FlushLoop FlushLoopFacts.

(** ** The ledger *)

(** The buffer [b], the batches [out] that left it and are not counted elsewhere,
    and the samples recorded since the ledger stood at [bb] billable and [bn]
    non-billable calls. *)
Record ledger_ok (bb bn : Z) (b : Inner) (out : list Drained)
    (recorded : list ToolCallSample) : Prop := {
  lo_wf : Inner_wf b;
  lo_out : Forall Drained_wf out;
  lo_billable : eq64 (sum_over batch_billable out + ledger_billable b)
                     (bb + Z.of_nat (count_if billable recorded));
  lo_non_billable : eq64 (sum_over batch_non_billable out + ledger_non_billable b)
                         (bn + Z.of_nat (count_if non_billable_sample recorded))
}.

Section ledger.
Context (bb bn : Z).
Implicit Types (b : Inner) (d : Drained) (out : list Drained).

Lemma ledger_perm b out out' recorded :
  out ≡ₚ out' → ledger_ok bb bn b out recorded → ledger_ok bb bn b out' recorded.
Proof. intros Hp [Hw Ho Hb Hn]. split; [done| | |]; by rewrite <- Hp. Qed.

Lemma ledger_record b out recorded s :
  ledger_ok bb bn b out recorded → ledger_ok bb bn (record s b) out (recorded ++ [s]).
Proof.
  intros [Hw Ho Hb Hn]. destruct (record_ledger s b (iw_non_billable _ Hw)) as [E1 E2].
  split; [by apply record_wf|done| |]; rewrite count_if_app.
  - rewrite E1, Z.add_assoc, Hb. apply eq64_of_eq. simpl. lia.
  - rewrite E2, Z.add_assoc, Hn. apply eq64_of_eq. simpl. lia.
Qed.

(** An operation that leaves the ring and its counters alone. *)
Lemma ledger_same b b' out recorded :
  Inner_wf b' → buf b' = buf b → dropped_overflow b' = dropped_overflow b →
  dropped_non_billable b' = dropped_non_billable b →
  ledger_ok bb bn b out recorded → ledger_ok bb bn b' out recorded.
Proof.
  intros Hw' E1 E2 E3 [Hw Ho Hb Hn]. unfold ledger_billable, ledger_non_billable in *.
  split; [done|done| |]; unfold ledger_billable, ledger_non_billable; by rewrite E1, ?E2, ?E3.
Qed.

Lemma ledger_record_events b out recorded now name md c :
  EventCounts_wf c → ledger_ok bb bn b out recorded →
  ledger_ok bb bn (record_events now name md c b) out recorded.
Proof.
  intros Hc H. assert (Inner_wf b) as Hw by apply H.
  apply (ledger_same b); [by apply record_events_wf| | | |done];
    unfold record_events; by case_decide.
Qed.

Lemma ledger_flush_early b out recorded p :
  ledger_ok bb bn b out recorded → ledger_ok bb bn (set_flush_early b p) out recorded.
Proof.
  intros H. apply (ledger_same b); try done. destruct (lo_wf _ _ _ _ _ H). by split.
Qed.

Lemma ledger_drain b out recorded now d b' :
  drain now b = (d, b') → ledger_ok bb bn b out recorded →
  ledger_ok bb bn b' (d :: out) recorded.
Proof.
  intros E [Hw Ho Hb Hn]. pose proof (drain_wf now b Hw) as [Hw' Hd].
  pose proof (drain_ledger now b) as Hl. rewrite E in *. simpl in *. destruct Hl as [L1 L2].
  split; [done|by constructor| |]; simpl; [rewrite <- Hb, <- L1|rewrite <- Hn, <- L2];
    apply eq64_of_eq; lia.
Qed.

(** A batch of nothing needs no accounting. *)
Lemma ledger_empty b out recorded d :
  Drained_is_empty d = true → ledger_ok bb bn b (d :: out) recorded → ledger_ok bb bn b out recorded.
Proof.
  intros (_ & E1 & E2)%Drained_is_empty_zero [Hw Ho Hb Hn]. apply Forall_cons in Ho as [_ Ho].
  simpl in *. rewrite E1 in Hb. rewrite E2 in Hn. split; [done|done| |].
  - rewrite <- Hb. apply eq64_of_eq. lia.
  - rewrite <- Hn. apply eq64_of_eq. lia.
Qed.

Lemma ledger_requeue b out recorded o :
  ledger_ok bb bn b (option_list o ++ out) recorded → ledger_ok bb bn (InFlight_drop o b) out recorded.
Proof.
  intros [Hw Ho Hb Hn]. apply Forall_app in Ho as [Hd Ho].
  destruct (InFlight_drop_facts o b Hw) as (Hw' & _ & _ & _ & E1 & E2 & _).
  { intros d ->. by apply Forall_cons in Hd as [? _]. }
  rewrite sum_over_app in Hb, Hn. split; [done|done| |].
  - rewrite E1, <- Hb. apply eq64_of_eq. lia.
  - rewrite E2, <- Hn. apply eq64_of_eq. lia.
Qed.
End ledger.

(** Part of the batches, on their own: the rest and what was recorded move into the
    starting point. *)
Lemma ledger_frame bb bn b out rest recorded recorded' :
  ledger_ok bb bn b (out ++ rest) recorded ↔
  Forall Drained_wf rest ∧
  ledger_ok
    (bb + Z.of_nat (count_if billable recorded) - sum_over batch_billable rest -
       Z.of_nat (count_if billable recorded'))
    (bn + Z.of_nat (count_if non_billable_sample recorded) - sum_over batch_non_billable rest -
       Z.of_nat (count_if non_billable_sample recorded')) b out recorded'.
Proof.
  split.
  - intros [Hw Ho Hb Hn]. apply Forall_app in Ho as [Ho Hr]. rewrite !sum_over_app in Hb, Hn.
    split; [done|]. split; [done|done| |].
    + apply (eq64_shift _ _ (- sum_over batch_billable rest)) in Hb.
      etransitivity; [etransitivity; [|exact Hb]|]; apply eq64_of_eq; lia.
    + apply (eq64_shift _ _ (- sum_over batch_non_billable rest)) in Hn.
      etransitivity; [etransitivity; [|exact Hn]|]; apply eq64_of_eq; lia.
  - intros [Hr [Hw Ho Hb Hn]]. split; [done|by apply Forall_app| |]; rewrite sum_over_app.
    + apply (eq64_shift _ _ (sum_over batch_billable rest)) in Hb.
      etransitivity; [etransitivity; [|exact Hb]|]; apply eq64_of_eq; lia.
    + apply (eq64_shift _ _ (sum_over batch_non_billable rest)) in Hn.
      etransitivity; [etransitivity; [|exact Hn]|]; apply eq64_of_eq; lia.
Qed.
