(* ===== verification/FlushWake.v ===== *)
(** * The early wake-up of the metrics flush task

    [record] stores a permit when the buffer reaches four-fifths of its cap, and the
    flush loop consumes it in its [select!].  No wake-up is lost while the tasks of
    earlier sessions leave the buffer alone: whenever the loop waits in the [select!]
    over a buffer past that mark, the permit is there.  A batch that such a task hands
    back wakes nobody. *)

From stdpp Require Import base list strings relations.
From Stdlib Require Import ZArith Lia.
From S2P Require Import Prelude Time BTree Proto Metrics MetricsFacts FlushLoop FlushLoopFacts.

#[local] Arguments drain : simpl never.
#[local] Arguments record : simpl never.
#[local] Arguments requeue_front : simpl never.
#[local] Arguments InFlight_drop : simpl never.

(** The mark of [with_caps]. *)
Definition early_mark (c : nat) : nat := (c - c / 5) `max` 1.

(** The sizes of a buffer, which no operation changes. *)
Definition sizes (b : Inner) : nat * nat * nat := (cap b, batch_cap b, flush_early_at b).

Lemma record_sizes s b : Inner_wf b → sizes (record s b) = sizes b.
Proof.
  intros Hw. destruct (record_refines s b (iw_non_billable _ Hw)) as (_ & _ & _ & E1 & E2 & E3 & _).
  unfold sizes. congruence.
Qed.

Lemma InFlight_drop_sizes o b : Inner_wf b → sizes (InFlight_drop o b) = sizes b.
Proof.
  intros Hw. unfold InFlight_drop. destruct o as [d|]; [|done]. destruct (Drained_is_empty d); [done|].
  pose proof (requeue_samples (d_samples d) b (iw_non_billable b Hw)) as H. cbv zeta in H.
  destruct H as (_ & _ & _ & _ & _ & _ & _ & Ec & Ebc & Ee & _).
  unfold sizes, requeue_front. simpl. congruence.
Qed.

Lemma drain_sizes now b d b' :
  drain now b = (d, b') →
  sizes b' = sizes b ∧ flush_early b' = flush_early b ∧
  length (d_samples d) = length (samples (buf b)) `min` batch_cap b ∧
  length (samples (buf b')) = length (samples (buf b)) - length (d_samples d).
Proof.
  unfold drain. intros [= <- <-]. simpl. split_and!; try done; rewrite ?length_take, ?length_drop; lia.
Qed.

Section wake.
Context (code : ToolOutcome → Z) (c bc : nat) (Hbc : 1 ≤ bc).
Implicit Types st : FlushState.

(** How much the loop, at this point of a round, will still ship or leave below the
    mark, when it holds no permit. *)
Definition covered (b : Inner) (pc : FlushPc) : Prop :=
  let len := length (samples (buf b)) in
  match pc with
  | Starting | EarlySleep | Closed => True
  | Idle => len < early_mark c
  | Round n => len < early_mark c ∨ len ≤ n * bc
  | Sending n d _ => len < early_mark c ∨ (bc ≤ length (d_samples d) ∧ len ≤ n * bc)
  end.

Record wake_inv st : Prop := {
  wk_sizes : sizes (fs_buf st) = (c, bc, early_mark c);
  wk_covered : flush_early (fs_buf st) = true ∨ covered (fs_buf st) (fs_pc st)
}.

Lemma early_mark_pos : 1 ≤ early_mark c.
Proof. unfold early_mark. lia. Qed.

(** A recorded sample takes the buffer past the mark only with a permit. *)
Lemma covered_record s b pc :
  Inner_wf b → sizes b = (c, bc, early_mark c) →
  flush_early b = true ∨ covered b pc →
  flush_early (record s b) = true ∨ covered (record s b) pc.
Proof.
  intros Hw Hs H. destruct (record_refines s b (iw_non_billable _ Hw))
    as (Es & _ & _ & _ & _ & _ & Ee & _).
  pose proof (sublist_length _ _ (spec_record_sublist (cap b) s (samples (buf b)))) as Hl.
  rewrite length_app in Hl. simpl in Hl. rewrite <- Es in Hl.
  injection Hs as _ _ Hm. rewrite Ee, Hm.
  destruct (Nat.leb_spec (early_mark c) (length (samples (buf b)) + 1)); [by left|].
  destruct H as [->|_]; [by left|]. right.
  unfold covered. destruct pc; try done; lia.
Qed.

Lemma covered_drain n now b d b' msg :
  drain now b = (d, b') → sizes b = (c, bc, early_mark c) → covered b (Round (S n)) →
  covered b' (Sending n d msg) ∧ covered b' (after_batch b' (length (d_samples d)) n).
Proof.
  intros E Hs Hc. destruct (drain_sizes now b d b' E) as (Hs' & _ & Hd & Hl).
  rewrite Hs in Hs'. injection Hs as _ Hb _. injection Hs' as _ Hb' _.
  pose proof early_mark_pos. rewrite Hb in Hd. unfold covered, after_batch in *. rewrite Hb'.
  destruct (Nat.ltb_spec (length (d_samples d)) bc); nia.
Qed.

Lemma covered_sent n b d msg :
  sizes b = (c, bc, early_mark c) → covered b (Sending n d msg) →
  covered b (after_batch b (length (d_samples d)) n).
Proof.
  intros Hs Hc. injection Hs as _ Hb _. unfold covered, after_batch in *. rewrite Hb.
  destruct (Nat.ltb_spec (length (d_samples d)) bc); lia.
Qed.

Lemma wake_host_step st st' :
  flush_host_step st st' → Inner_wf (fs_buf st) → wake_inv st → wake_inv st'.
Proof.
  intros [u s|u now n md ec He] Hw [Hs Hc].
  - split; simpl; [by rewrite record_sizes|by apply covered_record].
  - assert (sizes (record_events now n md ec (fs_buf u)) = sizes (fs_buf u) ∧
      flush_early (record_events now n md ec (fs_buf u)) = flush_early (fs_buf u) ∧
      buf (record_events now n md ec (fs_buf u)) = buf (fs_buf u)) as (E1 & E2 & E3)
      by (unfold record_events; by case_decide).
    split; simpl; [by rewrite E1|]. rewrite E2. unfold covered in *. by rewrite E3.
Qed.

Lemma wake_task_step st st' :
  flush_task_step code st st' → Inner_wf (fs_buf st) → wake_inv st → wake_inv st'.
Proof.
  intros Hst Hw [Hs Hc]. pose proof (batches_per_tick_enough (fs_buf st) Hw) as Hen.
  assert (Metrics.batch_cap (fs_buf st) = bc) as Ebc by (unfold sizes in Hs; congruence). rewrite Ebc in Hen.
  destruct Hst as [st Hp|st Hp Hf|st Hp|st Hp|st n now d b' Hp Hd|st n d msg Hp|st n d msg Hp|st Ha].
  - split; simpl; [done|]. right. right. auto.
  - split; simpl; [done|]. by right.
  - split; simpl; [done|]. right. right. auto.
  - split; simpl; [done|]. destruct Hc as [?|Hc]; [by left|right].
    rewrite Hp in Hc. unfold covered in *. pose proof early_mark_pos. lia.
  - destruct (drain_sizes now _ d b' Hd) as (Hs' & He & _). split; simpl; [by rewrite Hs'|].
    rewrite He. destruct Hc as [?|Hc]; [by left|right]. rewrite Hp in Hc.
    destruct (batch_to_message code (timestamp_secs now) d) as [msg|];
      eapply covered_drain; try done. exact {| kind := None |}.
  - split; simpl; [done|]. destruct Hc as [?|Hc]; [by left|right].
    rewrite Hp in Hc. by eapply covered_sent.
  - split; simpl; [by rewrite InFlight_drop_sizes|by right].
  - split; simpl; [by rewrite InFlight_drop_sizes|by right].
Qed.

Lemma wake_reachable st : flush_reachable code c bc st → wake_inv st.
Proof.
  intros Hr. eapply (rtc_ind_r (R := flush_step code) wake_inv (flush_init (with_caps c bc)));
    [split; [done|by right]| |exact Hr].
  intros x z Hx Hxz Hi. pose proof (flush_reachable_wf _ _ _ _ Hx) as Hw.
  destruct Hxz; [by eapply wake_host_step|by eapply wake_task_step].
Qed.

(** *** With the tasks of earlier sessions *)

(** A step in which these leave the buffer alone. *)
Definition calm_step (y y' : FlushSystem) : Prop :=
  system_step code y y' ∧ (fl_buf y' = fl_buf y ∨ leftover y' = leftover y).

(** The invariant for the newest task. *)
Definition newest_wakes (y : FlushSystem) : Prop :=
  sizes (fl_buf y) = (c, bc, early_mark c) ∧
  ∀ pc, last (fl_tasks y) = Some pc → wake_inv (focus pc y).

(** A task that is where it was has left the buffer alone. *)
Lemma task_step_same st st' :
  flush_task_step code st st' → fs_pc st' = fs_pc st → fs_buf st' = fs_buf st.
Proof.
  intros [u [Hp|Hp]|u Hp Hf|u Hp|u Hp|u n now d b' Hp Hd|u n d msg Hp|u n d msg Hp|u Ha];
    cbn; rewrite ?Hp; try done.
  - unfold after_batch. repeat case_match; try done. intros [= E]. lia.
  - by intros <-.
Qed.

Lemma newest_task_step y i pc st :
  fl_tasks y !! i = Some pc → flush_task_step code (focus pc y) st →
  calm_step y (unfocus (<[i:=fs_pc st]> (fl_tasks y)) st) → Inner_wf (fl_buf y) →
  newest_wakes y → newest_wakes (unfocus (<[i:=fs_pc st]> (fl_tasks y)) st).
Proof.
  intros Hi Hst [_ Hcalm] Hw [Hs Hn]. pose proof (lookup_lt_Some _ _ _ Hi) as Hlt.
  destruct (decide (S i = length (fl_tasks y))) as [E|E].
  - assert (wake_inv (focus pc y)) as Hpc by (apply Hn; by rewrite last_lookup, <- E).
    pose proof (wake_task_step _ _ Hst Hw Hpc) as Hpc'.
    split; [apply Hpc'|]. intros pc'. cbn [fl_tasks unfocus].
    rewrite last_lookup, length_insert, <- E. cbn [pred]. rewrite list_lookup_insert_eq by done.
    intros [= <-]. by destruct st.
  - assert (fs_buf st = fl_buf y) as Eb.
    { destruct Hcalm as [Hb|Hl]; [done|]. apply (task_step_same _ _ Hst). cbn [focus fs_pc].
      unfold leftover in Hl. cbn [fl_tasks unfocus] in Hl. rewrite length_insert in Hl.
      apply (f_equal (.!! i)) in Hl. rewrite !lookup_take_lt, list_lookup_insert_eq, Hi in Hl by lia.
      congruence. }
    split; [cbn; by rewrite Eb|]. intros pc'. cbn [fl_tasks unfocus].
    rewrite last_lookup, length_insert, list_lookup_insert_ne, <- last_lookup by lia.
    intros Hl. destruct (Hn pc' Hl) as [K1 K2]. split; cbn; by rewrite Eb.
Qed.

Lemma newest_step y y' :
  calm_step y y' → system_inv code y → newest_wakes y → newest_wakes y'.
Proof.
  intros Hc Hi [Hs Hn]. pose proof (sy_wf _ _ Hi) as Hw.
  destruct (proj1 Hc) as [x pc st Hst|x i pc st Hx Hst|x pc].
  - assert (wake_inv (focus Closed x)) as Hcl by (split; [done|by right]).
    assert (∀ pc', wake_inv (focus pc' x) → wake_inv (focus pc' (unfocus (fl_tasks x) st))) as Hf.
    { intros pc' Hpc'. remember (focus pc x) as z eqn:E. destruct Hst as [z s|z now n md e He]; subst z.
      - pose proof (wake_host_step _ _ (step_record (focus pc' x) s) Hw Hpc'). done.
      - pose proof (wake_host_step _ _ (step_record_events (focus pc' x) now n md e He) Hw Hpc'). done. }
    split; [apply (Hf Closed Hcl)|]. intros pc' Hl. by apply Hf, Hn.
  - by eapply newest_task_step.
  - split; [done|]. intros pc'. cbn [fl_tasks unfocus]. rewrite last_snoc. intros [= <-].
    split; [done|by right].
Qed.

Lemma newest_reachable y :
  rtc calm_step (system_init (with_caps c bc)) y → system_inv code y ∧ newest_wakes y.
Proof.
  intros Hr. eapply (rtc_preserve _ (λ y, system_inv code y ∧ newest_wakes y)); [|exact Hr|].
  - intros x z Hs [Hi Hn]. split; [by eapply system_step_inv; [apply Hs|]|by eapply newest_step].
  - split; [apply system_inv_init|]. split; [done|]. by intros ?.
Qed.
End wake.

(** C27: no early wake-up is lost while the tasks of earlier sessions leave the buffer
    alone: whenever the newest flush task waits in its [select!] although the buffer
    has reached four-fifths of its cap, the permit is there, so that without its tick
    the task can go on to the spacing sleep and from there to a round that has the
    iterations to ship the whole buffer.  (A task of an earlier session that hands a
    batch back, or takes the permit before it stops, may leave the newest waiting for
    its tick: [late_return_wakes_nobody].) *)
Theorem full_buffer_wakes_flush_loop code c bc y :
  1 ≤ bc → rtc (calm_step code) (system_init (with_caps c bc)) y →
  last (fl_tasks y) = Some Idle → early_mark c ≤ length (samples (buf (fl_buf y))) →
  flush_early (fl_buf y) = true ∧
  ∃ y1 y2 n, system_step code y y1 ∧ last (fl_tasks y1) = Some EarlySleep ∧
    system_step code y1 y2 ∧ last (fl_tasks y2) = Some (Round n) ∧
    buf (fl_buf y2) = buf (fl_buf y) ∧ length (samples (buf (fl_buf y2))) ≤ n * bc.
Proof.
  intros Hbc Hr Hp Hl. destruct (newest_reachable code c bc Hbc y Hr) as [Hi [Hs Hn]].
  assert (flush_early (fl_buf y) = true) as He.
  { destruct (Hn Idle Hp) as [_ [He|Hc]]; [done|]. unfold covered in Hc. cbn in Hc. lia. }
  split; [done|]. rewrite last_lookup in Hp. set (i := pred (length (fl_tasks y))) in *.
  pose proof (lookup_lt_Some _ _ _ Hp) as Hlt.
  set (b1 := set_flush_early (fl_buf y) false).
  set (y1 := unfocus (<[i:=EarlySleep]> (fl_tasks y)) (with_task (focus Idle y) b1 EarlySleep)).
  assert (∀ (pc : FlushPc) (tasks : list FlushPc), length tasks = length (fl_tasks y) → last (<[i:=pc]> tasks) = Some pc) as Hlast.
  { intros pc tasks E. rewrite last_lookup, length_insert, E. apply list_lookup_insert_eq. lia. }
  exists y1, (unfocus (<[i:=Round (batches_per_tick b1)]> (fl_tasks y1))
    (with_task (focus EarlySleep y1) b1 (Round (batches_per_tick b1)))), (batches_per_tick b1).
  split_and!.
  - apply (system_task code y i Idle (with_task (focus Idle y) b1 EarlySleep) Hp).
    by apply (step_early code (focus Idle y)).
  - by apply Hlast.
  - apply (system_task code y1 i EarlySleep
      (with_task (focus EarlySleep y1) b1 (Round (batches_per_tick b1)))); [by apply list_lookup_insert_eq|].
    by apply (step_early_wake code (focus EarlySleep y1)).
  - apply Hlast. apply length_insert.
  - done.
  - pose proof (batches_per_tick_enough (fl_buf y) (sy_wf _ _ Hi)) as Hen.
    injection Hs as _ Eb _. rewrite Eb in Hen. by apply Hen.
Qed.

(** ** The property on a concrete run *)

(** Two calls recorded in a buffer for two, the first tick's round over. *)
Definition woken_run : FlushState :=
  let s := sample_of "a" SampleOutcome.Ok in
  let b := (drain epoch (with_caps 2 2)).2 in
  {| fs_buf := record s (record s b); fs_pc := Idle; fs_out := []; fs_shipped := [];
     fs_recorded := [s; s]; fs_drains := 1 |}.

(** The buffer again, filled up under the task of a second session. *)
Definition woken_schedule : list SystemMove :=
  let call := SyRecord (sample_of "a" SampleOutcome.Ok) in
  [SySpawn; SyTask 0 TaTick; SyTask 0 (TaDrain epoch); SyTask 0 TaAbort; SySpawn; SyTask 1 TaTick;
   SyTask 1 (TaDrain epoch); call; call].

(** Only the newest task moves. *)
Definition only_newest (a : SystemMove) (y : FlushSystem) : bool :=
  match a with SyTask i _ => (S i =? length (fl_tasks y)) | _ => true end.

Lemma only_newest_calm code a y y' :
  system_exec code a y = Some y' → only_newest a y' = true → calm_step code y y'.
Proof.
  intros Hx Hn. split; [by eapply system_exec_sound|].
  destruct a as [s| |i a]; cbn in Hx; [injection Hx as <-; by right|injection Hx as <-; by left|right].
  apply bind_Some in Hx as (pc & Hi & (st & _ & [= <-])%bind_Some).
  unfold leftover, only_newest in *. cbn [fl_tasks unfocus] in *. rewrite length_insert in *.
  apply Nat.eqb_eq in Hn. by rewrite <- Hn, take_insert_ge.
Qed.

Definition woken_system : FlushSystem :=
  default (system_init (with_caps 2 2))
    (system_run outcome_code only_newest woken_schedule (system_init (with_caps 2 2))).

Lemma woken_system_reachable :
  rtc (calm_step outcome_code) (system_init (with_caps 2 2)) woken_system.
Proof.
  eapply (system_run_sound _ only_newest _ woken_schedule); [apply only_newest_calm|].
  apply some_default. vm_compute. reflexivity.
Qed.

Lemma full_buffer_wakes_flush_loop_witness :
  length (fl_tasks woken_system) = 2 ∧ flush_early (fl_buf woken_system) = true.
Proof.
  split; [vm_compute; reflexivity|].
  apply (full_buffer_wakes_flush_loop outcome_code 2 2 woken_system).
  - lia.
  - exact woken_system_reachable.
  - vm_compute. reflexivity.
  - apply Nat.leb_le. vm_compute. reflexivity.
Defined.

(** The task of an earlier session hands its batch back without a wake-up: the newest
    task waits for its tick over a buffer that is full. *)
Definition late_wake_schedule : list SystemMove :=
  let call := SyRecord (sample_of "a" SampleOutcome.Ok) in
  [call; SySpawn; SyTask 0 TaTick; SyTask 0 (TaDrain epoch); SySpawn; SyTask 1 TaTick;
   SyTask 1 (TaDrain epoch); call; SyTask 0 TaAbort].

Definition late_wake_run : FlushSystem :=
  default (system_init (with_caps 2 2))
    (system_run outcome_code (λ _ _, true) late_wake_schedule (system_init (with_caps 2 2))).

Lemma late_return_wakes_nobody :
  system_reachable outcome_code 2 2 late_wake_run ∧ last (fl_tasks late_wake_run) = Some Idle ∧
  length (samples (buf (fl_buf late_wake_run))) = early_mark 2 ∧
  flush_early (fl_buf late_wake_run) = false.
Proof.
  split; [|by vm_compute].
  eapply (system_run_sound _ (λ _ _, true) _ late_wake_schedule).
  - intros a x x' Hx _. by eapply system_exec_sound.
  - apply some_default. vm_compute. reflexivity.
Qed.
