(* ===== verification/FlushTime.v ===== *)
(** * The flush task in time: the ticker and the spacing of [flush_loop]

    The step relation of [FlushLoop] with a clock: a round starts at a tick, not
    before the ticker's deadline, or after an early wake-up, not before
    [started + EARLY_FLUSH_SPACING].  A step may be late by any amount.  Of
    [tokio::time::Interval] with [MissedTickBehavior::Delay] the model has the
    documented behaviour: the next deadline is one interval after the one that was
    met, or after the moment a late tick was seen. *)

From stdpp Require Import base list strings relations.
From Stdlib Require Import ZArith Lia.
From S2P Require Import Prelude Time BTree Proto Metrics MetricsFacts FlushLoop FlushLoopFacts FlushWake.

Local Open Scope Z_scope.

(** The task, the time, the start of the latest round, the ticker's next deadline,
    and for the statements the starts of all rounds with whether they were early,
    oldest first. *)
Record Timed := {
  tm_task : FlushState;
  tm_now : Z;
  tm_started : Z;
  tm_deadline : Z;
  tm_starts : list (Z * bool)
}.

(** A task spawned at [t0]: the first tick is due at once. *)
Definition timed_init (b : Inner) (t0 : Z) : Timed :=
  {| tm_task := flush_init b; tm_now := t0; tm_started := t0; tm_deadline := t0; tm_starts := [] |}.

(** The steps that need the clock. *)
Definition needs_clock (pc pc' : FlushPc) : bool :=
  match pc, pc' with
  | Starting, Round _ | Idle, Round _ | EarlySleep, Round _ => true
  | _, _ => false
  end.

(** A round starts. *)
Definition start_round (early : bool) (deadline : Z) (t : Timed) : Timed :=
  let st := tm_task t in
  {| tm_task := with_task st (fs_buf st) (Round (batches_per_tick (fs_buf st)));
     tm_now := tm_now t; tm_started := tm_now t; tm_deadline := deadline;
     tm_starts := tm_starts t ++ [(tm_now t, early)] |}.

(** When the round after an early wake-up can start. *)
Definition early_start (started now : Z) : Z := Z.max now (started + EARLY_FLUSH_SPACING).

Section timed.
Context (code : ToolOutcome → Z) (interval : Duration).

Inductive timed_step : Timed → Timed → Prop :=
| time_passes t d :
    0 ≤ d →
    timed_step t {| tm_task := tm_task t; tm_now := tm_now t + d; tm_started := tm_started t;
                    tm_deadline := tm_deadline t; tm_starts := tm_starts t |}
| timed_tick t next :
    fs_pc (tm_task t) = Starting ∨ fs_pc (tm_task t) = Idle → tm_deadline t ≤ tm_now t →
    next = tm_deadline t + interval ∨ next = tm_now t + interval →
    timed_step t (start_round false next t)
| timed_wake t :
    fs_pc (tm_task t) = EarlySleep → tm_started t + EARLY_FLUSH_SPACING ≤ tm_now t →
    timed_step t (start_round true (tm_deadline t) t)
| timed_other t st :
    flush_step code (tm_task t) st → needs_clock (fs_pc (tm_task t)) (fs_pc st) = false →
    timed_step t {| tm_task := st; tm_now := tm_now t; tm_started := tm_started t;
                    tm_deadline := tm_deadline t; tm_starts := tm_starts t |}.

Definition timed_reachable (c bc : nat) (t0 : Z) (t : Timed) : Prop :=
  rtc timed_step (timed_init (with_caps c bc) t0) t.

(** ** Erasing time *)

Lemma timed_step_erase t t' : timed_step t t' → rtc (flush_step code) (tm_task t) (tm_task t').
Proof.
  intros [t0 d Hd|t0 next Hpc Hdl Hn|t0 Hpc Hs|t0 st Hst Hc]; simpl.
  - apply rtc_refl.
  - apply rtc_once. by apply step_task, step_tick.
  - apply rtc_once. by apply step_task, step_early_wake.
  - by apply rtc_once.
Qed.

Lemma timed_reachable_erase c bc t0 t :
  timed_reachable c bc t0 t → flush_reachable code c bc (tm_task t).
Proof.
  unfold timed_reachable. revert t.
  apply (rtc_ind_r (R := timed_step)
    (λ t, flush_reachable code c bc (tm_task t)) (timed_init (with_caps c bc) t0));
    [apply rtc_refl|].
  intros y z _ Hz Hy. unfold flush_reachable in *. etrans; [exact Hy|by apply timed_step_erase].
Qed.

(** ** The pace of the rounds *)

Definition ticks (t : Timed) : Z := Z.of_nat (count_if (λ s, negb s.2) (tm_starts t)).
Definition earlies (t : Timed) : Z := Z.of_nat (count_if snd (tm_starts t)).

(** An early round starts at least the spacing after the round before it. *)
Definition spaced (l : list (Z * bool)) : Prop :=
  ∀ i s s', l !! i = Some s → l !! S i = Some s' →
    s.1 ≤ s'.1 ∧ (s'.2 = true → s.1 + EARLY_FLUSH_SPACING ≤ s'.1).

Record pace_inv (t0 : Z) (t : Timed) : Prop := {
  pi_now : tm_started t ≤ tm_now t;
  pi_deadline : t0 + ticks t * interval ≤ tm_deadline t;
  pi_ticks : 0 < ticks t → t0 + (ticks t - 1) * interval ≤ tm_now t;
  pi_early : t0 + earlies t * EARLY_FLUSH_SPACING ≤ tm_started t;
  pi_last : tm_starts t = [] ∨ ∃ e, last (tm_starts t) = Some (tm_started t, e);
  pi_spaced : spaced (tm_starts t)
}.

Lemma pace_init b t0 : pace_inv t0 (timed_init b t0).
Proof. split; unfold ticks, earlies; simpl; try lia; [by left|]. by intros i s s' Hs. Qed.

(** The invariant through the start of a round. *)
Lemma spaced_snoc (l : list (Z * bool)) (x : Z * bool) :
  spaced l →
  (∀ s : Z * bool, last l = Some s → s.1 ≤ x.1 ∧ (x.2 = true → s.1 + EARLY_FLUSH_SPACING ≤ x.1)) →
  spaced (l ++ [x]).
Proof.
  intros Hl Hx i s s' Hs Hs'. apply lookup_app_Some in Hs' as [Hs'|[Hge Hs']].
  - rewrite lookup_app_l in Hs by (apply lookup_lt_Some in Hs'; lia). by eapply Hl.
  - destruct (S i - length l)%nat eqn:E; [|done]. injection Hs' as <-.
    rewrite lookup_app_l in Hs by lia. apply Hx. rewrite last_lookup.
    by replace (pred (length l)) with i by lia.
Qed.

Lemma start_round_pace t0 (early : bool) deadline t :
  pace_inv t0 t → 0 ≤ interval →
  (if early then tm_started t + EARLY_FLUSH_SPACING ≤ tm_now t ∧ deadline = tm_deadline t
   else tm_deadline t ≤ tm_now t ∧ tm_deadline t + interval ≤ deadline) →
  pace_inv t0 (start_round early deadline t).
Proof.
  intros [H1 H2 H3 H4 H5 H6] Hi Hstart.
  assert (spaced (tm_starts t ++ [(tm_now t, early)])) as Hsp.
  { apply spaced_snoc; [done|]. intros s Hl. destruct H5 as [Hn|[e He]]; [by rewrite Hn in Hl|].
    rewrite He in Hl. injection Hl as <-. simpl. split; [lia|]. intros ->. apply Hstart. }
  unfold ticks, earlies in *.
  split; unfold ticks, earlies, start_round; cbn [tm_started tm_now tm_deadline tm_starts];
    rewrite ?count_if_app; try done; destruct early; cbn [count_if snd negb]; rewrite ?Nat.add_0_r;
    try nia.
  - right. exists true. by rewrite last_snoc.
  - right. exists false. by rewrite last_snoc.
Qed.

Lemma timed_step_pace t0 t t' : 0 < interval → timed_step t t' → pace_inv t0 t → pace_inv t0 t'.
Proof.
  intros Hi [u d Hd|u next Hpc Hdl Hn|u Hpc Hs|u st Hst Hc] Hinv.
  - destruct Hinv as [H1 H2 H3 H4 H5 H6]. split; unfold ticks, earlies in *; simpl in *; auto; lia.
  - apply start_round_pace; [done|lia|]. split; [done|]. lia.
  - apply start_round_pace; [done|lia|]. done.
  - by destruct Hinv as [H1 H2 H3 H4 H5 H6].
Qed.

Lemma timed_reachable_pace c bc t0 t : 0 < interval → timed_reachable c bc t0 t → pace_inv t0 t.
Proof.
  intros Hi. unfold timed_reachable. revert t.
  apply (rtc_ind_r (R := timed_step) (pace_inv t0) (timed_init (with_caps c bc) t0));
    [apply pace_init|].
  intros y z _ Hz Hy. by eapply timed_step_pace.
Qed.

End timed.

(** ** The property on a concrete run *)

(** The run of [FlushWake] in which a buffer for two fills up after the first round,
    started at time 5. *)
Definition woken_timed : Timed :=
  {| tm_task := woken_run; tm_now := 5; tm_started := 5; tm_deadline := from_secs 30;
     tm_starts := [(5, false)] |}.

Lemma woken_timed_reachable : timed_reachable outcome_code (from_secs 30) 2 2 0 woken_timed.
Proof.
  eapply rtc_l; [apply (time_passes _ _ _ 5); lia|].
  eapply rtc_l; [eapply timed_tick; [left; reflexivity|simpl; lia|left; reflexivity]|].
  eapply rtc_l; [apply timed_other; [eapply step_task, (step_drain _ _ 0 epoch); reflexivity|reflexivity]|].
  eapply rtc_l; [apply timed_other;
    [apply step_host, (step_record _ (sample_of "a" SampleOutcome.Ok))|reflexivity]|].
  eapply rtc_l; [apply timed_other;
    [apply step_host, (step_record _ (sample_of "a" SampleOutcome.Ok))|reflexivity]|].
  apply rtc_refl.
Qed.

