(* ===== verification/Logs.v ===== *)
(** * The log lane: [src/logs.rs]

    The drop-oldest ring of gateway log lines, its drain, the wire message, and
    one tick of its flush loop.  As for the metrics buffer, the ring's lock makes
    every operation one atomic step on [Inner]. *)

From stdpp Require Import base list strings.
From Stdlib Require Import ZArith Lia.
From S2P Require Import Prelude Time Proto.

Definition DEFAULT_LOG_BUFFER_CAP : nat := Z.to_nat 5000.
Definition DEFAULT_LOG_BATCH_CAP : nat := Z.to_nat 500.
Definition DEFAULT_LOG_FLUSH_INTERVAL : Duration := from_secs 45.

Module LogLevel.
(** The level of a captured line. *)
Inductive LogLevel := Trace | Debug | Info | Warn | Error.

(** [LogLevel::to_proto]. *)
Definition to_proto (l : LogLevel) : ProtoLevel :=
  match l with
  | Trace => ProtoTrace
  | Debug => ProtoDebug
  | Info => ProtoInfo
  | Warn => ProtoWarn
  | Error => ProtoError
  end.
End LogLevel.

Record LogLineSample := {
  at_ : DateTime;
  level : LogLevel.LogLevel;
  target : string;
  message : string;
  plugin_id : option string
}.

Record Inner := {
  buf : list LogLineSample;
  cap : nat;
  batch_cap : nat;
  dropped_overflow : Z;
  seq : Z
}.

(** [LogBuffer::with_caps] and [LogBuffer::new]. *)
Definition with_caps (cap_ batch_cap_ : nat) : Inner :=
  {| buf := []; cap := cap_; batch_cap := batch_cap_; dropped_overflow := 0; seq := 0 |}.

Definition LogBuffer_new : Inner := with_caps DEFAULT_LOG_BUFFER_CAP DEFAULT_LOG_BATCH_CAP.

(** [LogBuffer::record]. *)
Definition record (line : LogLineSample) (b : Inner) : Inner :=
  let full := cap b <=? length (buf b) in
  {| buf := (if full then tail (buf b) else buf b) ++ [line];
     cap := cap b; batch_cap := batch_cap b;
     dropped_overflow := if full then wrap_u64 (dropped_overflow b + 1) else dropped_overflow b;
     seq := seq b |}.

(** [LogBuffer::drain]: the lines, the drop count and the sequence number. *)
Definition drain (b : Inner) : (list LogLineSample * Z * Z) * Inner :=
  let n := length (buf b) `min` batch_cap b in
  ((take n (buf b), dropped_overflow b, wrap_u64 (seq b + 1)),
   {| buf := drop n (buf b); cap := cap b; batch_cap := batch_cap b;
      dropped_overflow := 0; seq := wrap_u64 (seq b + 1) |}).

Section Wire.
(** [ProtoLevel as i32]: the enum numbering of the protocol crate. *)
Context (level_i32 : ProtoLevel → Z).

(** The closure [batch_to_message] maps over the lines. *)
Definition line_to_wire (l : LogLineSample) : LogLine :=
  {| ll_at := Some {| seconds := timestamp_secs (at_ l);
                      nanos := timestamp_subsec_nanos (at_ l) |};
     ll_level := level_i32 (LogLevel.to_proto (level l));
     ll_target := target l;
     ll_message := message l;
     ll_plugin_id := unwrap_str (plugin_id l) |}.

(** [batch_to_message], called at second [now] of the epoch. *)
Definition batch_to_message (now : Z) (lines : list LogLineSample) (dropped seq_ : Z) :
    option AgentMessage :=
  if vec_is_empty lines && (dropped =? 0)%Z then None
  else Some {| kind := Some (KLogBatch {|
         lb_at := Some {| seconds := now; nanos := 0 |};
         lb_seq := seq_;
         lb_lines := map line_to_wire lines;
         lb_dropped_overflow := dropped |}) |}.

(** One iteration of [flush_loop]: what is queued, the buffer, and whether the
    loop stops because the channel is closed.  The drained lines live only in
    the message. *)
Definition flush_tick (open_ : bool) (now : Z) (b : Inner) : option AgentMessage * Inner * bool :=
  let '((drained, dropped, seq_), b) := drain b in
  match batch_to_message now drained dropped seq_ with
  | Some msg => if open_ then (Some msg, b, false) else (None, b, true)
  | None => (None, b, false)
  end.

(** [flush_loop] over the ticks at which the channel was still open (the times
    they fell at), with the lines recorded between two ticks. *)
Fixpoint flush_loop (ticks : list (Z * list LogLineSample)) (b : Inner) :
    list AgentMessage * Inner :=
  match ticks with
  | [] => ([], b)
  | (now, recorded) :: ticks =>
      let '(out, b, _) := flush_tick true now b in
      let '(outs, b) := flush_loop ticks (fold_left (λ b l, record l b) recorded b) in
      (option_list out ++ outs, b)
  end.
End Wire.

(** The invariant: at most [cap] lines (one for a cap of zero), counters in
    range. *)
Record Inner_wf (b : Inner) : Prop := {
  lw_len : length (buf b) ≤ cap b `max` 1;
  lw_dropped : in_u64 (dropped_overflow b);
  lw_seq : in_u64 (seq b)
}.

(** What a bounded buffer that drops its oldest line keeps of a history. *)
Definition newest (n : nat) (l : list LogLineSample) : list LogLineSample :=
  drop (length l - n) l.
