(* ===== verification/LogsFacts.v ===== *)
(** * Properties of the log lane

    The ring keeps exactly the newest lines and counts the rest; a drain hands
    over the oldest batch; every line of an undisturbed loop is shipped, still
    buffered or counted; a send that fails loses the batch it carried. *)

From stdpp Require Import base list strings.
From Stdlib Require Import ZArith Lia.
From S2P Require Import Prelude Time Proto Logs.

Definition record_all (ls : list LogLineSample) (b : Inner) : Inner :=
  fold_left (λ b l, record l b) ls b.

Lemma log_record_wf l b : Inner_wf b → Inner_wf (record l b).
Proof.
  intros [Hl Hd Hs]. split; simpl; auto.
  - rewrite length_app. simpl. destruct (Nat.leb_spec (cap b) (length (buf b))); [|lia].
    destruct (buf b); simpl in *; lia.
  - case_match; auto with cpc.
Qed.

Lemma record_all_wf ls b : Inner_wf b → Inner_wf (record_all ls b).
Proof.
  revert b. induction ls as [|l ls IH]; intros b Hb; simpl; [done|]. by apply IH, log_record_wf.
Qed.

Lemma log_drain_wf b : Inner_wf b → Inner_wf (drain b).2.
Proof.
  intros [Hl Hd Hs]. split; simpl; auto with cpc; [|unfold in_u64, U64_MAX; lia].
  rewrite length_drop. lia.
Qed.

Lemma newest_app n l1 l2 :
  newest n (newest n l1 ++ l2) = newest n (l1 ++ l2).
Proof.
  unfold newest. rewrite !length_app, length_drop.
  destruct (decide (length l1 ≤ n)).
  - replace (length l1 - n) with 0 by lia. rewrite drop_0. f_equal. lia.
  - rewrite <- drop_app_le by lia. rewrite drop_drop. f_equal. lia.
Qed.

(** Recording a history keeps its newest lines and counts the others. *)
Lemma record_all_spec ls b :
  1 ≤ cap b → length (buf b) ≤ cap b →
  buf (record_all ls b) = newest (cap b) (buf b ++ ls) ∧
  eq64 (dropped_overflow (record_all ls b))
       (dropped_overflow b + Z.of_nat (length (buf b ++ ls) - cap b)) ∧
  cap (record_all ls b) = cap b ∧ batch_cap (record_all ls b) = batch_cap b ∧
  seq (record_all ls b) = seq b.
Proof.
  intros Hcap. revert b Hcap. induction ls as [|l ls IH]; intros b Hcap Hlen; simpl.
  { unfold newest. rewrite app_nil_r. replace (length (buf b) - cap b) with 0 by lia.
    rewrite drop_0, Z.add_0_r. done. }
  assert (buf (record l b) = newest (cap b) (buf b ++ [l])) as Hb.
  { unfold newest. rewrite length_app. simpl.
    destruct (Nat.leb_spec (cap b) (length (buf b))).
    - replace (length (buf b) + 1 - cap b) with 1 by lia.
      destruct (buf b); simpl in *; [lia|done].
    - by replace (length (buf b) + 1 - cap b) with 0 by lia. }
  assert (length (buf (record l b)) = length (buf b) + 1 - (length (buf b) + 1 - cap b)) as Hl1.
  { rewrite Hb. unfold newest. by rewrite length_drop, length_app. }
  destruct (IH (record l b)) as (E1 & E2 & E3 & E4 & E5); [done|simpl cap; lia|].
  simpl cap in *. split_and!; auto.
  - rewrite E1, Hb, newest_app, <- app_assoc. done.
  - rewrite E2, !length_app, Hl1. cbn [length dropped_overflow record].
    destruct (Nat.leb_spec (cap b) (length (buf b))); [rewrite wrap_u64_eq64|];
      apply eq64_of_eq; lia.
Qed.

Lemma drain_split b :
  let '((lines, dropped, s), b') := drain b in
  lines ++ buf b' = buf b ∧ length lines ≤ batch_cap b ∧ dropped = dropped_overflow b ∧
  dropped_overflow b' = 0%Z ∧ s = wrap_u64 (seq b + 1) ∧ seq b' = s ∧
  cap b' = cap b ∧ batch_cap b' = batch_cap b.
Proof.
  simpl. split_and!; try done; [apply take_drop|]. rewrite length_take. lia.
Qed.

(** Lines and drop count of a queued batch. *)
Definition batch_lines (m : AgentMessage) : list LogLine :=
  match kind m with Some (KLogBatch b) => lb_lines b | _ => [] end.
Definition batch_dropped (m : AgentMessage) : Z :=
  match kind m with Some (KLogBatch b) => lb_dropped_overflow b | _ => 0 end.

Lemma flush_tick_open level_i32 now b :
  let '(out, b', stop) := flush_tick level_i32 true now b in
  stop = false ∧ cap b' = cap b ∧ batch_cap b' = batch_cap b ∧
  concat (batch_lines <$> option_list out) ++ map (line_to_wire level_i32) (buf b') =
    map (line_to_wire level_i32) (buf b) ∧
  (foldr Z.add 0 (batch_dropped <$> option_list out) + dropped_overflow b')%Z = dropped_overflow b.
Proof.
  unfold flush_tick. pose proof (drain_split b) as Hd.
  destruct (drain b) as [[[lines dropped] s] b'].
  destruct Hd as (Hs & _ & -> & H0 & _ & _ & Hc & Hbc).
  unfold batch_to_message.
  destruct (vec_is_empty lines && (dropped_overflow b =? 0)%Z) eqn:E; simpl;
    rewrite ?H0, <- Hs, ?map_app, ?app_nil_r.
  - rewrite andb_true_iff, vec_is_empty_true, Z.eqb_eq in E. destruct E as [-> ->].
    split_and!; done.
  - split_and!; try done. unfold batch_dropped; simpl; lia.
Qed.

(** What an undisturbed loop did with the lines: shipped, counted on a shipped
    batch, still buffered, or counted and not yet reported. *)
Definition log_accounted (outs : list AgentMessage) (b : Inner) : Z :=
  (Z.of_nat (length (concat (batch_lines <$> outs))) + foldr Z.add 0 (batch_dropped <$> outs) +
   Z.of_nat (length (buf b)) + dropped_overflow b)%Z.

Lemma log_accounted_tick level_i32 now b :
  let '(out, b', _) := flush_tick level_i32 true now b in
  log_accounted (option_list out) b' = log_accounted [] b.
Proof.
  pose proof (flush_tick_open level_i32 now b) as H.
  destruct (flush_tick level_i32 true now b) as [[out b'] stop].
  destruct H as (_ & _ & _ & Hl & Hd). apply (f_equal length) in Hl.
  rewrite length_app, !length_map in Hl. unfold log_accounted. simpl. lia.
Qed.

Lemma log_accounted_cons m outs b :
  log_accounted (m :: outs) b =
  (log_accounted outs b + Z.of_nat (length (batch_lines m)) + batch_dropped m)%Z.
Proof.
  unfold log_accounted. rewrite !fmap_cons. cbn [concat foldr]. rewrite length_app. lia.
Qed.

(** ** Main properties *)

(** A log buffer of cap at least one that recorded a history since it was
    empty holds exactly the newest [cap] lines of it, in order, and its drop
    counter is exactly the number of older ones. *)
Theorem log_ring_keeps_newest c bc ls :
  1 ≤ c →
  let b := record_all ls (with_caps c bc) in
  buf b = newest c ls ∧
  dropped_overflow b = wrap_u64 (Z.of_nat (length ls - c)) ∧ Inner_wf b.
Proof.
  intros Hc. destruct (record_all_spec ls (with_caps c bc)) as (E1 & E2 & _); [done|simpl; lia|].
  assert (Inner_wf (record_all ls (with_caps c bc))) as Hwf.
  { apply record_all_wf. split; simpl; unfold in_u64, U64_MAX; lia. }
  split_and!; [exact E1| |done].
  destruct Hwf as [_ Hd _]. rewrite <- (wrap_u64_small (dropped_overflow _)) by done. exact E2.
Qed.

(** [drain] hands over the oldest [batch_cap] lines in order with the drop
    count since the previous drain, which it resets, and the next sequence
    number; the other lines stay. *)
Theorem log_drain_oldest_batch b :
  let '((lines, dropped, s), b') := drain b in
  lines ++ buf b' = buf b ∧ length lines ≤ batch_cap b ∧ dropped = dropped_overflow b ∧
  dropped_overflow b' = 0%Z ∧ s = wrap_u64 (seq b + 1) ∧ seq b' = s ∧
  cap b' = cap b ∧ batch_cap b' = batch_cap b.
Proof. apply drain_split. Qed.

(** Unlike the metrics lane, the log lane does not return a batch its send
    failed for: with the channel closed, a tick that had anything to send stops
    the loop with the drained lines and the drop count in neither the buffer
    nor a message. *)
Theorem log_failed_send_loses_batch level_i32 now b :
  buf b ≠ [] → 1 ≤ batch_cap b →
  let '(out, b', stop) := flush_tick level_i32 false now b in
  out = None ∧ stop = true ∧ dropped_overflow b' = 0%Z ∧
  buf b' = drop (length (buf b) `min` batch_cap b) (buf b) ∧ length (buf b') < length (buf b).
Proof.
  intros Hne Hbc. unfold flush_tick, batch_to_message. simpl.
  assert (0 < length (buf b)) by (destruct (buf b); [done|simpl; lia]).
  assert (vec_is_empty (take (length (buf b) `min` batch_cap b) (buf b)) = false) as ->.
  { apply vec_is_empty_false. intros E. apply (f_equal length) in E.
    rewrite length_take in E. simpl in E. lia. }
  simpl. rewrite length_drop. split_and!; auto. lia.
Qed.

(** C39: while the channel stays open the log lane loses no line silently: after
    any number of ticks, with any lines recorded between them, the lines
    shipped, the lines buffered and the drop counts (shipped and pending) add up
    to the lines recorded. *)
Theorem log_loop_accounts_for_every_line level_i32 ticks b :
  1 ≤ cap b → length (buf b) ≤ cap b →
  let '(outs, b') := flush_loop level_i32 ticks b in
  eq64 (log_accounted outs b')
       (log_accounted [] b + Z.of_nat (length (concat (snd <$> ticks)))).
Proof.
  revert b. induction ticks as [|[now ls] ticks IH]; intros b Hcap Hlen; cbn [flush_loop].
  { simpl. by rewrite Z.add_0_r. }
  pose proof (log_accounted_tick level_i32 now b) as Ht.
  pose proof (flush_tick_open level_i32 now b) as Ho.
  destruct (flush_tick level_i32 true now b) as [[out b1] stop].
  destruct Ho as (_ & Hc1 & _ & Hl1 & _). apply (f_equal length) in Hl1.
  rewrite length_app, !length_map in Hl1.
  destruct (record_all_spec ls b1) as (Hb2 & Hd2 & Hc2 & _); [lia|lia|].
  fold (record_all ls b1) in *. set (b2 := record_all ls b1) in *. clearbody b2.
  assert (length (buf b2) = length (buf b1 ++ ls) - (length (buf b1 ++ ls) - cap b1)) as Hl2.
  { rewrite Hb2. unfold newest. by rewrite length_drop. }
  specialize (IH b2). rewrite Hc2, Hc1 in IH. specialize (IH Hcap ltac:(rewrite Hl2; lia)).
  destruct (flush_loop level_i32 ticks b2) as [outs b'].
  rewrite fmap_cons. cbn [concat snd]. rewrite length_app, Nat2Z.inj_add, <- Ht.
  assert (eq64 (log_accounted [] b2) (log_accounted [] b1 + Z.of_nat (length ls))) as Hb.
  { unfold log_accounted. simpl. rewrite Hd2, Hl2, length_app. apply eq64_of_eq. lia. }
  rewrite Hb in IH.
  destruct out as [m|]; simpl option_list; cbn [app]; rewrite ?log_accounted_cons, ?IH;
    apply eq64_of_eq; lia.
Qed.

(** ** The properties on concrete buffers *)

Definition line_of (msg : string) : LogLineSample :=
  {| at_ := {| timestamp_secs := 0; timestamp_subsec_nanos := 0 |}; level := LogLevel.Info;
     target := "mcpg::test"; message := msg; plugin_id := None |}.

Definition level_code (l : ProtoLevel) : Z :=
  match l with ProtoTrace => 1 | ProtoDebug => 2 | ProtoInfo => 3 | ProtoWarn => 4 | ProtoError => 5 end.

Lemma log_ring_keeps_newest_witness :
  let b := record_all (map line_of ["m0"; "m1"; "m2"; "m3"; "m4"]%string) (with_caps 3 10) in
  message <$> buf b = ["m2"; "m3"; "m4"]%string ∧ dropped_overflow b = 2%Z.
Proof.
  destruct (log_ring_keeps_newest 3 10 (map line_of ["m0"; "m1"; "m2"; "m3"; "m4"]%string))
    as (H1 & H2 & _); [lia|].
  split; [rewrite H1; reflexivity|rewrite H2; reflexivity].
Defined.

Definition log_demo : Inner :=
  record_all [line_of "m0"; line_of "m1"; line_of "m2"] (with_caps 5 2).

Lemma log_failed_send_loses_batch_witness :
  let '(out, b', stop) := flush_tick level_code false 0 log_demo in
  out = None ∧ stop = true ∧ message <$> buf b' = ["m2"]%string.
Proof.
  assert (buf log_demo ≠ []) as Hne by discriminate.
  assert (1 ≤ batch_cap log_demo) as Hbc by (simpl; lia).
  pose proof (log_failed_send_loses_batch level_code 0 log_demo Hne Hbc) as H.
  destruct (flush_tick _ _ _ _) as [[out b'] stop].
  destruct H as (H1 & H2 & _ & H3 & _). split; [exact H1|]. split; [exact H2|].
  rewrite H3. reflexivity.
Defined.

Definition log_ticks : list (Z * list LogLineSample) :=
  [(0%Z, [line_of "a"; line_of "b"; line_of "c"]); (45%Z, []); (90%Z, [line_of "d"])].

Lemma log_loop_accounts_for_every_line_witness :
  let '(outs, b') := flush_loop level_code log_ticks (with_caps 2 1) in
  eq64 (log_accounted outs b') 4.
Proof.
  assert (1 ≤ cap (with_caps 2 1)) as H1 by (simpl; lia).
  assert (length (buf (with_caps 2 1)) ≤ cap (with_caps 2 1)) as H2 by (simpl; lia).
  exact (log_loop_accounts_for_every_line level_code log_ticks (with_caps 2 1) H1 H2).
Defined.
