(* ===== verification/F64.v ===== *)
(** * Positive [f64] arithmetic

    The backoff's jitter multiplies a duration in [f64] seconds by a random
    factor.  A non-negative finite double is the rational number it denotes, and
    an operation is the exact one followed by [rnd53], rounding to 53 significant
    bits with ties to even.  The exponent is unbounded: the values involved lie
    between 2^-60 and 2^66, far inside the range of normal doubles. *)

From stdpp Require Import base numbers.
From Stdlib Require Import ZArith QArith Qround Qpower Qabs Lqa Lia.
From S2P Require Import Prelude Time.

Local Open Scope Q_scope.

(** 2^k for any integer [k]. *)
Definition pow2 (k : Z) : Q := Qpower 2 k.

(** The integer nearest to [x], the even one at equal distance. *)
Definition rne (x : Q) : Z :=
  let f := Qfloor x in
  match Qcompare (x - inject_Z f) (1 # 2) with
  | Lt => f
  | Gt => (f + 1)%Z
  | Eq => if Z.even f then f else (f + 1)%Z
  end.

(** The exponent [e] with [2^e <= x < 2^(e+1)], for [x > 0]. *)
Definition exponent (x : Q) : Z :=
  let e := (Z.log2 (Qnum x) - Z.log2 (Zpos (Qden x)))%Z in
  if Qle_bool (pow2 e) x then e else (e - 1)%Z.

(** Rounding to a double. *)
Definition rnd53 (x : Q) : Q :=
  if Qle_bool x 0 then 0
  else let ulp := pow2 (exponent x - 52) in inject_Z (rne (x / ulp)) * ulp.

Definition f64_add (x y : Q) : Q := rnd53 (x + y).
Definition f64_mul (x y : Q) : Q := rnd53 (x * y).
Definition f64_div (x y : Q) : Q := rnd53 (x / y).
Definition f64_of_Z (z : Z) : Q := rnd53 (inject_Z z).

(** [Duration::as_secs_f64]. *)
Definition as_secs_f64 (d : Duration) : Q :=
  f64_add (f64_of_Z (as_secs d))
          (f64_div (f64_of_Z (subsec_nanos d)) (f64_of_Z NANOS_PER_SEC)).

(** [Duration::from_secs_f64], which panics ([None]) on 2^64 seconds or more and
    otherwise rounds to the nearest nanosecond. *)
Definition from_secs_f64 (x : Q) : option Duration :=
  if Qle_bool (pow2 64) x then None else Some (rne (x * inject_Z NANOS_PER_SEC)).

(** ** Rounding errors *)

Lemma pow2_pos k : 0 < pow2 k.
Proof. apply Qpower_0_lt. reflexivity. Qed.

Lemma pow2_add a b : pow2 (a + b) == pow2 a * pow2 b.
Proof. apply Qpower_plus. intros H; discriminate H. Qed.

Lemma pow2_nonneg_Z k : (0 ≤ k)%Z → pow2 k == inject_Z (2 ^ k).
Proof. intros H. unfold pow2. rewrite Zpower_Qpower by done. reflexivity. Qed.

(** Half a unit: the error of rounding to an integer. *)
Lemma rne_error x : Qabs (inject_Z (rne x) - x) <= 1 # 2.
Proof.
  pose proof (Qfloor_le x) as H1. pose proof (Qlt_floor x) as H2.
  rewrite inject_Z_plus in H2. change (inject_Z 1) with 1 in H2.
  apply Qabs_Qle_condition. unfold rne.
  destruct (Qcompare _ _) eqn:E.
  - apply Qeq_alt in E. destruct (Z.even _); rewrite ?inject_Z_plus; change (inject_Z 1) with 1; lra.
  - apply Qlt_alt in E. lra.
  - apply Qgt_alt in E. rewrite inject_Z_plus. change (inject_Z 1) with 1. lra.
Qed.

Lemma exponent_spec x : 0 < x → pow2 (exponent x) <= x.
Proof.
  intros Hx. unfold exponent. set (e := (_ - _)%Z).
  destruct (Qle_bool (pow2 e) x) eqn:E; [by apply Qle_bool_iff in E|].
  destruct x as [n d]. unfold Qlt in Hx. simpl in Hx.
  assert (0 < n)%Z as Hn by lia.
  pose proof (Z.log2_spec n Hn) as [Hn1 _].
  pose proof (Z.log2_spec (Zpos d) ltac:(lia)) as [_ Hd2].
  subst e. cbn [Qnum Qden] in *.
  set (a := Z.log2 n) in *. set (b := Z.log2 (Zpos d)) in *.
  pose proof (Z.log2_nonneg n : 0 ≤ a)%Z. pose proof (Z.log2_nonneg (Zpos d) : 0 ≤ b)%Z.
  (* n >= 2^a and d <= 2^(b+1), so n/d >= 2^(a-b-1) *)
  apply Qmult_le_r with (z := pow2 (b + 1)); [apply pow2_pos|].
  rewrite <- pow2_add. replace (a - b - 1 + (b + 1))%Z with a by lia.
  assert (0 ≤ b + 1)%Z as Hb by lia.
  rewrite (pow2_nonneg_Z a H), (pow2_nonneg_Z (b + 1) Hb).
  unfold Qle, Qmult, inject_Z; simpl. rewrite Pos.mul_1_r.
  rewrite Z.add_1_r in *. nia.
Qed.

(** Relative error 2^-53 of rounding to a double. *)
Lemma rnd53_error x : 0 <= x → Qabs (rnd53 x - x) <= x * pow2 (-53).
Proof.
  intros Hx. unfold rnd53. destruct (Qle_bool x 0) eqn:E.
  { apply Qle_bool_iff in E. assert (x == 0) as -> by lra. vm_compute. discriminate. }
  assert (0 < x) as Hpos.
  { apply Qnot_le_lt. rewrite <- Qle_bool_iff. by rewrite E. }
  set (ulp := pow2 (exponent x - 52)).
  pose proof (pow2_pos (exponent x - 52)) as Hulp. fold ulp in Hulp.
  pose proof (rne_error (x / ulp)) as Hr. set (m := inject_Z (rne (x / ulp))) in *.
  assert (m * ulp - x == (m - x / ulp) * ulp) as -> by (field; lra).
  rewrite Qabs_Qmult, (Qabs_pos ulp) by lra.
  assert (Qabs (m - x / ulp) * ulp <= (1 # 2) * ulp) as H1 by (apply Qmult_le_compat_r; lra).
  assert ((1 # 2) * ulp == pow2 (exponent x) * pow2 (-53)) as H2.
  { unfold ulp. replace (exponent x - 52)%Z with (exponent x + (-52))%Z by lia.
    rewrite pow2_add. change (pow2 (-52)) with (pow2 (1 + -53)). rewrite (pow2_add 1 (-53)).
    change (pow2 1) with 2. ring. }
  assert (pow2 (exponent x) * pow2 (-53) <= x * pow2 (-53)) as H3.
  { apply Qmult_le_compat_r; [by apply exponent_spec|]. apply Qlt_le_weak, pow2_pos. }
  lra.
Qed.

Lemma inject_Z_nonneg z : (0 ≤ z)%Z → 0 <= inject_Z z.
Proof. unfold Qle. simpl. lia. Qed.

(** One unit of relative error. *)
Definition u53 : Q := 1 # 9007199254740992.

Lemma pow2_m53 : pow2 (-53) == u53.
Proof. reflexivity. Qed.

(** [x] is [v] up to [k] units of relative error. *)
Definition close (k : Q) (x v : Q) : Prop := v * (1 - k * u53) <= x /\ x <= v * (1 + k * u53).

Lemma rnd53_close x : 0 <= x → close 1 (rnd53 x) x.
Proof.
  intros Hx. pose proof (rnd53_error x Hx) as H. rewrite pow2_m53 in H.
  apply Qabs_Qle_condition in H. unfold close, u53 in *. split; lra.
Qed.

Lemma close_nonneg k x v : 0 <= v → 0 <= k <= 100 → close k x v → 0 <= x.
Proof.
  intros Hv Hk [H _]. eapply Qle_trans; [|exact H].
  apply Qmult_le_0_compat; [done|]. unfold u53. lra.
Qed.

(** Rounding a close value: the errors add up, with room for the product. *)
Lemma rnd53_close_trans x v : 0 <= v →
  (close 1 x v → close 3 (rnd53 x) v) ∧ (close 3 x v → close 5 (rnd53 x) v) ∧
  (close 5 x v → close 7 (rnd53 x) v).
Proof.
  intros Hv. split_and!; intros Hc;
    (assert (0 <= x) as Hx by (eapply close_nonneg; [exact Hv| |exact Hc]; split; discriminate));
    destruct (rnd53_close x Hx) as [L U]; destruct Hc as [L' U'];
    unfold close, u53 in *; split; lra.
Qed.

Lemma as_secs_f64_close d : (0 ≤ d)%Z → close 5 (as_secs_f64 d) (inject_Z d / inject_Z NANOS_PER_SEC).
Proof.
  intros Hd. unfold as_secs_f64, f64_add, f64_div, f64_of_Z.
  assert (rnd53 (inject_Z NANOS_PER_SEC) == inject_Z NANOS_PER_SEC) as HG by (vm_compute; reflexivity).
  set (G := rnd53 (inject_Z NANOS_PER_SEC)) in *.
  set (s := inject_Z (as_secs d)). set (n := inject_Z (subsec_nanos d)).
  assert (0 <= s) as Hs.
  { apply inject_Z_nonneg. unfold as_secs, NANOS_PER_SEC. apply Z.div_pos; lia. }
  assert (0 <= n) as Hn.
  { apply inject_Z_nonneg. unfold subsec_nanos, NANOS_PER_SEC. apply Z.mod_pos_bound. lia. }
  assert (inject_Z d == s * 1000000000 + n) as Hsplit.
  { unfold s, n. change 1000000000 with (inject_Z NANOS_PER_SEC).
    rewrite <- inject_Z_mult, <- inject_Z_plus.
    assert (d = as_secs d * NANOS_PER_SEC + subsec_nanos d)%Z as E by apply duration_split.
    rewrite E at 1. reflexivity. }
  clearbody s n. change (inject_Z NANOS_PER_SEC) with 1000000000 in *.
  pose proof (rnd53_close s Hs) as Cs. pose proof (rnd53_close n Hn) as Cn.
  assert (close 1 (rnd53 n / G) (n / 1000000000)) as Cq.
  { unfold close, u53, Qdiv in *. rewrite HG.
    change (/ 1000000000) with (1 # 1000000000). destruct Cn. split; lra. }
  assert (0 <= n / 1000000000) as Hq.
  { unfold Qdiv. change (/ 1000000000) with (1 # 1000000000). lra. }
  destruct (rnd53_close_trans (rnd53 n / G) (n / 1000000000) Hq) as (C3 & _). specialize (C3 Cq).
  set (N := rnd53 (rnd53 n / G)) in *. set (S := rnd53 s) in *. clearbody N S.
  assert (0 <= inject_Z d / 1000000000) as Hv.
  { rewrite Hsplit. unfold Qdiv. change (/ 1000000000) with (1 # 1000000000). lra. }
  apply rnd53_close_trans; [done|].
  unfold close, u53, Qdiv in *. change (/ 1000000000) with (1 # 1000000000) in *.
  rewrite Hsplit. destruct Cs, C3. split; lra.
Qed.

(** A duration times a factor, through [f64] and back. *)
Lemma scaled_secs_close d f :
  (0 ≤ d)%Z → 0 <= f →
  close 7 (f64_mul (as_secs_f64 d) f) (inject_Z d * f / inject_Z NANOS_PER_SEC).
Proof.
  intros Hd Hf. unfold f64_mul. pose proof (as_secs_f64_close d Hd) as [L U].
  assert (0 <= inject_Z d / inject_Z NANOS_PER_SEC) as Hv.
  { apply Qle_shift_div_l; [reflexivity|]. rewrite Qmult_0_l. by apply inject_Z_nonneg. }
  set (v := inject_Z d / inject_Z NANOS_PER_SEC) in *.
  assert (inject_Z d * f / inject_Z NANOS_PER_SEC == v * f) as Hvf by (unfold v; field; discriminate).
  assert (0 <= v * f) as Hvf0 by (by apply Qmult_le_0_compat).
  unfold close in *. rewrite Hvf.
  apply (rnd53_close_trans (as_secs_f64 d * f) (v * f) Hvf0). unfold close. split.
  - assert (v * f * (1 - 5 * u53) == v * (1 - 5 * u53) * f) as -> by ring.
    by apply Qmult_le_compat_r.
  - assert (v * f * (1 + 5 * u53) == v * (1 + 5 * u53) * f) as -> by ring.
    by apply Qmult_le_compat_r.
Qed.
