(* ===== verification/Backoff.v ===== *)
(** * Exponential backoff: [src/backoff.rs]

    The delay sequence of reconnects and Register retries, with the jitter
    computed in [f64] as the code computes it.  The random factor is an argument;
    [None] is the panic of [Duration::from_secs_f64]. *)

From stdpp Require Import base list numbers.
From Stdlib Require Import ZArith QArith Qabs Qround Lqa Lia.
From S2P Require Import Prelude Time F64.

Local Open Scope Z_scope.

Record Backoff := { initial : Duration; max : Duration; jitter : bool; attempt : Z }.

(** [Backoff::new]. *)
Definition Backoff_new (initial_ max_ : Duration) (jitter_ : bool) : Backoff :=
  {| initial := initial_; max := max_; jitter := jitter_; attempt := 0 |}.

(** The part of [next_delay] before the jitter: the exponent is capped at 20, so
    [1u32 << exp] does not overflow. *)
Definition bounded_delay (b : Backoff) : Duration :=
  let exp := Z.min (attempt b) 20 in
  let raw := dur_saturating_mul (initial b) (Z.shiftl 1 exp) in
  Z.min raw (max b).

(** [Backoff::next_delay], [factor] drawn by [random_range(0.75..=1.25)]. *)
Definition next_delay (factor : Q) (b : Backoff) : option Duration * Backoff :=
  let bounded := bounded_delay b in
  let with_jitter :=
    if jitter b then from_secs_f64 (f64_mul (as_secs_f64 bounded) factor) else Some bounded in
  (with_jitter,
   {| initial := initial b; max := max b; jitter := jitter b;
      attempt := saturating_add_u32 (attempt b) 1 |}).

(** [Backoff::reset]. *)
Definition reset (b : Backoff) : Backoff :=
  {| initial := initial b; max := max b; jitter := jitter b; attempt := 0 |}.

(** What [random_range(0.75..=1.25)] promises. *)
Definition factor_ok (f : Q) : Prop := ((3 # 4) <= f /\ f <= (5 # 4))%Q.

(** The delays of consecutive [next_delay] calls, one per drawn factor. *)
Fixpoint delays (factors : list Q) (b : Backoff) : list (option Duration) * Backoff :=
  match factors with
  | [] => ([], b)
  | f :: fs =>
      let '(d, b) := next_delay f b in
      let '(ds, b) := delays fs b in
      (d :: ds, b)
  end.

Record Backoff_wf (b : Backoff) : Prop := {
  bw_initial : in_duration (initial b);
  bw_max : in_duration (max b);
  bw_attempt : in_u32 (attempt b)
}.

(** ** The bounded delay *)

Lemma shiftl_range e : 0 ≤ e ≤ 20 → 1 ≤ Z.shiftl 1 e ≤ 2 ^ 20.
Proof.
  intros He. rewrite Z.shiftl_1_l. split.
  - change 1 with (2 ^ 0). apply Z.pow_le_mono_r; lia.
  - apply Z.pow_le_mono_r; lia.
Qed.

Lemma bounded_delay_range b : Backoff_wf b → 0 ≤ bounded_delay b ≤ max b.
Proof.
  intros [[Hi1 Hi2] [Hm1 Hm2] [Ha1 _]]. unfold bounded_delay.
  pose proof (shiftl_range (Z.min (attempt b) 20) ltac:(lia)).
  assert (in_duration (dur_saturating_mul (initial b) (Z.shiftl 1 (Z.min (attempt b) 20)))) as [? ?].
  { apply dur_saturating_mul_range; [done|lia]. }
  lia.
Qed.

Lemma bounded_delay_mono b1 b2 :
  Backoff_wf b1 → Backoff_wf b2 → initial b1 = initial b2 → max b1 = max b2 →
  attempt b1 ≤ attempt b2 → bounded_delay b1 ≤ bounded_delay b2.
Proof.
  intros [[Hi _] _ [Ha1 _]] [_ _ [Ha2 _]] E1 E2 Ha. unfold bounded_delay, dur_saturating_mul.
  rewrite <- E1, <- E2, !Z.shiftl_1_l.
  assert (2 ^ Z.min (attempt b1) 20 ≤ 2 ^ Z.min (attempt b2) 20).
  { apply Z.pow_le_mono_r; lia. }
  nia.
Qed.

Lemma next_delay_wf f b : Backoff_wf b → Backoff_wf (next_delay f b).2.
Proof.
  intros [Hi Hm [Ha1 Ha2]]. split; simpl; auto.
  unfold in_u32, saturating_add_u32, U32_MAX in *. lia.
Qed.

(** The jittered delay, when [max] is at most 2^63 seconds: it exists, and lies
    within a quarter of the bounded delay up to 7 * 2^-53 of it and half a
    nanosecond. *)
Lemma jitter_range f d :
  0 ≤ d ≤ from_secs (2 ^ 63) → factor_ok f →
  ∃ r, from_secs_f64 (f64_mul (as_secs_f64 d) f) = Some r ∧ 0 ≤ r ∧
    (inject_Z d * (3 # 4) * (1 - 7 * u53) - (1 # 2) <= inject_Z r)%Q ∧
    (inject_Z r <= inject_Z d * (5 # 4) * (1 + 7 * u53) + (1 # 2))%Q.
Proof.
  intros [Hd Hmax] [Hf1 Hf2].
  assert (0 <= f)%Q as Hf by lra.
  pose proof (scaled_secs_close d f Hd Hf) as [L U].
  assert (0 <= inject_Z d)%Q as Hq by (by apply inject_Z_nonneg).
  assert (inject_Z d <= 9223372036854775808 * 1000000000)%Q as Hq2.
  { change (9223372036854775808 * 1000000000)%Q with (inject_Z (from_secs (2 ^ 63))).
    by rewrite <- Zle_Qle. }
  assert (inject_Z d * (3 # 4) <= inject_Z d * f)%Q as M1.
  { rewrite !(Qmult_comm (inject_Z d)). by apply Qmult_le_compat_r. }
  assert (inject_Z d * f <= inject_Z d * (5 # 4))%Q as M2.
  { rewrite !(Qmult_comm (inject_Z d)). by apply Qmult_le_compat_r. }
  set (x := f64_mul (as_secs_f64 d) f) in *. set (df := (inject_Z d * f)%Q) in *.
  unfold Qdiv in L, U. change (/ inject_Z NANOS_PER_SEC)%Q with (1 # 1000000000)%Q in L, U.
  unfold from_secs_f64. destruct (Qle_bool (pow2 64) x) eqn:E.
  { apply Qle_bool_iff in E. change (pow2 64) with 18446744073709551616%Q in E.
    unfold u53 in *. lra. }
  pose proof (rne_error (x * inject_Z NANOS_PER_SEC)) as R.
  change (inject_Z NANOS_PER_SEC) with 1000000000%Q in *.
  exists (rne (x * 1000000000)). split; [done|].
  apply Qabs_Qle_condition in R. unfold u53 in *.
  assert (-(1 # 2) <= inject_Z (rne (x * 1000000000)))%Q as Hn by lra.
  split_and!; [|lra|lra].
  assert (inject_Z (-1) < inject_Z (rne (x * 1000000000)))%Q as Hlt.
  { eapply Qlt_le_trans; [|exact Hn]. reflexivity. }
  rewrite <- Zlt_Qlt in Hlt. lia.
Qed.

(** ** Main properties *)


(** With [max] at most 2^63 seconds, a jittered delay never panics and lies
    between three quarters and five quarters of [min(max, initial * 2^attempt)],
    up to a relative rounding error of 7 * 2^-53 and half a nanosecond, for
    every factor the generator can draw. *)
Theorem jittered_delay_within_a_quarter f b :
  Backoff_wf b → jitter b = true → factor_ok f → max b ≤ from_secs (2 ^ 63) →
  ∃ d, (next_delay f b).1 = Some d ∧ 0 ≤ d ∧
    (inject_Z (bounded_delay b) * (3 # 4) * (1 - 7 * u53) - (1 # 2) <= inject_Z d)%Q ∧
    (inject_Z d <= inject_Z (bounded_delay b) * (5 # 4) * (1 + 7 * u53) + (1 # 2))%Q.
Proof.
  intros Hwf Hj Hf Hmax. unfold next_delay. rewrite Hj. apply jitter_range; [|done].
  pose proof (bounded_delay_range b Hwf). lia.
Qed.

(** The delays never shrink before a reset: the bounded delay after a call
    is at least the one before it and at most [max]; [reset] starts over from
    [min(max, initial)]. *)
Theorem backoff_never_shrinks_before_reset f b :
  Backoff_wf b →
  let b' := (next_delay f b).2 in
  0 ≤ bounded_delay b ≤ bounded_delay b' ∧ bounded_delay b' ≤ max b ∧ Backoff_wf b' ∧
  bounded_delay (reset b') = Z.min (initial b) (max b).
Proof.
  intros Hwf b'. pose proof (next_delay_wf f b Hwf) as Hwf'. fold b' in Hwf'.
  pose proof (bounded_delay_range b Hwf). pose proof (bounded_delay_range b' Hwf').
  split_and!; try done; [lia| |simpl in *; lia|].
  - apply bounded_delay_mono; try done. simpl.
    destruct Hwf as [_ _ [? ?]]. unfold saturating_add_u32. lia.
  - unfold bounded_delay, dur_saturating_mul, reset. simpl.
    destruct Hwf as [[? ?] _ _]. rewrite Z.mul_1_r. lia.
Qed.

(** ** The properties on concrete values *)


Lemma jittered_delay_within_a_quarter_witness :
  let b := Backoff_new (from_secs 1) (from_secs 60) true in
  ∃ d, (next_delay (5 # 4) b).1 = Some d ∧ 0 ≤ d ∧
    (inject_Z d <= inject_Z (from_secs 1) * (5 # 4) * (1 + 7 * u53) + (1 # 2))%Q.
Proof.
  destruct (jittered_delay_within_a_quarter (5 # 4) (Backoff_new (from_secs 1) (from_secs 60) true))
    as (d & H1 & H2 & _ & H3).
  - split; vm_compute; intuition discriminate.
  - reflexivity.
  - split; discriminate.
  - vm_compute. discriminate.
  - exists d. split; [exact H1|]. split; [exact H2|exact H3].
Defined.

Lemma backoff_never_shrinks_before_reset_witness :
  let b := Backoff_new (from_secs 1) (from_secs 60) true in
  bounded_delay b ≤ bounded_delay (next_delay 1 b).2 ∧
  bounded_delay (reset (next_delay 1 b).2) = from_secs 1.
Proof.
  destruct (backoff_never_shrinks_before_reset 1 (Backoff_new (from_secs 1) (from_secs 60) true))
    as (H1 & _ & _ & H2).
  - split; vm_compute; intuition discriminate.
  - split; [exact (proj2 H1)|exact H2].
Defined.
