(* ===== verification/Text.v ===== *)
(** * Strings

    The operations of Rust's [str] the client uses, on byte strings: a [string]
    is the UTF-8 encoding of the Rust string, one [ascii] per byte. *)

From stdpp Require Import base list strings.
From Stdlib Require Import ZArith Lia Ascii.
From Stdlib.Strings Require Byte.
From S2P Require Import Prelude Proto.

Local Open Scope string_scope.

(** ** Searching and splitting *)

(** [str::strip_prefix]. *)
Fixpoint strip_prefix (p s : string) : option string :=
  match p, s with
  | EmptyString, _ => Some s
  | String a p, String b s => if decide (a = b) then strip_prefix p s else None
  | String _ _, EmptyString => None
  end.

(** [str::starts_with]. *)
Definition starts_with (p s : string) : bool :=
  match strip_prefix p s with Some _ => true | None => false end.

(** [str::contains], for a string pattern. *)
Fixpoint contains (p s : string) : bool :=
  starts_with p s || match s with EmptyString => false | String _ s => contains p s end.

(** [str::split_once], for a character pattern. *)
Fixpoint split_once (c : ascii) (s : string) : option (string * string) :=
  match s with
  | EmptyString => None
  | String a s =>
      if decide (a = c) then Some ("", s)
      else match split_once c s with
           | Some (l, r) => Some (String a l, r)
           | None => None
           end
  end.

(** [str::split], for a character pattern: at least one piece. *)
Fixpoint split (c : ascii) (s : string) : list string :=
  match s with
  | EmptyString => [""]
  | String a s =>
      if decide (a = c) then "" :: split c s
      else match split c s with
           | p :: ps => String a p :: ps
           | [] => [String a ""]
           end
  end.

(** [Iterator::find_map]. *)
Fixpoint find_map {A B} (f : A → option B) (l : list A) : option B :=
  match l with
  | [] => None
  | x :: l => match f x with Some b => Some b | None => find_map f l end
  end.

(** [str::to_ascii_lowercase]. *)
Definition ascii_lower (a : ascii) : ascii :=
  let n := nat_of_ascii a in
  if (65 <=? n)%nat && (n <=? 90)%nat then ascii_of_nat (n + 32) else a.

Fixpoint to_ascii_lowercase (s : string) : string :=
  match s with
  | EmptyString => ""
  | String a s => String (ascii_lower a) (to_ascii_lowercase s)
  end.

(** Every character of [s] satisfies [p]. *)
Fixpoint str_forall (p : ascii → bool) (s : string) : bool :=
  match s with EmptyString => true | String a s => p a && str_forall p s end.

Definition lacks (c : ascii) : string → bool := str_forall (λ a, negb (bool_decide (a = c))).

(** ** Trimming *)

Definition bytes_str (l : list nat) : string := String.string_of_list_ascii (ascii_of_nat <$> l).

(** The characters with Unicode's [White_Space] property, in UTF-8. *)
Definition WHITESPACE : list string :=
  bytes_str <$>
    ([[9]; [10]; [11]; [12]; [13]; [32];
      [194; 133]; [194; 160]; [225; 154; 128]; [226; 128; 168]; [226; 128; 169];
      [226; 128; 175]; [226; 129; 159]; [227; 128; 128]] ++
     map (λ n, [226; 128; 128 + n]) (seq 0 11))%list.

Definition str_rev (s : string) : string :=
  String.string_of_list_ascii (rev (String.list_ascii_of_string s)).

(** Removes the listed strings from the front as long as one matches. *)
Fixpoint strip_all (ws : list string) (fuel : nat) (s : string) : string :=
  match fuel with
  | O => s
  | S fuel =>
      match find_map (λ w, strip_prefix w s) ws with
      | Some r => strip_all ws fuel r
      | None => s
      end
  end.

Definition trim_start (s : string) : string := strip_all WHITESPACE (String.length s) s.

Definition trim_end (s : string) : string :=
  str_rev (strip_all (str_rev <$> WHITESPACE) (String.length s) (str_rev s)).

(** [str::trim]. *)
Definition trim (s : string) : string := trim_end (trim_start s).

(** [str::trim_end_matches], for a character pattern. *)
Definition trim_end_matches (c : ascii) (s : string) : string :=
  str_rev (strip_all [String c ""] (String.length s) (str_rev s)).

(** ** Numbers *)

Definition digit_value (a : ascii) : option Z :=
  let n := Z.of_nat (nat_of_ascii a) in
  if ((48 <=? n) && (n <=? 57))%Z then Some (n - 48)%Z else None.

Fixpoint parse_digits (acc : Z) (s : string) : option Z :=
  match s with
  | EmptyString => Some acc
  | String a s =>
      match digit_value a with
      | Some d =>
          let acc := (acc * 10 + d)%Z in
          if (acc <=? U64_MAX)%Z then parse_digits acc s else None
      | None => None
      end
  end.

(** [str::parse::<u64>]: an optional [+], then at least one digit, and a value
    that fits. *)
Definition parse_u64 (s : string) : option Z :=
  let s := match strip_prefix "+" s with Some r => r | None => s end in
  if str_is_empty s then None else parse_digits 0 s.

Definition digit_ascii (d : Z) : ascii := ascii_of_nat (48 + Z.to_nat d).

(** [to_string] of an unsigned integer, most significant digit first. *)
Fixpoint print_digits (fuel : nat) (n : Z) (acc : string) : string :=
  match fuel with
  | O => acc
  | S fuel =>
      let acc := String (digit_ascii (n mod 10)) acc in
      if (n <? 10)%Z then acc else print_digits fuel (n / 10) acc
  end.

(** One digit per bit is enough. *)
Definition to_string (n : Z) : string := print_digits (S (Z.to_nat (Z.log2 n))) n "".

(** ** Bytes and UTF-8 *)

(** [str::as_bytes]. *)
Definition as_bytes (s : string) : bytes := String.list_byte_of_string s.

(** The string with these bytes. *)
Definition of_bytes (b : bytes) : string := String.string_of_list_byte b.

Definition byte_in (lo hi : nat) (b : byte) : bool :=
  let n := N.to_nat (Byte.to_N b) in (lo <=? n)%nat && (n <=? hi)%nat.

(** [str::from_utf8] accepts exactly the well-formed byte sequences. *)
Fixpoint utf8_valid (b : bytes) : bool :=
  match b with
  | [] => true
  | b0 :: r0 =>
      if byte_in 0 127 b0 then utf8_valid r0 else
      match r0 with
      | [] => false
      | b1 :: r1 =>
          if byte_in 194 223 b0 then byte_in 128 191 b1 && utf8_valid r1 else
          match r1 with
          | [] => false
          | b2 :: r2 =>
              if byte_in 224 239 b0 then
                byte_in (if byte_in 224 224 b0 then 160 else 128)
                        (if byte_in 237 237 b0 then 159 else 191) b1 &&
                byte_in 128 191 b2 && utf8_valid r2
              else
              match r2 with
              | [] => false
              | b3 :: r3 =>
                  byte_in 240 244 b0 &&
                  byte_in (if byte_in 240 240 b0 then 144 else 128)
                          (if byte_in 244 244 b0 then 143 else 191) b1 &&
                  byte_in 128 191 b2 && byte_in 128 191 b3 && utf8_valid r3
              end
          end
      end
  end.

Lemma of_bytes_as_bytes s : of_bytes (as_bytes s) = s.
Proof. apply String.string_of_list_byte_of_string. Qed.

Lemma as_bytes_of_bytes b : as_bytes (of_bytes b) = b.
Proof. apply String.list_byte_of_string_of_list_byte. Qed.

(** ** Splitting and joining *)

Lemma str_app_nil r : "" +:+ r = r.
Proof. done. Qed.

Lemma str_app_cons a p r : String a p +:+ r = String a (p +:+ r).
Proof. done. Qed.

Lemma strip_prefix_spec p s r : strip_prefix p s = Some r ↔ s = p +:+ r.
Proof.
  revert s; induction p as [|a p IH]; intros s;
    rewrite ?str_app_nil, ?str_app_cons; simpl; [split; congruence|].
  destruct s as [|b s]; [split; congruence|]. case_decide; subst.
  - rewrite IH. split; congruence.
  - split; congruence.
Qed.

Lemma strip_prefix_app p r : strip_prefix p (p +:+ r) = Some r.
Proof. by apply strip_prefix_spec. Qed.

Lemma lacks_cons c a s : lacks c (String a s) = true ↔ a ≠ c ∧ lacks c s = true.
Proof. unfold lacks. simpl. rewrite andb_true_iff, negb_true_iff, bool_decide_eq_false. done. Qed.

Lemma split_once_lacks c l r :
  lacks c l = true → split_once c (l +:+ String c r) = Some (l, r).
Proof.
  induction l as [|a l IH]; rewrite ?str_app_nil, ?str_app_cons; simpl.
  - intros _. by rewrite decide_True.
  - intros [Ha Hl]%lacks_cons. rewrite decide_False by done. by rewrite IH.
Qed.

Lemma split_once_spec c s l r :
  split_once c s = Some (l, r) ↔ s = l +:+ String c r ∧ lacks c l = true.
Proof.
  split; [|intros [-> ?]; by apply split_once_lacks].
  revert l; induction s as [|a s IH]; intros l; simpl; [done|]. case_decide.
  - intros [= <- <-]. by subst.
  - destruct (split_once c s) as [[l' r']|]; [|done]. intros [= <- ->].
    destruct (IH l') as [-> ?]; [done|]. split; [done|]. by apply lacks_cons.
Qed.

Lemma split_once_none c s : split_once c s = None ↔ lacks c s = true.
Proof.
  induction s as [|a s IH]; simpl; [done|]. rewrite lacks_cons, <- IH. case_decide.
  - split; [done|]. by intros [? _].
  - destruct (split_once c s) as [[l r]|]; [|done]. split; [done|]. by intros [_ ?].
Qed.

Lemma split_lacks c s : lacks c s = true → split c s = [s].
Proof.
  induction s as [|a s IH]; simpl; [done|]. intros [Ha Hs]%lacks_cons.
  by rewrite decide_False, IH by done.
Qed.

Lemma split_app c l r :
  lacks c l = true → split c (l +:+ String c r) = l :: split c r.
Proof.
  induction l as [|a l IH]; rewrite ?str_app_nil, ?str_app_cons; simpl.
  - intros _. by rewrite decide_True.
  - intros [Ha Hl]%lacks_cons. by rewrite decide_False, IH by done.
Qed.

(** [slice::join]. *)
Fixpoint join (c : ascii) (ps : list string) : string :=
  match ps with
  | [] => ""
  | [p] => p
  | p :: ps => p +:+ String c (join c ps)
  end.

Lemma split_join c ps :
  ps ≠ [] → Forall (λ p, lacks c p = true) ps → split c (join c ps) = ps.
Proof.
  induction ps as [|p [|q ps] IH]; intros Hne Hall; [done| |].
  - apply Forall_cons in Hall as [? _]. by apply split_lacks.
  - apply Forall_cons in Hall as [? Hall].
    change (join c (p :: q :: ps)) with (p +:+ String c (join c (q :: ps))).
    rewrite split_app by done. f_equal. by apply IH.
Qed.

Lemma split_pieces c s : split c s ≠ [] ∧ Forall (λ p, lacks c p = true) (split c s) ∧
  join c (split c s) = s.
Proof.
  induction s as [|a s (IH1 & IH2 & IH3)]; simpl; [by repeat constructor|].
  case_decide as E.
  - subst a. split; [done|]. split; [by constructor|].
    destruct (split c s) as [|p ps] eqn:Es; [done|]. simpl in *. by rewrite IH3.
  - destruct (split c s) as [|p ps] eqn:Es; [done|].
    apply Forall_cons in IH2 as [Hp Hps]. split; [done|]. split.
    + constructor; [|done]. by apply lacks_cons.
    + subst s. by destruct ps.
Qed.

Lemma find_map_app {A B} (f : A → option B) l1 l2 :
  Forall (λ x, f x = None) l1 → find_map f (l1 ++ l2)%list = find_map f l2.
Proof. induction 1 as [|x l H _ IH]; simpl; [done|]. by rewrite H. Qed.

Lemma find_map_spec {A B} (f : A → option B) l b :
  find_map f l = Some b ↔
  ∃ l1 x l2, l = (l1 ++ x :: l2)%list ∧ f x = Some b ∧ Forall (λ y, f y = None) l1.
Proof.
  split.
  - induction l as [|x l IH]; simpl; [done|]. destruct (f x) eqn:E.
    + intros [= ->]. exists [], x, l. auto.
    + intros H. destruct (IH H) as (l1 & y & l2 & -> & ? & ?). exists (x :: l1), y, l2. auto.
  - intros (l1 & x & l2 & -> & Hx & Hl). rewrite find_map_app by done. simpl. by rewrite Hx.
Qed.

Lemma find_map_none {A B} (f : A → option B) l :
  find_map f l = None ↔ Forall (λ x, f x = None) l.
Proof.
  induction l as [|x l IH]; simpl; [done|]. rewrite Forall_cons, <- IH.
  destruct (f x); [|tauto]. split; [done|]. by intros [? _].
Qed.

(** ** Printing and parsing numbers *)

Lemma digit_value_ascii d : (0 ≤ d ≤ 9)%Z → digit_value (digit_ascii d) = Some d.
Proof.
  intros Hd. unfold digit_value, digit_ascii. rewrite nat_ascii_embedding by lia.
  replace (Z.of_nat (48 + Z.to_nat d)) with (48 + d)%Z by lia.
  rewrite (proj2 (Z.leb_le 48 (48 + d))), (proj2 (Z.leb_le (48 + d) 57)) by lia. simpl. f_equal. lia.
Qed.

Lemma parse_print_digits fuel n acc :
  (0 ≤ n ≤ U64_MAX)%Z → (n < 2 ^ Z.of_nat fuel)%Z →
  parse_digits 0 (print_digits fuel n acc) = parse_digits n acc.
Proof.
  revert n acc; induction fuel as [|fuel IH]; intros n acc Hn Hf; simpl print_digits.
  - assert (n = 0)%Z as -> by (change (Z.of_nat 0) with 0%Z in Hf; lia). done.
  - pose proof (Z.mod_pos_bound n 10 ltac:(lia)) as Hm.
    pose proof (Z.div_mod n 10 ltac:(lia)) as Hdm.
    destruct (n <? 10)%Z eqn:E.
    + apply Z.ltb_lt in E. rewrite (Z.mod_small n 10) by lia. cbn [parse_digits].
      rewrite digit_value_ascii by lia. cbv zeta. rewrite Z.mul_0_l, Z.add_0_l, (proj2 (Z.leb_le n U64_MAX)) by lia. done.
    + apply Z.ltb_ge in E. rewrite IH.
      * cbn [parse_digits]. rewrite digit_value_ascii by lia. cbv zeta.
        replace (n / 10 * 10 + n mod 10)%Z with n by lia.
        by rewrite (proj2 (Z.leb_le n U64_MAX)) by lia.
      * split; [apply Z.div_pos; lia|]. transitivity n; [|lia]. apply Z.div_le_upper_bound; lia.
      * rewrite Nat2Z.inj_succ, Z.pow_succ_r in Hf by lia. apply Z.div_lt_upper_bound; lia.
Qed.

Lemma to_string_head n :
  (0 ≤ n)%Z → ∃ d s, (0 ≤ d ≤ 9)%Z ∧ to_string n = String (digit_ascii d) s.
Proof.
  intros Hn. unfold to_string.
  enough (∀ fuel n acc, (0 ≤ n)%Z →
    ∃ d s, (0 ≤ d ≤ 9)%Z ∧ print_digits (S fuel) n acc = String (digit_ascii d) s) as H by auto.
  intros fuel. clear. induction fuel as [|fuel IH]; intros n acc Hn;
    pose proof (Z.mod_pos_bound n 10 ltac:(lia)); cbn [print_digits].
  - exists (n mod 10)%Z, acc. split; [lia|]. by destruct (n <? 10)%Z.
  - destruct (n <? 10)%Z; [exists (n mod 10)%Z, acc; split; [lia|done]|].
    apply IH. apply Z.div_pos; lia.
Qed.

(** Printing then parsing a [u64] gives it back. *)
Lemma parse_to_string n : in_u64 n → parse_u64 (to_string n) = Some n.
Proof.
  intros Hn. unfold parse_u64. destruct (to_string_head n) as (d & s & Hd & Hs); [apply Hn|].
  assert (strip_prefix "+" (to_string n) = None) as ->.
  { rewrite Hs. cbn [strip_prefix]. rewrite decide_False; [done|]. intros E.
    assert (nat_of_ascii "+"%char = nat_of_ascii (digit_ascii d)) as E' by (by rewrite <- E).
    unfold digit_ascii in E'. rewrite nat_ascii_embedding in E' by lia.
    change (nat_of_ascii "+"%char) with 43 in E'. lia. }
  assert (str_is_empty (to_string n) = false) as -> by (by rewrite Hs).
  unfold to_string. rewrite parse_print_digits; [done|apply Hn|].
  destruct (decide (n = 0)%Z) as [->|]; [reflexivity|].
  pose proof (Z.log2_nonneg n). rewrite Nat2Z.inj_succ, Z2Nat.id by lia.
  apply Z.log2_spec. destruct Hn. lia.
Qed.
