(* ===== verification/Serde.v ===== *)
(** * JSON values and derived (de)serialisation

    What [serde_json] parses and prints, as a tree, and how the derived
    [Deserialize] implementations read a struct off it.  The text syntax is
    third-party code: [json_print] and [json_parse] are operations of the class
    [Json], and [JsonLaws] states that parsing what was printed gives it back.
    Base64 and the RFC 3339 form of a [DateTime] are interfaces of the same
    kind. *)

From stdpp Require Import base list strings.
From Stdlib Require Import ZArith Lia SpecFloat.
From S2P Require Import Prelude Time Proto Text.

Local Open Scope string_scope.

(** [serde_json::Number]: integers keep their sign class. *)
Inductive Number :=
| PosInt (n : Z)
| NegInt (n : Z)
| Float (f : spec_float).

(** A JSON document as parsed: an object lists its members in order, repeated
    keys included. *)
Inductive Value :=
| Null
| Bool (b : bool)
| Num (n : Number)
| Str (s : string)
| Arr (l : list Value)
| Obj (members : list (string * Value)).

(** ** [serde_json::Value] accessors *)

(** The values a key has, in order. *)
Fixpoint members_of (k : string) (m : list (string * Value)) : list Value :=
  match m with
  | [] => []
  | (k', v) :: m => if String.eqb k' k then v :: members_of k m else members_of k m
  end.

(** [Value::get]: a [Map] keeps the last value of a repeated key. *)
Definition get (k : string) (v : Value) : option Value :=
  match v with Obj m => last (members_of k m) | _ => None end.

(** [Value::as_str]. *)
Definition as_str (v : Value) : option string :=
  match v with Str s => Some s | _ => None end.

(** [Value::as_i64]. *)
Definition as_i64 (v : Value) : option Z :=
  match v with
  | Num (PosInt n) => if (n <=? I64_MAX)%Z then Some n else None
  | Num (NegInt n) => Some n
  | _ => None
  end.

(** [n as f64] for an integer. *)
Definition f64_of_int (n : Z) : spec_float := binary_normalize 53 1024 n 0 false.

(** [Value::as_f64]. *)
Definition as_f64 (v : Value) : option spec_float :=
  match v with
  | Num (PosInt n) => Some (f64_of_int n)
  | Num (NegInt n) => Some (f64_of_int n)
  | Num (Float f) => Some f
  | _ => None
  end.

(** [f as i64]: towards zero, saturating, and [0] for a NaN. *)
Definition f64_as_i64 (f : spec_float) : Z :=
  match f with
  | S754_zero _ => 0
  | S754_nan => 0
  | S754_infinity s => if s then I64_MIN else I64_MAX
  | S754_finite s m e =>
      let a := if (0 <=? e)%Z then Z.shiftl (Zpos m) e else Z.shiftr (Zpos m) (- e) in
      let v := if s then Z.opp a else a in
      Z.max I64_MIN (Z.min I64_MAX v)
  end%Z.

(** ** Derived [Deserialize] of a struct

    An object gives a field by name, a repeated field is an error; an array gives
    the fields in declaration order and may not be longer than the struct.
    Unknown members are ignored. *)

(** The raw value of field [i], named [k], of a struct of [n] fields:
    [Err] on a shape that is an error, [Ok None] when it is absent. *)
Definition struct_field (n : nat) (v : Value) (i : nat) (k : string)
    : Result (option Value) () :=
  match v with
  | Obj m =>
      match members_of k m with
      | [] => Ok None
      | [x] => Ok (Some x)
      | _ => Err tt
      end
  | Arr l => if (length l <=? n)%nat then Ok (l !! i) else Err tt
  | _ => Err tt
  end.

(** A field without [#[serde(default)]]. *)
Definition required {A} (de : Value → option A) (r : Result (option Value) ()) : option A :=
  match r with Ok (Some v) => de v | _ => None end.

(** A field with [#[serde(default)]]. *)
Definition defaulted {A} (dflt : A) (de : Value → option A) (r : Result (option Value) ())
    : option A :=
  match r with Ok (Some v) => de v | Ok None => Some dflt | Err _ => None end.

Definition de_string : Value → option string := as_str.

Definition de_bool (v : Value) : option bool :=
  match v with Bool b => Some b | _ => None end.

Definition de_u32 (v : Value) : option Z :=
  match v with
  | Num (PosInt n) => if ((0 <=? n) && (n <=? U32_MAX))%Z then Some n else None
  | _ => None
  end.

(** ** Interfaces to third-party code *)

(** [serde_json::to_vec], [to_vec_pretty] and [from_slice], up to the tree. *)
Class Json := {
  json_print : Value → bytes;
  json_print_pretty : Value → bytes;
  json_parse : bytes → option Value
}.

(** A value [serde_json] can print: no repeated keys, integers in range and no
    floats (the client prints none). *)
Fixpoint value_ok (v : Value) : bool :=
  match v with
  | Null | Bool _ | Str _ => true
  | Num (PosInt n) => ((0 <=? n) && (n <=? U64_MAX))%Z
  | Num (NegInt n) => ((I64_MIN <=? n) && (n <? 0))%Z
  | Num (Float _) => false
  | Arr l => forallb value_ok l
  | Obj m => bool_decide (NoDup (fst <$> m)) && forallb (λ kv, value_ok kv.2) m
  end.

Class JsonLaws `{Json} : Prop := {
  json_parse_print v : value_ok v = true → json_parse (json_print v) = Some v;
  json_parse_print_pretty v : value_ok v = true → json_parse (json_print_pretty v) = Some v
}.

(** Standard base64 with padding, and the URL-safe alphabet without it. *)
Class Base64 := {
  b64_encode : bytes → string;
  b64_decode : bytes → option bytes;
  b64url_decode : string → option bytes
}.

Class Base64Laws `{Base64} : Prop := {
  b64_decode_encode b : b64_decode (as_bytes (b64_encode b)) = Some b;
  b64_encode_nonempty b : b ≠ [] → b64_encode b ≠ ""
}.

(** [chrono]'s serde form of a [DateTime<Utc>]: an RFC 3339 string. *)
Class Rfc3339 := {
  dt_print : DateTime → string;
  dt_parse : string → option DateTime
}.

(** Years 0 to 9999, the range RFC 3339 covers. *)
Definition dt_ok (d : DateTime) : Prop :=
  (-62167219200 ≤ timestamp_secs d ≤ 253402300799 ∧
   0 ≤ timestamp_subsec_nanos d < NANOS_PER_SEC)%Z.

Class Rfc3339Laws `{Rfc3339} : Prop := {
  dt_parse_print d : dt_ok d → dt_parse (dt_print d) = Some d
}.

Definition de_datetime `{Rfc3339} (v : Value) : option DateTime :=
  match v with Str s => dt_parse s | _ => None end.
