(* ===== verification/Concrete.v ===== *)
(** * Concrete codecs

    Executable instances of the interfaces to third-party codecs, with their
    laws.  The theorems never depend on them: they show that the laws can be met
    together, and the examples run on them. *)

From stdpp Require Import base list strings countable.
From Stdlib Require Import ZArith Lia SpecFloat.
From Stdlib.Strings Require Ascii Byte.
From S2P Require Import Prelude Time Proto Text Serde.

(** ** JSON: the tree in postfix order *)

Definition Atom : Type := ((unit + bool) + (Z + string)) + (bool * positive * Z).

Fixpoint to_tree (v : Value) : gen_tree Atom :=
  match v with
  | Null => GenLeaf (inl (inl (inl tt)))
  | Bool b => GenLeaf (inl (inl (inr b)))
  | Num (PosInt n) => GenLeaf (inl (inr (inl n)))
  | Num (NegInt n) => GenLeaf (inl (inr (inl n)))
  | Num (Float (S754_finite s m e)) => GenLeaf (inr (s, m, e))
  | Num (Float _) => GenLeaf (inl (inl (inl tt)))
  | Str s => GenLeaf (inl (inr (inr s)))
  | Arr l => GenNode 0 (map to_tree l)
  | Obj m => GenNode 1 (flat_map (λ kv, [GenLeaf (inl (inr (inr kv.1))); to_tree kv.2]) m)
  end.

Fixpoint pair_up (l : list Value) : list (string * Value) :=
  match l with
  | Str k :: v :: l => (k, v) :: pair_up l
  | _ => []
  end.

Fixpoint of_tree (t : gen_tree Atom) : Value :=
  match t with
  | GenLeaf (inl (inl (inl _))) => Null
  | GenLeaf (inl (inl (inr b))) => Bool b
  | GenLeaf (inl (inr (inl n))) => if (0 <=? n)%Z then Num (PosInt n) else Num (NegInt n)
  | GenLeaf (inl (inr (inr s))) => Str s
  | GenLeaf (inr (s, m, e)) => Num (Float (S754_finite s m e))
  | GenNode 0 l => Arr (map of_tree l)
  | GenNode _ l => Obj (pair_up (map of_tree l))
  end.

Lemma of_to_tree : ∀ v, value_ok v = true → of_tree (to_tree v) = v.
Proof.
  fix IH 1. intros [|b|[n|n|f]|s|l|m]; simpl; try done.
  - intros [Hn _]%andb_true_iff. by rewrite Hn.
  - intros [_ Hn]%andb_true_iff. apply Z.ltb_lt in Hn.
    by rewrite (proj2 (Z.leb_gt 0 n)).
  - intros Hl. f_equal. induction l as [|v l IHl]; simpl in *; [done|].
    apply andb_true_iff in Hl as [Hv Hl]. by rewrite IH, IHl.
  - intros [_ Hm]%andb_true_iff. f_equal. induction m as [|[k v] m IHm]; simpl in *; [done|].
    apply andb_true_iff in Hm as [Hv Hm]. by rewrite IH, IHm.
Qed.

Fixpoint bits (p : positive) : bytes :=
  match p with
  | xH => []
  | xO p => Byte.x00 :: bits p
  | xI p => Byte.x01 :: bits p
  end.

Fixpoint unbits (l : bytes) : option positive :=
  match l with
  | [] => Some xH
  | Byte.x00 :: l => xO <$> unbits l
  | Byte.x01 :: l => xI <$> unbits l
  | _ => None
  end.

Lemma unbits_bits p : unbits (bits p) = Some p.
Proof. induction p as [p IH|p IH|]; simpl; by rewrite ?IH. Qed.

(** Self-delimiting forms of a number and of a string. *)
Definition put_pos (p : positive) : bytes := bits p ++ [Byte.x02].

Fixpoint get_pos (l : bytes) : option (positive * bytes) :=
  match l with
  | Byte.x00 :: l => '(p, l) ← get_pos l; Some (xO p, l)
  | Byte.x01 :: l => '(p, l) ← get_pos l; Some (xI p, l)
  | Byte.x02 :: l => Some (xH, l)
  | _ => None
  end.

Fixpoint put_str (s : string) : bytes :=
  match s with
  | EmptyString => [Byte.x00]
  | String c s => Byte.x01 :: Ascii.byte_of_ascii c :: put_str s
  end.

Fixpoint get_str (l : bytes) : option (string * bytes) :=
  match l with
  | Byte.x00 :: l => Some ("", l)
  | Byte.x01 :: c :: l => '(s, l) ← get_str l; Some (String (Ascii.ascii_of_byte c) s, l)
  | _ => None
  end.

Lemma get_put_pos p l : get_pos (put_pos p ++ l) = Some (p, l).
Proof. unfold put_pos. induction p as [p IH|p IH|]; simpl in *; by rewrite ?IH. Qed.

Lemma get_put_str s l : get_str (put_str s ++ l) = Some (s, l).
Proof. induction s as [|c s IH]; simpl; [done|]. by rewrite IH, Ascii.ascii_of_byte_of_ascii. Qed.

(** A tree as its tokens in postfix order, each with a tag byte. *)
Definition put_token (t : nat * nat + Atom) : bytes :=
  match t with
  | inr (inl (inr (inr s))) => Byte.x01 :: put_str s
  | t => Byte.x00 :: put_pos (encode t)
  end.

Fixpoint get_tokens (fuel : nat) (l : bytes) : option (list (nat * nat + Atom)) :=
  match fuel, l with
  | _, [] => Some []
  | S fuel, Byte.x00 :: l => '(p, l) ← get_pos l; t ← decode p; (t ::.) <$> get_tokens fuel l
  | S fuel, Byte.x01 :: l =>
      '(s, l) ← get_str l; (inr (inl (inr (inr s))) ::.) <$> get_tokens fuel l
  | _, _ => None
  end.

Lemma get_put_tokens ts : ∀ fuel,
  length ts ≤ fuel → get_tokens fuel (ts ≫= put_token) = Some ts.
Proof.
  induction ts as [|t ts IH]; intros fuel Hf; [by destruct fuel|].
  destruct fuel as [|fuel]; simpl in Hf; [lia|]. rewrite bind_cons.
  destruct t as [nk|[[a|[z|s]]|f]]; cbn [put_token app get_tokens];
    rewrite ?get_put_pos, ?get_put_str; cbn [mbind option_bind]; rewrite ?decode_encode;
    cbn [mbind option_bind]; by rewrite IH by lia.
Qed.

Lemma put_tokens_length (ts : list (nat * nat + Atom)) : length ts ≤ length (ts ≫= put_token).
Proof.
  induction ts as [|t ts IH]; [done|]. rewrite bind_cons, length_app.
  assert (1 ≤ length (put_token t)) by (destruct t as [nk|[[a|[z|s]]|f]]; simpl; lia).
  simpl. lia.
Qed.

Definition print_tree (t : gen_tree Atom) : bytes := gen_tree_to_list t ≫= put_token.

Definition parse_tree (b : bytes) : option (gen_tree Atom) :=
  get_tokens (length b) b ≫= gen_tree_of_list [].

Lemma parse_print_tree t : parse_tree (print_tree t) = Some t.
Proof.
  unfold parse_tree, print_tree. rewrite get_put_tokens by apply put_tokens_length. simpl.
  by rewrite <- (app_nil_r (gen_tree_to_list t)), gen_tree_of_to_list.
Qed.

#[export] Instance concrete_json : Json := {|
  json_print v := print_tree (to_tree v);
  json_print_pretty v := print_tree (to_tree v);
  json_parse b := of_tree <$> parse_tree b
|}.

#[export] Instance concrete_json_laws : JsonLaws.
Proof.
  split; intros v Hv; simpl; rewrite parse_print_tree; simpl; by rewrite of_to_tree.
Qed.

(** ** Base64: two characters for each byte *)

(** One of sixteen characters for half a byte, and back. *)
Definition digit_char (n : N) : Ascii.ascii := Ascii.ascii_of_N (n + 97).
Definition char_digit (c : Ascii.ascii) : option N :=
  let n := Ascii.N_of_ascii c in
  if ((97 <=? n) && (n <? 113))%N then Some (n - 97)%N else None.

Fixpoint hex_encode (b : bytes) : string :=
  match b with
  | [] => ""
  | x :: b => let n := Byte.to_N x in
      String (digit_char (n / 16)) (String (digit_char (n mod 16)) (hex_encode b))
  end.

Fixpoint hex_decode (s : string) : option bytes :=
  match s with
  | EmptyString => Some []
  | String h (String l s) =>
      h ← char_digit h; l ← char_digit l; x ← Byte.of_N (16 * h + l); (x ::.) <$> hex_decode s
  | _ => None
  end.

Lemma hex_decode_encode b : hex_decode (hex_encode b) = Some b.
Proof. induction b as [|x b IH]; [done|]. simpl. rewrite IH. by destruct x. Qed.

#[export] Instance concrete_base64 : Base64 := {|
  b64_encode := hex_encode;
  b64_decode b := hex_decode (of_bytes b);
  b64url_decode := hex_decode
|}.

#[export] Instance concrete_base64_laws : Base64Laws.
Proof.
  split; simpl.
  - intros b. by rewrite of_bytes_as_bytes, hex_decode_encode.
  - by intros [|x b].
Qed.

(** ** Dates: an encoded pair *)

#[export] Instance concrete_rfc3339 : Rfc3339 := {|
  dt_print d := of_bytes (bits (encode (timestamp_secs d, timestamp_subsec_nanos d)));
  dt_parse s := (λ p : Z * Z, mkDateTime p.1 p.2) <$> (unbits (as_bytes s) ≫= decode)
|}.

#[export] Instance concrete_rfc3339_laws : Rfc3339Laws.
Proof.
  split. intros [s n] _. simpl. rewrite as_bytes_of_bytes, unbits_bits. simpl.
  by rewrite decode_encode.
Qed.
