(* ===== verification/Errors.v ===== *)
(** * Errors and what the run loop makes of them: [src/agent.rs]

    An [anyhow::Error] is a chain of causes; the run loop classifies the session
    error by the first [tonic::Status] in it.  The names of metadata keys and
    the text of foreign errors are parameters (class [Grpc]). *)

From stdpp Require Import base list strings.
From Stdlib Require Import ZArith Lia.
From S2P Require Import Prelude Time Proto Text.

Local Open Scope string_scope.

(** [std::io::ErrorKind], as far as the code looks at it. *)
Inductive ErrorKind := NotFound | OtherIo.

(** [tonic::Code]: the codes the client matches on; the rest by their [Debug]
    name. *)
Inductive Code :=
| Unauthenticated
| PermissionDenied
| AlreadyExists
| OtherCode (name : string).

(** [{:?}] of a code: its variant name. *)
Definition code_debug (c : Code) : string :=
  match c with
  | Unauthenticated => "Unauthenticated"
  | PermissionDenied => "PermissionDenied"
  | AlreadyExists => "AlreadyExists"
  | OtherCode n => n
  end.

(** [tonic::Status] with its response metadata, a header to its raw value. *)
Record Status := {
  code : Code;
  message : string;
  metadata : list (string * string)
}.

(** One error of a chain. *)
Inductive Cause :=
| CStatus (s : Status)
| CIo (k : ErrorKind)
| CMsg (m : string)
| COther (display : string).

(** [anyhow::Error]: the outermost error and its sources, outermost first. *)
Record Error := { top : Cause; sources : list Cause }.

(** [anyhow::Error::chain]. *)
Definition chain (e : Error) : list Cause := top e :: sources e.

(** [anyhow!(...)], [bail!(...)] and [Error::from]. *)
Definition anyhow (m : string) : Error := {| top := CMsg m; sources := [] |}.
Definition from_cause (c : Cause) : Error := {| top := c; sources := [] |}.

(** Foreign text: how causes print, header names, and [HeaderValue::to_str]. *)
Class Grpc := {
  status_display : Status → string;
  io_display : ErrorKind → string;
  header_to_str : string → option string;
  (** Whether [MetadataValue::try_from] accepts a string. *)
  metadata_value_ok : string → bool;
  CHANNEL_RETRY_AFTER_HEADER : string;
  DELIVERY_NONCE_HEADER : string;
  AGENT_VERSION_HEADER : string;
  AGENT_PROCESS_HEADER : string;
  AGENT_HEARTBEAT_HEADER : string
}.

(** A printable ASCII character. *)
Definition visible_ascii (a : Ascii.ascii) : bool :=
  let n := Ascii.nat_of_ascii a in (32 <=? n)%nat && (n <=? 126)%nat.

(** [to_str] yields the value itself, for visible ASCII at least; the header
    names are distinct. *)
Class GrpcLaws `{Grpc} : Prop := {
  header_to_str_visible v : str_forall visible_ascii v = true → header_to_str v = Some v;
  metadata_value_visible v : str_forall visible_ascii v = true → metadata_value_ok v = true;
  headers_distinct :
    NoDup [DELIVERY_NONCE_HEADER; AGENT_VERSION_HEADER; AGENT_PROCESS_HEADER;
           AGENT_HEARTBEAT_HEADER]
}.

(** [downcast_ref::<tonic::Status>]. *)
Definition downcast_status (c : Cause) : option Status :=
  match c with CStatus s => Some s | _ => None end.

(** [err.chain().find_map(downcast_ref)]. *)
Definition find_status (e : Error) : option Status := find_map downcast_status (chain e).

(** [MetadataMap::get]. *)
Definition metadata_get (k : string) (m : list (string * string)) : option string :=
  find_map (λ kv, if decide (kv.1 = k) then Some kv.2 else None) m.

(** [MetadataMap::insert]: replaces what the key had. *)
Definition metadata_insert (k v : string) (m : list (string * string)) : list (string * string) :=
  (filter (λ kv, kv.1 ≠ k) m ++ [(k, v)])%list.

Definition MAX_SLOT_RETRY : Duration := from_secs 125.
Definition SLOT_RETRY_MARGIN : Duration := from_millis 250.

Section classify.
Context `{Grpc}.

(** [Display] of an error: the outermost cause. *)
Definition cause_display (c : Cause) : string :=
  match c with
  | CStatus s => status_display s
  | CIo k => io_display k
  | CMsg m => m
  | COther d => d
  end.

(** [describe_session_error]. *)
Definition describe_session_error (e : Error) : string :=
  match find_status e with
  | Some s => code_debug (code s) +:+ ": " +:+ message s
  | None => cause_display (top e)
  end.

(** [slot_retry_in]; the inner option is the panic of [Duration + Duration]. *)
Definition slot_retry_in (e : Error) : option (option Duration) :=
  match find_status e with
  | None => None
  | Some s =>
      match code s with
      | AlreadyExists =>
          let named :=
            v ← metadata_get CHANNEL_RETRY_AFTER_HEADER (metadata s);
            v ← header_to_str v;
            ms ← parse_u64 (trim v);
            Some (from_millis ms) in
          Some match named with
               | None => Some MAX_SLOT_RETRY
               | Some frees_in =>
                   d ← dur_add frees_in SLOT_RETRY_MARGIN; Some (Z.min d MAX_SLOT_RETRY)
               end
      | _ => None
      end
  end.
End classify.

(** [is_credential_rejection]. *)
Definition is_credential_rejection (e : Error) : bool :=
  match find_status e with
  | None => false
  | Some s =>
      match code s with
      | Unauthenticated => true
      | PermissionDenied =>
          let message := to_ascii_lowercase (message s) in
          contains "instance-token" message || contains "instance token" message
      | _ => false
      end
  end.

(** ** Lemmas *)

Lemma parse_digits_range acc s n :
  (0 ≤ acc ≤ U64_MAX)%Z → parse_digits acc s = Some n → in_u64 n.
Proof.
  revert acc; induction s as [|a s IH]; intros acc Hacc; cbn [parse_digits].
  - by intros [= <-].
  - unfold digit_value. destruct (_ && _)%Z eqn:E; [|done]. cbv zeta.
    destruct (_ <=? U64_MAX)%Z eqn:E2; [|done]. apply IH. lia.
Qed.

Lemma parse_u64_range s n : parse_u64 s = Some n → in_u64 n.
Proof.
  unfold parse_u64. destruct (str_is_empty _); [done|]. apply parse_digits_range.
  unfold U64_MAX. lia.
Qed.

Lemma dur_add_millis ms :
  in_u64 ms → dur_add (from_millis ms) SLOT_RETRY_MARGIN = Some (from_millis (ms + 250)).
Proof.
  intros [? ?]. unfold dur_add, SLOT_RETRY_MARGIN, from_millis, NANOS_PER_MILLI.
  unfold U64_MAX, DURATION_MAX, NANOS_PER_SEC in *.
  destruct (_ <=? _)%Z eqn:E; [f_equal; lia|]. unfold U64_MAX in E. lia.
Qed.

Lemma starts_with_iff p s : starts_with p s = true ↔ ∃ r, s = p +:+ r.
Proof.
  unfold starts_with. destruct (strip_prefix p s) as [r|] eqn:E.
  - apply strip_prefix_spec in E. split; eauto.
  - split; [done|]. intros [r Hr]. by apply strip_prefix_spec in Hr; rewrite Hr in E.
Qed.

Lemma contains_iff p s : contains p s = true ↔ ∃ l r, s = l +:+ p +:+ r.
Proof.
  induction s as [|a s IH]; cbn [contains]; rewrite orb_true_iff, starts_with_iff.
  - split.
    + intros [[r ->]|?]; [by exists "", r|done].
    + intros ([|b l] & r & E); [left; by exists r|done].
  - rewrite IH. split.
    + intros [[r ->]|(l & r & ->)]; [by exists "", r|by exists (String a l), r].
    + intros ([|b l] & r & E); [left; by exists r|].
      rewrite str_app_cons in E. injection E as -> ->. right. eauto.
Qed.

Lemma find_status_spec e s :
  find_status e = Some s ↔
  ∃ l1 l2, chain e = (l1 ++ CStatus s :: l2)%list ∧ Forall (λ c, downcast_status c = None) l1.
Proof.
  unfold find_status. rewrite find_map_spec. split.
  - intros (l1 & [s'| | |] & l2 & E & Hx & Hl); simplify_eq/=. eauto.
  - intros (l1 & l2 & E & Hl). exists l1, (CStatus s), l2. auto.
Qed.

(** ** Trimming printed numbers *)

(** A visible character other than the space. *)
Definition graphic (a : Ascii.ascii) : bool :=
  let n := Ascii.nat_of_ascii a in (33 <=? n)%nat && (n <=? 126)%nat.

Definition starts_blank (w : string) : bool :=
  match w with EmptyString => false | String a _ => negb (graphic a) end.

Lemma strip_all_id ws fuel s :
  forallb starts_blank ws = true → str_forall graphic s = true → strip_all ws fuel s = s.
Proof.
  intros Hws Hs. destruct fuel as [|fuel]; [done|]. cbn [strip_all].
  assert (find_map (λ w, strip_prefix w s) ws = None) as ->; [|done].
  apply find_map_none, Forall_forall. intros w Hw.
  rewrite forallb_forall in Hws. specialize (Hws w). rewrite <- list_elem_of_In in Hws.
  specialize (Hws Hw). destruct w as [|a w]; [done|]. cbn [strip_prefix].
  destruct s as [|b s]; [done|]. rewrite decide_False; [done|]. intros ->.
  simpl in *. apply andb_true_iff in Hs as [Hs _]. by rewrite Hs in Hws.
Qed.

Lemma str_forall_list p s :
  str_forall p s = forallb p (String.list_ascii_of_string s).
Proof. induction s as [|a s IH]; simpl; [done|]. by rewrite IH. Qed.

Lemma str_forall_rev p s : str_forall p s = true → str_forall p (str_rev s) = true.
Proof.
  rewrite !str_forall_list. unfold str_rev. rewrite String.list_ascii_of_string_of_list_ascii.
  rewrite !forallb_forall. intros H a Ha. apply H. by apply in_rev.
Qed.

Lemma str_rev_involutive s : str_rev (str_rev s) = s.
Proof.
  unfold str_rev. rewrite String.list_ascii_of_string_of_list_ascii, rev_involutive.
  apply String.string_of_list_ascii_of_string.
Qed.

Lemma trim_graphic s : str_forall graphic s = true → trim s = s.
Proof.
  intros Hs. unfold trim, trim_end, trim_start.
  rewrite (strip_all_id WHITESPACE) by done.
  rewrite strip_all_id; [apply str_rev_involutive|done|by apply str_forall_rev].
Qed.

Lemma digit_ascii_graphic d : (0 ≤ d ≤ 9)%Z → graphic (digit_ascii d) = true.
Proof.
  intros Hd. unfold graphic, digit_ascii. rewrite Ascii.nat_ascii_embedding by lia.
  apply andb_true_iff; split; apply Nat.leb_le; lia.
Qed.

Lemma to_string_graphic n : (0 ≤ n)%Z → str_forall graphic (to_string n) = true.
Proof.
  intros Hn. unfold to_string.
  enough (∀ fuel n acc, (0 ≤ n)%Z → str_forall graphic acc = true →
    str_forall graphic (print_digits fuel n acc) = true) as H by auto.
  clear. intros fuel. induction fuel as [|fuel IH]; intros n acc Hn Hacc; cbn [print_digits]; [done|].
  pose proof (Z.mod_pos_bound n 10 ltac:(lia)).
  assert (str_forall graphic (String (digit_ascii (n mod 10)) acc) = true).
  { cbn [str_forall]. rewrite digit_ascii_graphic by lia. done. }
  cbv zeta. destruct (n <? 10)%Z; [done|]. apply IH; [|done]. apply Z.div_pos; lia.
Qed.

Lemma graphic_visible s : str_forall graphic s = true → str_forall visible_ascii s = true.
Proof.
  induction s as [|a s IH]; cbn [str_forall]; [done|]. intros [Ha Hs]%andb_true_iff.
  rewrite IH by done. unfold graphic in Ha. unfold visible_ascii.
  apply andb_true_iff in Ha as [Ha1%Nat.leb_le Ha2%Nat.leb_le].
  rewrite !andb_true_iff, !Nat.leb_le. lia.
Qed.

(** ** Main properties *)

Section properties.
Context `{Grpc}.

(** A held slot's delay is computed without a panic and within the cap. *)
Lemma slot_retry_total e :
  slot_retry_in e ≠ Some None ∧
  ∀ d, slot_retry_in e = Some (Some d) → (0 < d ≤ MAX_SLOT_RETRY)%Z.
Proof.
  assert (∀ r, slot_retry_in e = Some r → ∃ d, r = Some d ∧ (0 < d ≤ MAX_SLOT_RETRY)%Z) as Hr.
  { intros r. unfold slot_retry_in. destruct (find_status e) as [s|]; [|done].
    destruct (code s); try done. intros [= <-].
    destruct (metadata_get _ _) as [v|]; simpl; [|by exists MAX_SLOT_RETRY].
    destruct (header_to_str v) as [v'|]; simpl; [|by exists MAX_SLOT_RETRY].
    destruct (parse_u64 _) as [ms|] eqn:E; simpl; [|by exists MAX_SLOT_RETRY].
    apply parse_u64_range in E. rewrite dur_add_millis by done. simpl.
    eexists. split; [done|].
    unfold from_millis, NANOS_PER_MILLI, MAX_SLOT_RETRY, from_secs, NANOS_PER_SEC.
    destruct E. lia. }
  split.
  - intros E. by destruct (Hr _ E) as (d & ? & _).
  - intros d E. by destruct (Hr _ E) as (d' & [= <-] & ?).
Qed.

(** The run loop's reactions to a session error are disjoint and total: an
    error is never both a credential rejection and a held slot; a held slot's
    delay is computed without a panic, is positive and at most [MAX_SLOT_RETRY];
    and wrapping the error in further context changes neither verdict. *)
Theorem session_error_reactions e :
  (is_credential_rejection e = true → slot_retry_in e = None) ∧
  (∀ r, slot_retry_in e = Some r → ∃ d, r = Some d ∧ (0 < d ≤ MAX_SLOT_RETRY)%Z) ∧
  (∀ ctx, let e' := {| top := CMsg ctx; sources := chain e |} in
     is_credential_rejection e' = is_credential_rejection e ∧
     slot_retry_in e' = slot_retry_in e).
Proof.
  split_and!; [| |done].
  - unfold is_credential_rejection, slot_retry_in. destruct (find_status e) as [s|]; [|done].
    by destruct (code s).
  - intros [d|] E; [|by apply slot_retry_total in E]. exists d.
    split; [done|]. by apply (slot_retry_total e).
Qed.

(** When the control plane names the milliseconds after which the slot
    frees, the agent waits 250 ms longer, capped at [MAX_SLOT_RETRY]; so the
    retry lands after the slot frees whenever that is within the cap. *)
Theorem slot_retry_lands_after_named_time `{!GrpcLaws} e s ms :
  find_status e = Some s → code s = AlreadyExists → in_u64 ms →
  metadata_get CHANNEL_RETRY_AFTER_HEADER (metadata s) = Some (to_string ms) →
  slot_retry_in e = Some (Some (Z.min (from_millis (ms + 250)) MAX_SLOT_RETRY)).
Proof.
  intros Hs Hc Hms Hm. unfold slot_retry_in. rewrite Hs, Hc, Hm. simpl.
  assert (str_forall graphic (to_string ms) = true) by (apply to_string_graphic, Hms).
  rewrite header_to_str_visible by (by apply graphic_visible). simpl.
  rewrite trim_graphic, parse_to_string by done. simpl.
  by rewrite dur_add_millis.
Qed.
End properties.

(** The credential-rejection verdict: the first gRPC status of the chain is
    [Unauthenticated], or [PermissionDenied] with a message that, letter case
    aside, contains [instance-token] or [instance token]. *)
Theorem credential_rejection_iff e :
  is_credential_rejection e = true ↔
  ∃ l1 s l2, chain e = (l1 ++ CStatus s :: l2)%list ∧
    Forall (λ c, downcast_status c = None) l1 ∧
    (code s = Unauthenticated ∨
     code s = PermissionDenied ∧ ∃ sep l r, (sep = "-" ∨ sep = " ") ∧
       to_ascii_lowercase (message s) = l +:+ ("instance" +:+ sep +:+ "token") +:+ r).
Proof.
  unfold is_credential_rejection. split.
  - destruct (find_status e) as [s|] eqn:E; [|done].
    apply find_status_spec in E as (l1 & l2 & E & Hl). intros Hr.
    exists l1, s, l2. split; [done|]. split; [done|].
    destruct (code s); try done; [by left|right]. split; [done|].
    apply orb_true_iff in Hr as [(l & r & Hr)%contains_iff|(l & r & Hr)%contains_iff].
    + exists "-", l, r. auto.
    + exists " ", l, r. auto.
  - intros (l1 & s & l2 & E & Hl & Hc).
    assert (find_status e = Some s) as -> by (apply find_status_spec; eauto).
    destruct Hc as [->|[-> (sep & l & r & Hsep & Hm)]]; [done|].
    apply orb_true_iff. destruct Hsep as [->| ->]; [left|right]; apply contains_iff; eauto.
Qed.

(** ** The properties on concrete values *)

(** Concrete header names and a [to_str] that accepts visible ASCII. *)
Definition demo_grpc : Grpc := {|
  status_display := message;
  io_display := λ _, "i/o error";
  header_to_str := λ v, if str_forall visible_ascii v then Some v else None;
  metadata_value_ok := str_forall visible_ascii;
  CHANNEL_RETRY_AFTER_HEADER := "retry";
  DELIVERY_NONCE_HEADER := "nonce";
  AGENT_VERSION_HEADER := "version";
  AGENT_PROCESS_HEADER := "process";
  AGENT_HEARTBEAT_HEADER := "heartbeat"
|}.

Lemma demo_grpc_laws : @GrpcLaws demo_grpc.
Proof.
  split.
  - intros v Hv. simpl. by rewrite Hv.
  - done.
  - simpl. apply (bool_decide_eq_true_1 _). reflexivity.
Qed.

Definition held_slot : Status :=
  {| code := AlreadyExists; message := "the slot is held"; metadata := [("retry", "1500")] |}.

Lemma slot_retry_lands_after_named_time_witness :
  @slot_retry_in demo_grpc (from_cause (CStatus held_slot)) = Some (Some (from_millis 1750)).
Proof.
  pose proof (@slot_retry_lands_after_named_time demo_grpc demo_grpc_laws
    (from_cause (CStatus held_slot)) held_slot 1500) as W.
  rewrite W; [reflexivity|reflexivity|reflexivity| |reflexivity].
  unfold in_u64, U64_MAX. lia.
Defined.
