(* ===== verification/Token.v ===== *)
(** * Enrollment and instance tokens: [src/agent.rs]

    The enrollment URL's token, the claims of the instance JWT (read without
    checking the signature) and the decision to replace a token before it is
    presented. *)

From stdpp Require Import base list strings.
From Stdlib Require Import ZArith Lia SpecFloat Ascii.
From S2P Require Import Prelude Time Proto Text Serde Concrete Errors.

Local Open Scope string_scope.

(** ** Enrollment URL *)

(** [extract_token]. *)
Definition extract_token (url : string) : Result string Error :=
  match split_once "#"%char url with
  | None => Err (anyhow "enrollment URL missing fragment")
  | Some (_, frag) =>
      match find_map (strip_prefix "token=") (split "&"%char frag) with
      | None => Err (anyhow "enrollment URL missing token=...")
      | Some token => Ok token
      end
  end.

(** ** Instance token *)

Definition MIN_TOKEN_REFRESH_WINDOW : Duration := from_secs (5 * 60).

(** [token_refresh_window]. *)
Definition token_refresh_window (heartbeat_interval : Duration) : Duration :=
  Z.max MIN_TOKEN_REFRESH_WINDOW (dur_saturating_mul heartbeat_interval 3).

(** [expires_within]. *)
Definition expires_within (exp : option Z) (now : Z) (window : Duration) : bool :=
  match exp with
  | Some exp => (saturating_sub_i64 exp now <=? u64_as_i64 (as_secs window))%Z
  | None => true
  end.

Section claims.
Context `{Json, Base64}.

(** [jwt_claims]. *)
Definition jwt_claims (jwt : string) : option Value :=
  payload ← split "."%char jwt !! 1%nat;
  bytes ← b64url_decode (trim_end_matches "="%char payload);
  json_parse bytes.

(** [jwt_exp]. *)
Definition jwt_exp (jwt : string) : option Z :=
  claims ← jwt_claims jwt;
  exp ← get "exp" claims;
  match as_i64 exp with
  | Some n => Some n
  | None => f64_as_i64 <$> as_f64 exp
  end.

(** [jwt_instance_uid]. *)
Definition jwt_instance_uid (jwt : string) : option string :=
  claims ← jwt_claims jwt;
  v ← get "instance_uid" claims;
  s ← as_str v;
  let uid := trim s in
  if str_is_empty uid then None else Some uid.
End claims.

(** ** Lemmas *)

Lemma token_prefix_lacks c p : lacks c p = true → strip_prefix "token=" p = None ∨
  ∃ t, p = "token=" +:+ t ∧ lacks c t = true.
Proof.
  intros Hp. destruct (strip_prefix "token=" p) as [t|] eqn:E; [right|by left].
  apply strip_prefix_spec in E as ->. exists t. split; [done|].
  rewrite !str_app_cons, !lacks_cons in Hp. tauto.
Qed.

(** The refresh window of a well-formed interval: at least five minutes, a
    duration. *)
Lemma token_refresh_window_range h :
  in_duration h →
  in_duration (token_refresh_window h) ∧ (from_secs 300 ≤ token_refresh_window h)%Z.
Proof.
  intros Hh. pose proof (dur_saturating_mul_range h 3 Hh ltac:(lia)) as [? ?].
  unfold in_duration, token_refresh_window in *.
  assert (MIN_TOKEN_REFRESH_WINDOW = from_secs 300) as -> by done.
  assert (0 ≤ from_secs 300 ≤ DURATION_MAX)%Z by (vm_compute; intuition discriminate). lia.
Qed.

Lemma expires_within_iff exp now w :
  in_i64 exp → in_i64 now → in_duration w → (as_secs w < I64_MAX)%Z →
  expires_within (Some exp) now w = true ↔ (exp ≤ now + as_secs w)%Z.
Proof.
  intros [? ?] [? ?] Hw Hlt. pose proof (as_secs_range w Hw) as [? ?].
  unfold expires_within, saturating_sub_i64, u64_as_i64.
  rewrite (proj2 (Z.leb_le (as_secs w) I64_MAX)) by lia. rewrite Z.leb_le.
  unfold I64_MIN, I64_MAX in *. lia.
Qed.

Lemma f64_as_i64_range f : in_i64 (f64_as_i64 f).
Proof.
  unfold in_i64. destruct f as [s|[]| |s m e]; cbn [f64_as_i64]; unfold I64_MIN, I64_MAX; lia.
Qed.

Section claims_lemmas.
Context `{Json, Base64}.

Lemma jwt_claims_parts h p s b :
  lacks "."%char h = true → lacks "."%char p = true →
  b64url_decode (trim_end_matches "="%char p) = Some b →
  jwt_claims (h +:+ "." +:+ p +:+ "." +:+ s) = json_parse b.
Proof.
  intros Hh Hp Hb. unfold jwt_claims.
  change ("." +:+ p +:+ "." +:+ s) with (String "."%char (p +:+ String "."%char s)).
  rewrite split_app by done. change ((h :: ?x) !! 1%nat) with (x !! 0%nat).
  rewrite split_app by done. simpl. rewrite Hb. done.
Qed.
End claims_lemmas.

(** ** Main properties *)

(** [extract_token] returns [t] exactly when the URL's fragment (what follows
    its first [#]) has [token=t] as one of its [&]-separated parts and no earlier
    part starts with [token=]. *)
Theorem extract_token_iff url t :
  extract_token url = Ok t ↔
  ∃ base pre post,
    url = base +:+ String "#" (join "&" (pre ++ ("token=" +:+ t) :: post)%list) ∧
    lacks "#" base = true ∧
    Forall (λ p, lacks "&" p = true) (pre ++ ("token=" +:+ t) :: post)%list ∧
    Forall (λ p, starts_with "token=" p = false) pre.
Proof.
  assert (∀ p, strip_prefix "token=" p = None ↔ starts_with "token=" p = false) as Hsw.
  { intros p. unfold starts_with. by destruct (strip_prefix _ p). }
  unfold extract_token. split.
  - destruct (split_once _ url) as [[base frag]|] eqn:E; [|done].
    apply split_once_spec in E as [-> Hbase].
    destruct (find_map _ _) as [t'|] eqn:E; [|done]. intros [= ->].
    apply find_map_spec in E as (pre & p & post & E & Hp & Hpre).
    apply strip_prefix_spec in Hp as ->. exists base, pre, post.
    destruct (split_pieces "&"%char frag) as (_ & Hall & Hj). rewrite <- E.
    split_and!; [by rewrite Hj|done|done|]. by setoid_rewrite <- Hsw.
  - intros (base & pre & post & -> & Hbase & Hall & Hpre).
    rewrite split_once_lacks by done. rewrite split_join; [|by destruct pre|done].
    rewrite find_map_app by (by setoid_rewrite Hsw). cbn [find_map].
    by rewrite strip_prefix_app.
Qed.

(** With a heartbeat interval below 2^61 seconds, a token is replaced before a
    connect exactly when its expiry cannot be read or lies at most five minutes
    or three heartbeats ahead, whichever is longer. *)
Theorem token_replaced_iff exp now h :
  in_i64 now → (∀ e, exp = Some e → in_i64 e) → (0 ≤ h < from_secs (2 ^ 61))%Z →
  expires_within exp now (token_refresh_window h) = true ↔
  match exp with
  | None => True
  | Some e => (e ≤ now + Z.max 300 (as_secs (3 * h)))%Z
  end.
Proof.
  intros Hnow He [Hh1 Hh2]. destruct exp as [e|]; [|done].
  assert (as_secs (token_refresh_window h) = Z.max 300 (as_secs (3 * h)))%Z as Hw.
  { unfold token_refresh_window, MIN_TOKEN_REFRESH_WINDOW, as_secs, from_secs, dur_saturating_mul in *.
    rewrite Z.min_r by (unfold DURATION_MAX, U64_MAX, NANOS_PER_SEC in *; lia).
    rewrite (Z.mul_comm h 3). unfold NANOS_PER_SEC in *.
    destruct (Z.max_spec (5 * 60 * 1000000000) (3 * h)%Z) as [[? ->]|[? ->]].
    - rewrite Z.max_r; [done|]. apply Z.div_le_lower_bound; lia.
    - rewrite Z.max_l; [done|]. apply Z.div_le_upper_bound; lia. }
  assert (in_duration h) as Hd.
  { split; [done|]. unfold from_secs, DURATION_MAX, U64_MAX, NANOS_PER_SEC in *. lia. }
  rewrite expires_within_iff, Hw; [done|auto|done|by apply token_refresh_window_range|].
  rewrite Hw. assert (as_secs (3 * h) < 3 * 2 ^ 61)%Z.
  { unfold as_secs, from_secs, NANOS_PER_SEC in *. apply Z.div_lt_upper_bound; lia. }
  unfold I64_MAX. lia.
Qed.

Section claims_properties.
Context `{Json, Base64}.

(** Of a token [header.payload.signature] whose payload decodes to a JSON
    object, [jwt_exp] reads the last [exp] member: an integer of the [i64] range
    as it is, any other number truncated towards zero and clamped to that range
    (so the result is always an [i64]), anything else as unreadable; and
    [jwt_instance_uid] reads a non-blank [instance_uid] string, trimmed. *)
Theorem jwt_reads_claims h p s b m :
  lacks "." h = true → lacks "." p = true →
  b64url_decode (trim_end_matches "=" p) = Some b → json_parse b = Some (Obj m) →
  (∀ v, last (members_of "exp" m) = Some v →
     (∀ n, v = Num n → ∃ e, jwt_exp (h +:+ "." +:+ p +:+ "." +:+ s) = Some e ∧
        (n = PosInt e ∧ e ≤ I64_MAX ∨ n = NegInt e ∨ in_i64 e))%Z ∧
     (∀ n, v = Num (PosInt n) → (n ≤ I64_MAX)%Z →
        jwt_exp (h +:+ "." +:+ p +:+ "." +:+ s) = Some n) ∧
     ((∀ n, v ≠ Num n) → jwt_exp (h +:+ "." +:+ p +:+ "." +:+ s) = None)) ∧
  (last (members_of "exp" m) = None → jwt_exp (h +:+ "." +:+ p +:+ "." +:+ s) = None) ∧
  (∀ uid, jwt_instance_uid (h +:+ "." +:+ p +:+ "." +:+ s) = Some uid ↔
     ∃ raw, last (members_of "instance_uid" m) = Some (Str raw) ∧ uid = trim raw ∧ uid ≠ "").
Proof.
  intros Hh Hp Hb Hj.
  pose proof (jwt_claims_parts h p s b Hh Hp Hb) as Hc. rewrite Hj in Hc.
  unfold jwt_exp, jwt_instance_uid. rewrite Hc. simpl. split_and!.
  - intros v ->. simpl. split_and!.
    + intros n ->. destruct n as [n|n|f]; cbn [as_i64 as_f64].
      * destruct (n <=? I64_MAX)%Z eqn:E; simpl; eexists; split; try done.
        -- left. split; [done|]. by apply Z.leb_le.
        -- right; right. apply f64_as_i64_range.
      * eauto.
      * simpl. eexists; split; [done|]. right; right. apply f64_as_i64_range.
    + intros n -> Hn. cbn [as_i64]. by rewrite (proj2 (Z.leb_le n I64_MAX)).
    + intros Hv. destruct v; simpl; try done. by destruct (Hv n).
  - by intros ->.
  - intros uid. destruct (last (members_of "instance_uid" m)) as [v|]; simpl;
      [|split; [done|]; by intros (? & ? & _)].
    destruct v as [| | |raw| |]; simpl; try (split; [done|]; by intros (? & ? & _)).
    destruct (str_is_empty (trim raw)) eqn:E.
    + apply str_is_empty_true in E. split; [done|]. intros (? & [= <-] & -> & Hne). done.
    + apply str_is_empty_false in E. split.
      * intros [= <-]. eauto.
      * by intros (? & [= <-] & -> & _).
Qed.
End claims_properties.

(** ** The properties on concrete values *)

Lemma token_replaced_iff_witness :
  expires_within (Some 1600%Z) 1000 (token_refresh_window (from_secs 30)) = false ∧
  expires_within (Some 1600%Z) 1000 (token_refresh_window (from_secs 300)) = true.
Proof.
  assert (in_i64 1000) as Hn by (unfold in_i64, I64_MIN, I64_MAX; lia).
  assert (∀ e, Some 1600%Z = Some e → in_i64 e) as He.
  { intros e [= <-]. unfold in_i64, I64_MIN, I64_MAX. lia. }
  assert (0 ≤ from_secs 30 < from_secs (2 ^ 61))%Z as H1 by (vm_compute; intuition discriminate).
  assert (0 ≤ from_secs 300 < from_secs (2 ^ 61))%Z as H2 by (vm_compute; intuition discriminate).
  pose proof (token_replaced_iff (Some 1600%Z) 1000 (from_secs 30) Hn He H1) as [A _].
  pose proof (token_replaced_iff (Some 1600%Z) 1000 (from_secs 300) Hn He H2) as [_ B].
  split.
  - apply not_true_is_false. intros E. specialize (A E). vm_compute in A. by apply A.
  - apply B. vm_compute. discriminate.
Defined.

Definition demo_claims : Value :=
  Obj [("exp", Num (PosInt 1700000000)); ("instance_uid", Str " gw-1 ")].

Definition demo_payload : string := b64_encode (json_print demo_claims).

Lemma jwt_reads_claims_witness :
  jwt_exp ("h." +:+ demo_payload +:+ ".s") = Some 1700000000%Z ∧
  jwt_instance_uid ("h." +:+ demo_payload +:+ ".s") = Some "gw-1".
Proof.
  assert (b64url_decode (trim_end_matches "=" demo_payload) = Some (json_print demo_claims)) as Hb
    by (vm_compute; reflexivity).
  assert (json_parse (json_print demo_claims) = Some demo_claims) as Hj
    by (apply json_parse_print; vm_compute; reflexivity).
  assert (lacks "." demo_payload = true) as Hp by (vm_compute; reflexivity).
  destruct (jwt_reads_claims "h" demo_payload "s" _ _ eq_refl Hp Hb Hj) as (He & _ & Hu).
  split.
  - apply (He (Num (PosInt 1700000000)) eq_refl); [reflexivity|vm_compute; discriminate].
  - apply Hu. exists " gw-1 ". split; [reflexivity|]. split; [vm_compute; reflexivity|discriminate].
Defined.
