(* ===== verification/Config.v ===== *)
(** * Plugin configuration: [src/config.rs]

    The configuration schema with its defaults, and its JSON form.  Parsing a
    human-readable duration is third-party code (class [Humantime]). *)

From stdpp Require Import base list strings.
From Stdlib Require Import ZArith Lia Ascii.
From S2P Require Import Prelude Time Proto Text Serde.

Local Open Scope string_scope.

Inductive EnrollmentSource :=
| Env (name : string)
| FileSource (path : string)
| Inline (url : string).

Record BackoffConfig := { bo_initial : Duration; bo_max : Duration; bo_jitter : bool }.

Record ControlPlaneClientConfig := {
  cfg_endpoint : string;
  cfg_enrollment : EnrollmentSource;
  cfg_state_dir : string;
  cfg_heartbeat : Duration;
  cfg_backoff : BackoffConfig
}.

Definition default_state_dir : string := "/var/lib/mcpg/cp-client".
Definition default_heartbeat : Duration := from_secs 30.
Definition default_backoff_initial : Duration := from_secs 1.
Definition default_backoff_max : Duration := from_secs 60.
Definition default_backoff_jitter : bool := true.

(** [Default for Backoff]. *)
Definition Backoff_default : BackoffConfig :=
  {| bo_initial := default_backoff_initial; bo_max := default_backoff_max;
     bo_jitter := default_backoff_jitter |}.

(** [humantime::parse_duration]. *)
Class Humantime := { parse_duration : string → option Duration }.

(** A whole number of seconds, written with its unit. *)
Class HumantimeLaws `{Humantime} : Prop := {
  parse_duration_secs n : in_u64 n → parse_duration (to_string n +:+ "s") = Some (from_secs n)
}.

(** [humantime_serde::serialize]. *)
Definition humantime_serialize (d : Duration) : Value := Str (to_string (as_secs d) +:+ "s").

Section config.
Context `{Humantime}.

(** [humantime_serde::deserialize]. *)
Definition humantime_deserialize (v : Value) : option Duration :=
  match v with Str s => parse_duration s | _ => None end.

(** The derived [Serialize] of [EnrollmentSource], tagged by [kind]. *)
Definition EnrollmentSource_serialize (e : EnrollmentSource) : Value :=
  match e with
  | Env n => Obj [("kind", Str "env"); ("name", Str n)]
  | FileSource p => Obj [("kind", Str "file"); ("path", Str p)]
  | Inline u => Obj [("kind", Str "inline"); ("url", Str u)]
  end.

(** The variant named by the tag, its one field read off the rest. *)
Definition EnrollmentSource_variant (tag : string) (v : Value) : option EnrollmentSource :=
  let field := struct_field 1 v 0%nat in
  if String.eqb tag "env" then Env <$> required de_string (field "name")
  else if String.eqb tag "file" then FileSource <$> required de_string (field "path")
  else if String.eqb tag "inline" then Inline <$> required de_string (field "url")
  else None.

(** The derived [Deserialize] of [EnrollmentSource]. *)
Definition EnrollmentSource_deserialize (v : Value) : option EnrollmentSource :=
  match v with
  | Obj m =>
      match members_of "kind" m with
      | [Str tag] => EnrollmentSource_variant tag v
      | _ => None
      end
  | Arr (Str tag :: l) => EnrollmentSource_variant tag (Arr l)
  | _ => None
  end.

(** The derived (de)serialisation of [Backoff]. *)
Definition BackoffConfig_serialize (b : BackoffConfig) : Value :=
  Obj [("initial", humantime_serialize (bo_initial b));
       ("max", humantime_serialize (bo_max b));
       ("jitter", Bool (bo_jitter b))].

Definition BackoffConfig_deserialize (v : Value) : option BackoffConfig :=
  let field := struct_field 3 v in
  i ← defaulted default_backoff_initial humantime_deserialize (field 0%nat "initial");
  m ← defaulted default_backoff_max humantime_deserialize (field 1%nat "max");
  j ← defaulted default_backoff_jitter de_bool (field 2%nat "jitter");
  Some {| bo_initial := i; bo_max := m; bo_jitter := j |}.

(** The derived (de)serialisation of [ControlPlaneClientConfig]. *)
Definition Config_serialize (c : ControlPlaneClientConfig) : Value :=
  Obj [("endpoint", Str (cfg_endpoint c));
       ("enrollment", EnrollmentSource_serialize (cfg_enrollment c));
       ("state_dir", Str (cfg_state_dir c));
       ("heartbeat", humantime_serialize (cfg_heartbeat c));
       ("backoff", BackoffConfig_serialize (cfg_backoff c))].

Definition Config_deserialize (v : Value) : option ControlPlaneClientConfig :=
  let field := struct_field 5 v in
  ep ← required de_string (field 0%nat "endpoint");
  en ← required EnrollmentSource_deserialize (field 1%nat "enrollment");
  sd ← defaulted default_state_dir de_string (field 2%nat "state_dir");
  hb ← defaulted default_heartbeat humantime_deserialize (field 3%nat "heartbeat");
  bo ← defaulted Backoff_default BackoffConfig_deserialize (field 4%nat "backoff");
  Some {| cfg_endpoint := ep; cfg_enrollment := en; cfg_state_dir := sd;
          cfg_heartbeat := hb; cfg_backoff := bo |}.
End config.

(** ** Properties *)

(** A duration cut to whole seconds. *)
Definition whole_secs (d : Duration) : Duration := from_secs (as_secs d).

Definition truncate_config (c : ControlPlaneClientConfig) : ControlPlaneClientConfig :=
  {| cfg_endpoint := cfg_endpoint c; cfg_enrollment := cfg_enrollment c;
     cfg_state_dir := cfg_state_dir c; cfg_heartbeat := whole_secs (cfg_heartbeat c);
     cfg_backoff := {| bo_initial := whole_secs (bo_initial (cfg_backoff c));
                       bo_max := whole_secs (bo_max (cfg_backoff c));
                       bo_jitter := bo_jitter (cfg_backoff c) |} |}.

Record config_wf (c : ControlPlaneClientConfig) : Prop := {
  wf_heartbeat : in_duration (cfg_heartbeat c);
  wf_initial : in_duration (bo_initial (cfg_backoff c));
  wf_max : in_duration (bo_max (cfg_backoff c))
}.

(** The hypothesis is stated for the seconds themselves, not for [as_secs] of a
    printed value. *)
Lemma humantime_roundtrip `{HumantimeLaws} d :
  in_duration d → humantime_deserialize (humantime_serialize d) = Some (whole_secs d).
Proof. intros Hd. simpl. apply parse_duration_secs. by apply as_secs_range. Qed.

(** Writing a configuration out and reading it back keeps everything but the
    sub-second part of its three durations, which is cut off; a document with
    only an endpoint and an enrollment source gets every documented default. *)
Theorem config_roundtrip_truncates `{HumantimeLaws} c :
  config_wf c →
  Config_deserialize (Config_serialize c) = Some (truncate_config c) ∧
  Config_deserialize (Obj [("endpoint", Str (cfg_endpoint c));
                           ("enrollment", EnrollmentSource_serialize (cfg_enrollment c))]) =
    Some {| cfg_endpoint := cfg_endpoint c; cfg_enrollment := cfg_enrollment c;
            cfg_state_dir := "/var/lib/mcpg/cp-client"; cfg_heartbeat := from_secs 30;
            cfg_backoff := {| bo_initial := from_secs 1; bo_max := from_secs 60;
                              bo_jitter := true |} |}.
Proof.
  intros [H1 H2 H3].
  assert (EnrollmentSource_deserialize (EnrollmentSource_serialize (cfg_enrollment c)) =
    Some (cfg_enrollment c)) as He by (by destruct (cfg_enrollment c)).
  assert (BackoffConfig_deserialize (BackoffConfig_serialize (cfg_backoff c)) =
    Some (cfg_backoff (truncate_config c))) as Hb.
  { unfold BackoffConfig_deserialize, BackoffConfig_serialize.
    cbn -[humantime_deserialize humantime_serialize].
    rewrite !humantime_roundtrip by done. done. }
  unfold Config_deserialize, Config_serialize.
  cbn -[humantime_deserialize humantime_serialize EnrollmentSource_deserialize
        EnrollmentSource_serialize BackoffConfig_deserialize BackoffConfig_serialize].
  rewrite He, Hb, humantime_roundtrip by done. done.
Qed.

(** ** The properties on concrete values *)

(** Accepts decimal seconds only. *)
Definition demo_humantime : Humantime := {|
  parse_duration s :=
    match split_once "s"%char s with
    | Some (n, EmptyString) => from_secs <$> parse_u64 n
    | _ => None
    end
|}.

Lemma to_string_lacks_s n : (0 ≤ n)%Z → lacks "s" (to_string n) = true.
Proof.
  intros Hn. unfold to_string.
  enough (∀ fuel n acc, (0 ≤ n)%Z → lacks "s" acc = true →
    lacks "s" (print_digits fuel n acc) = true) as H by auto.
  clear. intros fuel. induction fuel as [|fuel IH]; intros n acc Hn Hacc; cbn [print_digits]; [done|].
  pose proof (Z.mod_pos_bound n 10 ltac:(lia)).
  assert (lacks "s" (String (digit_ascii (n mod 10)) acc) = true).
  { apply lacks_cons. split; [|done]. intros E.
    assert (Ascii.nat_of_ascii (digit_ascii (n mod 10)) = 115%nat) as E' by (by rewrite E).
    unfold digit_ascii in E'. rewrite Ascii.nat_ascii_embedding in E' by lia. lia. }
  cbv zeta. destruct (n <? 10)%Z; [done|]. apply IH; [|done]. apply Z.div_pos; lia.
Qed.

Lemma demo_humantime_laws : @HumantimeLaws demo_humantime.
Proof.
  split. intros n Hn. simpl.
  rewrite split_once_lacks by (apply to_string_lacks_s, Hn).
  by rewrite parse_to_string.
Qed.

Definition demo_config : ControlPlaneClientConfig := {|
  cfg_endpoint := "https://cp"; cfg_enrollment := Env "MCPG_ENROLL"; cfg_state_dir := "/s";
  cfg_heartbeat := from_millis 1500;
  cfg_backoff := {| bo_initial := from_millis 250; bo_max := from_secs 60; bo_jitter := true |}
|}.

Lemma config_roundtrip_truncates_witness :
  (cfg_heartbeat <$> @Config_deserialize demo_humantime (Config_serialize demo_config)) =
    Some (from_secs 1).
Proof.
  assert (config_wf demo_config) as Hwf by (split; vm_compute; intuition discriminate).
  rewrite (proj1 (@config_roundtrip_truncates demo_humantime demo_humantime_laws demo_config Hwf)).
  reflexivity.
Defined.
