(* ===== verification/Crypto.v ===== *)
(** * Cryptographic primitives

    The interface the client uses of [aes-gcm] and [hkdf]: operations of the
    classes [Aead] and [Hkdf], with the documented facts the properties rely on
    in [AeadLaws] and [HkdfLaws].  Nothing is assumed about secrecy. *)

From stdpp Require Import base list strings.
From Stdlib Require Import ZArith Lia.
From Stdlib.Strings Require Byte.
From S2P Require Import Prelude Proto Text.

(** AES-256-GCM. *)
Class Aead := {
  Cipher : Type;
  (** [Aes256Gcm::new_from_slice]: fails on a key of another length. *)
  aes_new_from_slice : bytes → option Cipher;
  (** [Aes256Gcm::new] on a 32-byte key. *)
  aes_new : bytes → Cipher;
  (** key, nonce, message, associated data. *)
  aes_encrypt : Cipher → bytes → bytes → bytes → option bytes;
  aes_decrypt : Cipher → bytes → bytes → bytes → option bytes;
  (** [Display] of the opaque errors. *)
  aead_error : string;
  invalid_length : string
}.

Definition KEY_LEN : nat := 32.

(** The longest message and associated data AES-GCM accepts. *)
Definition P_MAX : Z := 2 ^ 36.

Class AeadLaws `{Aead} : Prop := {
  aes_new_32 k : length k = KEY_LEN → aes_new_from_slice k = Some (aes_new k);
  aes_decrypt_encrypt c n m a ct :
    aes_encrypt c n m a = Some ct → aes_decrypt c n ct a = Some m;
  aes_encrypt_total c n m a :
    length n = 12%nat → (Z.of_nat (length m) ≤ P_MAX)%Z → (Z.of_nat (length a) ≤ P_MAX)%Z →
    is_Some (aes_encrypt c n m a)
}.

(** HKDF-SHA256: salt, input key material, info, output length; [None] when the
    output is too long. *)
Class Hkdf := { hkdf_expand : bytes → bytes → bytes → nat → option bytes }.

Class HkdfLaws `{Hkdf} : Prop := {
  hkdf_expand_ok salt ikm info n :
    (n ≤ 255 * 32)%nat → ∃ okm, hkdf_expand salt ikm info n = Some okm ∧ length okm = n
}.

(** [<[T]>::split_first_chunk::<N>]. *)
Definition split_first_chunk {A} (n : nat) (l : list A) : option (list A * list A) :=
  if (n <=? length l)%nat then Some (take n l, drop n l) else None.

Lemma split_first_chunk_app {A} (l1 l2 : list A) :
  split_first_chunk (length l1) (l1 ++ l2) = Some (l1, l2).
Proof.
  unfold split_first_chunk. rewrite length_app, (proj2 (Nat.leb_le _ _)) by lia.
  by rewrite take_app_length, drop_app_length.
Qed.

Lemma split_first_chunk_none {A} n (l : list A) :
  split_first_chunk n l = None ↔ (length l < n)%nat.
Proof.
  unfold split_first_chunk. destruct (n <=? length l)%nat eqn:E.
  - apply Nat.leb_le in E. split; [done|lia].
  - apply Nat.leb_gt in E. done.
Qed.

(** ** Concrete instances, for the examples *)

(** A stand-in for AES-GCM: the complemented message and a 16-byte checksum of key,
    nonce, associated data and message. *)
Definition flip (x : byte) : byte := default x (Byte.of_N (255 - Byte.to_N x)).

Definition checksum (l : bytes) : N :=
  fold_left (λ acc x, (acc * 257 + Byte.to_N x + 1) mod 65537)%N l 1%N.

Definition tag (k n a m : bytes) : bytes :=
  let h := checksum (k ++ n ++ a ++ m) in
  (λ i, default Byte.x00 (Byte.of_N ((h / 2 ^ N.of_nat i) mod 256))) <$> seq 0 16.

Definition TAG_LEN : nat := 16.

Definition open_sealed (k n c a : bytes) : option bytes :=
  let len := (length c - TAG_LEN)%nat in
  let m := flip <$> take len c in
  if decide (TAG_LEN ≤ length c ∧ drop len c = tag k n a m)%nat then Some m else None.

Lemma flip_flip x : flip (flip x) = x.
Proof. by destruct x. Qed.

Lemma open_seal k n m a : open_sealed k n ((flip <$> m) ++ tag k n a m) a = Some m.
Proof.
  unfold open_sealed.
  assert (length ((flip <$> m) ++ tag k n a m) = length m + TAG_LEN)%nat as Hl.
  { rewrite length_app, length_fmap. unfold tag. by rewrite length_fmap, length_seq. }
  rewrite Hl. replace (length m + TAG_LEN - TAG_LEN)%nat with (length (flip <$> m))
    by (rewrite length_fmap; lia).
  rewrite take_app_length, drop_app_length.
  assert (flip <$> (flip <$> m) = m) as ->.
  { rewrite <- list_fmap_compose. rewrite <- (list_fmap_id m) at 2. apply list_fmap_ext.
    intros ? x _. apply flip_flip. }
  rewrite decide_True; [done|]. split; [lia|done].
Qed.

#[export] Instance concrete_aead : Aead := {|
  Cipher := bytes;
  aes_new_from_slice k := if decide (length k = KEY_LEN) then Some k else None;
  aes_new k := k;
  aes_encrypt k n m a := Some ((flip <$> m) ++ tag k n a m);
  aes_decrypt := open_sealed;
  aead_error := "aead::Error";
  invalid_length := "Invalid Length"
|}.

#[export] Instance concrete_aead_laws : AeadLaws.
Proof.
  split; simpl.
  - intros k Hk. by rewrite decide_True.
  - intros k n m a ct [= <-]. apply open_seal.
  - eauto.
Qed.

(** The input key material cut or padded to length. *)
#[export] Instance concrete_hkdf : Hkdf := {|
  hkdf_expand _ ikm _ n :=
    if (n <=? 255 * 32)%nat then Some (take n (ikm ++ replicate n Byte.x00)) else None
|}.

#[export] Instance concrete_hkdf_laws : HkdfLaws.
Proof.
  split. intros salt ikm info n Hn. unfold hkdf_expand, concrete_hkdf. rewrite (proj2 (Nat.leb_le n (255 * 32)) Hn).
  eexists. split; [done|]. rewrite length_take, length_app, length_replicate. lia.
Qed.
