(* ===== verification/Dek.v ===== *)
(** * Source-side payload encryption: [src/payload_dek.rs] *)

From stdpp Require Import base list strings.
From Stdlib Require Import ZArith Lia.
From Stdlib.Strings Require Byte.
From S2P Require Import Prelude Proto Text Crypto.

(** [AAD], the domain separator. *)
Definition AAD : bytes := as_bytes "mcpg-payload-source-v1".

Record DekHandle := { raw : bytes; version : Z }.

Inductive DekError :=
| BadKeyLen (n : Z)
| ZeroVersion
| Encrypt (reason : string).

#[export] Instance DekHandle_eq_dec : EqDecision DekHandle.
Proof. solve_decision. Defined.

(** [DekHandle::from_proto]. *)
Definition from_proto (raw_ : bytes) (version_ : Z) : Result (option DekHandle) DekError :=
  if vec_is_empty raw_ then Ok None
  else if negb (length raw_ =? KEY_LEN)%nat then Err (BadKeyLen (Z.of_nat (length raw_)))
  else if (version_ =? 0)%Z then Err ZeroVersion
  else Ok (Some {| raw := raw_; version := version_ |}).

Definition DEK_NONCE_LEN : nat := 12.

Section dek.
Context `{Aead}.

(** [DekHandle::encrypt], the nonce as drawn from the system. *)
Definition dek_encrypt (h : DekHandle) (nonce plaintext : bytes) : Result bytes DekError :=
  match aes_new_from_slice (raw h) with
  | None => Err (Encrypt invalid_length)
  | Some cipher =>
      match aes_encrypt cipher nonce plaintext AAD with
      | None => Err (Encrypt aead_error)
      | Some ct => Ok (nonce ++ ct)
      end
  end.

(** [DekHandle::decrypt_for_test], the control plane's side of the scheme. *)
Definition decrypt_for_test (h : DekHandle) (blob : bytes) : Result bytes DekError :=
  match split_first_chunk DEK_NONCE_LEN blob with
  | None => Err (Encrypt "blob shorter than nonce")
  | Some (nonce, ct) =>
      match aes_new_from_slice (raw h) with
      | None => Err (Encrypt invalid_length)
      | Some cipher =>
          match aes_decrypt cipher nonce ct AAD with
          | None => Err (Encrypt aead_error)
          | Some m => Ok m
          end
      end
  end.
End dek.

(** What every handle [from_proto] builds satisfies. *)
Record dek_wf (h : DekHandle) : Prop := {
  dek_len : length (raw h) = KEY_LEN;
  dek_version : version h ≠ 0%Z
}.

(** ** Main properties *)

Lemma from_proto_ok_iff r v h :
  from_proto r v = Ok (Some h) ↔ h = {| raw := r; version := v |} ∧ dek_wf h.
Proof.
  unfold from_proto. destruct (vec_is_empty r) eqn:E1.
  { apply vec_is_empty_true in E1 as ->. split; [done|]. intros [-> [? _]]. done. }
  destruct (length r =? KEY_LEN)%nat eqn:E2; simpl.
  - apply Nat.eqb_eq in E2. destruct (v =? 0)%Z eqn:E3.
    + apply Z.eqb_eq in E3 as ->. split; [done|]. intros [-> [_ ?]]. done.
    + apply Z.eqb_neq in E3. split; [intros [= <-]; by repeat split|]. by intros [-> _].
  - apply Nat.eqb_neq in E2. split; [done|]. intros [-> [? _]]. done.
Qed.

Lemma from_proto_none_iff r v : from_proto r v = Ok None ↔ r = [].
Proof.
  unfold from_proto. destruct (vec_is_empty r) eqn:E1.
  - apply vec_is_empty_true in E1. done.
  - apply vec_is_empty_false in E1. split; [|done].
    destruct (negb _); [done|]. by destruct (v =? 0)%Z.
Qed.

Section dek_lemmas.
Context `{AeadLaws}.

Lemma dek_encrypt_decrypt h nonce m blob :
  dek_wf h → length nonce = DEK_NONCE_LEN → dek_encrypt h nonce m = Ok blob →
  decrypt_for_test h blob = Ok m.
Proof.
  intros [Hlen _] Hn. unfold dek_encrypt, decrypt_for_test.
  rewrite (aes_new_32 _ Hlen).
  destruct (aes_encrypt _ _ _ _) as [ct|] eqn:E; [|done]. intros [= <-].
  rewrite <- Hn, split_first_chunk_app. by rewrite (aes_decrypt_encrypt _ _ _ _ _ E).
Qed.
End dek_lemmas.

(** [from_proto] is total and classifies every key the control plane can
    send: an empty key means no encryption, whatever the version; otherwise the
    key must have 32 bytes and then a non-zero version, each failure with its own
    error; and exactly then a handle with that key and version results. *)
Theorem from_proto_classifies r v :
  (from_proto r v = Ok None ↔ r = []) ∧
  (∀ n, from_proto r v = Err (BadKeyLen n) ↔
     n = Z.of_nat (length r) ∧ length r ≠ 0%nat ∧ length r ≠ KEY_LEN) ∧
  (from_proto r v = Err ZeroVersion ↔ length r = KEY_LEN ∧ v = 0%Z) ∧
  (∀ h, from_proto r v = Ok (Some h) ↔
     raw h = r ∧ version h = v ∧ length r = KEY_LEN ∧ v ≠ 0%Z) ∧
  (∀ e, from_proto r v ≠ Err (Encrypt e)).
Proof.
  split_and!; [apply from_proto_none_iff| | | |].
  4: { intros e. unfold from_proto. break. }
  - intros n. unfold from_proto. destruct r as [|b r]; simpl vec_is_empty; [naive_solver|].
    destruct (_ =? KEY_LEN)%nat eqn:E; cbn [negb].
    + apply Nat.eqb_eq in E. split; [destruct (v =? 0)%Z; congruence|tauto].
    + apply Nat.eqb_neq in E. split; [intros [= <-]; done|]. by intros (-> & _).
  - unfold from_proto. destruct r as [|b r]; simpl vec_is_empty; [naive_solver|].
    destruct (_ =? KEY_LEN)%nat eqn:E; cbn [negb].
    + apply Nat.eqb_eq in E. destruct (Z.eqb_spec v 0); naive_solver.
    + apply Nat.eqb_neq in E. naive_solver.
  - intros [r' v']. rewrite from_proto_ok_iff. split.
    + intros [[= -> ->] [? ?]]. done.
    + simpl. intros (-> & -> & ? & ?). by repeat split.
Qed.

(** A payload sealed by a handle that [from_proto] accepted, under any
    12-byte nonce, is the nonce followed by the ciphertext, and is opened again
    by the other side of the scheme with the same key. *)
Theorem payload_seal_open `{AeadLaws} r v h nonce m blob :
  from_proto r v = Ok (Some h) → length nonce = DEK_NONCE_LEN →
  dek_encrypt h nonce m = Ok blob →
  decrypt_for_test h blob = Ok m ∧ take DEK_NONCE_LEN blob = nonce.
Proof.
  intros [_ Hwf]%from_proto_ok_iff Hn He. split; [by eapply dek_encrypt_decrypt|].
  unfold dek_encrypt in He. rewrite (aes_new_32 _ (dek_len _ Hwf)) in He.
  destruct (aes_encrypt _ _ _ _); [|done]. injection He as <-.
  by rewrite <- Hn, take_app_length.
Qed.

Definition demo_key : bytes := replicate KEY_LEN Byte.x07.
Definition demo_nonce : bytes := replicate DEK_NONCE_LEN Byte.x01.
Definition demo_handle : DekHandle := {| raw := demo_key; version := 1 |}.
Definition demo_blob : bytes :=
  demo_nonce ++ (flip <$> [Byte.x68; Byte.x69]) ++
  tag demo_key demo_nonce AAD [Byte.x68; Byte.x69].

Lemma payload_seal_open_witness :
  decrypt_for_test demo_handle demo_blob = Ok [Byte.x68; Byte.x69] ∧
  take DEK_NONCE_LEN demo_blob = demo_nonce.
Proof.
  apply (payload_seal_open demo_key 1 demo_handle demo_nonce [Byte.x68; Byte.x69] demo_blob).
  - reflexivity.
  - reflexivity.
  - reflexivity.
Defined.
