(* ===== verification/Fs.v ===== *)
(** * The file system, randomness and the clock

    The effects of [std::fs], the system random generator and [Utc::now] that the
    client's persistence code performs, as a state and error monad.

    Every I/O call may fail: the calls of a run meet the faults of the list
    [faults], one each, and none once it is exhausted.  A failing write may leave
    any prefix of its data.  The field [past] records every disk that a crash of
    the process could have left behind: a write passes through every prefix, a
    rename is one step. *)

From stdpp Require Import base list strings gmap.
From Stdlib Require Import ZArith Lia Ascii.
From S2P Require Import Prelude Time Proto Text Errors.

Local Open Scope string_scope.

(** ** Paths *)

(** A path below a directory: its parent and its file name. *)
Record Path := mkPath { parent : string; file_name : string }.

#[export] Instance Path_eq_dec : EqDecision Path.
Proof. solve_decision. Defined.

#[export] Instance Path_countable : Countable Path.
Proof.
  refine (inj_countable' (λ p, (parent p, file_name p)) (λ x, mkPath x.1 x.2) _).
  by intros [].
Defined.

(** [Path::join] of a directory and a file name. *)
Definition join_path (dir name : string) : Path := mkPath dir name.

(** [Path::file_stem]: the name up to its last dot, unless that dot is the first
    character. *)
Definition file_stem (name : string) : string :=
  match split_once "."%char (str_rev name) with
  | Some (_, rest) => if str_is_empty rest then name else str_rev rest
  | None => name
  end.

(** [Path::with_extension], for a non-empty extension. *)
Definition with_extension (ext : string) (p : Path) : Path :=
  mkPath (parent p) (file_stem (file_name p) +:+ "." +:+ ext).

(** ** The world *)

Record File := mkFile { content : bytes; mode : Z }.

Abbreviation Disk := (gmap Path File).

(** What an I/O call meets. *)
Inductive Fault :=
| NoFault
| FailClean
| FailTorn (written : nat).

Record World := {
  disk : Disk;
  dirs : gset string;
  new_mode : Z;
  faults : list Fault;
  entropy : nat → byte;
  drawn : nat;
  clock : nat → DateTime;
  readings : nat;
  past : list Disk
}.

Definition set_disk (d : Disk) (between : list Disk) (w : World) : World :=
  {| disk := d; dirs := dirs w; new_mode := new_mode w; faults := faults w;
     entropy := entropy w; drawn := drawn w; clock := clock w; readings := readings w;
     past := d :: between ++ past w |}%list.

Definition set_dirs (ds : gset string) (w : World) : World :=
  {| disk := disk w; dirs := ds; new_mode := new_mode w; faults := faults w;
     entropy := entropy w; drawn := drawn w; clock := clock w; readings := readings w;
     past := past w |}.

Definition set_faults (fs : list Fault) (w : World) : World :=
  {| disk := disk w; dirs := dirs w; new_mode := new_mode w; faults := fs;
     entropy := entropy w; drawn := drawn w; clock := clock w; readings := readings w;
     past := past w |}.

Definition set_drawn (n : nat) (w : World) : World :=
  {| disk := disk w; dirs := dirs w; new_mode := new_mode w; faults := faults w;
     entropy := entropy w; drawn := n; clock := clock w; readings := readings w;
     past := past w |}.

Definition set_readings (n : nat) (w : World) : World :=
  {| disk := disk w; dirs := dirs w; new_mode := new_mode w; faults := faults w;
     entropy := entropy w; drawn := drawn w; clock := clock w; readings := n;
     past := past w |}.

(** ** The monad *)

Definition IO (A : Type) : Type := World → Result A Error * World.

Definition ret {A} (a : A) : IO A := λ w, (Ok a, w).
Definition throw {A} (e : Error) : IO A := λ w, (Err e, w).

(** The [?] operator. *)
Definition bind {A B} (m : IO A) (k : A → IO B) : IO B := λ w,
  match m w with
  | (Ok a, w) => k a w
  | (Err e, w) => (Err e, w)
  end.

(** A call whose [Result] the code inspects itself. *)
Definition attempt {A} (m : IO A) : IO (Result A Error) := λ w,
  let '(r, w) := m w in (Ok r, w).

(** [Result<T, E>?] and [Option] with an error of the code's own. *)
Definition lift {A} (r : Result A Error) : IO A := λ w, (r, w).
Definition lift_opt {A} (o : option A) (e : Error) : IO A :=
  lift (match o with Some a => Ok a | None => Err e end).

Notation "x ←! m ; k" := (bind m (λ x, k))
  (at level 20, m at level 100, k at level 200, right associativity) : rust_scope.
Notation "m ;! k" := (bind m (λ _, k))
  (at level 100, k at level 200, right associativity) : rust_scope.
Local Open Scope rust_scope.

(** ** Calls *)

Definition io_error (k : ErrorKind) : Error := from_cause (CIo k).

(** The fault the next call meets. *)
Definition next_fault (w : World) : Fault * World :=
  match faults w with
  | [] => (NoFault, w)
  | f :: fs => (f, set_faults fs w)
  end.

(** [Path::exists]: an error while looking counts as absent. *)
Definition exists_ (p : Path) : IO bool := λ w,
  let '(f, w) := next_fault w in
  match f with
  | NoFault => (Ok (bool_decide (is_Some (disk w !! p))), w)
  | _ => (Ok false, w)
  end.

(** [std::fs::read]. *)
Definition read (p : Path) : IO bytes := λ w,
  let '(f, w) := next_fault w in
  match f with
  | NoFault =>
      match disk w !! p with
      | Some x => (Ok (content x), w)
      | None => (Err (io_error NotFound), w)
      end
  | _ => (Err (io_error OtherIo), w)
  end.

(** [std::fs::read_to_string]: invalid UTF-8 is an error. *)
Definition read_to_string (p : Path) : IO string :=
  b ←! read p;
  if utf8_valid b then ret (of_bytes b) else throw (io_error OtherIo).

(** [std::fs::create_dir_all]. *)
Definition create_dir_all (d : string) : IO () := λ w,
  let '(f, w) := next_fault w in
  match f with
  | NoFault => (Ok tt, set_dirs ({[ d ]} ∪ dirs w) w)
  | _ => (Err (io_error OtherIo), w)
  end.

(** The mode a file keeps, or gets when it is created. *)
Definition mode_at (p : Path) (w : World) : Z :=
  match disk w !! p with Some x => mode x | None => new_mode w end.

(** The disk with the first [k] bytes of [b] written to [p]. *)
Definition partial (p : Path) (b : bytes) (w : World) (k : nat) : Disk :=
  <[p := mkFile (take k b) (mode_at p w)]> (disk w).

(** [std::fs::write]: truncates, then writes. *)
Definition write (p : Path) (b : bytes) : IO () := λ w,
  let '(f, w) := next_fault w in
  match f with
  | FailClean => (Err (io_error OtherIo), w)
  | FailTorn n =>
      if bool_decide (parent p ∈ dirs w)
      then (Err (io_error OtherIo),
            set_disk (partial p b w n) (rev (partial p b w <$> seq 0 n)) w)
      else (Err (io_error NotFound), w)
  | NoFault =>
      if bool_decide (parent p ∈ dirs w)
      then (Ok tt,
            set_disk (partial p b w (length b)) (rev (partial p b w <$> seq 0 (length b))) w)
      else (Err (io_error NotFound), w)
  end.

(** [std::fs::rename]: atomic. *)
Definition rename (src dst : Path) : IO () := λ w,
  let '(f, w) := next_fault w in
  match f with
  | NoFault =>
      match disk w !! src with
      | Some x => (Ok tt, set_disk (<[dst := x]> (delete src (disk w))) [] w)
      | None => (Err (io_error NotFound), w)
      end
  | _ => (Err (io_error OtherIo), w)
  end.

(** [std::fs::remove_file]. *)
Definition remove_file (p : Path) : IO () := λ w,
  let '(f, w) := next_fault w in
  match f with
  | NoFault =>
      match disk w !! p with
      | Some _ => (Ok tt, set_disk (delete p (disk w)) [] w)
      | None => (Err (io_error NotFound), w)
      end
  | _ => (Err (io_error OtherIo), w)
  end.

(** [std::fs::set_permissions]. *)
Definition set_permissions (p : Path) (m : Z) : IO () := λ w,
  let '(f, w) := next_fault w in
  match f with
  | NoFault =>
      match disk w !! p with
      | Some x => (Ok tt, set_disk (<[p := mkFile (content x) m]> (disk w)) [] w)
      | None => (Err (io_error NotFound), w)
      end
  | _ => (Err (io_error OtherIo), w)
  end.

Definition MODE_600 : Z := 384.

(** [SysRng::try_fill_bytes(..).expect(..)]: [n] bytes; the expectation that the
    system provides them is taken as met. *)
Definition fill_bytes (n : nat) : IO bytes := λ w,
  (Ok (entropy w <$> seq (drawn w) n), set_drawn (drawn w + n) w).

(** [chrono::Utc::now]. *)
Definition utc_now : IO DateTime := λ w,
  (Ok (clock w (readings w)), set_readings (S (readings w)) w).
