(* ===== verification/FsFacts.v ===== *)
(** * Reasoning about file-system code

    [evolves P] says that a step leaves only disks satisfying [P] behind, crash
    points included; it composes along [bind].  A property that looks at one
    path only is kept by every call on another path, which is how the
    write-to-temporary-then-rename idiom is shown atomic, once for its three
    uses. *)

From stdpp Require Import base list strings gmap.
From Stdlib Require Import ZArith Lia Ascii.
From S2P Require Import Prelude Time Proto Text Errors Fs.

Local Open Scope string_scope.
Local Open Scope rust_scope.

(** ** Paths *)

Lemma lacks_list c s :
  lacks c s = true ↔ Forall (λ a, a ≠ c) (String.list_ascii_of_string s).
Proof.
  induction s as [|a s IH]; [by simpl|]. rewrite lacks_cons, IH. simpl.
  by rewrite Forall_cons.
Qed.

Lemma Forall_rev_iff {A} (P : A → Prop) l : Forall P (rev l) ↔ Forall P l.
Proof. split; intros H; [rewrite <- (rev_involutive l)|]; by apply Forall_rev. Qed.

Lemma lacks_rev c s : lacks c (str_rev s) = true ↔ lacks c s = true.
Proof.
  rewrite !lacks_list. unfold str_rev.
  by rewrite String.list_ascii_of_string_of_list_ascii, Forall_rev_iff.
Qed.

Lemma list_ascii_app s t : String.list_ascii_of_string (s +:+ t) =
  (String.list_ascii_of_string s ++ String.list_ascii_of_string t)%list.
Proof. induction s as [|a s IH]; [done|]. rewrite str_app_cons. simpl. by rewrite IH. Qed.

Lemma string_app_of_list l1 l2 : String.string_of_list_ascii (l1 ++ l2)%list =
  String.string_of_list_ascii l1 +:+ String.string_of_list_ascii l2.
Proof. induction l1 as [|a l1 IH]; [done|]. simpl. by rewrite IH, str_app_cons. Qed.

Lemma str_rev_app s t : str_rev (s +:+ t) = str_rev t +:+ str_rev s.
Proof. unfold str_rev. by rewrite list_ascii_app, rev_app_distr, string_app_of_list. Qed.

Lemma str_app_assoc s t u : s +:+ t +:+ u = (s +:+ t) +:+ u.
Proof. induction s as [|a s IH]; [done|]. rewrite !str_app_cons. by rewrite IH. Qed.

Lemma str_length_app s t : String.length (s +:+ t) = String.length s + String.length t.
Proof. induction s as [|a s IH]; [done|]. rewrite str_app_cons. simpl. by rewrite IH. Qed.

Lemma str_app_inj_l s t u : s +:+ t = s +:+ u → t = u.
Proof. induction s as [|a s IH]; [done|]. rewrite !str_app_cons. intros [= ?]. auto. Qed.

(** A file name is its stem, or its stem, a dot and an extension without dots. *)
Lemma file_stem_spec n :
  file_stem n = n ∨ ∃ e, n = file_stem n +:+ "." +:+ e ∧ lacks "." e = true.
Proof.
  unfold file_stem. destruct (split_once _ _) as [[e rest]|] eqn:E; [|by left].
  apply split_once_spec in E as [E He]. destruct (str_is_empty rest); [by left|right].
  exists (str_rev e). rewrite lacks_rev. split; [|done].
  rewrite <- (str_rev_involutive n), E.
  change (String "." rest) with ("." +:+ rest). rewrite !str_rev_app.
  change (str_rev ".") with ".". by rewrite <- str_app_assoc.
Qed.

(** The temporary file is never the file it replaces. *)
Lemma with_extension_ne ext p : lacks "." ext = false → with_extension ext p ≠ p.
Proof.
  intros Hext Hp. destruct p as [d n]. unfold with_extension in Hp. simpl in Hp.
  injection Hp as Hn. destruct (file_stem_spec n) as [E|(e & E & He)].
  - rewrite E in Hn.
    assert (String.length (n +:+ "." +:+ ext) = String.length n) as Hl by congruence.
    rewrite str_length_app in Hl. simpl in Hl. lia.
  - rewrite E in Hn at 2. do 2 apply str_app_inj_l in Hn. congruence.
Qed.

(** ** Inverting a run *)

Lemma bind_ok {A B} (m : IO A) (k : A → IO B) w b w' :
  bind m k w = (Ok b, w') ↔ ∃ a w1, m w = (Ok a, w1) ∧ k a w1 = (Ok b, w').
Proof.
  unfold bind. destruct (m w) as [[a|e] w1]; split.
  - intros. eauto.
  - by intros (? & ? & [= <- <-] & ?).
  - done.
  - by intros (? & ? & ? & _).
Qed.

Lemma attempt_ok {A} (m : IO A) w r w' :
  attempt m w = (Ok r, w') ↔ m w = (r, w').
Proof. unfold attempt. destruct (m w). split; congruence. Qed.

Lemma read_ok p w b w' :
  read p w = (Ok b, w') →
  disk w' = disk w ∧ dirs w' = dirs w ∧ ∃ m, disk w !! p = Some (mkFile b m).
Proof.
  unfold read, next_fault. destruct (faults w) as [|[| |n] fs]; simpl; try done;
    destruct (disk w !! p) as [[c m]|]; naive_solver.
Qed.

Lemma read_clock p w : clock (read p w).2 = clock w ∧ readings (read p w).2 = readings w.
Proof.
  unfold read, next_fault. by destruct (faults w) as [|[| |n] fs]; simpl; destruct (disk w !! p).
Qed.

Lemma lift_opt_ok {A} (o : option A) e w a w' :
  lift_opt o e w = (Ok a, w') → o = Some a ∧ w' = w.
Proof. unfold lift_opt, lift. destruct o; naive_solver. Qed.

Lemma write_ok p b w w' :
  write p b w = (Ok tt, w') →
  disk w' = <[p := mkFile b (mode_at p w)]> (disk w) ∧ dirs w' = dirs w.
Proof.
  unfold write, next_fault, partial.
  destruct (faults w) as [|[| |n] fs]; simpl; repeat case_bool_decide; try done;
    intros [= <-]; simpl; by rewrite firstn_all.
Qed.

Lemma rename_ok src dst w w' :
  rename src dst w = (Ok tt, w') →
  ∃ x, disk w !! src = Some x ∧ disk w' = <[dst := x]> (delete src (disk w)) ∧ dirs w' = dirs w.
Proof.
  unfold rename, next_fault.
  destruct (faults w) as [|[| |n] fs]; simpl; try done; destruct (disk w !! src); naive_solver.
Qed.

Lemma set_permissions_ok p m w w' :
  set_permissions p m w = (Ok tt, w') →
  ∃ x, disk w !! p = Some x ∧ disk w' = <[p := mkFile (content x) m]> (disk w) ∧ dirs w' = dirs w.
Proof.
  unfold set_permissions, next_fault.
  destruct (faults w) as [|[| |n] fs]; simpl; try done; destruct (disk w !! p); naive_solver.
Qed.

(** ** Disks a step can leave behind *)

Definition evolves (P : Disk → Prop) (w w' : World) : Prop :=
  P (disk w) → P (disk w') ∧ ∃ new, past w' = (new ++ past w)%list ∧ Forall P new.

Definition io_evolves {A} (P : Disk → Prop) (m : IO A) : Prop := ∀ w, evolves P w (m w).2.

Lemma evolves_refl P w : evolves P w w.
Proof. intros HP. split; [done|]. by exists []. Qed.

Lemma evolves_trans P w1 w2 w3 : evolves P w1 w2 → evolves P w2 w3 → evolves P w1 w3.
Proof.
  intros H1 H2 HP. destruct (H1 HP) as (HP2 & n1 & E1 & F1).
  destruct (H2 HP2) as (HP3 & n2 & E2 & F2). split; [done|].
  exists (n2 ++ n1)%list. split; [by rewrite E2, E1, (assoc_L app)|by apply Forall_app].
Qed.

Lemma evolves_bind {A B} P (m : IO A) (k : A → IO B) w :
  evolves P w (m w).2 → (∀ a w1, m w = (Ok a, w1) → evolves P w1 (k a w1).2) →
  evolves P w (bind m k w).2.
Proof.
  unfold bind. intros Hm Hk. destruct (m w) as [[a|e] w1]; simpl in *; [|done].
  eapply evolves_trans; [done|]. by apply Hk.
Qed.

Lemma evolves_attempt {A} P (m : IO A) w : evolves P w (m w).2 → evolves P w (attempt m w).2.
Proof. unfold attempt. by destruct (m w). Qed.

(** A run that adds no disk. *)
Lemma evolves_same P w w' : disk w' = disk w → past w' = past w → evolves P w w'.
Proof. intros E1 E2 HP. rewrite E1. split; [done|]. by exists []. Qed.

(** [P] looks at path [p] only. *)
Definition stable (p : Path) (P : Disk → Prop) : Prop :=
  ∀ d d' : Disk, d !! p = d' !! p → P d → P d'.

Lemma next_fault_same w f w1 :
  next_fault w = (f, w1) →
  disk w1 = disk w ∧ past w1 = past w ∧ dirs w1 = dirs w ∧ new_mode w1 = new_mode w.
Proof. unfold next_fault. destruct (faults w); naive_solver. Qed.

Ltac next_fault w :=
  destruct (next_fault w) as [f w1] eqn:Hf; apply next_fault_same in Hf as (Hd & Hpast & Hdirs & Hmode).

Lemma exists_evolves P p w : evolves P w (exists_ p w).2.
Proof. unfold exists_. next_fault w. by destruct f; apply evolves_same. Qed.

Lemma read_evolves P p w : evolves P w (read p w).2.
Proof.
  unfold read. next_fault w. destruct f; try by apply evolves_same.
  by destruct (disk w1 !! p); apply evolves_same.
Qed.

Lemma create_dir_all_evolves P d w : evolves P w (create_dir_all d w).2.
Proof. unfold create_dir_all. next_fault w. by destruct f; apply evolves_same. Qed.

Lemma fill_bytes_evolves P n w : evolves P w (fill_bytes n w).2.
Proof. by apply evolves_same. Qed.

Lemma utc_now_evolves P w : evolves P w (utc_now w).2.
Proof. by apply evolves_same. Qed.

Lemma lift_evolves {A} P (r : Result A Error) w : evolves P w (lift r w).2.
Proof. by apply evolves_same. Qed.

Lemma ret_evolves {A} P (a : A) w : evolves P w (ret a w).2.
Proof. by apply evolves_same. Qed.

Lemma read_to_string_evolves P p w : evolves P w (read_to_string p w).2.
Proof.
  apply evolves_bind; [apply read_evolves|]. intros b w1 _.
  by destruct (utf8_valid b); apply evolves_same.
Qed.

Lemma set_disk_evolves P w w1 d between :
  disk w1 = disk w → past w1 = past w →
  (P (disk w) → P d ∧ Forall P between) → evolves P w (set_disk d between w1).
Proof.
  intros E1 E2 H HP. destruct (H HP) as [Hd Hb]. split; [done|].
  exists (d :: between). simpl. rewrite E2. split; [done|]. by constructor.
Qed.

Section other_path.
Context (p q : Path) (P : Disk → Prop) (Hst : stable p P) (Hne : q ≠ p).

Lemma stable_insert d f : P d → P (<[q := f]> d).
Proof. apply Hst. by rewrite lookup_insert_ne. Qed.

Lemma write_evolves b w : evolves P w (write q b w).2.
Proof.
  unfold write. next_fault w.
  destruct f as [| |n]; try case_bool_decide; try by apply evolves_same.
  all: apply set_disk_evolves; [done|done|]; intros HP; unfold partial; rewrite Hd.
  all: split; [by apply stable_insert|].
  all: rewrite Forall_rev_iff; apply Forall_fmap, Forall_true; intros k; by apply stable_insert.
Qed.

Lemma set_permissions_evolves m w : evolves P w (set_permissions q m w).2.
Proof.
  unfold set_permissions. next_fault w. destruct f; try by apply evolves_same.
  destruct (disk w1 !! q) as [x|]; [|by apply evolves_same].
  apply set_disk_evolves; [done|done|]. intros HP. split; [|done]. rewrite Hd.
  by apply stable_insert.
Qed.
End other_path.

(** A change of mode keeps a property of the contents at [p]. *)
Lemma set_permissions_evolves_here p (P : Disk → Prop) m w :
  (∀ d x, d !! p = Some x → P d → P (<[p := mkFile (content x) m]> d)) →
  evolves P w (set_permissions p m w).2.
Proof.
  intros HP. unfold set_permissions. next_fault w. destruct f; try by apply evolves_same.
  destruct (disk w1 !! p) as [x|] eqn:Ex; [|by apply evolves_same].
  apply set_disk_evolves; [done|done|]. intros H. rewrite <- Hd in H. split; [|done]. auto.
Qed.

(** Renaming over [p] installs the file of the source. *)
Lemma rename_evolves p src (P : Disk → Prop) w :
  (∀ x d, disk w !! src = Some x → d !! p = Some x → P d) →
  evolves P w (rename src p w).2.
Proof.
  intros HP. unfold rename. next_fault w. destruct f; try by apply evolves_same.
  destruct (disk w1 !! src) as [x|] eqn:Ex; [|by apply evolves_same].
  apply set_disk_evolves; [done|done|]. intros _. split; [|done].
  apply (HP x); [by rewrite <- Hd|]. by rewrite lookup_insert_eq.
Qed.

(** What replacing [p] promises: at every moment it is as before or has the new
    contents. *)
Definition old_or (p : Path) (old : option File) (b : bytes) (d : Disk) : Prop :=
  d !! p = old ∨ content <$> d !! p = Some b.

Lemma old_or_stable p old b : stable p (old_or p old b).
Proof. intros d d' E [H|H]; [left|right]; by rewrite <- E. Qed.

#[export] Hint Resolve old_or_stable evolves_refl exists_evolves read_evolves
  create_dir_all_evolves fill_bytes_evolves utc_now_evolves lift_evolves ret_evolves
  read_to_string_evolves write_evolves set_permissions_evolves evolves_attempt : cpc.

(** Changing the mode keeps contents everywhere. *)
Lemma set_permissions_content q p m w :
  content <$> disk (set_permissions q m w).2 !! p = content <$> disk w !! p.
Proof.
  unfold set_permissions. next_fault w. rewrite <- Hd. destruct f; try done.
  destruct (disk w1 !! q) as [x|] eqn:E; [|done]. simpl.
  destruct (decide (q = p)) as [->|]; [by rewrite lookup_insert_eq, E|by rewrite lookup_insert_ne].
Qed.

(** ** Runs without faults *)

Definition calm (w : World) : Prop := faults w = [].

Lemma next_fault_calm w : calm w → next_fault w = (NoFault, w).
Proof. unfold calm, next_fault. by intros ->. Qed.

Lemma exists_calm p w : calm w → exists_ p w = (Ok (bool_decide (is_Some (disk w !! p))), w).
Proof. intros Hc. unfold exists_. by rewrite next_fault_calm. Qed.

Lemma read_calm p w x : calm w → disk w !! p = Some x → read p w = (Ok (content x), w).
Proof. intros Hc Hx. unfold read. by rewrite next_fault_calm, Hx. Qed.

Lemma read_calm_none p w : calm w → disk w !! p = None → read p w = (Err (io_error NotFound), w).
Proof. intros Hc Hx. unfold read. by rewrite next_fault_calm, Hx. Qed.

Lemma create_dir_all_calm d w :
  calm w → create_dir_all d w = (Ok tt, set_dirs ({[ d ]} ∪ dirs w) w).
Proof. intros Hc. unfold create_dir_all. by rewrite next_fault_calm. Qed.

Lemma write_calm p b w :
  calm w → parent p ∈ dirs w →
  ∃ w', write p b w = (Ok tt, w') ∧ calm w' ∧ dirs w' = dirs w ∧ new_mode w' = new_mode w ∧
    readings w' = readings w ∧ clock w' = clock w ∧
    disk w' = <[p := mkFile b (mode_at p w)]> (disk w).
Proof.
  intros Hc Hp. unfold write. rewrite next_fault_calm by done. rewrite bool_decide_true by done.
  eexists. split; [done|]. split_and!; try done. simpl. unfold partial. by rewrite firstn_all.
Qed.

Lemma rename_calm src dst w x :
  calm w → disk w !! src = Some x →
  ∃ w', rename src dst w = (Ok tt, w') ∧ calm w' ∧ dirs w' = dirs w ∧
    disk w' = <[dst := x]> (delete src (disk w)).
Proof.
  intros Hc Hx. unfold rename. rewrite next_fault_calm, Hx by done. eexists. split_and!; done.
Qed.

Lemma set_permissions_calm p m w x :
  calm w → disk w !! p = Some x →
  ∃ w', set_permissions p m w = (Ok tt, w') ∧ calm w' ∧ dirs w' = dirs w ∧
    readings w' = readings w ∧ clock w' = clock w ∧
    disk w' = <[p := mkFile (content x) m]> (disk w).
Proof.
  intros Hc Hx. unfold set_permissions. rewrite next_fault_calm, Hx by done. eexists. split_and!; done.
Qed.

(** One step of a run. *)
Lemma bind_run {A B} (m : IO A) (k : A → IO B) w a w1 :
  m w = (Ok a, w1) → bind m k w = k a w1.
Proof. unfold bind. by intros ->. Qed.

Lemma bind_err {A B} (m : IO A) (k : A → IO B) w e w1 :
  m w = (Err e, w1) → bind m k w = (Err e, w1).
Proof. unfold bind. by intros ->. Qed.

Lemma lift_opt_some {A} (o : option A) e w a : o = Some a → lift_opt o e w = (Ok a, w).
Proof. by intros ->. Qed.

Lemma lift_opt_evolves {A} P (o : option A) e w : evolves P w (lift_opt o e w).2.
Proof. apply lift_evolves. Qed.

Lemma throw_evolves {A} P e w : evolves P w ((throw e : IO A) w).2.
Proof. by apply evolves_same. Qed.

#[export] Hint Resolve lift_opt_evolves throw_evolves : cpc.

(** Decomposes a goal [evolves P w (m w).2] along the binds of [m]. *)
Ltac evolve :=
  repeat lazymatch goal with
  | |- ∀ _, _ => intro
  | |- evolves _ _ (bind _ _ _).2 => apply evolves_bind
  | |- evolves _ _ (attempt _ _).2 => apply evolves_attempt
  | |- evolves _ _ (read _ _).2 => apply read_evolves
  | |- evolves _ _ (read_to_string _ _).2 => apply read_to_string_evolves
  | |- evolves _ _ (exists_ _ _).2 => apply exists_evolves
  | |- evolves _ _ (create_dir_all _ _).2 => apply create_dir_all_evolves
  | |- evolves _ _ (fill_bytes _ _).2 => apply fill_bytes_evolves
  | |- evolves _ _ (utc_now _).2 => apply utc_now_evolves
  | |- evolves _ _ (lift_opt _ _ _).2 => apply lift_opt_evolves
  | |- evolves _ _ (lift _ _).2 => apply lift_evolves
  | |- evolves _ _ (throw _ _).2 => apply throw_evolves
  | |- evolves _ _ (ret _ _).2 => apply ret_evolves
  | |- evolves _ _ (match ?x with _ => _ end _).2 => destruct x
  | |- evolves _ _ (let _ := _ in _).2 => cbv zeta
  end.

(** The property that the file at [p] has not changed. *)
Definition unchanged (p : Path) (old : option File) (d : Disk) : Prop := d !! p = old.

Lemma unchanged_stable p old : stable p (unchanged p old).
Proof. intros d d' E <-. symmetry. exact E. Qed.

#[export] Hint Resolve unchanged_stable : cpc.

Lemma unchanged_old_or p old b d : unchanged p old d → old_or p old b d.
Proof. by left. Qed.

(** The outcome of replacing [p] from [w] to [w'] with the contents [b]: every
    disk on the way is the old one or the new one at [p]. *)
Definition replaced_atomically (p : Path) (b : bytes) (w w' : World) : Prop :=
  ∃ new, past w' = (new ++ past w)%list ∧
    Forall (old_or p (disk w !! p) b) (disk w' :: new).

Lemma evolves_replaced p b w w' :
  evolves (old_or p (disk w !! p) b) w w' → replaced_atomically p b w w'.
Proof.
  intros H. destruct H as (Hd & new & E & F); [by left|]. exists new.
  split; [done|]. by constructor.
Qed.

Lemma unchanged_evolves_old_or p b w w' :
  evolves (unchanged p (disk w !! p)) w w' →
  evolves (old_or p (disk w !! p) b) w w' ∧ disk w' !! p = disk w !! p.
Proof.
  intros H. destruct H as (Hd & new & E & F); [done|]. split; [|done].
  intros _. split; [by left|]. exists new. split; [done|].
  eapply Forall_impl; [done|]. intros d. apply unchanged_old_or.
Qed.

(** ** Atomic replacement

    A run that replaces [p]: atomic at every crash point, complete when it reports
    success, and without effect on [p] when it reports an error. *)
Definition replace_outcome {A} (p : Path) (b : bytes) (w : World)
    (rw : Result A Error * World) : Prop :=
  replaced_atomically p b w rw.2 ∧
  match rw.1 with
  | Ok _ => content <$> disk rw.2 !! p = Some b
  | Err _ => disk rw.2 !! p = disk w !! p
  end.

Lemma replaced_atomically_after p b w w1 w' :
  evolves (unchanged p (disk w !! p)) w w1 →
  replaced_atomically p b w1 w' → replaced_atomically p b w w'.
Proof.
  intros H (new & E & F). destruct H as (Hd & new1 & E1 & F1); [done|].
  unfold unchanged in Hd. rewrite Hd in F. apply Forall_cons in F as [F0 F].
  exists (new ++ new1)%list. split; [by rewrite E, E1, (assoc_L app)|].
  constructor; [done|]. apply Forall_app. split; [done|].
  eapply Forall_impl; [done|]. intros d. apply unchanged_old_or.
Qed.

Lemma evolves_replaced_unchanged p b w w1 :
  evolves (unchanged p (disk w !! p)) w w1 → replaced_atomically p b w w1.
Proof.
  intros H. eapply replaced_atomically_after; [done|]. exists []. split; [done|].
  constructor; [by left|done].
Qed.

(** First something that leaves [p] alone. *)
Lemma replace_outcome_bind {A B} p b (m : IO A) (k : A → IO B) w :
  evolves (unchanged p (disk w !! p)) w (m w).2 →
  (∀ a w1, m w = (Ok a, w1) → replace_outcome p b w1 (k a w1)) →
  replace_outcome p b w (bind m k w).
Proof.
  intros Hm Hk. destruct (m w) as [[a|e] w1] eqn:E; simpl in Hm.
  - rewrite (bind_run _ _ _ _ _ E). destruct (Hk a w1) as [Ha Hr]; [done|].
    split; [by eapply replaced_atomically_after|].
    destruct ((k a w1).1); [done|]. rewrite Hr. by apply Hm.
  - rewrite (bind_err _ _ _ _ _ E). split; [by apply evolves_replaced_unchanged|]. by apply Hm.
Qed.

(** The rename installs the temporary file. *)
Lemma rename_outcome p tmp b w :
  content <$> disk w !! tmp = Some b → replace_outcome p b w (rename tmp p w).
Proof.
  intros Hb. split.
  - apply evolves_replaced, rename_evolves. intros x d Hx Hp. right. by rewrite Hp, <- Hb, Hx.
  - destruct (rename tmp p w) as [[[]|e] w'] eqn:E; simpl.
    + apply rename_ok in E as (x & Hx & -> & _). by rewrite lookup_insert_eq, <- Hb, Hx.
    + unfold rename in E. next_fault w.
      destruct f; simplify_eq; try by rewrite Hd.
      destruct (disk w1 !! tmp); simplify_eq. by rewrite Hd.
Qed.

(** Then a change of mode whose result is ignored. *)
Lemma replace_outcome_chmod p b q m w rw :
  replace_outcome p b w rw →
  replace_outcome p b w (bind (λ _, rw) (λ _ : (), attempt (set_permissions q m);! ret tt) w).
Proof.
  destruct rw as [[[]|e] w1]; intros [Hr Hres]; [|done]. simpl in Hres.
  unfold bind at 1, attempt, bind, ret.
  destruct (set_permissions q m w1) as [r w2] eqn:E.
  pose proof (set_permissions_content q p m w1) as Hc. rewrite E in Hc. simpl in Hc.
  split; simpl; [|by rewrite Hc]. destruct Hr as (new & E1 & F1). simpl in *.
  assert (evolves (λ d, content <$> d !! p = Some b) w1 w2) as Hev.
  { replace w2 with (set_permissions q m w1).2 by (by rewrite E).
    destruct (decide (q = p)) as [->|Hne].
    - apply set_permissions_evolves_here. intros d x Hx Hd.
      by rewrite lookup_insert_eq, <- Hd, Hx.
    - eapply (set_permissions_evolves p q); [|done]. intros d d' Hdd Hd. by rewrite <- Hdd. }
  destruct (Hev Hres) as (H2 & new2 & E2 & F2).
  exists (new2 ++ new)%list. split; [by rewrite E2, E1, (assoc_L app)|].
  apply Forall_cons in F1 as [_ F1]. constructor; [by right|]. apply Forall_app. split; [|done].
  eapply Forall_impl; [done|]. intros d Hd. by right.
Qed.
