(* ===== verification/Lkg.v ===== *)
(** * Last-known-good cache: [src/lkg.rs]

    The encrypted on-disk cache of the last configuration bundle.  The bundle
    type and its protobuf encoding are declared elsewhere (class [BundleCodec]);
    encryption, key derivation, JSON, base64 and dates come through their
    interfaces. *)

From stdpp Require Import base list strings gmap.
From Stdlib Require Import ZArith Lia.
From Stdlib.Strings Require Byte.
From S2P Require Import Prelude Time Proto Text Serde Errors Crypto Fs.

Local Open Scope string_scope.
Local Open Scope rust_scope.

(** [ConfigBundle] and its [prost::Message] implementation. *)
Class BundleCodec := {
  ConfigBundle : Type;
  bundle_encode : ConfigBundle → option bytes;
  bundle_decode : bytes → option ConfigBundle
}.

(** Encoding into a growing buffer succeeds and is undone by decoding. *)
Class BundleLaws `{BundleCodec} : Prop := {
  bundle_decode_encode b : ∃ x, bundle_encode b = Some x ∧ bundle_decode x = Some b
}.

Definition FILE_VERSION : byte := Byte.x01.
Definition NONCE_LEN : nat := 12.
Definition HKDF_SALT : bytes := as_bytes "mcpg-lkg-cache-v1".
Definition HKDF_INFO : bytes := as_bytes "aes-256-gcm:lkg-bundle".
Definition NODE_SECRET_FILE : string := ".node-secret".
Definition NODE_SECRET_LEN : nat := 32.
Definition MACHINE_ID : Path := mkPath "/etc" "machine-id".

Record LkgEntry := { config_hash : string; bundle_proto : bytes; written_at : DateTime }.

Record LkgCache := { path : Path; state_dir : string }.

(** [LkgCache::new]. *)
Definition LkgCache_new (p : Path) : LkgCache := {| path := p; state_dir := parent p |}.

(** [LkgCache::in_state_dir]. *)
Definition in_state_dir (dir : string) : LkgCache :=
  {| path := join_path dir "lkg-config.bin"; state_dir := dir |}.

Section serde.
Context `{Base64, Rfc3339}.

(** [base64_bytes::serialize]. *)
Definition base64_bytes_serialize (v : bytes) : Value := Str (b64_encode v).

(** [base64_bytes::deserialize]. *)
Definition base64_bytes_deserialize (v : Value) : option bytes :=
  match v with Str s => b64_decode (as_bytes s) | _ => None end.

(** The derived [Serialize] of [LkgEntry]. *)
Definition LkgEntry_serialize (e : LkgEntry) : Value :=
  Obj [("config_hash", Str (config_hash e));
       ("bundle_proto", base64_bytes_serialize (bundle_proto e));
       ("written_at", Str (dt_print (written_at e)))].

(** The derived [Deserialize] of [LkgEntry]. *)
Definition LkgEntry_deserialize (v : Value) : option LkgEntry :=
  let field := struct_field 3 v in
  h ← required de_string (field 0%nat "config_hash");
  b ← required base64_bytes_deserialize (field 1%nat "bundle_proto");
  t ← required de_datetime (field 2%nat "written_at");
  Some {| config_hash := h; bundle_proto := b; written_at := t |}.
End serde.

Definition json_error : Error := from_cause (COther "invalid JSON").
Definition proto_error : Error := from_cause (COther "invalid protobuf").

Section lkg.
Context `{Json, Base64, Rfc3339, Aead, Hkdf, BundleCodec}.

(** [node_secret]: generating the fallback secret. *)
Definition generate_secret (state_dir : string) (p : Path) : IO bytes :=
  create_dir_all state_dir;!
  bytes ←! fill_bytes NODE_SECRET_LEN;
  write p bytes;!
  set_permissions p MODE_600;!
  ret bytes.

(** [node_secret]: the part after the machine id. *)
Definition fallback_secret (state_dir : string) : IO bytes :=
  let p := join_path state_dir NODE_SECRET_FILE in
  ex ←! exists_ p;
  if ex : bool then
    bytes ←! read p;
    if (length bytes =? NODE_SECRET_LEN)%nat then ret bytes
    else generate_secret state_dir p
  else generate_secret state_dir p.

(** [node_secret]. *)
Definition node_secret (state_dir : string) : IO bytes :=
  r ←! attempt (read_to_string MACHINE_ID);
  match r with
  | Ok s =>
      let s := trim s in
      if str_is_empty s then fallback_secret state_dir else ret (as_bytes s)
  | Err _ => fallback_secret state_dir
  end.

(** [derive_key]. *)
Definition derive_key (state_dir : string) : IO bytes :=
  secret ←! node_secret state_dir;
  lift_opt (hkdf_expand HKDF_SALT secret HKDF_INFO KEY_LEN) (anyhow "hkdf expand").

(** [encrypt]. *)
Definition encrypt (plaintext : bytes) (state_dir : string) : IO bytes :=
  key ←! derive_key state_dir;
  nonce ←! fill_bytes NONCE_LEN;
  ct ←! lift_opt (aes_encrypt (aes_new key) nonce plaintext [])
    (anyhow ("aes-gcm encrypt: " +:+ aead_error));
  ret (FILE_VERSION :: nonce ++ ct)%list.

(** [decrypt]. *)
Definition decrypt (sealed : bytes) (state_dir : string) : IO bytes :=
  match sealed with
  | [] => throw (anyhow "LKG file is empty")
  | ver :: rest =>
      if negb (bool_decide (ver = FILE_VERSION)) then
        throw (anyhow ("unsupported LKG file version: "
          +:+ to_string (Z.of_N (Byte.to_N ver))))
      else
        match split_first_chunk NONCE_LEN rest with
        | None => throw (anyhow "LKG file truncated")
        | Some (nonce, ct) =>
            key ←! derive_key state_dir;
            lift_opt (aes_decrypt (aes_new key) nonce ct [])
              (anyhow ("aes-gcm decrypt (corrupt or wrong key): " +:+ aead_error))
        end
  end.

(** [LkgCache::load]. *)
Definition load (c : LkgCache) : IO (option LkgEntry) :=
  ex ←! exists_ (path c);
  if negb ex then ret None else
  bytes ←! read (path c);
  plain ←! decrypt bytes (state_dir c);
  entry ←! lift_opt (json_parse plain ≫= LkgEntry_deserialize) json_error;
  ret (Some entry).

(** [LkgCache::load_bundle]. *)
Definition load_bundle (c : LkgCache) : IO (option (string * ConfigBundle)) :=
  e ←! load c;
  match e with
  | None => ret None
  | Some entry =>
      bundle ←! lift_opt (bundle_decode (bundle_proto entry)) proto_error;
      ret (Some (config_hash entry, bundle))
  end.

(** [LkgCache::save]: the bytes to store. *)
Definition seal_entry (c : LkgCache) (hash : string) (bundle : ConfigBundle) : IO bytes :=
  create_dir_all (parent (path c));!
  buf ←! lift_opt (bundle_encode bundle) proto_error;
  written ←! utc_now;
  let entry := {| config_hash := hash; bundle_proto := buf; written_at := written |} in
  let json := json_print (LkgEntry_serialize entry) in
  encrypt json (state_dir c).

(** [LkgCache::save]. *)
Definition save (c : LkgCache) (hash : string) (bundle : ConfigBundle) : IO () :=
  sealed ←! seal_entry c hash bundle;
  let tmp := with_extension "bin.tmp" (path c) in
  write tmp sealed;!
  rename tmp (path c);!
  attempt (set_permissions (path c) MODE_600);!
  ret tt.
End lkg.
