(* ===== verification/LkgFacts.v ===== *)
(** * The last-known-good cache: properties

    The node secret, sealing and opening, save and load without faults, and what a
    save leaves when calls fail or the process dies. *)

From stdpp Require Import base list strings gmap.
From Stdlib Require Import ZArith Lia.
From Stdlib.Strings Require Byte.
From S2P Require Import Prelude Time Proto Text Serde Concrete Errors Crypto Fs FsFacts Lkg.

Local Open Scope string_scope.
Local Open Scope rust_scope.

Definition secret_path (dir : string) : Path := join_path dir NODE_SECRET_FILE.

(** ** The node secret *)

(** The secret a disk already determines: the trimmed machine id, else a stored
    secret of the right length. *)
Definition stored_secret (dir : string) (d : Disk) : option bytes :=
  match d !! secret_path dir with
  | Some x => if (length (content x) =? NODE_SECRET_LEN)%nat then Some (content x) else None
  | None => None
  end.

Definition secret_of (dir : string) (d : Disk) : option bytes :=
  match d !! MACHINE_ID with
  | Some x =>
      if utf8_valid (content x) && negb (str_is_empty (trim (of_bytes (content x))))
      then Some (as_bytes (trim (of_bytes (content x))))
      else stored_secret dir d
  | None => stored_secret dir d
  end.

(** The secret of a disk depends on two files only. *)
Lemma secret_of_ext dir d d' :
  d !! MACHINE_ID = d' !! MACHINE_ID → d !! secret_path dir = d' !! secret_path dir →
  secret_of dir d = secret_of dir d'.
Proof. intros E1 E2. unfold secret_of, stored_secret. by rewrite E1, E2. Qed.

(** Without faults, [node_secret] reduces to the machine id or the fallback. *)
Lemma node_secret_machine_id dir w :
  calm w →
  node_secret dir w =
    match disk w !! MACHINE_ID with
    | Some x =>
        if utf8_valid (content x) && negb (str_is_empty (trim (of_bytes (content x))))
        then (Ok (as_bytes (trim (of_bytes (content x)))), w)
        else fallback_secret dir w
    | None => fallback_secret dir w
    end.
Proof.
  intros Hc. unfold node_secret, bind, attempt, read_to_string, bind.
  destruct (disk w !! MACHINE_ID) as [x|] eqn:E.
  - rewrite (read_calm _ _ x) by done. destruct (utf8_valid (content x)); simpl; [|done].
    by destruct (str_is_empty _).
  - by rewrite read_calm_none.
Qed.

(** What a call may change besides the node secret's own file. *)
Record quiet (dir : string) (w w' : World) : Prop := {
  q_calm : calm w';
  q_dirs : dirs w ⊆ dirs w';
  q_disk : ∀ q, q ≠ secret_path dir → disk w' !! q = disk w !! q
}.

Lemma quiet_refl dir w : calm w → quiet dir w w.
Proof. by split. Qed.

Lemma generate_secret_calm dir w :
  calm w →
  ∃ s w', generate_secret dir (secret_path dir) w = (Ok s, w') ∧ quiet dir w w' ∧
    stored_secret dir (disk w') = Some s.
Proof.
  intros Hc. unfold generate_secret.
  erewrite bind_run by (by apply create_dir_all_calm).
  set (w1 := set_dirs _ w). erewrite bind_run by reflexivity.
  set (w2 := set_drawn _ w1). set (s := _ <$> seq _ _).
  destruct (write_calm (secret_path dir) s w2) as (w3 & E3 & C3 & D3 & _ & _ & _ & K3);
    [done|simpl; set_solver|].
  erewrite bind_run by exact E3.
  destruct (set_permissions_calm (secret_path dir) MODE_600 w3 (mkFile s (mode_at (secret_path dir) w2)))
    as (w4 & E4 & C4 & D4 & _ & _ & K4); [done|by rewrite K3, lookup_insert_eq|].
  erewrite bind_run by exact E4.
  exists s, w4. split; [done|]. split; [split|].
  - done.
  - rewrite D4, D3. simpl. set_solver.
  - intros q Hq. rewrite K4, K3. by rewrite !lookup_insert_ne.
  - unfold stored_secret. rewrite K4, lookup_insert_eq. cbn [content].
    assert (length s = NODE_SECRET_LEN) as -> by (unfold s; by rewrite length_fmap, length_seq).
    done.
Qed.

(** A stored secret is read back, and nothing changes. *)
Lemma fallback_secret_stored dir w s :
  calm w → stored_secret dir (disk w) = Some s → fallback_secret dir w = (Ok s, w).
Proof.
  intros Hc. unfold stored_secret, fallback_secret, secret_path.
  destruct (disk w !! _) as [x|] eqn:E; [|done].
  erewrite bind_run by (by apply exists_calm). rewrite E. simpl.
  erewrite bind_run by (by apply read_calm).
  destruct (_ =? _)%nat; [|done]. by intros [= <-].
Qed.

Lemma fallback_secret_calm dir w :
  calm w →
  ∃ s w', fallback_secret dir w = (Ok s, w') ∧ quiet dir w w' ∧
    stored_secret dir (disk w') = Some s.
Proof.
  intros Hc. destruct (stored_secret dir (disk w)) as [s|] eqn:Es.
  { exists s, w. split; [by apply fallback_secret_stored|]. split; [by apply quiet_refl|done]. }
  unfold fallback_secret, stored_secret, secret_path in *.
  erewrite bind_run by (by apply exists_calm).
  destruct (disk w !! _) as [x|] eqn:E; simpl; [|by apply generate_secret_calm].
  erewrite bind_run by (by apply read_calm).
  destruct (_ =? _)%nat; [done|by apply generate_secret_calm].
Qed.

(** Without faults [node_secret] succeeds, and the disk it leaves determines the
    secret it returned. *)
Lemma node_secret_calm dir w :
  calm w →
  ∃ s w', node_secret dir w = (Ok s, w') ∧ quiet dir w w' ∧ secret_of dir (disk w') = Some s.
Proof.
  intros Hc. rewrite node_secret_machine_id by done.
  destruct (disk w !! MACHINE_ID) as [x|] eqn:E.
  - destruct (_ && _) eqn:Ev.
    + eexists _, w. split; [done|]. split; [by apply quiet_refl|].
      unfold secret_of. by rewrite E, Ev.
    + destruct (fallback_secret_calm dir w Hc) as (s & w' & Er & Q & Hs).
      exists s, w'. split; [done|]. split; [done|].
      unfold secret_of. rewrite (q_disk _ _ _ Q) by done. by rewrite E, Ev.
  - destruct (fallback_secret_calm dir w Hc) as (s & w' & Er & Q & Hs).
    exists s, w'. split; [done|]. split; [done|].
    unfold secret_of. rewrite (q_disk _ _ _ Q) by done. by rewrite E.
Qed.

(** A determined secret is the one returned, and nothing changes. *)
Lemma node_secret_determined dir w s :
  calm w → secret_of dir (disk w) = Some s → node_secret dir w = (Ok s, w).
Proof.
  intros Hc. rewrite node_secret_machine_id by done. unfold secret_of.
  destruct (disk w !! MACHINE_ID) as [x|]; [|by apply fallback_secret_stored].
  destruct (_ && _); [by intros [= <-]|by apply fallback_secret_stored].
Qed.

(** ** Sealing and opening *)

Section seal.
Context `{!Aead, !AeadLaws, !Hkdf, !HkdfLaws}.

(** [w''] determines the same node secret as [w']. *)
Definition same_secret (dir : string) (w' w'' : World) : Prop :=
  calm w'' ∧ secret_of dir (disk w'') = secret_of dir (disk w').

Lemma derive_key_calm dir w :
  calm w →
  ∃ key w', derive_key dir w = (Ok key, w') ∧ quiet dir w w' ∧
    ∀ w'', same_secret dir w' w'' → derive_key dir w'' = (Ok key, w'').
Proof.
  intros Hc. destruct (node_secret_calm dir w Hc) as (s & w' & E & Q & Hs).
  destruct (hkdf_expand_ok HKDF_SALT s HKDF_INFO KEY_LEN) as (key & Hk & _);
    [unfold KEY_LEN; lia|].
  exists key, w'. unfold derive_key. split_and!; [|done|].
  - erewrite bind_run by exact E. by apply lift_opt_some.
  - intros w'' [Hc'' Hs'']. rewrite Hs in Hs''.
    erewrite bind_run by (by apply node_secret_determined). by apply lift_opt_some.
Qed.

(** What [encrypt] seals, [decrypt] opens as long as the secret stays. *)
Lemma encrypt_calm dir m w :
  calm w → (Z.of_nat (length m) ≤ P_MAX)%Z →
  ∃ sealed w', encrypt m dir w = (Ok sealed, w') ∧ quiet dir w w' ∧
    ∀ w'', same_secret dir w' w'' → decrypt sealed dir w'' = (Ok m, w'').
Proof.
  intros Hc Hm. destruct (derive_key_calm dir w Hc) as (key & w1 & E1 & Q & Hkey).
  unfold encrypt. erewrite bind_run by exact E1. erewrite bind_run by reflexivity.
  set (w2 := set_drawn _ w1). set (nonce := _ <$> seq _ _).
  assert (length nonce = NONCE_LEN) as Hn by (unfold nonce; by rewrite length_fmap, length_seq).
  destruct (aes_encrypt_total (aes_new key) nonce m []) as [ct Hct]; [done|done|done|].
  erewrite bind_run by (by apply lift_opt_some).
  eexists _, w2. split; [done|]. split; [by destruct Q; split|].
  intros w'' Hs. cbn [decrypt]. rewrite bool_decide_true by done. cbn [negb].
  rewrite <- Hn, split_first_chunk_app.
  erewrite bind_run by (by apply Hkey). apply lift_opt_some. by apply aes_decrypt_encrypt.
Qed.
End seal.

(** ** The entry's JSON *)

Section entry.
Context `{!Base64, !Base64Laws, !Rfc3339, !Rfc3339Laws}.

Lemma LkgEntry_roundtrip e :
  dt_ok (written_at e) → LkgEntry_deserialize (LkgEntry_serialize e) = Some e.
Proof.
  intros Hd. unfold LkgEntry_deserialize, LkgEntry_serialize.
  simpl. rewrite b64_decode_encode. simpl. rewrite dt_parse_print by done. simpl. by destruct e.
Qed.

Lemma LkgEntry_value_ok e : value_ok (LkgEntry_serialize e) = true.
Proof. reflexivity. Qed.
End entry.

(** ** Saving and loading *)

Section save_load.
Context `{!Json, !JsonLaws, !Base64, !Base64Laws, !Rfc3339, !Rfc3339Laws}.
Context `{!Aead, !AeadLaws, !Hkdf, !HkdfLaws, !BundleCodec, !BundleLaws}.

(** The entry written at [t] fits the cipher's message limit. *)
Definition entry_fits (hash : string) (bundle : ConfigBundle) (t : DateTime) : Prop :=
  ∀ buf, bundle_encode bundle = Some buf →
    (Z.of_nat (length (json_print (LkgEntry_serialize
       {| config_hash := hash; bundle_proto := buf; written_at := t |}))) ≤ P_MAX)%Z.

(** The stored bytes hold the bundle, as long as the secret stays. *)
Definition opens_to (dir hash : string) (bundle : ConfigBundle) (w : World) (sealed : bytes) :=
  ∃ buf t, bundle_decode buf = Some bundle ∧ dt_ok t ∧
    ∀ w'', same_secret dir w w'' →
      decrypt sealed dir w'' = (Ok (json_print (LkgEntry_serialize
        {| config_hash := hash; bundle_proto := buf; written_at := t |})), w'').

Lemma seal_entry_calm dir hash bundle w :
  calm w → dt_ok (clock w (readings w)) → entry_fits hash bundle (clock w (readings w)) →
  ∃ sealed w', seal_entry (in_state_dir dir) hash bundle w = (Ok sealed, w') ∧
    quiet dir w w' ∧ dir ∈ dirs w' ∧ opens_to dir hash bundle w' sealed.
Proof.
  intros Hc Hclock Hfits. unfold seal_entry. simpl parent. simpl state_dir.
  erewrite bind_run by (by apply create_dir_all_calm).
  destruct (bundle_decode_encode bundle) as (buf & Eb & Db).
  erewrite bind_run by (by apply lift_opt_some).
  erewrite bind_run by reflexivity. set (w1 := set_readings _ _).
  destruct (encrypt_calm dir (json_print (LkgEntry_serialize {| config_hash := hash;
    bundle_proto := buf; written_at := clock w (readings w) |})) w1)
    as (sealed & w' & E & Q & Hdec); [done|by apply Hfits|].
  exists sealed, w'. split; [exact E|]. split_and!.
  - split; [apply (q_calm _ _ _ Q)| |apply (q_disk _ _ _ Q)].
    pose proof (q_dirs _ _ _ Q) as Hd. simpl in Hd. set_solver.
  - pose proof (q_dirs _ _ _ Q) as Hd. simpl in Hd. set_solver.
  - exists buf, (clock w (readings w)). auto.
Qed.

Lemma load_bundle_opened c hash buf t bundle sealed w :
  calm w → bundle_decode buf = Some bundle → dt_ok t →
  content <$> disk w !! path c = Some sealed →
  decrypt sealed (state_dir c) w = (Ok (json_print (LkgEntry_serialize
    {| config_hash := hash; bundle_proto := buf; written_at := t |})), w) →
  load_bundle c w = (Ok (Some (hash, bundle)), w).
Proof.
  intros Hc Hb Ht Hp Hdec. apply fmap_Some in Hp as (x & Hp & ->).
  set (e := {| config_hash := hash; bundle_proto := buf; written_at := t |}) in Hdec.
  assert (load c w = (Ok (Some e), w)) as Hload.
  { unfold load. erewrite bind_run by (by apply exists_calm).
    rewrite bool_decide_true by (by rewrite Hp). cbn [negb].
    erewrite bind_run by (by apply read_calm). erewrite bind_run by exact Hdec.
    erewrite bind_run; [reflexivity|]. apply lift_opt_some.
    rewrite json_parse_print by apply LkgEntry_value_ok. simpl.
    by apply LkgEntry_roundtrip. }
  unfold load_bundle. erewrite bind_run by exact Hload. cbv beta iota.
  erewrite bind_run by (by apply lift_opt_some). done.
Qed.

Lemma load_bundle_calm dir hash bundle w w1 sealed m :
  opens_to dir hash bundle w1 sealed → same_secret dir w1 w →
  disk w !! path (in_state_dir dir) = Some (mkFile sealed m) →
  load_bundle (in_state_dir dir) w = (Ok (Some (hash, bundle)), w).
Proof.
  intros (buf & t & Hb & Ht & Hdec) Hs Hp. pose proof (proj1 Hs) as Hc.
  eapply load_bundle_opened; [done..|by rewrite Hp|by apply Hdec].
Qed.

(** Without faults a save succeeds, and installs bytes that hold the bundle. *)
Lemma save_calm dir hash bundle w :
  calm w → dt_ok (clock w (readings w)) → entry_fits hash bundle (clock w (readings w)) →
  ∃ sealed w1 w', save (in_state_dir dir) hash bundle w = (Ok tt, w') ∧
    opens_to dir hash bundle w1 sealed ∧ same_secret dir w1 w' ∧
    disk w' !! path (in_state_dir dir) = Some (mkFile sealed MODE_600).
Proof.
  intros Hc Hclock Hfits.
  destruct (seal_entry_calm dir hash bundle w) as (sealed & w1 & E1 & Q & Hdir & Ho); [done..|].
  unfold save. erewrite bind_run by exact E1.
  set (p := path (in_state_dir dir)). set (tmp := with_extension "bin.tmp" p).
  assert (tmp = mkPath dir "lkg-config.bin.tmp") as Htmp by reflexivity.
  destruct (write_calm tmp sealed w1) as (w2 & E2 & C2 & D2 & _ & _ & _ & K2);
    [apply Q|by rewrite Htmp|].
  erewrite bind_run by exact E2.
  destruct (rename_calm tmp p w2 (mkFile sealed (mode_at tmp w1))) as (w3 & E3 & C3 & _ & K3);
    [done|by rewrite K2, lookup_insert_eq|].
  erewrite bind_run by exact E3.
  destruct (set_permissions_calm p MODE_600 w3 (mkFile sealed (mode_at tmp w1)))
    as (w4 & E4 & C4 & _ & _ & _ & K4); [done|by rewrite K3, lookup_insert_eq|].
  erewrite bind_run by (apply attempt_ok; exact E4).
  exists sealed, w1, w4. split_and!; [done|done| |by rewrite K4, lookup_insert_eq].
  split; [done|]. apply secret_of_ext; rewrite K4, K3, K2.
  - rewrite !lookup_insert_ne, lookup_delete_ne, lookup_insert_ne by done. done.
  - rewrite !lookup_insert_ne, lookup_delete_ne, lookup_insert_ne by done. done.
Qed.

(** C13: without I/O faults, saving a bundle always succeeds, the file is then
    private to its owner, and loading, also by a later process on the same disk,
    gives back exactly the hash and the bundle that were saved. *)
Theorem lkg_save_load_roundtrip dir hash bundle w :
  calm w → dt_ok (clock w (readings w)) → entry_fits hash bundle (clock w (readings w)) →
  ∃ w', save (in_state_dir dir) hash bundle w = (Ok tt, w') ∧
    mode <$> disk w' !! path (in_state_dir dir) = Some MODE_600 ∧
    ∀ w'', calm w'' → disk w'' = disk w' →
      load_bundle (in_state_dir dir) w'' = (Ok (Some (hash, bundle)), w'').
Proof.
  intros Hc Hclock Hfits.
  destruct (save_calm dir hash bundle w) as (sealed & w1 & w' & E & Ho & [Hc' Hs] & Hp); [done..|].
  exists w'. split; [done|]. split; [by rewrite Hp|]. intros w'' Hc'' Hd.
  eapply load_bundle_calm; [done| |by rewrite Hd]. split; [done|]. by rewrite Hd.
Qed.

(** ** What a save that meets faults has sealed *)

(** The node secret a save of [c] finds, or creates. *)
Definition secret_used (c : LkgCache) (w : World) : option bytes :=
  result_ok (node_secret (state_dir c) (utc_now (create_dir_all (parent (path c)) w).2).2).1.

(** [sealed] in the cache file is the saved entry: a later process that finds
    the node secret the save used loads exactly the hash and the bundle. *)
Definition holds_entry (c : LkgCache) (hash : string) (bundle : ConfigBundle) (w : World)
    (sealed : bytes) : Prop :=
  ∃ secret, secret_used c w = Some secret ∧
    ∀ w'', calm w'' → secret_of (state_dir c) (disk w'') = Some secret →
      content <$> disk w'' !! path c = Some sealed →
      load_bundle c w'' = (Ok (Some (hash, bundle)), w'').

Lemma fill_bytes_ok n w b w' : fill_bytes n w = (Ok b, w') → length b = n.
Proof. intros [= <- _]. by rewrite length_fmap, length_seq. Qed.

(** What was encrypted, whatever else failed, opens under the secret used. *)
Lemma encrypt_ok m dir w sealed w' :
  encrypt m dir w = (Ok sealed, w') →
  ∃ secret, result_ok (node_secret dir w).1 = Some secret ∧
    ∀ w'', calm w'' → secret_of dir (disk w'') = Some secret →
      decrypt sealed dir w'' = (Ok m, w'').
Proof.
  unfold encrypt, derive_key.
  intros (key & w2 & (secret & w1 & Es & [Hk ->]%lift_opt_ok)%bind_ok
    & (nonce & w3 & Hn%fill_bytes_ok & (ct & w4 & [Hct ->]%lift_opt_ok & [= <- _])%bind_ok)%bind_ok)%bind_ok.
  exists secret. split; [by rewrite Es|]. intros w'' Hc Hs.
  cbn [decrypt]. rewrite bool_decide_true by done. cbn [negb].
  rewrite <- Hn, split_first_chunk_app. unfold derive_key.
  erewrite bind_run; [apply lift_opt_some; by apply aes_decrypt_encrypt|].
  erewrite bind_run by (by apply node_secret_determined). by apply lift_opt_some.
Qed.

Lemma create_dir_all_clock d w :
  clock (create_dir_all d w).2 = clock w ∧ readings (create_dir_all d w).2 = readings w.
Proof. unfold create_dir_all, next_fault. by destruct (faults w) as [|[]]. Qed.

Lemma seal_entry_ok c hash bundle w sealed w' :
  dt_ok (clock w (readings w)) → seal_entry c hash bundle w = (Ok sealed, w') →
  holds_entry c hash bundle w sealed.
Proof.
  intros Ht. unfold seal_entry. destruct (create_dir_all_clock (parent (path c)) w) as [Kc Kr].
  intros ([] & w1 & E1 & (buf & w2 & [Hb ->]%lift_opt_ok & (t & w3 & [= <- <-] & E)%bind_ok)%bind_ok)%bind_ok.
  destruct (bundle_decode_encode bundle) as (? & Eb & Db). simplify_eq.
  rewrite E1 in Kc, Kr. cbn [snd] in Kc, Kr. rewrite Kc, Kr in E.
  destruct (encrypt_ok _ _ _ _ _ E) as (secret & Hs & Hdec).
  exists secret. split; [unfold secret_used; by rewrite E1; cbn [snd utc_now]; rewrite Kr|].
  intros w'' Hc Hsec Hp. eapply load_bundle_opened; [done..|by apply Hdec].
Qed.
End save_load.

(** ** Crashes and failures *)

Section crash.
Context `{!Json, !JsonLaws, !Base64, !Base64Laws, !Rfc3339, !Rfc3339Laws}.
Context `{!Aead, !AeadLaws, !Hkdf, !HkdfLaws, !BundleCodec, !BundleLaws}.

(** Finding or creating the node secret touches no file but its own. *)
Lemma node_secret_evolves p P dir w :
  stable p P → secret_path dir ≠ p → evolves P w (node_secret dir w).2.
Proof.
  intros Hst Hne.
  assert (∀ w, evolves P w (generate_secret dir (secret_path dir) w).2) as Hgen.
  { intros w0. unfold generate_secret. evolve.
    - by eapply write_evolves.
    - by eapply set_permissions_evolves. }
  assert (∀ w, evolves P w (fallback_secret dir w).2) as Hfb.
  { intros w0. unfold fallback_secret. evolve; apply Hgen. }
  unfold node_secret. evolve; apply Hfb.
Qed.

Lemma seal_entry_evolves c hash bundle P w :
  stable (path c) P → secret_path (state_dir c) ≠ path c →
  evolves P w (seal_entry c hash bundle w).2.
Proof.
  intros Hst Hne. unfold seal_entry, encrypt, derive_key. evolve.
  by eapply node_secret_evolves.
Qed.

(** When nothing was sealed, the cache file has not been touched; otherwise it is
    replaced in one step by what was sealed. *)
Lemma save_outcome c hash bundle w :
  secret_path (state_dir c) ≠ path c →
  match (seal_entry c hash bundle w).1 with
  | Ok sealed => replace_outcome (path c) sealed w (save c hash bundle w)
  | Err _ => (∃ e, (save c hash bundle w).1 = Err e) ∧
      evolves (unchanged (path c) (disk w !! path c)) w (save c hash bundle w).2
  end.
Proof.
  intros Hne. pose proof (seal_entry_evolves c hash bundle
    (unchanged (path c) (disk w !! path c)) w (unchanged_stable _ _) Hne) as Hseal.
  destruct (seal_entry c hash bundle w) as [[sealed|e] w1] eqn:E; cbn [fst snd] in *; cycle 1.
  { unfold save. erewrite bind_err by exact E. split; [by exists e|done]. }
  unfold save. set (tmp := with_extension "bin.tmp" (path c)).
  assert (tmp ≠ path c) as Htmp by (by apply with_extension_ne).
  apply replace_outcome_bind; [by rewrite E|]. intros ? w2 Eq. rewrite E in Eq. injection Eq as <- <-.
  apply replace_outcome_bind; [eapply write_evolves; eauto with cpc|].
  intros [] w2 [Hd _]%write_ok.
  change (replace_outcome (path c) sealed w2 (bind (λ _ : World, rename tmp (path c) w2)
    (λ _ : (), attempt (set_permissions (path c) MODE_600);! ret tt) w2)).
  apply replace_outcome_chmod, rename_outcome. by rewrite Hd, lookup_insert_eq.
Qed.

(** C12: whatever I/O call of a save fails, and whenever the process dies during
    it, the cache file is either exactly as before or holds the complete new
    entry, never a mixture; a save that reports an error has left it as before,
    and one that reports success has installed the new entry.  The new entry is
    the one that was to be saved: a process that later finds those bytes in the
    file, and the node secret the save used, loads exactly the hash and the
    bundle.  When no entry could be sealed, the save fails and no disk it passes
    through differs in the cache file. *)
Theorem lkg_save_crash_atomic c hash bundle w :
  secret_path (state_dir c) ≠ path c → dt_ok (clock w (readings w)) →
  ∃ new, past (save c hash bundle w).2 = (new ++ past w)%list ∧
    ((∃ sealed,
        Forall (λ d, d !! path c = disk w !! path c ∨ content <$> d !! path c = Some sealed)
          (disk (save c hash bundle w).2 :: new) ∧
        match (save c hash bundle w).1 with
        | Ok _ => content <$> disk (save c hash bundle w).2 !! path c = Some sealed
        | Err _ => disk (save c hash bundle w).2 !! path c = disk w !! path c
        end ∧
        ∃ secret, secret_used c w = Some secret ∧
          ∀ w'', calm w'' → secret_of (state_dir c) (disk w'') = Some secret →
            content <$> disk w'' !! path c = Some sealed →
            load_bundle c w'' = (Ok (Some (hash, bundle)), w'')) ∨
     (∃ e, (save c hash bundle w).1 = Err e) ∧
     Forall (λ d, d !! path c = disk w !! path c) (disk (save c hash bundle w).2 :: new)).
Proof.
  intros Hne Ht. pose proof (save_outcome c hash bundle w Hne) as Ho.
  destruct (seal_entry c hash bundle w) as [[sealed|e] w1] eqn:E; cbn [fst] in Ho.
  - destruct Ho as ((new & Ep & F) & Hr). exists new. split; [done|]. left. exists sealed.
    split_and!; [done..|]. by eapply seal_entry_ok.
  - destruct Ho as [He Hev]. destruct Hev as (Hd & new & Ep & F); [done|].
    exists new. split; [done|]. right. split; [done|]. by constructor.
Qed.
End crash.

(** ** Malformed files and the node secret *)

Section malformed.
Context `{!Json, !Base64, !Rfc3339, !Aead, !Hkdf, !BundleCodec}.

(** Loading never mistakes a malformed file for a cache: a missing file is no
    entry; an empty file, a file of another format version and a file cut before
    the end of the nonce are each reported with their own error; and a file that
    is well formed but does not decrypt is an error, not an absent entry. *)
Theorem lkg_load_malformed c w :
  calm w →
  (disk w !! path c = None → load c w = (Ok None, w)) ∧
  (∀ m, disk w !! path c = Some (mkFile [] m) → load c w = (Err (anyhow "LKG file is empty"), w)) ∧
  (∀ v r m, disk w !! path c = Some (mkFile (v :: r) m) → v ≠ FILE_VERSION →
     load c w = (Err (anyhow ("unsupported LKG file version: "
       +:+ to_string (Z.of_N (Byte.to_N v)))), w)) ∧
  (∀ r m, disk w !! path c = Some (mkFile (FILE_VERSION :: r) m) → (length r < NONCE_LEN)%nat →
     load c w = (Err (anyhow "LKG file truncated"), w)) ∧
  (∀ b m e w', disk w !! path c = Some (mkFile b m) →
     decrypt b (state_dir c) w = (Err e, w') → load c w = (Err e, w')).
Proof.
  intros Hc.
  assert (∀ x, disk w !! path c = Some x → load c w =
    (plain ←! decrypt (content x) (state_dir c);
     entry ←! lift_opt (json_parse plain ≫= LkgEntry_deserialize) json_error;
     ret (Some entry)) w) as Hl.
  { intros x Hx. unfold load. erewrite bind_run by (by apply exists_calm).
    rewrite bool_decide_true by (by rewrite Hx). cbn [negb].
    by erewrite bind_run by (by apply read_calm). }
  split_and!.
  - intros Hn. unfold load. erewrite bind_run by (by apply exists_calm).
    by rewrite bool_decide_false by (rewrite Hn; by intros [? ?]).
  - intros m Hx. by rewrite (Hl _ Hx).
  - intros v r m Hx Hv. rewrite (Hl _ Hx). apply bind_err. cbn [content decrypt].
    by rewrite bool_decide_false.
  - intros r m Hx Hr. rewrite (Hl _ Hx). apply bind_err. cbn [content decrypt].
    rewrite bool_decide_true by done. cbn [negb].
    by rewrite (proj2 (split_first_chunk_none NONCE_LEN r)).
  - intros b m e w' Hx He. rewrite (Hl _ Hx). by apply bind_err.
Qed.
End malformed.

(** The node secret is created once: without faults [node_secret] returns a
    secret, and every later call returns the same one and changes nothing, as
    long as the machine id and the secret's file stay; a secret that does not
    come from the machine id has 32 bytes. *)
Theorem node_secret_created_once dir w :
  calm w →
  ∃ s w', node_secret dir w = (Ok s, w') ∧
    (∀ q, q ≠ secret_path dir → disk w' !! q = disk w !! q) ∧
    (disk w !! MACHINE_ID = None → length s = NODE_SECRET_LEN) ∧
    ∀ w'', calm w'' → disk w'' !! MACHINE_ID = disk w' !! MACHINE_ID →
      disk w'' !! secret_path dir = disk w' !! secret_path dir →
      node_secret dir w'' = (Ok s, w'').
Proof.
  intros Hc. destruct (node_secret_calm dir w Hc) as (s & w' & E & Q & Hs).
  exists s, w'. split_and!; [done|apply Q| |].
  - intros Hm. unfold secret_of, stored_secret in Hs.
    rewrite (q_disk _ _ _ Q), Hm in Hs by done.
    destruct (disk w' !! secret_path dir) as [x|]; [|done].
    destruct (length (content x) =? NODE_SECRET_LEN)%nat eqn:El; [|done].
    injection Hs as <-. by apply Nat.eqb_eq.
  - intros w'' Hc'' E1 E2. apply node_secret_determined; [done|].
    by rewrite (secret_of_ext dir _ (disk w')).
Qed.

(** ** The properties on concrete values *)

(** A bundle that is a string. *)
#[export] Instance concrete_bundle : BundleCodec := {|
  ConfigBundle := string;
  bundle_encode b := Some (as_bytes b);
  bundle_decode x := Some (of_bytes x)
|}.

#[export] Instance concrete_bundle_laws : BundleLaws.
Proof. split. intros b. exists (as_bytes b). simpl. by rewrite of_bytes_as_bytes. Qed.

Definition demo_bundle : ConfigBundle := "bundle".

(** An empty disk on a machine without a machine id. *)
Definition empty_world : World := {|
  disk := ∅; dirs := ∅; new_mode := 420; faults := []; entropy := λ _, Byte.x05; drawn := 0;
  clock := λ _, mkDateTime 1700000000 0; readings := 0; past := []
|}.

(** The same machine, whose seventh I/O call, the write of the temporary
    file, is torn after two bytes. *)
Definition torn_world : World := set_faults (replicate 6 NoFault ++ [FailTorn 2])%list empty_world.

Lemma lkg_save_load_roundtrip_witness :
  ∃ w', save (in_state_dir "/var/lib/mcpg") "abc" demo_bundle empty_world = (Ok tt, w') ∧
    ∀ w'', calm w'' → disk w'' = disk w' →
      load_bundle (in_state_dir "/var/lib/mcpg") w'' = (Ok (Some ("abc", demo_bundle)), w'').
Proof.
  assert (dt_ok (clock empty_world (readings empty_world))) as Ht
    by (vm_compute; intuition discriminate).
  assert (entry_fits "abc" demo_bundle (clock empty_world (readings empty_world))) as Hf.
  { intros buf [= <-]. vm_compute. discriminate. }
  destruct (lkg_save_load_roundtrip "/var/lib/mcpg" "abc" demo_bundle empty_world eq_refl Ht Hf)
    as (w' & E & _ & L).
  exists w'. split; [exact E|exact L].
Defined.

(** On the machine with the torn write the entry is sealed, and no later process
    can find anything but the old file. *)
Lemma lkg_save_crash_atomic_witness :
  ∃ new,
    past (save (in_state_dir "/s") "abc" demo_bundle torn_world).2 = (new ++ [])%list ∧
    ((∃ sealed,
        Forall (λ d, d !! mkPath "/s" "lkg-config.bin" = None ∨
                     content <$> d !! mkPath "/s" "lkg-config.bin" = Some sealed) new ∧
        ∃ secret, secret_used (in_state_dir "/s") torn_world = Some secret ∧
          ∀ w'', calm w'' → secret_of "/s" (disk w'') = Some secret →
            content <$> disk w'' !! mkPath "/s" "lkg-config.bin" = Some sealed →
            load_bundle (in_state_dir "/s") w'' = (Ok (Some ("abc", demo_bundle)), w'')) ∨
     Forall (λ d, d !! mkPath "/s" "lkg-config.bin" = None) new).
Proof.
  assert (secret_path (state_dir (in_state_dir "/s")) ≠ path (in_state_dir "/s")) as Hne
    by discriminate.
  assert (dt_ok (clock torn_world (readings torn_world))) as Ht
    by (vm_compute; intuition discriminate).
  destruct (lkg_save_crash_atomic (in_state_dir "/s") "abc" demo_bundle torn_world Hne Ht)
    as (new & E & [(sealed & F & _ & L)|[_ F]]); exists new; (split; [exact E|]);
    apply Forall_cons in F as [_ F]; [left; exists sealed; split; [exact F|exact L]|right; exact F].
Defined.

Lemma lkg_load_malformed_witness :
  load (in_state_dir "/s") empty_world = (Ok None, empty_world).
Proof. apply (lkg_load_malformed (in_state_dir "/s") empty_world eq_refl). reflexivity. Defined.

Lemma node_secret_created_once_witness :
  ∃ s w', node_secret "/s" empty_world = (Ok s, w') ∧ length s = NODE_SECRET_LEN.
Proof.
  destruct (node_secret_created_once "/s" empty_world eq_refl) as (s & w' & E & _ & L & _).
  exists s, w'. split; [exact E|]. apply L. reflexivity.
Defined.
