(* ===== verification/License.v ===== *)
(** * Licence delivery cache: [src/license_delivery.rs]

    The latest licence the control plane delivered, kept on disk for restarts
    while it is unreachable. *)

From stdpp Require Import base list strings gmap.
From Stdlib Require Import ZArith Lia.
From Stdlib.Strings Require Byte.
From S2P Require Import Prelude Time Proto Text Serde Concrete Errors Fs FsFacts.

Local Open Scope string_scope.
Local Open Scope rust_scope.

Record LicenseDelivery := {
  license_jwt : string;
  org_slug : string;
  refresh_failing : bool;
  delivery_proof : string;
  channel_nonce : string;
  instance_uid : string
}.

#[export] Instance LicenseDelivery_eq_dec : EqDecision LicenseDelivery.
Proof. solve_decision. Defined.

Definition CACHE_FILE : string := "platform-license.json".

(** [cache_path]. *)
Definition cache_path (state_dir : string) : Path := join_path state_dir CACHE_FILE.

(** The derived [Serialize] of [LicenseDelivery]. *)
Definition LicenseDelivery_serialize (d : LicenseDelivery) : Value :=
  Obj [("license_jwt", Str (license_jwt d));
       ("org_slug", Str (org_slug d));
       ("refresh_failing", Bool (refresh_failing d));
       ("delivery_proof", Str (delivery_proof d));
       ("channel_nonce", Str (channel_nonce d));
       ("instance_uid", Str (instance_uid d))].

(** The derived [Deserialize]: the last four fields default when absent. *)
Definition LicenseDelivery_deserialize (v : Value) : option LicenseDelivery :=
  let field := struct_field 6 v in
  jwt ← required de_string (field 0%nat "license_jwt");
  org ← required de_string (field 1%nat "org_slug");
  rf ← defaulted false de_bool (field 2%nat "refresh_failing");
  proof ← defaulted "" de_string (field 3%nat "delivery_proof");
  nonce ← defaulted "" de_string (field 4%nat "channel_nonce");
  uid ← defaulted "" de_string (field 5%nat "instance_uid");
  Some {| license_jwt := jwt; org_slug := org; refresh_failing := rf;
          delivery_proof := proof; channel_nonce := nonce; instance_uid := uid |}.

Section license.
Context `{Json}.

(** [load_cached]: any failure is no delivery. *)
Definition load_cached (state_dir : string) : IO (option LicenseDelivery) :=
  r ←! attempt (read (cache_path state_dir));
  match r with
  | Err _ => ret None
  | Ok bytes => ret (json_parse bytes ≫= LicenseDelivery_deserialize)
  end.

(** [save_cached]. *)
Definition save_cached (state_dir : string) (delivery : LicenseDelivery) : IO () :=
  create_dir_all state_dir;!
  let path := cache_path state_dir in
  let tmp := with_extension "json.tmp" path in
  write tmp (json_print (LicenseDelivery_serialize delivery));!
  set_permissions tmp MODE_600;!
  rename tmp path.
End license.

(** ** Lemmas *)

Lemma LicenseDelivery_roundtrip d :
  LicenseDelivery_deserialize (LicenseDelivery_serialize d) = Some d.
Proof. by destruct d. Qed.

Section license_lemmas.
Context `{!Json}.

Lemma save_cached_outcome dir d w :
  replace_outcome (cache_path dir) (json_print (LicenseDelivery_serialize d)) w
    (save_cached dir d w).
Proof.
  unfold save_cached. set (tmp := with_extension "json.tmp" (cache_path dir)).
  assert (tmp ≠ cache_path dir) as Hne by (by apply with_extension_ne).
  apply replace_outcome_bind; [evolve|]. intros [] w1 _. cbv zeta.
  apply replace_outcome_bind; [eapply write_evolves; eauto with cpc|].
  intros [] w2 [Hd2 _]%write_ok.
  apply replace_outcome_bind; [eapply set_permissions_evolves; eauto with cpc|].
  intros [] w3 (x & Hx & Hd3 & _)%set_permissions_ok.
  apply rename_outcome. rewrite Hd3, lookup_insert_eq. simpl.
  rewrite Hd2, lookup_insert_eq in Hx. by injection Hx as <-.
Qed.

(** The file at the cache path, whenever the code puts one there, is private. *)
Definition private_at (p : Path) (old : option File) (d : Disk) : Prop :=
  d !! p = old ∨ mode <$> d !! p = Some MODE_600.

Lemma private_at_stable p old : stable p (private_at p old).
Proof. intros d d' E [Hd|Hd]; [left|right]; by rewrite <- E. Qed.

Lemma save_cached_private dir d w :
  evolves (private_at (cache_path dir) (disk w !! cache_path dir)) w (save_cached dir d w).2.
Proof.
  unfold save_cached. set (tmp := with_extension "json.tmp" (cache_path dir)).
  assert (tmp ≠ cache_path dir) as Hne by (by apply with_extension_ne).
  evolve.
  - eapply write_evolves; [apply private_at_stable|done].
  - eapply set_permissions_evolves; [apply private_at_stable|done].
  - apply rename_evolves. intros x d' Hx Hp. right. rewrite Hp.
    match goal with Hs : set_permissions _ _ _ = (Ok ?u, _) |- _ => destruct u;
      apply set_permissions_ok in Hs as (y & _ & Hd & _) end.
    rewrite Hd, lookup_insert_eq in Hx. by injection Hx as <-.
Qed.

(** Without faults a save succeeds. *)
Lemma save_cached_calm dir d w :
  calm w → ∃ w', save_cached dir d w = (Ok tt, w') ∧ calm w'.
Proof.
  intros Hc. unfold save_cached. erewrite bind_run by (by apply create_dir_all_calm).
  set (w1 := set_dirs _ w). cbv zeta. set (b := json_print _).
  set (tmp := with_extension "json.tmp" (cache_path dir)).
  destruct (write_calm tmp b w1) as (w2 & E2 & C2 & _ & _ & _ & _ & K2);
    [done|simpl; set_solver|].
  erewrite bind_run by exact E2.
  destruct (set_permissions_calm tmp MODE_600 w2 (mkFile b (mode_at tmp w1)))
    as (w3 & E3 & C3 & _ & _ & _ & K3); [done|by rewrite K2, lookup_insert_eq|].
  erewrite bind_run by exact E3.
  destruct (rename_calm tmp (cache_path dir) w3 (mkFile b MODE_600)) as (w4 & E4 & C4 & _);
    [done|by rewrite K3, lookup_insert_eq|]. eauto.
Qed.
End license_lemmas.

Section license_load.
Context `{!Json, !JsonLaws}.

(** What was kept is loaded. *)
Lemma load_cached_saved dir d w w' w'' :
  save_cached dir d w = (Ok tt, w') → calm w'' → disk w'' = disk w' →
  load_cached dir w'' = (Ok (Some d), w'').
Proof.
  intros E Hc Hd. pose proof (save_cached_outcome dir d w) as [_ Hr].
  rewrite E in Hr. cbn [fst snd] in Hr. rewrite <- Hd in Hr.
  destruct (disk w'' !! cache_path dir) as [x|] eqn:Ex; [|done]. injection Hr as Hr.
  unfold load_cached. erewrite bind_run by (apply attempt_ok; by apply read_calm).
  rewrite Hr, json_parse_print by reflexivity. simpl. by rewrite LicenseDelivery_roundtrip.
Qed.
End license_load.

(** ** Main properties *)

Section license_properties.
Context `{!Json, !JsonLaws}.

(** Without I/O faults a delivery is always kept; and a delivery that was kept
    successfully, faults or not, is the one loaded afterwards, with every field,
    the proof, nonce and uid included. *)
Theorem license_cache_roundtrip dir d w :
  (calm w → ∃ w', save_cached dir d w = (Ok tt, w') ∧ calm w') ∧
  (∀ w' w'', save_cached dir d w = (Ok tt, w') → calm w'' → disk w'' = disk w' →
     load_cached dir w'' = (Ok (Some d), w'')).
Proof.
  split; [apply save_cached_calm|]. intros w' w''. apply load_cached_saved.
Qed.

(** C29: whatever I/O call fails and whenever the process dies while a licence
    delivery is being kept, the cache file is the previous one or the complete new
    one, and the new one is never readable by others; an error leaves the previous
    one in place and success has installed the new one. *)
Theorem license_cache_crash_atomic dir d w :
  let p := cache_path dir in
  let new_content := json_print (LicenseDelivery_serialize d) in
  ∃ new,
    past (save_cached dir d w).2 = (new ++ past w)%list ∧
    Forall (λ k, k !! p = disk w !! p ∨ k !! p = Some (mkFile new_content MODE_600))
      (disk (save_cached dir d w).2 :: new) ∧
    match (save_cached dir d w).1 with
    | Ok _ => content <$> disk (save_cached dir d w).2 !! p = Some new_content
    | Err _ => disk (save_cached dir d w).2 !! p = disk w !! p
    end.
Proof.
  intros p new_content.
  destruct (save_cached_outcome dir d w) as [(new & E & F) Hr].
  destruct (save_cached_private dir d w) as (Hpd & new' & E' & F'); [by left|].
  exists new. split; [done|]. split; [|done].
  rewrite E in E'. apply app_inv_tail in E' as <-.
  assert (Forall (private_at p (disk w !! p)) (disk (save_cached dir d w).2 :: new)) as F2
    by (by constructor).
  apply Forall_forall. intros k Hk. rewrite Forall_forall in F, F2.
  destruct (F k Hk) as [H1|H1]; [by left|]. destruct (F2 k Hk) as [H2|H2]; [by left|].
  right. fold p in H1. destruct (k !! p) as [[c m]|]; simplify_eq/=. done.
Qed.
End license_properties.

(** ** The properties on concrete values *)

Definition demo_delivery : LicenseDelivery :=
  {| license_jwt := "jwt"; org_slug := "acme"; refresh_failing := false;
     delivery_proof := "proof"; channel_nonce := "n1"; instance_uid := "gw-1" |}.

(** An empty disk. *)
Definition license_world : World := {|
  disk := ∅; dirs := ∅; new_mode := 420; faults := []; entropy := λ _, Byte.x00; drawn := 0;
  clock := λ _, mkDateTime 0 0; readings := 0; past := []
|}.

Lemma license_cache_roundtrip_witness :
  ∃ w', save_cached "/s" demo_delivery license_world = (Ok tt, w') ∧
    load_cached "/s" w' = (Ok (Some demo_delivery), w').
Proof.
  destruct (license_cache_roundtrip "/s" demo_delivery license_world) as [Hs Hl].
  destruct (Hs eq_refl) as (w' & E & Hc).
  exists w'. split; [exact E|]. exact (Hl w' w' E Hc eq_refl).
Defined.
