(* ===== verification/Creds.v ===== *)
(** * Stored credentials: [src/agent.rs]

    The credentials file [agent-creds.json]: its format, reading and discarding
    it, the in-place update after a credential rotation, and the payload key
    recovered from it. *)

From stdpp Require Import base list strings gmap.
From Stdlib Require Import ZArith Lia.
From Stdlib.Strings Require Byte.
From S2P Require Import Prelude Time Proto Text Serde Concrete Errors Crypto Dek Fs FsFacts.

Local Open Scope string_scope.
Local Open Scope rust_scope.

Record StoredCreds := {
  instance_id : string;
  instance_jwt : string;
  cp_endpoint : string;
  issued_at : DateTime;
  client_cert_pem : string;
  client_key_pem : string;
  ca_chain_pem : string;
  payload_dek_b64 : string;
  payload_dek_version : Z
}.

#[export] Instance StoredCreds_eq_dec : EqDecision StoredCreds.
Proof. solve_decision. Defined.

Definition creds_path (state_dir : string) : Path := join_path state_dir "agent-creds.json".

Section serde.
Context `{Rfc3339}.

(** The derived [Serialize] of [StoredCreds]. *)
Definition StoredCreds_serialize (c : StoredCreds) : Value :=
  Obj [("instance_id", Str (instance_id c));
       ("instance_jwt", Str (instance_jwt c));
       ("cp_endpoint", Str (cp_endpoint c));
       ("issued_at", Str (dt_print (issued_at c)));
       ("client_cert_pem", Str (client_cert_pem c));
       ("client_key_pem", Str (client_key_pem c));
       ("ca_chain_pem", Str (ca_chain_pem c));
       ("payload_dek_b64", Str (payload_dek_b64 c));
       ("payload_dek_version", Num (PosInt (payload_dek_version c)))].

(** The derived [Deserialize]: the last five fields default when absent. *)
Definition StoredCreds_deserialize (v : Value) : option StoredCreds :=
  let field := struct_field 9 v in
  id ← required de_string (field 0%nat "instance_id");
  jwt ← required de_string (field 1%nat "instance_jwt");
  ep ← required de_string (field 2%nat "cp_endpoint");
  at_ ← required de_datetime (field 3%nat "issued_at");
  cert ← defaulted "" de_string (field 4%nat "client_cert_pem");
  key ← defaulted "" de_string (field 5%nat "client_key_pem");
  ca ← defaulted "" de_string (field 6%nat "ca_chain_pem");
  dek ← defaulted "" de_string (field 7%nat "payload_dek_b64");
  ver ← defaulted 0%Z de_u32 (field 8%nat "payload_dek_version");
  Some {| instance_id := id; instance_jwt := jwt; cp_endpoint := ep; issued_at := at_;
          client_cert_pem := cert; client_key_pem := key; ca_chain_pem := ca;
          payload_dek_b64 := dek; payload_dek_version := ver |}.
End serde.

Definition creds_json_error : Error := from_cause (COther "invalid JSON").

Section creds.
Context `{Json, Base64, Rfc3339}.

(** [read_stored_creds]. *)
Definition read_stored_creds (state_dir : string) : IO StoredCreds :=
  bytes ←! read (creds_path state_dir);
  lift_opt (json_parse bytes ≫= StoredCreds_deserialize) creds_json_error.

(** [discard_stored_creds]: best effort, every error is only logged. *)
Definition discard_stored_creds (state_dir : string) : IO () :=
  attempt (remove_file (creds_path state_dir));! ret tt.

(** The fields [persist_rotated_creds] replaces. *)
Definition rotate_creds (c : StoredCreds) (new_jwt new_cert new_key : string)
    (new_dek : bytes) (new_dek_version : Z) (now : DateTime) : StoredCreds :=
  let with_dek := negb (vec_is_empty new_dek) && negb (new_dek_version =? 0)%Z in
  {| instance_id := instance_id c;
     instance_jwt := new_jwt;
     cp_endpoint := cp_endpoint c;
     issued_at := now;
     client_cert_pem := if str_is_empty new_cert then client_cert_pem c else new_cert;
     client_key_pem := if str_is_empty new_key then client_key_pem c else new_key;
     ca_chain_pem := ca_chain_pem c;
     payload_dek_b64 := if with_dek then b64_encode new_dek else payload_dek_b64 c;
     payload_dek_version := if with_dek then new_dek_version else payload_dek_version c |}.

(** [persist_rotated_creds]. *)
Definition persist_rotated_creds (state_dir new_jwt new_cert new_key : string)
    (new_dek : bytes) (new_dek_version : Z) : IO () :=
  let path := creds_path state_dir in
  bytes ←! read path;
  creds ←! lift_opt (json_parse bytes ≫= StoredCreds_deserialize) creds_json_error;
  now ←! utc_now;
  let creds := rotate_creds creds new_jwt new_cert new_key new_dek new_dek_version now in
  let new_bytes := json_print_pretty (StoredCreds_serialize creds) in
  let tmp := with_extension "json.tmp" path in
  write tmp new_bytes;!
  attempt (set_permissions tmp MODE_600);!
  rename tmp path;!
  ret tt.

(** [install_payload_dek_from_creds]: the new value of the DEK slot. *)
Definition install_payload_dek_from_creds (creds : StoredCreds) (slot : option DekHandle)
    : option DekHandle :=
  if str_is_empty (payload_dek_b64 creds) then slot
  else match b64_decode (as_bytes (payload_dek_b64 creds)) with
       | None => slot
       | Some raw =>
           match from_proto raw (payload_dek_version creds) with
           | Ok (Some h) => Some h
           | Ok None => slot
           | Err _ => slot
           end
       end.

(** The DEK part of the rotation handler in [read_inbound]. *)
Definition rotate_payload_dek (dek : bytes) (version : Z) (slot : option DekHandle)
    : option DekHandle :=
  if vec_is_empty dek then slot
  else match from_proto dek version with
       | Ok (Some h) => Some h
       | Ok None => slot
       | Err _ => slot
       end.
End creds.

(** ** Lemmas *)

Record creds_wf (c : StoredCreds) : Prop := {
  cw_issued : dt_ok (issued_at c);
  cw_version : in_u32 (payload_dek_version c)
}.

Section creds_lemmas.
Context `{!Json, !JsonLaws, !Base64, !Base64Laws, !Rfc3339, !Rfc3339Laws}.

Lemma StoredCreds_roundtrip c :
  creds_wf c → StoredCreds_deserialize (StoredCreds_serialize c) = Some c.
Proof.
  intros [Hd [Hv1 Hv2]]. unfold StoredCreds_deserialize, StoredCreds_serialize. simpl.
  rewrite dt_parse_print by done. simpl.
  rewrite (proj2 (Z.leb_le _ _) Hv1), (proj2 (Z.leb_le _ _) Hv2). simpl. by destruct c.
Qed.

Lemma StoredCreds_value_ok c : creds_wf c → value_ok (StoredCreds_serialize c) = true.
Proof.
  intros [_ [Hv1 Hv2]]. cbn [StoredCreds_serialize value_ok]. apply andb_true_iff. split.
  - by apply bool_decide_true; apply (bool_decide_eq_true_1 _).
  - simpl. rewrite (proj2 (Z.leb_le _ _) Hv1).
    rewrite (proj2 (Z.leb_le (payload_dek_version c) U64_MAX)); [done|].
    unfold U32_MAX, U64_MAX in *. lia.
Qed.

(** A successful [read_stored_creds] yields a version of the [u32] range. *)
Lemma deserialize_version_range v c :
  StoredCreds_deserialize v = Some c → in_u32 (payload_dek_version c).
Proof.
  unfold StoredCreds_deserialize. cbv zeta. intros Hc.
  repeat (apply bind_Some in Hc as (? & ? & Hc)). injection Hc as <-. simpl.
  match goal with Hd : defaulted 0%Z _ _ = Some ?n |- in_u32 ?n => revert Hd end.
  unfold defaulted, de_u32. destruct (struct_field 9 v 8 "payload_dek_version") as [[[| |num| | |]|]|]; try done.
  - destruct num; [|done|done]. destruct (_ && _)%Z eqn:E; [|done]. intros [= <-].
    apply andb_true_iff in E as [?%Z.leb_le ?%Z.leb_le]. done.
  - intros [= <-]. unfold in_u32, U32_MAX. lia.
Qed.

Lemma rotate_creds_wf c jwt cert key dek ver now :
  creds_wf c → in_u32 ver → dt_ok now → creds_wf (rotate_creds c jwt cert key dek ver now).
Proof. intros [_ ?] ? ?. split; simpl; [done|]. by destruct (_ && _). Qed.

(** Installing a payload key the client itself encoded gives the same handle as
    the key itself. *)
Lemma install_encoded c dek slot :
  dek ≠ [] → payload_dek_b64 c = b64_encode dek →
  install_payload_dek_from_creds c slot =
    match from_proto dek (payload_dek_version c) with Ok (Some h) => Some h | _ => slot end.
Proof.
  intros Hne Hb. unfold install_payload_dek_from_creds. rewrite Hb.
  rewrite (proj2 (str_is_empty_false _)) by (by apply b64_encode_nonempty).
  rewrite b64_decode_encode. by destruct (from_proto _ _) as [[]|].
Qed.
End creds_lemmas.

(** Replacing the file, given the credentials it held. *)
Section rotation.
Context `{!Json, !Base64, !Rfc3339}.

(** The credentials on a disk, as [read_stored_creds] sees them. *)
Definition creds_on (dir : string) (d : Disk) : option StoredCreds :=
  x ← d !! creds_path dir;
  json_parse (content x) ≫= StoredCreds_deserialize.

Lemma read_stored_creds_calm dir w :
  calm w →
  (read_stored_creds dir w).2 = w ∧
  result_ok (read_stored_creds dir w).1 = creds_on dir (disk w).
Proof.
  intros Hc. unfold read_stored_creds, creds_on, bind.
  destruct (disk w !! creds_path dir) as [x|] eqn:E.
  - rewrite (read_calm _ _ x) by done. unfold lift_opt, lift. simpl.
    by destruct (json_parse _ ≫= _).
  - rewrite read_calm_none by done. done.
Qed.

(** The file after a rotation read at [now]. *)
Definition rotated_bytes (c : StoredCreds) (jwt cert key : string) (dek : bytes) (ver : Z)
    (now : DateTime) : bytes :=
  json_print_pretty (StoredCreds_serialize (rotate_creds c jwt cert key dek ver now)).

Lemma persist_outcome dir jwt cert key dek ver w :
  ∃ b,
    (∀ c, creds_on dir (disk w) = Some c →
       b = rotated_bytes c jwt cert key dek ver (clock w (readings w))) ∧
    (∀ r, (persist_rotated_creds dir jwt cert key dek ver w).1 = Ok r →
       is_Some (creds_on dir (disk w))) ∧
    replace_outcome (creds_path dir) b w (persist_rotated_creds dir jwt cert key dek ver w).
Proof.
  exists match creds_on dir (disk w) with
         | Some c => rotated_bytes c jwt cert key dek ver (clock w (readings w))
         | None => []
         end.
  assert (∀ b w1 c w2, read (creds_path dir) w = (Ok b, w1) →
    lift_opt (json_parse b ≫= StoredCreds_deserialize) creds_json_error w1 = (Ok c, w2) →
    creds_on dir (disk w) = Some c ∧ clock w2 = clock w ∧ readings w2 = readings w) as Hparse.
  { intros b w1 c w2 Hr [Hc ->]%lift_opt_ok. pose proof (read_clock (creds_path dir) w) as Hk.
    rewrite Hr in Hk. apply read_ok in Hr as (_ & _ & m & Hx).
    unfold creds_on. by rewrite Hx. }
  split_and!; [by intros c -> | | ]; unfold persist_rotated_creds.
  - intros r Hr. destruct (bind _ _ w) as [r' w'] eqn:E. simpl in Hr. subst r'.
    apply bind_ok in E as (b & w1 & Hread & E). apply bind_ok in E as (c & w2 & Hc & _).
    destruct (Hparse _ _ _ _ Hread Hc) as [-> _]. done.
  - set (tmp := with_extension "json.tmp" (creds_path dir)).
    assert (tmp ≠ creds_path dir) as Hne by (by apply with_extension_ne).
    apply replace_outcome_bind; [evolve|]. intros b w1 Hread.
    apply replace_outcome_bind; [evolve|]. intros c w2 Hc.
    destruct (Hparse _ _ _ _ Hread Hc) as (-> & <- & <-).
    apply replace_outcome_bind; [evolve|]. intros now w3 [= <- <-]. cbv zeta.
    apply replace_outcome_bind; [eapply write_evolves; eauto with cpc|].
    intros [] w4 [Hd4 _]%write_ok.
    apply replace_outcome_bind;
      [apply evolves_attempt; eapply set_permissions_evolves; eauto with cpc|].
    intros r w5 Hch. apply (proj1 (attempt_ok _ _ _ _)) in Hch. pose proof (set_permissions_content tmp tmp MODE_600 w4) as Hk.
    rewrite Hch in Hk. simpl in Hk. rewrite Hd4, lookup_insert_eq in Hk.
    pose proof (rename_outcome (creds_path dir) tmp _ w5 Hk) as Ho.
    unfold bind, ret. by destruct (rename _ _ w5) as [[[]|e] w6].
Qed.

(** Without faults, and with a readable file in an existing directory, persisting
    succeeds. *)
Lemma persist_calm dir jwt cert key dek ver w c :
  calm w → dir ∈ dirs w → creds_on dir (disk w) = Some c →
  ∃ w', persist_rotated_creds dir jwt cert key dek ver w = (Ok tt, w') ∧ calm w'.
Proof.
  intros Hc Hdir Hon. unfold creds_on in Hon. apply bind_Some in Hon as (x & Hx & Hon).
  unfold persist_rotated_creds. erewrite bind_run by (by apply read_calm).
  erewrite bind_run by (by apply lift_opt_some). erewrite bind_run by reflexivity.
  set (w1 := set_readings _ w). cbv zeta. set (b := json_print_pretty _).
  set (tmp := with_extension "json.tmp" (creds_path dir)).
  destruct (write_calm tmp b w1) as (w2 & E2 & C2 & _ & _ & _ & _ & K2); [done|done|].
  erewrite bind_run by exact E2.
  destruct (set_permissions_calm tmp MODE_600 w2 (mkFile b (mode_at tmp w1)))
    as (w3 & E3 & C3 & _ & _ & _ & K3); [done|by rewrite K2, lookup_insert_eq|].
  erewrite bind_run by (apply attempt_ok; exact E3).
  destruct (rename_calm tmp (creds_path dir) w3 (mkFile b MODE_600)) as (w4 & E4 & C4 & _);
    [done|by rewrite K3, lookup_insert_eq|].
  erewrite bind_run by exact E4. by exists w4.
Qed.
End rotation.

(** ** Main properties *)

Section creds_properties.
Context `{!Json, !JsonLaws, !Base64, !Base64Laws, !Rfc3339, !Rfc3339Laws}.

Lemma persist_ok dir jwt cert key dek ver w w' c :
  persist_rotated_creds dir jwt cert key dek ver w = (Ok tt, w') →
  creds_on dir (disk w) = Some c → in_u32 ver → dt_ok (clock w (readings w)) →
  creds_on dir (disk w') = Some (rotate_creds c jwt cert key dek ver (clock w (readings w))).
Proof.
  intros E Hc Hver Hnow.
  destruct (persist_outcome dir jwt cert key dek ver w) as (b & Hb & _ & [_ Hr]).
  rewrite E in Hr. simpl in Hr. specialize (Hb c Hc).
  set (c' := rotate_creds c jwt cert key dek ver (clock w (readings w))) in *.
  assert (creds_wf c') as Hwf.
  { split; [done|]. simpl. destruct (_ && _); [done|].
    unfold creds_on in Hc. apply bind_Some in Hc as (x & _ & Hc).
    apply bind_Some in Hc as (v & _ & Hc). by eapply deserialize_version_range. }
  unfold creds_on. destruct (disk w' !! creds_path dir) as [x|]; [|done]. simpl.
  injection Hr as ->. rewrite Hb. unfold rotated_bytes.
  rewrite json_parse_print_pretty by (by apply StoredCreds_value_ok). simpl.
  by apply StoredCreds_roundtrip.
Qed.

(** A rotation that was persisted is what a restart reads: the new token, the
    new certificate, key and payload key where the push carried them and the old
    ones where it did not, and the instance id, endpoint and CA chain untouched. *)
Theorem rotation_persisted dir jwt cert key dek ver w w' c :
  persist_rotated_creds dir jwt cert key dek ver w = (Ok tt, w') →
  creds_on dir (disk w) = Some c → in_u32 ver → dt_ok (clock w (readings w)) →
  ∃ c', creds_on dir (disk w') = Some c' ∧
    instance_jwt c' = jwt ∧ issued_at c' = clock w (readings w) ∧
    client_cert_pem c' = (if str_is_empty cert then client_cert_pem c else cert) ∧
    client_key_pem c' = (if str_is_empty key then client_key_pem c else key) ∧
    (instance_id c', cp_endpoint c', ca_chain_pem c') =
      (instance_id c, cp_endpoint c, ca_chain_pem c) ∧
    (payload_dek_b64 c', payload_dek_version c') =
      (if vec_is_empty dek || (ver =? 0)%Z
       then (payload_dek_b64 c, payload_dek_version c) else (b64_encode dek, ver)).
Proof.
  intros E Hc Hver Hnow. eexists. split; [by eapply persist_ok|].
  split_and!; try done. simpl. by destruct (vec_is_empty dek), (ver =? 0)%Z.
Qed.

(** C18: whatever I/O call fails and whenever the process dies while a credential
    rotation is being persisted, the credentials file is the old one or the complete
    new one, the stored credentials with the rotated fields replaced; a rotation
    that reports an error leaves the old one and one that reports success has
    installed the new one. *)
Theorem rotation_crash_atomic dir jwt cert key dek ver w c :
  creds_on dir (disk w) = Some c →
  let new_content := rotated_bytes c jwt cert key dek ver (clock w (readings w)) in
  let p := creds_path dir in
  let rw := persist_rotated_creds dir jwt cert key dek ver w in
  ∃ new,
    past rw.2 = (new ++ past w)%list ∧
    Forall (λ d, d !! p = disk w !! p ∨ content <$> d !! p = Some new_content)
      (disk rw.2 :: new) ∧
    match rw.1 with
    | Ok _ => content <$> disk rw.2 !! p = Some new_content
    | Err _ => disk rw.2 !! p = disk w !! p
    end.
Proof.
  intros Hc new_content p rw.
  destruct (persist_outcome dir jwt cert key dek ver w) as (b & Hb & _ & [(new & E & F) Hr]).
  rewrite (Hb c Hc) in F, Hr. by exists new.
Qed.

(** C33: a rotation that carries a payload key of a wrong length is rejected in
    memory, where the previous key stays in use, but is persisted; after a
    restart the stored key is rejected too, and the instance has no payload key
    left: neither the new nor the previous one. *)
Theorem bad_rotated_dek_lost_on_restart dir jwt cert key dek ver slot w w' c :
  persist_rotated_creds dir jwt cert key dek ver w = (Ok tt, w') →
  creds_on dir (disk w) = Some c → in_u32 ver → ver ≠ 0%Z → dt_ok (clock w (readings w)) →
  dek ≠ [] → length dek ≠ KEY_LEN →
  rotate_payload_dek dek ver slot = slot ∧
  ∃ c', creds_on dir (disk w') = Some c' ∧ install_payload_dek_from_creds c' None = None.
Proof.
  intros E Hc Hver Hv0 Hnow Hne Hlen.
  assert (∃ e, from_proto dek ver = Err e) as [e He].
  { unfold from_proto. rewrite (proj2 (vec_is_empty_false dek)) by done.
    rewrite (proj2 (Nat.eqb_neq _ _)) by done. simpl. eauto. }
  split.
  { unfold rotate_payload_dek. rewrite He. by destruct (vec_is_empty dek). }
  eexists. split; [by eapply persist_ok|].
  assert (negb (vec_is_empty dek) && negb (ver =? 0)%Z = true) as Hw.
  { rewrite (proj2 (vec_is_empty_false dek)), (proj2 (Z.eqb_neq ver 0)) by done. done. }
  rewrite (install_encoded _ dek); [|done|simpl; by rewrite Hw].
  simpl. rewrite Hw. by rewrite He.
Qed.
End creds_properties.

(** ** The properties on concrete values *)

Definition demo_creds : StoredCreds := {|
  instance_id := "i-1"; instance_jwt := "old"; cp_endpoint := "https://cp";
  issued_at := mkDateTime 1700000000 0; client_cert_pem := "cert"; client_key_pem := "key";
  ca_chain_pem := "ca"; payload_dek_b64 := ""; payload_dek_version := 0
|}.

Definition creds_world : World := {|
  disk := {[ creds_path "/s" := mkFile (json_print_pretty (StoredCreds_serialize demo_creds)) 384 ]};
  dirs := {[ "/s" ]}; new_mode := 420; faults := []; entropy := λ _, Byte.x00; drawn := 0;
  clock := λ _, mkDateTime 1700000600 0; readings := 0; past := []
|}.

Lemma demo_creds_wf : creds_wf demo_creds.
Proof. split; vm_compute; intuition discriminate. Qed.

Lemma creds_world_on : creds_on "/s" (disk creds_world) = Some demo_creds.
Proof.
  unfold creds_on. cbn [disk creds_world]. rewrite lookup_singleton_eq. cbn [mbind option_bind content].
  rewrite json_parse_print_pretty by apply StoredCreds_value_ok, demo_creds_wf.
  apply StoredCreds_roundtrip, demo_creds_wf.
Qed.

Lemma creds_world_dir : "/s" ∈ dirs creds_world.
Proof. set_solver. Qed.

Lemma creds_world_time : dt_ok (clock creds_world (readings creds_world)).
Proof. vm_compute. intuition discriminate. Qed.

Lemma rotation_persisted_witness :
  ∃ w' c', persist_rotated_creds "/s" "new" "" "" [] 0 creds_world = (Ok tt, w') ∧
    creds_on "/s" (disk w') = Some c' ∧ instance_jwt c' = "new" ∧ client_cert_pem c' = "cert".
Proof.
  destruct (persist_calm "/s" "new" "" "" [] 0 creds_world demo_creds) as (w' & E & _);
    [reflexivity|set_solver|apply creds_world_on|].
  destruct (rotation_persisted "/s" "new" "" "" [] 0 creds_world w' demo_creds)
    as (c' & H1 & H2 & _ & H3 & _).
  - exact E.
  - apply creds_world_on.
  - unfold in_u32, U32_MAX. lia.
  - apply creds_world_time.
  - exists w', c'. split; [exact E|]. split; [exact H1|]. split; [exact H2|exact H3].
Defined.

(** The disk on which the write of the temporary file is torn. *)
Definition torn_creds_world : World := set_faults [NoFault; FailTorn 3] creds_world.

Lemma rotation_crash_atomic_witness :
  ∃ new, past (persist_rotated_creds "/s" "new" "" "" [] 0 torn_creds_world).2 = (new ++ [])%list ∧
    length new = 4%nat ∧
    Forall (λ d, d !! creds_path "/s" = disk creds_world !! creds_path "/s" ∨
      content <$> d !! creds_path "/s" =
        Some (rotated_bytes demo_creds "new" "" "" [] 0 (mkDateTime 1700000600 0))) new ∧
    disk (persist_rotated_creds "/s" "new" "" "" [] 0 torn_creds_world).2 !! creds_path "/s" =
      disk creds_world !! creds_path "/s".
Proof.
  assert (∃ e, (persist_rotated_creds "/s" "new" "" "" [] 0 torn_creds_world).1 = Err e) as [e He]
    by (vm_compute; eexists; reflexivity).
  assert (length (past (persist_rotated_creds "/s" "new" "" "" [] 0 torn_creds_world).2) = 4%nat) as Hl
    by (vm_compute; reflexivity).
  destruct (rotation_crash_atomic "/s" "new" "" "" [] 0 torn_creds_world demo_creds creds_world_on)
    as (new & E & F & Hr).
  exists new. split; [exact E|]. split.
  - rewrite E, app_nil_r in Hl. exact Hl.
  - split; [apply Forall_cons in F as [_ F]; exact F|]. rewrite He in Hr. exact Hr.
Defined.

Lemma bad_rotated_dek_lost_on_restart_witness :
  ∃ w' c', persist_rotated_creds "/s" "new" "" "" [Byte.x01] 2 creds_world = (Ok tt, w') ∧
    rotate_payload_dek [Byte.x01] 2 (Some demo_handle) = Some demo_handle ∧
    creds_on "/s" (disk w') = Some c' ∧ install_payload_dek_from_creds c' None = None.
Proof.
  destruct (persist_calm "/s" "new" "" "" [Byte.x01] 2 creds_world demo_creds) as (w' & E & _);
    [reflexivity|set_solver|apply creds_world_on|].
  destruct (bad_rotated_dek_lost_on_restart "/s" "new" "" "" [Byte.x01] 2 (Some demo_handle)
    creds_world w' demo_creds) as (H1 & c' & H2 & H3).
  - exact E.
  - apply creds_world_on.
  - unfold in_u32, U32_MAX. lia.
  - lia.
  - apply creds_world_time.
  - discriminate.
  - discriminate.
  - exists w', c'. split; [exact E|]. split; [exact H1|]. split; [exact H2|exact H3].
Defined.
