(* ===== verification/Status.v ===== *)
(** * Status reports: [src/status.rs]

    The host's snapshot, the report built from it, and the loop that ships one
    report per tick until the outbound channel closes. *)

From stdpp Require Import base list strings.
From Stdlib Require Import ZArith Lia.
From S2P Require Import Prelude Time Proto.

Definition DEFAULT_STATUS_INTERVAL : Duration := from_secs 60.

Record PluginStatusSample := {
  pss_id : string;
  pss_version : string;
  pss_state : string;
  pss_error : string;
  pss_invocations : Z
}.

Record ClusterStatusSample := {
  css_kind : string;
  css_backend_up : option bool;
  css_peers : option Z
}.

Record DeliveryRefusalSample := { drs_reason : string; drs_proof_kid : string }.

Record StatusSnapshot := {
  snap_plugins : list PluginStatusSample;
  snap_warnings : list string;
  snap_cluster : option ClusterStatusSample;
  snap_secrets_digest : string;
  snap_delivery_refusal : option DeliveryRefusalSample
}.

(** [snapshot_to_message], [now] being the seconds of [Utc::now]. *)
Definition snapshot_to_message (now : Z) (snap : StatusSnapshot) (config_hash : string)
    : AgentMessage :=
  {| kind := Some (KStatusReport {|
       sr_at := Some (mkTimestamp now 0);
       sr_config_hash := config_hash;
       sr_plugins := (λ p, {| ps_id := pss_id p; ps_version := pss_version p;
                              ps_state := pss_state p; ps_error := pss_error p;
                              ps_invocations := pss_invocations p |}) <$> snap_plugins snap;
       sr_resources := None;
       sr_warnings := snap_warnings snap;
       sr_cluster := (λ c, {| cs_kind := css_kind c; cs_backend_up := css_backend_up c;
                              cs_peers := css_peers c |}) <$> snap_cluster snap;
       sr_secrets_digest := snap_secrets_digest snap;
       sr_delivery_refusal := (λ r, {| dr_reason := drs_reason r;
                                       dr_proof_kid := drs_proof_kid r |})
                                <$> snap_delivery_refusal snap |}) |}.

(** What one tick of the loop finds: the host's snapshot, the applied hash loaded
    after it, the time, and whether the channel accepts the message. *)
Record StatusTick := {
  st_snapshot : StatusSnapshot;
  st_hash : option string;
  st_now : Z;
  st_open : bool
}.

(** The message of a tick. *)
Definition tick_message (t : StatusTick) : AgentMessage :=
  snapshot_to_message (st_now t) (st_snapshot t) (unwrap_str (st_hash t)).

(** [status_loop] over the ticks that happen: the messages shipped, and whether
    the loop has stopped. *)
Fixpoint status_loop (ticks : list StatusTick) : list AgentMessage * bool :=
  match ticks with
  | [] => ([], false)
  | t :: ticks =>
      let msg := tick_message t in
      if negb (st_open t) then ([], true)
      else let '(sent, stopped) := status_loop ticks in (msg :: sent, stopped)
  end.

(** ** Properties *)

(** The snapshot a report carries. *)
Definition snapshot_of (r : StatusReport) : StatusSnapshot :=
  {| snap_plugins := (λ p, {| pss_id := ps_id p; pss_version := ps_version p;
       pss_state := ps_state p; pss_error := ps_error p;
       pss_invocations := ps_invocations p |}) <$> sr_plugins r;
     snap_warnings := sr_warnings r;
     snap_cluster := (λ c, {| css_kind := cs_kind c; css_backend_up := cs_backend_up c;
       css_peers := cs_peers c |}) <$> sr_cluster r;
     snap_secrets_digest := sr_secrets_digest r;
     snap_delivery_refusal := (λ x, {| drs_reason := dr_reason x;
       drs_proof_kid := dr_proof_kid x |}) <$> sr_delivery_refusal r |}.

Lemma snapshot_of_message now snap hash :
  ∃ r, kind (snapshot_to_message now snap hash) = Some (KStatusReport r) ∧
    snapshot_of r = snap ∧ sr_config_hash r = hash ∧ sr_at r = Some (mkTimestamp now 0).
Proof.
  eexists. split; [reflexivity|]. split; [|done].
  destruct snap as [ps ws [[]|] d [[]|]]; unfold snapshot_of; cbn [sr_plugins sr_warnings
    sr_cluster sr_secrets_digest sr_delivery_refusal snap_plugins snap_warnings snap_cluster
    snap_secrets_digest snap_delivery_refusal];
    f_equal; rewrite <- list_fmap_compose; (etransitivity; [|apply list_fmap_id]);
    apply list_fmap_ext; by intros ? [] ?.
Qed.

Lemma status_loop_app sent ticks :
  Forall (λ t, st_open t = true) sent →
  status_loop (sent ++ ticks) =
    ((tick_message <$> sent) ++ (status_loop ticks).1, (status_loop ticks).2).
Proof.
  induction 1 as [|t sent Ht _ IH]; simpl; [by destruct (status_loop ticks)|].
  rewrite Ht, IH. done.
Qed.

(** The status lane ships, in order, one report per tick until the first tick
    that finds the channel closed, and stops there; each report carries the
    host's whole snapshot and the configuration hash in effect at that tick,
    empty while none is. *)
Theorem status_reports_until_closed ticks :
  (∃ live rest, ticks = live ++ rest ∧
    Forall (λ t, st_open t = true) live ∧
    (rest = [] ∧ (status_loop ticks).2 = false ∨
     ∃ t rest', rest = t :: rest' ∧ st_open t = false ∧ (status_loop ticks).2 = true) ∧
    (status_loop ticks).1 = tick_message <$> live) ∧
  (∀ t, ∃ r, kind (tick_message t) = Some (KStatusReport r) ∧
     snapshot_of r = st_snapshot t ∧ sr_config_hash r = default ""%string (st_hash t) ∧
     sr_at r = Some (mkTimestamp (st_now t) 0)).
Proof.
  split; [|intros t; apply snapshot_of_message].
  induction ticks as [|t ticks (live & rest & E & Hl & Hr & Hm)].
  { exists [], []. split_and!; [done|done|by left|done]. }
  destruct (st_open t) eqn:Ht.
  - exists (t :: live), rest. cbn [status_loop]. rewrite Ht. cbn [negb].
    destruct (status_loop ticks) as [sent stopped]; simpl in *. subst. split_and!; auto.
  - exists [], (t :: ticks). cbn [status_loop]. rewrite Ht. split_and!; auto.
    right. exists t, ticks. auto.
Qed.
