(* ===== verification/Client.v ===== *)
(** * The gRPC client wrapper: [src/client.rs]

    The state shared by every clone of the client (the connection, the instance
    token and the TLS material) and the operations on it.  Dialling is foreign
    code: what a dial to an endpoint with a TLS configuration yields is an argument
    of [connect]. *)

From stdpp Require Import base list strings.
From Stdlib Require Import ZArith Lia.
From S2P Require Import Prelude Time Proto Text Errors.

Local Open Scope string_scope.

Record ClientTlsMaterial := {
  ca_pem : string;
  client_cert_pem : string;
  client_key_pem : string;
  server_name : option string
}.

(** The [tonic::transport::ClientTlsConfig] that [connect] builds. *)
Record ClientTlsConfig := {
  ca_certificate : option string;
  identity : option (string * string);
  domain_name : option string
}.

Section client.
(** An established connection. *)
Context {Channel : Type}.

Record AgentClient := {
  endpoint : string;
  channel : option Channel;
  jwt : option string;
  tls : option ClientTlsMaterial
}.

(** [AgentClient::new]. *)
Definition AgentClient_new (endpoint_ : string) : AgentClient :=
  {| endpoint := endpoint_; channel := None; jwt := None; tls := None |}.

(** [AgentClient::set_tls]. *)
Definition set_tls (m : option ClientTlsMaterial) (c : AgentClient) : AgentClient :=
  {| endpoint := endpoint c; channel := channel c; jwt := jwt c; tls := m |}.

(** [AgentClient::set_jwt]. *)
Definition set_jwt (token : string) (c : AgentClient) : AgentClient :=
  {| endpoint := endpoint c; channel := channel c; jwt := Some token; tls := tls c |}.

(** [AgentClient::current_jwt]. *)
Definition current_jwt (c : AgentClient) : option string := jwt c.

(** [AgentClient::reset]. *)
Definition client_reset (c : AgentClient) : AgentClient :=
  {| endpoint := endpoint c; channel := None; jwt := jwt c; tls := tls c |}.

(** The TLS configuration [connect] installs: none unless the endpoint is
    [https]. *)
Definition tls_config (c : AgentClient) : option ClientTlsConfig :=
  if starts_with "https://" (endpoint c) then
    Some match tls c with
         | Some m =>
             {| ca_certificate := Some (ca_pem m);
                identity :=
                  if negb (str_is_empty (client_cert_pem m)) &&
                     negb (str_is_empty (client_key_pem m))
                  then Some (client_cert_pem m, client_key_pem m) else None;
                domain_name := server_name m |}
         | None => {| ca_certificate := None; identity := None; domain_name := None |}
         end
  else None.

(** What dialling yields: an invalid endpoint, a rejected TLS configuration and a
    failed connection are all errors. *)
Definition Dial : Type := string → option ClientTlsConfig → Result Channel Error.

(** [AgentClient::connect]: lazy, then reused. *)
Definition connect (dial : Dial) (c : AgentClient) : Result () Error * AgentClient :=
  match channel c with
  | Some _ => (Ok tt, c)
  | None =>
      match dial (endpoint c) (tls_config c) with
      | Err e => (Err e, c)
      | Ok ch => (Ok tt, {| endpoint := endpoint c; channel := Some ch; jwt := jwt c;
                            tls := tls c |})
      end
  end.

(** [AgentClient::authed_client]: the connection and the token the interceptor
    sends with every call. *)
Definition authed_client (dial : Dial) (c : AgentClient)
    : Result (Channel * string) Error * AgentClient :=
  match connect dial c with
  | (Err e, c) => (Err e, c)
  | (Ok _, c) =>
      match channel c, jwt c with
      | Some ch, Some t => (Ok (ch, t), c)
      | Some _, None => (Err (anyhow "no instance JWT cached; call register() first"), c)
      | None, _ => (Err (anyhow "connected"), c)
      end
  end.

(** [AgentClient::register], the response of the call as an argument. *)
Definition register {Resp : Type} (dial : Dial) (call : Channel → Result Resp Error)
    (c : AgentClient) : Result Resp Error * AgentClient :=
  match connect dial c with
  | (Err e, c) => (Err e, c)
  | (Ok _, c) =>
      match channel c with
      | Some ch => (call ch, c)
      | None => (Err (anyhow "connected"), c)
      end
  end.

(** [AgentClient::heartbeat], the response of the call as an argument. *)
Definition heartbeat {Resp : Type} (dial : Dial) (call : Channel * string → Result Resp Error)
    (c : AgentClient) : Result Resp Error * AgentClient :=
  match authed_client dial c with
  | (Err e, c) => (Err e, c)
  | (Ok authed, c) => (call authed, c)
  end.
End client.

(** [JwtInterceptor::call]: the request's metadata with the token added. *)
Definition interceptor_call `{Grpc} (jwt : string) (metadata : list (string * string))
    : Result (list (string * string)) Status :=
  if metadata_value_ok jwt then Ok (metadata_insert "mcpg-instance-token" jwt metadata)
  else Err {| code := OtherCode "Internal"; message := "invalid jwt encoding"; metadata := [] |}.

Arguments AgentClient : clear implicits.
Arguments Dial : clear implicits.

(** ** Properties *)

Section client_properties.
Context {Channel : Type}.
Implicit Types c : AgentClient Channel.

Lemma connect_ok dial c c' :
  connect dial c = (Ok tt, c') →
  is_Some (channel c') ∧ endpoint c' = endpoint c ∧ jwt c' = jwt c ∧ tls c' = tls c.
Proof.
  unfold connect. destruct (channel c) as [ch|] eqn:E; [intros [= <-]; by rewrite E|].
  destruct (dial _ _); [|done]. by intros [= <-].
Qed.

Lemma connect_err dial c e c' : connect dial c = (Err e, c') → c' = c ∧ channel c = None.
Proof.
  unfold connect. destruct (channel c); [done|]. destruct (dial _ _); [done|]. by intros [= _ <-].
Qed.

(** The connection life cycle: [expect("connected")] never panics, a call
    without an instance token fails before anything is sent, an authenticated
    client presents the current token, an open connection is reused without
    dialling, a failed dial leaves the client as it was, and new TLS material takes
    effect at the first connect after a reset and not before. *)
Theorem client_lifecycle (dial : Dial Channel) c :
  (∀ c' e, authed_client dial c = (Err e, c') →
     connect dial c = (Err e, c) ∧ c' = c ∨
     jwt c = None ∧ e = anyhow "no instance JWT cached; call register() first") ∧
  (∀ c' ch t, authed_client dial c = (Ok (ch, t), c') →
     jwt c = Some t ∧ channel c' = Some ch ∧
     (channel c = Some ch ∨ dial (endpoint c) (tls_config c) = Ok ch)) ∧
  (∀ ch dial', channel c = Some ch → connect dial' c = (Ok tt, c)) ∧
  (∀ m, channel (set_tls m c) = channel c ∧
     (is_Some (channel c) → connect dial (set_tls m c) = (Ok tt, set_tls m c)) ∧
     (∀ ch c', connect dial (client_reset (set_tls m c)) = (Ok tt, c') → channel c' = Some ch →
        dial (endpoint c) (tls_config (set_tls m c)) = Ok ch)).
Proof.
  split_and!.
  - intros c' e. unfold authed_client. destruct (connect dial c) as [[[]|e1] c1] eqn:E.
    + apply connect_ok in E as ([ch Hch] & _ & Hj & _). rewrite Hch, Hj.
      destruct (jwt c); [done|]. intros [= <- _]. auto.
    + apply connect_err in E as [-> _]. intros [= <- <-]. auto.
  - intros c' ch t. unfold authed_client. destruct (connect dial c) as [[[]|e1] c1] eqn:E; [|done].
    pose proof (connect_ok _ _ _ E) as ([ch' Hch] & _ & Hj & _). rewrite Hch, Hj.
    destruct (jwt c); [|done]. intros [= <- <- <-]. split_and!; [done|done|].
    unfold connect in E. destruct (channel c) as [ch0|] eqn:E0.
    + injection E as <-. left. congruence.
    + destruct (dial _ _); [|done]. injection E as <-. simpl in Hch. right. congruence.
  - intros ch dial' H. unfold connect. by rewrite H.
  - intros m. split_and!; [done| |].
    + intros [ch H]. unfold connect. simpl. by rewrite H.
    + intros ch c'. unfold connect. simpl.
      destruct (dial _ _) eqn:E; [|done]. intros [= <-] [= <-]. done.
Qed.

(** TLS is configured exactly for an [https] endpoint; with material, its CA
    is the only trusted one and the client certificate is presented only together
    with its key; without material the system's trust is used and no certificate
    is presented. *)
Theorem tls_config_from_material c :
  (starts_with "https://" (endpoint c) = false → tls_config c = None) ∧
  (starts_with "https://" (endpoint c) = true → ∃ cfg, tls_config c = Some cfg ∧
     ca_certificate cfg = ca_pem <$> tls c ∧
     domain_name cfg = (m ← tls c; server_name m) ∧
     (∀ cert key, identity cfg = Some (cert, key) ↔
        ∃ m, tls c = Some m ∧ client_cert_pem m = cert ∧ client_key_pem m = key ∧
          cert ≠ "" ∧ key ≠ "")).
Proof.
  unfold tls_config. split; intros ->; [done|]. eexists. split; [done|].
  destruct (tls c) as [m|]; simpl; split_and!; try done.
  - intros cert key. split.
    + destruct (str_is_empty (client_cert_pem m)) eqn:E1; [done|].
      destruct (str_is_empty (client_key_pem m)) eqn:E2; [done|].
      apply str_is_empty_false in E1, E2. intros [= <- <-]. eauto 10.
    + intros (? & [= <-] & <- & <- & H1 & H2).
      by rewrite (proj2 (str_is_empty_false _) H1), (proj2 (str_is_empty_false _) H2).
  - intros cert key. split; [done|]. by intros (? & ? & _).
Qed.
End client_properties.
