(* ===== verification/Runner.v ===== *)
(** * The state of the agent runner and its handlers: [src/agent.rs]

    The state of an [AgentRunner] and what its methods do to it: installing and
    obtaining credentials and the inbound message handlers.  The network, the
    host's hooks and the random jitter are arguments; disk, clock and system
    randomness are the [World] of the file-system model. *)

From stdpp Require Import base list strings gmap.
From Stdlib Require Import ZArith QArith Lia SpecFloat.
From S2P Require Import Prelude Time Proto Text Serde Errors Token F64 Backoff.
From S2P Require Import Metrics Logs Crypto Dek Fs Lkg License Creds Client.

Local Open Scope string_scope.

Record AgentRunnerConfig := {
  rc_cp_endpoint : string;
  rc_enrollment_url : string;
  rc_instance_uid : string;
  rc_version : string;
  rc_state_dir : string;
  rc_heartbeat_interval : Duration;
  rc_backoff_initial : Duration;
  rc_backoff_max : Duration;
  rc_bootstrap_ca_pem : option string;
  rc_metrics_flush_interval : option Duration
}.

(** [Default for AgentRunnerConfig]; the fresh uuid and the crate version are
    arguments. *)
Definition AgentRunnerConfig_default (uuid pkg_version : string) : AgentRunnerConfig := {|
  rc_cp_endpoint := "http://127.0.0.1:7844";
  rc_enrollment_url := "";
  rc_instance_uid := "mcpg-" +:+ uuid;
  rc_version := pkg_version;
  rc_state_dir := "./agent-state";
  rc_heartbeat_interval := from_secs 30;
  rc_backoff_initial := from_secs 1;
  rc_backoff_max := from_secs 60;
  rc_bootstrap_ca_pem := None;
  rc_metrics_flush_interval := None
|}.

Inductive AgentEvent :=
| Registered (instance_id : string)
| ChannelConnected
| ChannelDisconnected (reason : string)
| HeartbeatSent (seq : Z)
| ConfigReceived (hash : string)
| ErrorEvent (message : string).

(** ** Messages of the control plane *)

Record CredentialRotation := {
  cr_instance_jwt : string;
  cr_client_cert_pem : string;
  cr_client_key_pem : string;
  cr_payload_dek : bytes;
  cr_payload_dek_version : Z
}.

Record LicenseUpdate := {
  lu_license_jwt : string;
  lu_org_slug : string;
  lu_refresh_failing : bool;
  lu_delivery_proof : string
}.

Record HostInfo := { hi_os : string; hi_arch : string; hi_hostname : string; hi_kernel_version : string }.

Record RegisterRequest := {
  rq_bootstrap_token : string;
  rq_instance_uid : string;
  rq_version : string;
  rq_labels : list (string * string);
  rq_capabilities : list string;
  rq_addressable_endpoints : list string;
  rq_host : option HostInfo
}.

Record RegisterResponse := {
  rr_instance_id : string;
  rr_instance_jwt : string;
  rr_cp_endpoint : string;
  rr_client_cert_pem : string;
  rr_client_key_pem : string;
  rr_ca_chain_pem : string;
  rr_payload_dek : bytes;
  rr_payload_dek_version : Z
}.

(** ** Heartbeats *)

(** The message of heartbeat number [seq]. *)
Definition heartbeat_message (now seq : Z) : AgentMessage :=
  {| kind := Some (KHeartbeat {|
       hb_at := Some (mkTimestamp now 0); hb_seq := seq; hb_health := "ok";
       hb_active_connections := 0; hb_cpu_load_avg := S754_zero false;
       hb_memory_rss_bytes := 0 |}) |}.

(** The heartbeat task over its ticks, each with the time and whether the channel
    is open: what it queued, the events it emitted, and whether it stopped. *)
Fixpoint heartbeat_task (seq : Z) (ticks : list (Z * bool))
    : list AgentMessage * list AgentEvent * bool :=
  match ticks with
  | [] => ([], [], false)
  | (now, open_) :: ticks =>
      let seq := saturating_add_u64 seq 1 in
      let msg := heartbeat_message now seq in
      if negb open_ then ([], [], true)
      else let '(msgs, evs, stopped) := heartbeat_task seq ticks in
           (msg :: msgs, HeartbeatSent seq :: evs, stopped)
  end.

(** ** Channel metadata *)

Record ChannelMetadata := {
  cm_nonce : string;
  cm_version : string;
  cm_process : string;
  cm_heartbeat : Duration
}.

(** [insert_channel_metadata]. *)
Definition insert_channel_metadata `{Grpc} (md : list (string * string)) (open_ : ChannelMetadata)
    : list (string * string) :=
  let heartbeat_ms := to_string (as_millis (cm_heartbeat open_)) in
  fold_left (λ md kv, if metadata_value_ok kv.2 then metadata_insert kv.1 kv.2 md else md)
    [(DELIVERY_NONCE_HEADER, cm_nonce open_);
     (AGENT_VERSION_HEADER, cm_version open_);
     (AGENT_PROCESS_HEADER, cm_process open_);
     (AGENT_HEARTBEAT_HEADER, heartbeat_ms)] md.

(** [hostname], from the environment. *)
Definition hostname (var : string → option string) : option string :=
  match var "HOSTNAME" with Some h => Some h | None => var "COMPUTERNAME" end.

(** ** Retrying *)

(** How a retry loop ends: with a value, still retrying when the attempts that are
    looked at are used up, or in the panic of a delay that is no duration. *)
Inductive Retried (T S : Type) :=
| RDone (v : T) (slept : list Duration) (s : S)
| RPending (slept : list Duration) (s : S)
| RPanic (s : S).
Arguments RDone {T S}.
Arguments RPending {T S}.
Arguments RPanic {T S}.

(** [retry_with_backoff]: one operation and one jitter factor per attempt. *)
Fixpoint retry_loop {T S} (ops : list ((S → Result T Error * S) * Q)) (b : Backoff)
    (slept : list Duration) (s : S) : Retried T S :=
  match ops with
  | [] => RPending slept s
  | (op, factor) :: ops =>
      match op s with
      | (Ok v, s) => RDone v slept s
      | (Err _, s) =>
          match next_delay factor b with
          | (Some delay, b) => retry_loop ops b (slept ++ [delay])%list s
          | (None, _) => RPanic s
          end
      end
  end.

Definition retry_with_backoff {T S} (initial max : Duration)
    (ops : list ((S → Result T Error * S) * Q)) (s : S) : Retried T S :=
  retry_loop ops (Backoff_new initial max true) [] s.

Section agent.
Context `{!Json, !Base64, !Rfc3339, !Aead, !Hkdf, !BundleCodec, !Grpc}.
Context {Channel QuotaStatus : Type}.

Record ConfigUpdate := { cu_config_hash : string; cu_bundle : option ConfigBundle }.

Inductive ServerKind :=
| SConfigUpdate (u : ConfigUpdate)
| SCommand (command_id : string)
| SCredentialRotation (cr : CredentialRotation)
| SQuarantine (reason : string)
| SDiagnosticRequest
| SLogRequest
| SQuotaStatus (qs : QuotaStatus)
| SLicenseUpdate (u : LicenseUpdate).

Record ServerMessage := { server_kind : option ServerKind }.

(** Calls of the host's hooks. *)
Inductive HostCall :=
| HApply (b : ConfigBundle)
| HApplyLicense (d : LicenseDelivery)
| HSlotHeld (retry_in : Duration).

(** The host's hooks: the configuration applier's answers by call number, and
    whether a licence applier is wired. *)
Record Hooks := {
  config_applier : option (nat → ConfigBundle → Result () string);
  license_applier : bool
}.

(** The runner's state that outlives a session, with the events and hook calls it
    made so far, oldest first, and the messages queued for the control plane. *)
Record Runner := {
  world : World;
  client : AgentClient Channel;
  events : list AgentEvent;
  metrics : Metrics.Inner;
  logs : Logs.Inner;
  quota_status : option QuotaStatus;
  payload_dek : option DekHandle;
  applied_config_hash : option string;
  host_calls : list HostCall;
  outbound : list AgentMessage
}.

Definition with_world (w : World) (r : Runner) : Runner :=
  {| world := w; client := client r; events := events r; metrics := metrics r; logs := logs r;
     quota_status := quota_status r; payload_dek := payload_dek r;
     applied_config_hash := applied_config_hash r; host_calls := host_calls r;
     outbound := outbound r |}.

Definition with_client (c : AgentClient Channel) (r : Runner) : Runner :=
  {| world := world r; client := c; events := events r; metrics := metrics r; logs := logs r;
     quota_status := quota_status r; payload_dek := payload_dek r;
     applied_config_hash := applied_config_hash r; host_calls := host_calls r;
     outbound := outbound r |}.

Definition with_dek (d : option DekHandle) (r : Runner) : Runner :=
  {| world := world r; client := client r; events := events r; metrics := metrics r; logs := logs r;
     quota_status := quota_status r; payload_dek := d;
     applied_config_hash := applied_config_hash r; host_calls := host_calls r;
     outbound := outbound r |}.

Definition with_quota (q : option QuotaStatus) (r : Runner) : Runner :=
  {| world := world r; client := client r; events := events r; metrics := metrics r; logs := logs r;
     quota_status := q; payload_dek := payload_dek r;
     applied_config_hash := applied_config_hash r; host_calls := host_calls r;
     outbound := outbound r |}.

Definition with_applied (h : option string) (r : Runner) : Runner :=
  {| world := world r; client := client r; events := events r; metrics := metrics r; logs := logs r;
     quota_status := quota_status r; payload_dek := payload_dek r;
     applied_config_hash := h; host_calls := host_calls r; outbound := outbound r |}.

Definition with_buffers (m : Metrics.Inner) (l : Logs.Inner) (r : Runner) : Runner :=
  {| world := world r; client := client r; events := events r; metrics := m; logs := l;
     quota_status := quota_status r; payload_dek := payload_dek r;
     applied_config_hash := applied_config_hash r; host_calls := host_calls r;
     outbound := outbound r |}.

(** [events.send], the hooks' calls, and a send on the outbound channel, which a
    closed channel refuses. *)
Definition emit (e : AgentEvent) (r : Runner) : Runner :=
  {| world := world r; client := client r; events := events r ++ [e]; metrics := metrics r;
     logs := logs r; quota_status := quota_status r; payload_dek := payload_dek r;
     applied_config_hash := applied_config_hash r; host_calls := host_calls r;
     outbound := outbound r |}%list.

Definition call_host (h : HostCall) (r : Runner) : Runner :=
  {| world := world r; client := client r; events := events r; metrics := metrics r;
     logs := logs r; quota_status := quota_status r; payload_dek := payload_dek r;
     applied_config_hash := applied_config_hash r; host_calls := host_calls r ++ [h];
     outbound := outbound r |}%list.

Definition send (open_ : bool) (m : AgentMessage) (r : Runner) : Runner :=
  if open_ then
    {| world := world r; client := client r; events := events r; metrics := metrics r;
       logs := logs r; quota_status := quota_status r; payload_dek := payload_dek r;
       applied_config_hash := applied_config_hash r; host_calls := host_calls r;
       outbound := outbound r ++ [m] |}%list
  else r.

(** A file-system action of the runner. *)
Definition run_io {A} (m : IO A) (r : Runner) : Result A Error * Runner :=
  let '(res, w) := m (world r) in (res, with_world w r).

(** [AgentRunner::new]. *)
Definition AgentRunner_new (cfg : AgentRunnerConfig) (w : World) : Runner := {|
  world := w;
  client := AgentClient_new (rc_cp_endpoint cfg);
  events := [];
  metrics := MetricsBuffer_new;
  logs := LogBuffer_new;
  quota_status := None;
  payload_dek := None;
  applied_config_hash := None;
  host_calls := [];
  outbound := []
|}.

(** ** Credentials *)

(** [cached_creds]. *)
Definition cached_creds (cfg : AgentRunnerConfig) (r : Runner) : option StoredCreds * Runner :=
  let '(res, r) := run_io (read_stored_creds (rc_state_dir cfg)) r in (result_ok res, r).

(** [install_creds]. *)
Definition install_creds (creds : StoredCreds) (r : Runner) : Runner :=
  let r := with_client (set_jwt (Creds.instance_jwt creds) (client r)) r in
  let r := with_dek (install_payload_dek_from_creds creds (payload_dek r)) r in
  if negb (str_is_empty (Creds.client_cert_pem creds)) &&
     negb (str_is_empty (Creds.ca_chain_pem creds)) then
    let m := {| ca_pem := Creds.ca_chain_pem creds;
                Client.client_cert_pem := Creds.client_cert_pem creds;
                Client.client_key_pem := Creds.client_key_pem creds;
                server_name := None |} in
    with_client (client_reset (set_tls (Some m) (client r))) r
  else r.

(** What Register finds outside: the environment, the system, and per attempt a
    dial, the call's answer and a jitter factor. *)
Record RegisterEnv := {
  re_os : string;
  re_arch : string;
  re_var : string → option string;
  re_attempts : list (Dial Channel * (Channel → RegisterRequest → Result RegisterResponse Error) * Q)
}.

Definition register_request (cfg : AgentRunnerConfig) (env : RegisterEnv) (token : string)
    : RegisterRequest := {|
  rq_bootstrap_token := token;
  rq_instance_uid := rc_instance_uid cfg;
  rq_version := rc_version cfg;
  rq_labels := [];
  rq_capabilities := ["control_plane_client"];
  rq_addressable_endpoints := [];
  rq_host := Some {| hi_os := re_os env; hi_arch := re_arch env;
                     hi_hostname := unwrap_str (hostname (re_var env)); hi_kernel_version := "" |}
|}.

(** The credentials of a Register response. *)
Definition creds_of_response (resp : RegisterResponse) (now : DateTime) : StoredCreds := {|
  Creds.instance_id := rr_instance_id resp;
  Creds.instance_jwt := rr_instance_jwt resp;
  Creds.cp_endpoint := rr_cp_endpoint resp;
  Creds.issued_at := now;
  Creds.client_cert_pem := rr_client_cert_pem resp;
  Creds.client_key_pem := rr_client_key_pem resp;
  Creds.ca_chain_pem := rr_ca_chain_pem resp;
  Creds.payload_dek_b64 :=
    if vec_is_empty (rr_payload_dek resp) then "" else b64_encode (rr_payload_dek resp);
  Creds.payload_dek_version := rr_payload_dek_version resp
|}.

(** How [register_fresh] ends. *)
Inductive RegisterOutcome :=
| RegOk (creds : StoredCreds) (slept : list Duration) (r : Runner)
| RegErr (e : Error) (r : Runner)
| RegPending (slept : list Duration) (r : Runner)
| RegPanic (r : Runner).

(** The part of [register_fresh] after the response: the write and the change of
    mode are best effort. *)
Definition finish_register (cfg : AgentRunnerConfig) (resp : RegisterResponse) (r : Runner)
    : StoredCreds * Runner :=
  let r := emit (Registered (rr_instance_id resp)) r in
  let now := clock (world r) (readings (world r)) in
  let r := (run_io utc_now r).2 in
  let creds := creds_of_response resp now in
  let path := creds_path (rc_state_dir cfg) in
  let r := (run_io (write path (json_print_pretty (StoredCreds_serialize creds))) r).2 in
  let r := (run_io (set_permissions path MODE_600) r).2 in
  (creds, install_creds creds r).

(** [register_fresh]. *)
Definition register_fresh (cfg : AgentRunnerConfig) (env : RegisterEnv) (r : Runner)
    : RegisterOutcome :=
  match extract_token (rc_enrollment_url cfg) with
  | Err e => RegErr e r
  | Ok token =>
      let req := register_request cfg env token in
      let op (a : Dial Channel * (Channel → RegisterRequest → Result RegisterResponse Error)) :=
        λ r : Runner,
          let '(res, c) := register a.1 (λ ch, a.2 ch req) (client r) in (res, with_client c r) in
      match retry_with_backoff (rc_backoff_initial cfg) (rc_backoff_max cfg)
              ((λ a, (op a.1, a.2)) <$> re_attempts env) r with
      | RDone resp slept r =>
          let '(creds, r) := finish_register cfg resp r in RegOk creds slept r
      | RPending slept r => RegPending slept r
      | RPanic r => RegPanic r
      end
  end.

(** ** Inbound messages *)

(** The [ConfigUpdate] arm of [read_inbound]; [open_] is whether the outbound
    channel accepts the acknowledgement. *)
Definition on_config_update (cfg : AgentRunnerConfig) (hooks : Hooks) (open_ : bool)
    (u : ConfigUpdate) (r : Runner) : Runner :=
  let hash := cu_config_hash u in
  let r :=
    match cu_bundle u with
    | Some b => (run_io (save (in_state_dir (rc_state_dir cfg)) hash b) r).2
    | None => r
    end in
  let '(applied_state, error, r) :=
    match cu_bundle u, config_applier hooks with
    | Some b, Some apply =>
        match apply (length (host_calls r)) b with
        | Ok _ => ("active", "", call_host (HApply b) r)
        | Err e => ("error", e, call_host (HApply b) r)
        end
    | _, _ => ("active", "", r)
    end in
  let r :=
    if String.eqb applied_state "active" && negb (str_is_empty hash)
    then with_applied (Some hash) r else r in
  let r := emit (ConfigReceived hash) r in
  let now := clock (world r) (readings (world r)) in
  let r := (run_io utc_now r).2 in
  let ack := {| kind := Some (KConfigAck {|
      ca_config_hash := hash;
      ca_applied_at := Some (mkTimestamp (timestamp_secs now) 0);
      ca_applied_state := applied_state;
      ca_error := error |}) |} in
  send open_ ack r.

(** The [CredentialRotation] arm of [read_inbound]. *)
Definition on_credential_rotation (cfg : AgentRunnerConfig) (cr : CredentialRotation) (r : Runner)
    : Runner :=
  if str_is_empty (cr_instance_jwt cr) then r else
  let r := with_client (set_jwt (cr_instance_jwt cr) (client r)) r in
  let r := (run_io (persist_rotated_creds (rc_state_dir cfg) (cr_instance_jwt cr)
              (cr_client_cert_pem cr) (cr_client_key_pem cr) (cr_payload_dek cr)
              (cr_payload_dek_version cr)) r).2 in
  let r :=
    if str_is_empty (cr_client_cert_pem cr) then r else
    match run_io (read_stored_creds (rc_state_dir cfg)) r with
    | (Ok stored, r) =>
        let m := {| ca_pem := Creds.ca_chain_pem stored;
                    Client.client_cert_pem := cr_client_cert_pem cr;
                    Client.client_key_pem := cr_client_key_pem cr;
                    server_name := None |} in
        with_client (set_tls (Some m) (client r)) r
    | (Err _, r) => r
    end in
  with_dek (rotate_payload_dek (cr_payload_dek cr) (cr_payload_dek_version cr) (payload_dek r)) r.

(** The delivery of a [LicenseUpdate] that came down a Channel. *)
Definition delivery_of (channel_nonce instance_uid : string) (u : LicenseUpdate) : LicenseDelivery :=
  {| License.license_jwt := lu_license_jwt u;
     License.org_slug := lu_org_slug u;
     License.refresh_failing := lu_refresh_failing u;
     License.delivery_proof := lu_delivery_proof u;
     License.channel_nonce := channel_nonce;
     License.instance_uid := instance_uid |}.

(** The [LicenseUpdate] arm of [read_inbound]. *)
Definition on_license_update (cfg : AgentRunnerConfig) (hooks : Hooks)
    (channel_nonce instance_uid : string) (u : LicenseUpdate) (r : Runner) : Runner :=
  let delivery := delivery_of channel_nonce instance_uid u in
  let r := (run_io (save_cached (rc_state_dir cfg) delivery) r).2 in
  if license_applier hooks then call_host (HApplyLicense delivery) r else r.

(** The body of [read_inbound]'s loop. *)
Definition handle_message (cfg : AgentRunnerConfig) (hooks : Hooks)
    (channel_nonce instance_uid : string) (open_ : bool) (msg : ServerMessage) (r : Runner)
    : Result () Error * Runner :=
  match server_kind msg with
  | Some (SConfigUpdate u) => (Ok tt, on_config_update cfg hooks open_ u r)
  | Some (SCommand _) => (Ok tt, r)
  | Some (SCredentialRotation cr) => (Ok tt, on_credential_rotation cfg cr r)
  | Some (SQuarantine reason) => (Err (anyhow ("quarantined: " +:+ reason)), r)
  | Some SDiagnosticRequest => (Ok tt, r)
  | Some SLogRequest => (Ok tt, r)
  | Some (SQuotaStatus qs) => (Ok tt, with_quota (Some qs) r)
  | Some (SLicenseUpdate u) => (Ok tt, on_license_update cfg hooks channel_nonce instance_uid u r)
  | None => (Ok tt, r)
  end.

(** [read_inbound] over the items the stream yields before it ends, each with
    whether the outbound channel is open when it is handled. *)
Fixpoint read_inbound (cfg : AgentRunnerConfig) (hooks : Hooks)
    (channel_nonce instance_uid : string) (stream : list (Result ServerMessage Status * bool))
    (r : Runner) : Result () Error * Runner :=
  match stream with
  | [] => (Ok tt, r)
  | (Err status, _) :: _ => (Err (from_cause (CStatus status)), r)
  | (Ok msg, open_) :: stream =>
      match handle_message cfg hooks channel_nonce instance_uid open_ msg r with
      | (Err e, r) => (Err e, r)
      | (Ok _, r) => read_inbound cfg hooks channel_nonce instance_uid stream r
      end
  end.
End agent.
