(* ===== verification/Inbound.v ===== *)
(** * The inbound reader as a state machine: [read_inbound] of [src/agent.rs]

    [read_inbound] is an [async fn]: it runs from one [await] to the next, other
    tasks run in between, and the [select!] of [run_session] drops it at whatever
    [await] it is at when a shutdown is notified.  [InboundPc] are its [await]
    points with the locals that live across them, and [inbound_poll] runs it from
    one to the next.  Run to the end the machine is the handlers of [Runner]; cut
    at an [await] it leaves what [inbound_cut] says. *)

From stdpp Require Import base list strings gmap.
From Stdlib Require Import ZArith QArith Lia.
From S2P Require Import Prelude Time Proto Text Serde Errors Token.
From S2P Require Import Metrics Logs Crypto Dek Fs Lkg License Creds Client Runner.

Local Open Scope string_scope.

Section inbound.
Context `{!Json, !Base64, !Rfc3339, !Aead, !Hkdf, !BundleCodec, !Grpc}.
Context {Channel QuotaStatus : Type}.
Abbreviation Runner := (@Runner _ Channel QuotaStatus).
Abbreviation ServerMessage := (@ServerMessage _ QuotaStatus).

(** Where the reader waits: for the next item of the stream, for the host to apply
    a bundle, for room to queue the acknowledgement, for the token's and for the
    TLS material's lock, for the host to take a licence; or it has returned. *)
Inductive InboundPc :=
| INext
| IApply (hash : string) (b : ConfigBundle)
| IAck (ack : AgentMessage)
| ISetJwt (cr : CredentialRotation)
| ISetTls (cr : CredentialRotation) (m : ClientTlsMaterial)
| IApplyLicense (d : LicenseDelivery)
| IReturned (res : Result () Error).

(** What ends the wait. *)
Inductive InboundIn :=
| InItem (item : option (Result ServerMessage Status))
| InApplied (outcome : Result () string)
| InSent (open_ : bool)
| InLocked
| InLicensed.

(** The [ConfigUpdate] arm from the host's verdict to the acknowledgement. *)
Definition config_applied (hash : string) (outcome : Result () string) (r : Runner)
    : InboundPc * Runner :=
  let '(applied_state, error) :=
    match outcome with Ok _ => ("active", "") | Err e => ("error", e) end in
  let r :=
    if String.eqb applied_state "active" && negb (str_is_empty hash)
    then with_applied (Some hash) r else r in
  let r := emit (ConfigReceived hash) r in
  let now := clock (world r) (readings (world r)) in
  let r := (run_io utc_now r).2 in
  (IAck {| kind := Some (KConfigAck {|
      ca_config_hash := hash;
      ca_applied_at := Some (mkTimestamp (timestamp_secs now) 0);
      ca_applied_state := applied_state;
      ca_error := error |}) |}, r).

(** The end of the [CredentialRotation] arm. *)
Definition dek_rotated (cr : CredentialRotation) (r : Runner) : Runner :=
  with_dek (rotate_payload_dek (cr_payload_dek cr) (cr_payload_dek_version cr) (payload_dek r)) r.

(** The [CredentialRotation] arm once the token's lock is held. *)
Definition jwt_locked (cfg : AgentRunnerConfig) (cr : CredentialRotation) (r : Runner)
    : InboundPc * Runner :=
  let r := with_client (set_jwt (cr_instance_jwt cr) (client r)) r in
  let r := (run_io (persist_rotated_creds (rc_state_dir cfg) (cr_instance_jwt cr)
              (cr_client_cert_pem cr) (cr_client_key_pem cr) (cr_payload_dek cr)
              (cr_payload_dek_version cr)) r).2 in
  if str_is_empty (cr_client_cert_pem cr) then (INext, dek_rotated cr r) else
  match run_io (read_stored_creds (rc_state_dir cfg)) r with
  | (Ok stored, r) =>
      (ISetTls cr {| ca_pem := Creds.ca_chain_pem stored;
                     Client.client_cert_pem := cr_client_cert_pem cr;
                     Client.client_key_pem := cr_client_key_pem cr;
                     server_name := None |}, r)
  | (Err _, r) => (INext, dek_rotated cr r)
  end.

(** From a received message to the first [await] of its arm. *)
Definition inbound_start (cfg : AgentRunnerConfig) (hooks : Hooks)
    (channel_nonce instance_uid : string) (msg : ServerMessage) (r : Runner) : InboundPc * Runner :=
  match server_kind msg with
  | Some (SConfigUpdate u) =>
      let hash := cu_config_hash u in
      match cu_bundle u with
      | Some b =>
          let r := (run_io (save (in_state_dir (rc_state_dir cfg)) hash b) r).2 in
          match config_applier hooks with
          | Some _ => (IApply hash b, call_host (HApply b) r)
          | None => config_applied hash (Ok tt) r
          end
      | None => config_applied hash (Ok tt) r
      end
  | Some (SCredentialRotation cr) =>
      if str_is_empty (cr_instance_jwt cr) then (INext, r) else (ISetJwt cr, r)
  | Some (SQuarantine reason) => (IReturned (Err (anyhow ("quarantined: " +:+ reason))), r)
  | Some (SQuotaStatus qs) => (INext, with_quota (Some qs) r)
  | Some (SLicenseUpdate u) =>
      let delivery := delivery_of channel_nonce instance_uid u in
      let r := (run_io (save_cached (rc_state_dir cfg) delivery) r).2 in
      if license_applier hooks then (IApplyLicense delivery, call_host (HApplyLicense delivery) r)
      else (INext, r)
  | Some (SCommand _) | Some SDiagnosticRequest | Some SLogRequest | None => (INext, r)
  end.

(** [read_inbound] from one [await] to the next; [None] when the input does not end
    the wait the reader is in. *)
Definition inbound_poll (cfg : AgentRunnerConfig) (hooks : Hooks)
    (channel_nonce instance_uid : string) (i : InboundIn) (s : InboundPc * Runner)
    : option (InboundPc * Runner) :=
  let r := s.2 in
  match s.1, i with
  | INext, InItem None => Some (IReturned (Ok tt), r)
  | INext, InItem (Some (Err status)) => Some (IReturned (Err (from_cause (CStatus status))), r)
  | INext, InItem (Some (Ok msg)) =>
      Some (inbound_start cfg hooks channel_nonce instance_uid msg r)
  | IApply hash _, InApplied outcome => Some (config_applied hash outcome r)
  | IAck ack, InSent open_ => Some (INext, send open_ ack r)
  | ISetJwt cr, InLocked => Some (jwt_locked cfg cr r)
  | ISetTls cr m, InLocked =>
      Some (INext, dek_rotated cr (with_client (set_tls (Some m) (client r)) r))
  | IApplyLicense _, InLicensed => Some (INext, r)
  | _, _ => None
  end.

(** What ends the waits inside a handler: the applier's answer to its latest call,
    a send on a channel that is open or not, a lock, the host. *)
Definition inbound_answer (hooks : @Hooks _) (open_ : bool) (s : InboundPc * Runner)
    : option InboundIn :=
  match s.1 with
  | IApply _ b =>
      apply ← config_applier hooks; Some (InApplied (apply (pred (length (host_calls s.2))) b))
  | IAck _ => Some (InSent open_)
  | ISetJwt _ | ISetTls _ _ => Some InLocked
  | IApplyLicense _ => Some InLicensed
  | INext | IReturned _ => None
  end.

(** A handler that passes at most [n] of its [await]s. *)
Fixpoint inbound_resume (cfg : AgentRunnerConfig) (hooks : Hooks)
    (channel_nonce instance_uid : string) (open_ : bool) (n : nat) (s : InboundPc * Runner)
    : InboundPc * Runner :=
  match n with
  | O => s
  | S n =>
      match i ← inbound_answer hooks open_ s;
            inbound_poll cfg hooks channel_nonce instance_uid i s with
      | Some s => inbound_resume cfg hooks channel_nonce instance_uid open_ n s
      | None => s
      end
  end.

(** No handler waits more than twice. *)
Definition HANDLER_AWAITS : nat := 2.

(** The machine over the items a stream yields before it ends, each with whether
    the outbound channel is open when it is handled. *)
Fixpoint inbound_run (cfg : AgentRunnerConfig) (hooks : Hooks)
    (channel_nonce instance_uid : string) (stream : list (Result ServerMessage Status * bool))
    (s : InboundPc * Runner) : InboundPc * Runner :=
  match stream with
  | [] => default s (inbound_poll cfg hooks channel_nonce instance_uid (InItem None) s)
  | (item, open_) :: stream =>
      match inbound_poll cfg hooks channel_nonce instance_uid (InItem (Some item)) s with
      | Some s =>
          let s := inbound_resume cfg hooks channel_nonce instance_uid open_ HANDLER_AWAITS s in
          match s.1 with
          | IReturned _ => s
          | _ => inbound_run cfg hooks channel_nonce instance_uid stream s
          end
      | None => s
      end
  end.

(** The reader dropped by a shutdown after [n] items: waiting for the next one
    ([None]), or in the handler of the next one after [k] of its [await]s. *)
Definition inbound_cut (cfg : AgentRunnerConfig) (hooks : Hooks)
    (channel_nonce instance_uid : string) (n : nat) (inside : option nat)
    (stream : list (Result ServerMessage Status * bool)) (r : Runner) : Result () Error * Runner :=
  match read_inbound cfg hooks channel_nonce instance_uid (take n stream) r with
  | (Err e, r) => (Err e, r)
  | (Ok _, r) =>
      match inside, stream !! n with
      | Some k, Some (Ok msg, open_) =>
          match inbound_resume cfg hooks channel_nonce instance_uid open_ k
                  (inbound_start cfg hooks channel_nonce instance_uid msg r) with
          | (IReturned res, r) => (res, r)
          | (_, r) => (Ok tt, r)
          end
      | _, _ => (Ok tt, r)
      end
  end.

(** ** Run to the end *)

Implicit Types r : Runner.

(** One [await] passed. *)
Lemma inbound_resume_step cfg hooks nonce uid open_ n s i s' :
  inbound_answer hooks open_ s = Some i → inbound_poll cfg hooks nonce uid i s = Some s' →
  inbound_resume cfg hooks nonce uid open_ (S n) s =
  inbound_resume cfg hooks nonce uid open_ n s'.
Proof. intros Hi Hs. cbn [inbound_resume]. rewrite Hi. cbn [mbind option_bind]. by rewrite Hs. Qed.

(** The configuration arm from the verdict on. *)
Lemma config_applied_ack cfg hooks nonce uid open_ hash outcome r n :
  inbound_resume cfg hooks nonce uid open_ (S n) (config_applied hash outcome r) =
  (INext, match config_applied hash outcome r with
          | (IAck ack, r) => send open_ ack r
          | (_, r) => r
          end).
Proof. unfold config_applied. destruct outcome; cbn; by destruct n. Qed.

Lemma run_io_calls {A} (m : IO A) r : host_calls (run_io m r).2 = host_calls r.
Proof. unfold run_io. by destruct (m (world r)). Qed.

(** The machine passes the [await]s of one handler and does what the handler of
    [Runner] does. *)
Lemma inbound_resume_handler cfg hooks nonce uid open_ msg r n :
  inbound_resume cfg hooks nonce uid open_ (S (S n))
    (inbound_start cfg hooks nonce uid msg r) =
  match handle_message cfg hooks nonce uid open_ msg r with
  | (Ok _, r') => (INext, r')
  | (Err e, r') => (IReturned (Err e), r')
  end.
Proof.
  unfold inbound_start, handle_message.
  destruct (server_kind msg) as [[u|c|cr|reason| | |qs|u]|]; try done.
  - unfold on_config_update. destruct (cu_bundle u) as [b|].
    + pose proof (run_io_calls (save (in_state_dir (rc_state_dir cfg)) (cu_config_hash u) b) r) as Hc.
      destruct (config_applier hooks) as [apply|] eqn:Ea.
      * erewrite inbound_resume_step;
          [|unfold inbound_answer; cbn [fst snd]; rewrite Ea; reflexivity|reflexivity].
        cbn [fst snd host_calls call_host]. rewrite length_app, Nat.add_1_r. cbn [pred].
        rewrite config_applied_ack. by destruct (apply _ b).
      * by rewrite config_applied_ack.
    + by rewrite config_applied_ack.
  - unfold on_credential_rotation. destruct (str_is_empty (cr_instance_jwt cr)); [done|].
    erewrite inbound_resume_step by reflexivity.
    unfold jwt_locked. destruct (str_is_empty (cr_client_cert_pem cr)); [done|].
    destruct (run_io (read_stored_creds _) _) as [[stored|e] r2]; [|done].
    cbn. by destruct n.
  - unfold on_license_update. destruct (license_applier hooks); [|done]. by destruct n.
Qed.

(** The machine, polled from [await] to [await] until the stream ends, is
    [read_inbound]: same result, same final state. *)
Theorem inbound_machine_is_read_inbound cfg hooks nonce uid stream r :
  inbound_run cfg hooks nonce uid stream (INext, r) =
  let '(res, r') := read_inbound cfg hooks nonce uid stream r in (IReturned res, r').
Proof.
  revert r. induction stream as [|[[msg|st] open_] stream IH]; intros r; [done| |done].
  cbn [inbound_run read_inbound inbound_poll fst snd].
  unfold HANDLER_AWAITS. rewrite inbound_resume_handler.
  destruct (handle_message cfg hooks nonce uid open_ msg r) as [[[]|e] r1]; [apply IH|done].
Qed.

(** ** Cut in the middle *)

(** What a handler dropped at one of its [await]s can have changed, compared with
    the state [r] it started on and the state [r'] it would have ended in. *)
Record cut_between (r r' rk : Runner) : Prop := {
  cb_outbound : outbound rk = outbound r ∨ rk = r';
  cb_jwt : current_jwt (client rk) = current_jwt (client r) ∨
           current_jwt (client rk) = current_jwt (client r') ∧ world rk = world r';
  cb_hash : applied_config_hash rk = applied_config_hash r ∨
            applied_config_hash rk = applied_config_hash r' ∧ world rk = world r';
  cb_dek : payload_dek rk = payload_dek r ∨ rk = r';
  cb_tls : tls (client rk) = tls (client r) ∨ rk = r';
  cb_events : events rk = events r ∨ events rk = events r';
  cb_calls : host_calls rk = host_calls r ∨ host_calls rk = host_calls r'
}.

Lemma cut_end r rk : cut_between r rk rk.
Proof. split; auto. Qed.

Lemma cut_start r r' : cut_between r r' r.
Proof. split; auto. Qed.

(** At the acknowledgement of a configuration update all but the send is done. *)
Lemma cut_at_ack open_ hash outcome r r0 :
  outbound r = outbound r0 → client r = client r0 → payload_dek r = payload_dek r0 →
  cut_between r0 (match config_applied hash outcome r with
                  | (IAck ack, r) => send open_ ack r
                  | (_, r) => r
                  end) (config_applied hash outcome r).2.
Proof.
  intros Ho Hc Hd. unfold config_applied, run_io. destruct outcome; cbn [fst snd];
    destruct (String.eqb _ _ && _), open_; cbn; (split; cbn; rewrite ?Ho, ?Hc, ?Hd; auto).
Qed.

Lemma cut_config_update cfg hooks nonce uid open_ u r k :
  let msg := {| server_kind := Some (SConfigUpdate u) |} in
  cut_between r (handle_message cfg hooks nonce uid open_ msg r).2
    (inbound_resume cfg hooks nonce uid open_ k (inbound_start cfg hooks nonce uid msg r)).2.
Proof.
  intros msg. pose proof (inbound_resume_handler cfg hooks nonce uid open_ msg r) as Hall.
  destruct (handle_message cfg hooks nonce uid open_ msg r) as [res r'] eqn:Eh.
  assert (res = Ok tt) as -> by (by injection Eh). revert Hall. clear Eh.
  unfold inbound_start. cbn [server_kind msg]. set (hash := cu_config_hash u).
  assert (∀ r1 outcome, outbound r1 = outbound r → client r1 = client r →
    payload_dek r1 = payload_dek r →
    inbound_resume cfg hooks nonce uid open_ 1 (config_applied hash outcome r1) = (INext, r') →
    cut_between r r' (config_applied hash outcome r1).2) as Hack.
  { intros r1 outcome Ho Hc Hd E. rewrite config_applied_ack in E. injection E as <-.
    by apply cut_at_ack. }
  destruct (cu_bundle u) as [b|].
  - unfold run_io. destruct (save _ _ b (world r)) as [res w]. cbn [snd].
    destruct (config_applier hooks) as [apply|] eqn:Ea.
    + intros Hall. destruct k as [|[|k]]; [| |by rewrite (Hall k); apply cut_end].
      * cbn [inbound_resume snd]. specialize (Hall 0%nat).
        erewrite inbound_resume_step in Hall;
          [|unfold inbound_answer; cbn [fst snd]; rewrite Ea; reflexivity|reflexivity].
        rewrite config_applied_ack in Hall. injection Hall as <-.
        split; cbn; auto. right. unfold config_applied, run_io. cbn.
        by destruct (apply _ b), (_ && _), open_.
      * specialize (Hall 0%nat).
        erewrite inbound_resume_step in Hall;
          [|unfold inbound_answer; cbn [fst snd]; rewrite Ea; reflexivity|reflexivity].
        erewrite inbound_resume_step;
          [|unfold inbound_answer; cbn [fst snd]; rewrite Ea; reflexivity|reflexivity].
        by apply Hack.
    + intros Hall. specialize (Hall 0%nat).
      rewrite config_applied_ack in Hall.
      destruct k; [apply Hack; try done; by rewrite config_applied_ack|].
      rewrite config_applied_ack, Hall. apply cut_end.
  - intros Hall. specialize (Hall 0%nat).
    rewrite config_applied_ack in Hall.
    destruct k; [apply Hack; try done; by rewrite config_applied_ack|].
    rewrite config_applied_ack, Hall. apply cut_end.
Qed.

Lemma cut_rotation cfg hooks nonce uid open_ cr r k :
  let msg := {| server_kind := Some (SCredentialRotation cr) |} in
  cut_between r (handle_message cfg hooks nonce uid open_ msg r).2
    (inbound_resume cfg hooks nonce uid open_ k (inbound_start cfg hooks nonce uid msg r)).2.
Proof.
  intros msg. destruct k as [|[|k]].
  - unfold inbound_start. cbn [server_kind msg inbound_resume]. destruct (str_is_empty _); apply cut_start.
  - unfold inbound_start, handle_message, on_credential_rotation. cbn [server_kind msg].
    destruct (str_is_empty (cr_instance_jwt cr)); [apply cut_start|].
    erewrite inbound_resume_step by reflexivity. cbn [inbound_resume]. unfold jwt_locked.
    destruct (str_is_empty (cr_client_cert_pem cr)); [apply cut_end|].
    unfold run_io. destruct (persist_rotated_creds _ _ _ _ _ _ _) as [res w]. cbn.
    destruct (read_stored_creds _ w) as [[stored|e] w']; [|apply cut_end].
    split; cbn; auto.
  - rewrite inbound_resume_handler.
    destruct (handle_message _ _ _ _ _ _ _) as [[[]|e] r']; apply cut_end.
Qed.

(** C17: a handler that a shutdown drops at one of its [await]s tears nothing apart:
    the acknowledgement, the payload key and the TLS material are as before or the
    handler was already through; a replaced token has been persisted as far as it
    ever will be; a recorded configuration hash is the acknowledged one, with its
    bundle on disk; and no handler waits more than twice. *)
Theorem cancelled_handler_is_consistent cfg hooks nonce uid open_ msg r k :
  let s := inbound_resume cfg hooks nonce uid open_ k (inbound_start cfg hooks nonce uid msg r) in
  cut_between r (handle_message cfg hooks nonce uid open_ msg r).2 s.2 ∧
  ((HANDLER_AWAITS ≤ k)%nat → s.2 = (handle_message cfg hooks nonce uid open_ msg r).2 ∧
     match s.1 with INext | IReturned _ => True | _ => False end).
Proof.
  cbv zeta. split.
  - destruct msg as [[[u|c|cr|reason| | |qs|u]|]].
    + apply cut_config_update.
    + destruct k; apply cut_start.
    + apply cut_rotation.
    + destruct k; apply cut_start.
    + destruct k; apply cut_start.
    + destruct k; apply cut_start.
    + destruct k; apply cut_end.
    + unfold handle_message, on_license_update, inbound_start. cbn [server_kind].
      destruct (license_applier hooks); [|destruct k; apply cut_end].
      destruct k as [|[|k]]; apply cut_end.
    + destruct k; apply cut_start.
  - intros Hk. destruct k as [|[|k]]; unfold HANDLER_AWAITS in Hk; [lia..|].
    rewrite inbound_resume_handler.
    by destruct (handle_message _ _ _ _ _ _ _) as [[[]|e] r'].
Qed.
End inbound.
