(* ===== verification/Control.v ===== *)
(** * The control state of a runner

    What [read_inbound] works on, as opposed to what the background tasks of a
    session touch: the disk and clock, the client, the two pushed slots, the applied
    hash, the host calls, the events other than heartbeats, and the queued
    acknowledgements.  Two runners with the same control state are equivalent, and
    the reader respects the equivalence; a sequence of its steps is [read_inbound],
    or [inbound_cut] when it was dropped in between. *)

From stdpp Require Import base list strings gmap.
From Stdlib Require Import ZArith QArith Lia Morphisms.
From S2P Require Import Prelude Time Proto Text Serde Errors Token.
From S2P Require Import Metrics Logs Crypto Dek Fs Lkg License Creds Client Runner Inbound.

Local Open Scope string_scope.

Definition is_ack (m : AgentMessage) : bool :=
  match kind m with Some (KConfigAck _) => true | _ => false end.

(** An event other than a heartbeat. *)
Definition is_control_event (e : AgentEvent) : bool :=
  match e with HeartbeatSent _ => false | _ => true end.

Section equivalence.
Context `{!BundleCodec}.
Context {Channel QuotaStatus : Type}.
Abbreviation Runner := (@Runner _ Channel QuotaStatus).
Implicit Types r : Runner.

Record Control := {
  c_world : World;
  c_client : AgentClient Channel;
  c_quota : option QuotaStatus;
  c_dek : option DekHandle;
  c_hash : option string;
  c_calls : list (@HostCall _);
  c_events : list AgentEvent;
  c_acks : list AgentMessage
}.

Definition control r : Control := {|
  c_world := world r; c_client := client r; c_quota := quota_status r; c_dek := payload_dek r;
  c_hash := applied_config_hash r; c_calls := host_calls r;
  c_events := List.filter is_control_event (events r);
  c_acks := List.filter is_ack (outbound r)
|}.

(** ** The equivalence *)

#[export] Instance runner_equiv : Equiv Runner := λ r r', control r = control r'.

#[export] Instance runner_equivalence : Equivalence (≡@{Runner}).
Proof. split; unfold equiv, runner_equiv; [done|by intros x y|intros x y z; congruence]. Qed.
End equivalence.

(** Opens an equivalence between runners into equations between their parts. *)
Ltac open_control H :=
  let Hw := fresh "Hw" in let Hc := fresh "Hc" in let Hq := fresh "Hq" in
  let Hd := fresh "Hd" in let Hh := fresh "Hh" in let Hcalls := fresh "Hcalls" in
  let He := fresh "He" in let Ha := fresh "Ha" in
  unfold equiv, runner_equiv, control in H; injection H as Hw Hc Hq Hd Hh Hcalls He Ha.

Ltac solve_control :=
  repeat intro; subst;
  match goal with H : _ ≡ _ |- _ => open_control H end;
  unfold equiv, runner_equiv, control; 
  f_equal; cbn; rewrite ?List.filter_app; cbn; congruence.

Section control.
Context `{!Json, !Base64, !Rfc3339, !Aead, !Hkdf, !BundleCodec, !Grpc}.
Context {Channel QuotaStatus : Type}.
Abbreviation Runner := (@Runner _ Channel QuotaStatus).
Abbreviation InboundPc := (@InboundPc _).
Abbreviation InboundIn := (@InboundIn _ QuotaStatus).
Implicit Types (r : Runner) (pc : InboundPc) (s : InboundPc * Runner) (i : InboundIn)
  (ins : list InboundIn).

#[export] Instance world_proper : Proper ((≡) ==> (=)) (@world _ Channel QuotaStatus).
Proof. intros r r' H'. by open_control H'. Qed.
#[export] Instance client_proper : Proper ((≡) ==> (=)) (@client _ Channel QuotaStatus).
Proof. intros r r' H'. by open_control H'. Qed.
#[export] Instance payload_dek_proper :
  Proper ((≡) ==> (=)) (@payload_dek _ Channel QuotaStatus).
Proof. intros r r' H'. by open_control H'. Qed.
#[export] Instance host_calls_proper :
  Proper ((≡) ==> (=)) (@host_calls _ Channel QuotaStatus).
Proof. intros r r' H'. by open_control H'. Qed.
Lemma acks_equiv r r' :
  r ≡ r' → List.filter is_ack (outbound r) = List.filter is_ack (outbound r').
Proof. intros H'. by open_control H'. Qed.

#[export] Instance with_world_proper w : Proper ((≡) ==> (≡)) (@with_world _ Channel QuotaStatus w).
Proof. solve_control. Qed.
#[export] Instance with_client_proper c : Proper ((≡) ==> (≡)) (@with_client _ Channel QuotaStatus c).
Proof. solve_control. Qed.
#[export] Instance with_dek_proper d : Proper ((≡) ==> (≡)) (@with_dek _ Channel QuotaStatus d).
Proof. solve_control. Qed.
#[export] Instance with_quota_proper q : Proper ((≡) ==> (≡)) (@with_quota _ Channel QuotaStatus q).
Proof. solve_control. Qed.
#[export] Instance with_applied_proper h : Proper ((≡) ==> (≡)) (@with_applied _ Channel QuotaStatus h).
Proof. solve_control. Qed.
#[export] Instance emit_proper e : Proper ((≡) ==> (≡)) (@emit _ Channel QuotaStatus e).
Proof. solve_control. Qed.
#[export] Instance call_host_proper h : Proper ((≡) ==> (≡)) (@call_host _ Channel QuotaStatus h).
Proof. solve_control. Qed.
#[export] Instance send_proper o m : Proper ((≡) ==> (≡)) (@send _ Channel QuotaStatus o m).
Proof. destruct o; [solve_control|]. by intros r r' H'. Qed.

(** What leaves the control state alone: the buffers, heartbeats, and messages that
    are no acknowledgement. *)
Lemma with_buffers_equiv m l r : with_buffers m l r ≡ r.
Proof. done. Qed.
Lemma emit_heartbeat_equiv n r : emit (HeartbeatSent n) r ≡ r.
Proof. unfold equiv, runner_equiv, control. f_equal. cbn. by rewrite List.filter_app, app_nil_r. Qed.
Lemma send_equiv o m r : is_ack m = false → send o m r ≡ r.
Proof.
  intros Hm. destruct o; [|done]. unfold equiv, runner_equiv, control. f_equal. cbn.
  rewrite List.filter_app. simpl. by rewrite Hm, app_nil_r.
Qed.

(** ** The reader respects it *)

Lemma run_io_proper {A} (m : IO A) r r' :
  r ≡ r' → (run_io m r).1 = (run_io m r').1 ∧ (run_io m r).2 ≡ (run_io m r').2.
Proof.
  intros H'. unfold run_io. rewrite <- (world_proper _ _ H').
  destruct (m (world r)) as [res w]. split; [done|]. by apply with_world_proper.
Qed.

#[export] Instance run_io_snd_proper {A} (m : IO A) :
  Proper ((≡) ==> (≡)) (λ r, (run_io m r).2).
Proof. intros r r' H'. by apply run_io_proper. Qed.

(** Equal positions of the reader over equivalent runners. *)
Definition same_state (s s' : InboundPc * Runner) : Prop := s.1 = s'.1 ∧ s.2 ≡ s'.2.

#[export] Instance config_applied_proper hash outcome :
  Proper ((≡) ==> same_state) (config_applied (Channel := Channel) (QuotaStatus := QuotaStatus) hash outcome).
Proof.
  intros r r' H'. unfold config_applied, same_state, run_io, utc_now. cbn [fst snd].
  destruct outcome as [[]|e]; cbn [fst snd]; destruct (String.eqb _ _ && _); cbn;
    rewrite <- (world_proper _ _ H'); (split; [done|]); solve_control.
Qed.

#[export] Instance dek_rotated_proper cr :
  Proper ((≡) ==> (≡)) (dek_rotated (Channel := Channel) (QuotaStatus := QuotaStatus) cr).
Proof. intros r r' H'. unfold dek_rotated. rewrite (payload_dek_proper _ _ H'). by apply with_dek_proper. Qed.

#[export] Instance jwt_locked_proper cfg cr :
  Proper ((≡) ==> same_state) (jwt_locked (Channel := Channel) (QuotaStatus := QuotaStatus) cfg cr).
Proof.
  intros r r' H'. unfold jwt_locked. cbv zeta.
  set (r1 := (run_io _ _).2). set (r1' := (run_io _ _).2).
  assert (r1 ≡ r1') as H1'.
  { apply run_io_snd_proper. rewrite (client_proper _ _ H'). by apply with_client_proper. }
  clearbody r1 r1'. destruct (str_is_empty _); [split; [done|by apply dek_rotated_proper]|].
  destruct (run_io_proper (read_stored_creds (rc_state_dir cfg)) _ _ H1') as [E1 E2].
  destruct (run_io _ r1) as [[st|e] r2], (run_io _ r1') as [[st'|e'] r2']; simplify_eq/=;
    (split; [done|]); [done|by apply dek_rotated_proper].
Qed.

#[export] Instance inbound_start_proper cfg hooks nonce uid msg :
  Proper ((≡) ==> same_state) (inbound_start (Channel := Channel) (QuotaStatus := QuotaStatus) cfg hooks nonce uid msg).
Proof.
  intros r r' H'. unfold inbound_start.
  destruct (server_kind msg) as [[up|c|cr|reason| | |qs|up]|]; try by split.
  - destruct (cu_bundle up) as [b|]; [|by apply config_applied_proper].
    destruct (config_applier hooks).
    + split; [done|]. by apply call_host_proper, run_io_snd_proper.
    + by apply config_applied_proper, run_io_snd_proper.
  - by destruct (str_is_empty _).
  - split; [done|]. by apply with_quota_proper.
  - destruct (license_applier hooks); (split; [done|]);
      [by apply call_host_proper, run_io_snd_proper|by apply run_io_snd_proper].
Qed.

(** One step of the reader on equivalent states. *)
Lemma inbound_poll_proper cfg hooks nonce uid i s s' s1 :
  same_state s s' → inbound_poll cfg hooks nonce uid i s = Some s1 →
  ∃ s1', inbound_poll cfg hooks nonce uid i s' = Some s1' ∧ same_state s1 s1'.
Proof.
  destruct s as [pc r], s' as [pc' r']. intros [E H']. simpl in E, H'. subst pc'.
  unfold inbound_poll. cbn [fst snd].
  destruct pc, i; try done; repeat case_match; intros [= <-]; eexists; (split; [reflexivity|]);
    try by split.
  - by apply inbound_start_proper.
  - by apply config_applied_proper.
  - split; [done|]. by apply send_proper.
  - by apply jwt_locked_proper.
  - split; [done|]. apply dek_rotated_proper. rewrite (client_proper _ _ H'). by apply with_client_proper.
Qed.

(** ** Sequences of steps *)

(** The reader fed with the ends of its waits. *)
Fixpoint poll_run (cfg : AgentRunnerConfig) (hooks : Hooks) (nonce uid : string)
    (ins : list InboundIn) (s : InboundPc * Runner) : option (InboundPc * Runner) :=
  match ins with
  | [] => Some s
  | i :: ins => s ← inbound_poll cfg hooks nonce uid i s; poll_run cfg hooks nonce uid ins s
  end.

Lemma poll_run_snoc cfg hooks nonce uid ins i s :
  poll_run cfg hooks nonce uid (ins ++ [i])%list s =
  s ← poll_run cfg hooks nonce uid ins s; inbound_poll cfg hooks nonce uid i s.
Proof.
  revert s. induction ins as [|j ins IH]; intros s; cbn.
  - by destruct (inbound_poll _ _ _ _ i s).
  - by destruct (inbound_poll _ _ _ _ j s); cbn.
Qed.

(** The hooks with the applier's answers replaced by those of an oracle. *)
Definition with_answers (hooks : @Hooks _) (ans : nat → Result () string) : @Hooks _ :=
  {| config_applier := (λ _ n _, ans n) <$> config_applier hooks;
     license_applier := license_applier hooks |}.

(** The reader asks its hooks only whether they are there. *)
Lemma inbound_start_answers cfg hooks ans nonce uid msg r :
  inbound_start cfg (with_answers hooks ans) nonce uid msg r = inbound_start cfg hooks nonce uid msg r.
Proof. unfold inbound_start, with_answers. simpl. by destruct (config_applier hooks). Qed.

Lemma inbound_poll_answers cfg hooks ans nonce uid i s :
  inbound_poll cfg (with_answers hooks ans) nonce uid i s = inbound_poll cfg hooks nonce uid i s.
Proof.
  unfold inbound_poll. destruct s as [[] r], i; try done. cbn [fst snd].
  repeat case_match; try done. by rewrite inbound_start_answers.
Qed.

Section resume.
Context (cfg : AgentRunnerConfig) (hooks : @Hooks _) (nonce uid : string) (open_ : bool).
Abbreviation resume := (inbound_resume cfg hooks nonce uid open_).

(** A wait more. *)
Lemma inbound_resume_snoc k (s0 s : InboundPc * Runner) i s1 :
  resume k s0 = s → inbound_answer hooks open_ s = Some i →
  inbound_poll cfg hooks nonce uid i s = Some s1 → resume (S k) s0 = s1.
Proof.
  revert s0. induction k as [|k IH]; intros s0 E Hi Hp.
  - cbn in E. subst s0. erewrite inbound_resume_step; [reflexivity|done|done].
  - cbn [inbound_resume] in E |- *.
    destruct (i0 ← inbound_answer hooks open_ s0; inbound_poll cfg hooks nonce uid i0 s0)
      as [s2|] eqn:E2.
    + exact (IH s2 E Hi Hp).
    + subst s0. rewrite Hi in E2. cbn in E2. congruence.
Qed.

(** Nothing more to wait for. *)
Definition handler_done (pc : InboundPc) : bool :=
  match pc with INext | IReturned _ => true | _ => false end.

Lemma inbound_resume_done k s : handler_done s.1 = true → resume k s = s.
Proof. destruct k; [done|]. by destruct s as [[] r]. Qed.

Lemma inbound_resume_stays k j (s0 s : InboundPc * Runner) :
  resume k s0 = s → handler_done s.1 = true → resume (k + j) s0 = s.
Proof.
  revert s0. induction k as [|k IH]; intros s0 E Hd.
  - cbn in E. subst s0. by apply inbound_resume_done.
  - cbn [inbound_resume Nat.add] in E |- *.
    destruct (i0 ← inbound_answer hooks open_ s0; inbound_poll cfg hooks nonce uid i0 s0); [by apply IH|done].
Qed.

(** A handler that was resumed to its end is [handle_message]. *)
Lemma inbound_resume_complete k msg r s :
  resume k (inbound_start cfg hooks nonce uid msg r) = s → handler_done s.1 = true →
  match s.1 with
  | IReturned res => ∃ e, res = Err e ∧ handle_message cfg hooks nonce uid open_ msg r = (Err e, s.2)
  | _ => handle_message cfg hooks nonce uid open_ msg r = (Ok tt, s.2)
  end.
Proof.
  intros E Hd. pose proof (inbound_resume_stays k 2 _ _ E Hd) as E2.
  rewrite Nat.add_comm in E2. cbn [Nat.add] in E2. rewrite inbound_resume_handler in E2.
  clear E. destruct (handle_message _ _ _ _ _ _ _) as [[[]|e] r']; subst s; [done|]. by exists e.
Qed.
End resume.

Lemma read_inbound_snoc cfg hooks nonce uid stream item o r r1 :
  read_inbound cfg hooks nonce uid stream r = (Ok tt, r1) →
  read_inbound cfg hooks nonce uid (stream ++ [(item, o)])%list r =
  match item with
  | Err st => (Err (from_cause (CStatus st)), r1)
  | Ok msg => handle_message cfg hooks nonce uid o msg r1
  end.
Proof.
  revert r. induction stream as [|[[msg|st] o'] stream IH]; intros r; cbn [app read_inbound].
  - intros [= <-]. destruct item as [msg|st]; [|done].
    by destruct (handle_message _ _ _ _ _ _ _) as [[[]|e] r'].
  - destruct (handle_message _ _ _ _ _ _ _) as [[[]|e] r']; [apply IH|done].
  - done.
Qed.

(** ** What the reader was given *)

(** Whether the outbound channel was open when the handler that has just begun queued
    its acknowledgement. *)
Fixpoint sent_open (ins : list InboundIn) : bool :=
  match ins with
  | [] | InItem _ :: _ => true
  | InSent open_ :: _ => open_
  | _ :: ins => sent_open ins
  end.

(** The items of the stream, as [read_inbound] takes them. *)
Fixpoint received (ins : list InboundIn)
    : list (Result (@ServerMessage _ QuotaStatus) Status * bool) :=
  match ins with
  | [] => []
  | InItem (Some item) :: ins => (item, sent_open ins) :: received ins
  | _ :: ins => received ins
  end.

(** The waits that ended since the last item. *)
Definition count_wait (k : nat) (i : InboundIn) : nat := match i with InItem _ => 0%nat | _ => S k end.
Definition waits (ins : list InboundIn) : nat := fold_left count_wait ins 0%nat.

(** Where the reader is, for [inbound_cut]: after so many of the [await]s in the
    handler of the last item. *)
Definition cut_of (ins : list InboundIn) : nat * option nat :=
  match received ins with
  | [] => (0%nat, None)
  | _ => (pred (length (received ins)), Some (waits ins))
  end.

Definition is_item (i : InboundIn) : bool := match i with InItem _ => true | _ => false end.
Definition is_sent (i : InboundIn) : bool := match i with InSent _ => true | _ => false end.

Lemma received_app pre x post :
  received (pre ++ InItem x :: post)%list = (received pre ++ received (InItem x :: post))%list.
Proof.
  assert (∀ pre, sent_open (pre ++ InItem x :: post)%list = sent_open pre) as Hs.
  { intros pre'. induction pre' as [|[] pre' IH]; cbn; done. }
  induction pre as [|i pre IH]; [done|]. destruct i as [[item|]| | | |]; cbn [app received] in *;
    rewrite ?IH, ?Hs; done.
Qed.

Lemma received_waits post : forallb (λ i, negb (is_item i)) post = true → received post = [].
Proof. induction post as [|[] post IH]; cbn; intros Hp; try done; by apply IH. Qed.

Lemma waits_app pre x post :
  forallb (λ i, negb (is_item i)) post = true → waits (pre ++ InItem x :: post)%list = length post.
Proof.
  intros Hp. unfold waits. rewrite fold_left_app. cbn [fold_left].
  change (count_wait _ (InItem x)) with 0%nat. change (length post) with (0 + length post)%nat.
  generalize 0%nat as k.
  induction post as [|[] post IH]; cbn in *; intros k; try done; rewrite IH by done; cbn; lia.
Qed.

Lemma sent_open_snoc post o :
  forallb (λ i, negb (is_item i) && negb (is_sent i)) post = true →
  sent_open (post ++ [InSent o])%list = o.
Proof. induction post as [|[] post IH]; cbn; intros Hp; try done; by apply IH. Qed.

(** The answers of the applier, each with the number of its call. *)
Definition answer_at (i : InboundIn) s : list (nat * Result () string) :=
  match i with InApplied out => [(pred (length (host_calls s.2)), out)] | _ => [] end.

Fixpoint answer_log (cfg : AgentRunnerConfig) (hooks : Hooks) (nonce uid : string)
    (ins : list InboundIn) s : list (nat * Result () string) :=
  match ins with
  | [] => []
  | i :: ins =>
      (answer_at i s ++
       from_option (answer_log cfg hooks nonce uid ins) [] (inbound_poll cfg hooks nonce uid i s))%list
  end.

Lemma answer_log_snoc cfg hooks nonce uid ins i s s1 :
  poll_run cfg hooks nonce uid ins s = Some s1 →
  answer_log cfg hooks nonce uid (ins ++ [i])%list s =
    (answer_log cfg hooks nonce uid ins s ++ answer_at i s1)%list.
Proof.
  revert s. induction ins as [|j ins IH]; intros s; cbn [poll_run app answer_log].
  - intros [= ->]. destruct (inbound_poll _ _ _ _ i s1); cbn; by rewrite app_nil_r.
  - intros (s2 & E & Hr)%bind_Some. rewrite E. cbn. by rewrite (IH s2 Hr), (assoc_L app).
Qed.

(** A host that gave these answers. *)
Definition agrees (ans : nat → Result () string) (log : list (nat * Result () string)) : Prop :=
  Forall (λ p, ans p.1 = p.2) log.

Definition answers_of (log : list (nat * Result () string)) (n : nat) : Result () string :=
  default (Ok tt) ((list_to_map log : gmap nat (Result () string)) !! n).

Lemma answers_of_agrees log : NoDup log.*1 → agrees (answers_of log) log.
Proof.
  intros Hn. apply Forall_forall. intros [n out] Hin. unfold answers_of. cbn.
  by rewrite (elem_of_list_to_map_1 log n out Hn Hin).
Qed.

Lemma agrees_app ans log log' : agrees ans (log ++ log')%list ↔ agrees ans log ∧ agrees ans log'.
Proof. apply Forall_app. Qed.

(** ** The reader's steps are [read_inbound] on what it was given *)

(** The reader has got from [r] to [s] on [ins]: it waits for the first item; it is in
    the handler of the last item, or past it; or the stream has ended. *)
Inductive reads (cfg : AgentRunnerConfig) (hooks : Hooks) (nonce uid : string) r :
    list InboundIn → InboundPc * Runner → Prop :=
| reads_nothing : reads cfg hooks nonce uid r [] (INext, r)
| reads_message pre msg post r1 s :
    read_inbound cfg hooks nonce uid (received pre) r = (Ok tt, r1) →
    forallb (λ i, negb (is_item i)) post = true →
    (∀ o, forallb (λ i, negb (is_sent i)) post = true ∨ o = sent_open post →
       inbound_resume cfg hooks nonce uid o (length post)
         (inbound_start cfg hooks nonce uid msg r1) = s) →
    (forallb (λ i, negb (is_sent i)) post = true ∨ handler_done s.1 = true) →
    reads cfg hooks nonce uid r (pre ++ InItem (Some (Ok msg)) :: post) s
| reads_end pre item res r1 :
    read_inbound cfg hooks nonce uid (received (pre ++ [InItem item])) r = (res, r1) →
    reads cfg hooks nonce uid r (pre ++ [InItem item]) (IReturned res, r1).

Lemma received_message pre msg post :
  forallb (λ i, negb (is_item i)) post = true →
  received (pre ++ InItem (Some (Ok msg)) :: post)%list = (received pre ++ [(Ok msg, sent_open post)])%list.
Proof. intros Hp. rewrite received_app. cbn [received]. by rewrite (received_waits post). Qed.

(** A reader that is between messages, or has returned. *)
Lemma reads_done cfg hooks nonce uid r ins s :
  reads cfg hooks nonce uid r ins s → handler_done s.1 = true →
  read_inbound cfg hooks nonce uid (received ins) r =
    (match s.1 with IReturned res => res | _ => Ok tt end, s.2).
Proof.
  intros [|pre msg post r1 s' Hr Hp Hs Hd|pre item res r1 Hr] Hdone; [done| |done].
  pose proof (inbound_resume_complete _ _ _ _ _ _ _ _ _ (Hs (sent_open post) (or_intror eq_refl)) Hdone) as Hm.
  rewrite received_message by done. rewrite (read_inbound_snoc _ _ _ _ _ _ _ _ _ Hr).
  destruct s' as [[] r']; try done. cbn [fst snd] in *. by destruct Hm as (e & -> & ->).
Qed.

(** A reader dropped where it waits. *)
Lemma reads_dropped cfg hooks nonce uid r ins s :
  reads cfg hooks nonce uid r ins s → (∀ res, s.1 ≠ IReturned res) →
  inbound_cut cfg hooks nonce uid (cut_of ins).1 (cut_of ins).2 (received ins) r = (Ok tt, s.2).
Proof.
  intros [|pre msg post r1 s' Hr Hp Hs Hd|pre item res r1 Hr] Hw; [done| |by destruct (Hw res)].
  assert (cut_of (pre ++ InItem (Some (Ok msg)) :: post)%list =
    (length (received pre), Some (length post))) as E.
  { unfold cut_of. rewrite waits_app, received_message by done. rewrite length_app. cbn [length].
    rewrite Nat.add_1_r. by destruct (received pre). }
  rewrite E, received_message by done. cbn [fst snd]. unfold inbound_cut.
  rewrite take_app_length, Hr, list_lookup_middle, (Hs (sent_open post)) by auto.
  destruct s' as [[] r']; try done. by destruct (Hw res).
Qed.

(** A message arrives. *)
Lemma reads_item cfg hooks nonce uid r ins r1 item s1 :
  reads cfg hooks nonce uid r ins (INext, r1) →
  inbound_poll cfg hooks nonce uid (InItem item) (INext, r1) = Some s1 →
  reads cfg hooks nonce uid r (ins ++ [InItem item]) s1.
Proof.
  intros Hr Hp. pose proof (reads_done _ _ _ _ _ _ _ Hr eq_refl) as Hd. cbn [fst snd] in Hd.
  cbn in Hp. destruct item as [[msg|st]|]; injection Hp as <-.
  - eapply reads_message; [done|done| |by left]. done.
  - apply reads_end. rewrite received_app. cbn. by rewrite (read_inbound_snoc _ _ _ _ _ _ _ _ _ Hd).
  - apply reads_end. rewrite received_app. cbn. by rewrite app_nil_r.
Qed.

(** A wait inside a handler ends. *)
Lemma reads_wait cfg hooks nonce uid r ins s i s1 :
  handler_done s.1 = false → reads cfg hooks nonce uid r ins s → is_item i = false →
  match i with
  | InSent o => inbound_answer hooks o s = Some i ∧ handler_done s1.1 = true
  | _ => ∀ o, inbound_answer hooks o s = Some i
  end →
  inbound_poll cfg hooks nonce uid i s = Some s1 → reads cfg hooks nonce uid r (ins ++ [i]) s1.
Proof.
  intros Hd Hreads. revert Hd.
  destruct Hreads as [|pre msg post r1 s' Hr Hp Hs Hsent|pre item res r1 Hr]; intros Hd Hi Ha Hpoll;
    try discriminate Hd.
  destruct Hsent as [Hsent|Hsent]; [|congruence].
  rewrite <- (assoc_L app). cbn [app]. apply (reads_message _ _ _ _ _ _ _ _ r1); [done| | |].
  - rewrite forallb_app, Hp. cbn. by rewrite Hi.
  - intros o Ho. rewrite length_app, Nat.add_1_r.
    eapply inbound_resume_snoc; [by apply Hs; left| |done].
    destruct i as [item|out|o'| |]; try apply Ha; try done.
    destruct Ho as [Ho|Ho].
    + rewrite forallb_app in Ho. cbn in Ho. by rewrite andb_false_r in Ho.
    + rewrite sent_open_snoc in Ho; [by subst o; apply Ha|].
      clear -Hp Hsent. induction post as [|j post IH]; [done|]. cbn in *.
      apply andb_prop in Hp as [-> Hp], Hsent as [-> Hsent]. by apply IH.
  - rewrite forallb_app, Hsent. destruct i; try done; auto. right. apply Ha.
Qed.

(** The calls of the applier that have been answered. *)
Definition answered s : nat :=
  match s.1 with IApply _ _ => pred (length (host_calls s.2)) | _ => length (host_calls s.2) end.

(** ** Any sequence of steps is sequential *)

(** A call of the applier that waits for its answer was made. *)
Definition apply_called (hooks : @Hooks _) s : Prop :=
  match s.1 with
  | IApply _ _ => host_calls s.2 ≠ [] ∧ is_Some (config_applier hooks)
  | _ => True
  end.

Lemma config_applied_calls hash outcome r :
  host_calls (config_applied hash outcome r).2 = host_calls r ∧
  ∃ ack, (config_applied hash outcome r).1 = IAck ack.
Proof.
  unfold config_applied. cbv zeta. destruct outcome; cbn [fst snd];
    rewrite run_io_calls; destruct (String.eqb _ _ && _); split; try done; by eexists.
Qed.

Lemma jwt_locked_calls cfg cr r :
  host_calls (jwt_locked cfg cr r).2 = host_calls r ∧
  match (jwt_locked cfg cr r).1 with INext | ISetTls _ _ => True | _ => False end.
Proof.
  unfold jwt_locked. cbv zeta. set (r1 := (run_io _ _).2).
  assert (host_calls r1 = host_calls r) as <- by (unfold r1; by rewrite run_io_calls).
  clearbody r1. pose proof (run_io_calls (read_stored_creds (rc_state_dir cfg)) r1) as Hc.
  destruct (str_is_empty _); [done|]. by destruct (run_io _ r1) as [[st|e] r2].
Qed.

Lemma inbound_start_calls cfg hooks nonce uid msg r :
  let s := inbound_start cfg hooks nonce uid msg r in
  (length (host_calls r) ≤ answered s)%nat ∧ apply_called hooks s.
Proof.
  unfold inbound_start, answered, apply_called. cbv zeta.
  assert (∀ hash r1, host_calls r1 = host_calls r →
    let s := config_applied hash (Ok tt) r1 in
    (length (host_calls r) ≤ answered s)%nat ∧ apply_called hooks s) as Hca.
  { intros hash r1 <-. unfold answered, apply_called. cbv zeta.
    destruct (config_applied_calls hash (Ok tt) r1) as [-> [ack ->]]. by split. }
  destruct (server_kind msg) as [[up|c|cr|reason| | |qs|up]|]; cbn [fst snd]; try by split.
  - destruct (cu_bundle up) as [b|]; [|by apply Hca].
    destruct (config_applier hooks); cbn [fst snd host_calls call_host]; [|apply Hca, run_io_calls].
    rewrite length_app, run_io_calls, Nat.add_1_r. split_and!; [done|by destruct (host_calls r)|done].
  - destruct (str_is_empty _); by split.
  - destruct (license_applier hooks); cbn [fst snd host_calls call_host];
      rewrite ?length_app, run_io_calls; (split; [lia|done]).
Qed.

(** Answers are never taken back. *)
Lemma inbound_poll_calls cfg hooks nonce uid i s s1 :
  inbound_poll cfg hooks nonce uid i s = Some s1 →
  (answered s ≤ answered s1)%nat ∧ (apply_called hooks s → apply_called hooks s1).
Proof.
  destruct s as [pc r]. unfold inbound_poll. cbn [fst snd].
  destruct pc as [|h b|ack|cr|cr m|d|res], i as [[[msg|st]|]|out|o| |]; intros [= <-]; cbn [answered fst snd];
    try (split; [reflexivity|done]).
  - destruct (inbound_start_calls cfg hooks nonce uid msg r) as [? ?]. by split.
  - unfold answered, apply_called. destruct (config_applied_calls h out r) as [-> [ack ->]].
    split; [cbn; lia|done].
  - split; [by destruct o|done].
  - unfold answered, apply_called. destruct (jwt_locked_calls cfg cr r) as [-> Hpc].
    by destruct (jwt_locked cfg cr r).1.
Qed.

(** One step. *)
Lemma reads_step cfg hooks nonce uid r ins s i s1 ans :
  apply_called hooks s → inbound_poll cfg hooks nonce uid i s = Some s1 →
  agrees ans (answer_at i s) → reads cfg (with_answers hooks ans) nonce uid r ins s →
  reads cfg (with_answers hooks ans) nonce uid r (ins ++ [i])%list s1.
Proof.
  intros Hc Hp Ha Hr. rewrite <- (inbound_poll_answers _ _ ans) in Hp. destruct s as [pc r1].
  destruct pc as [|h b|ack|cr|cr m|d|res], i as [item|out|o| |]; try discriminate Hp.
  - by eapply reads_item.
  - refine (reads_wait _ _ _ _ _ _ _ _ _ _ Hr _ _ Hp); try done. intros o.
    destruct Hc as [_ [apply Ea]]. apply Forall_cons in Ha as [Ha _]. cbn in Ha |- *.
    rewrite Ea. cbn. by rewrite Ha.
  - refine (reads_wait _ _ _ _ _ _ _ _ _ _ Hr _ _ Hp); try done. split; [done|]. by injection Hp as <-.
  - by refine (reads_wait _ _ _ _ _ _ _ _ _ _ Hr _ _ Hp).
  - by refine (reads_wait _ _ _ _ _ _ _ _ _ _ Hr _ _ Hp).
  - by refine (reads_wait _ _ _ _ _ _ _ _ _ _ Hr _ _ Hp).
Qed.

(** The reader's steps, however its waits ended, are [read_inbound] on the items it
    was given, with a host that gives the answers the waits ended with; and the
    answers are those to different calls, made since it began. *)
Lemma poll_run_reads cfg hooks nonce uid ins r s :
  poll_run cfg hooks nonce uid ins (INext, r) = Some s →
  let log := answer_log cfg hooks nonce uid ins (INext, r) in
  (length (host_calls r) ≤ answered s)%nat ∧ apply_called hooks s ∧
  NoDup log.*1 ∧ Forall (λ n, (length (host_calls r) ≤ n < answered s)%nat) log.*1 ∧
  ∀ ans, agrees ans log → reads cfg (with_answers hooks ans) nonce uid r ins s.
Proof.
  cbv zeta. revert s. induction ins as [|i ins IH] using rev_ind; intros s1.
  { cbn. intros [= <-]. split_and!; [done|done|constructor|constructor|]. intros ans _. constructor. }
  rewrite poll_run_snoc. intros (s & Hs & Hp)%bind_Some.
  destruct (IH s Hs) as (Hlen & Hc & Hnd & Hb & Hans).
  pose proof (inbound_poll_calls _ _ _ _ _ _ _ Hp) as [Hle Hc'].
  rewrite (answer_log_snoc _ _ _ _ _ _ _ _ Hs), fmap_app.
  assert ((answer_at i s).*1 = [] ∨
    (answer_at i s).*1 = [answered s] ∧ (answered s < answered s1)%nat) as Hat.
  { destruct i as [item|out|o| |]; try by left. right. unfold inbound_poll in Hp.
    destruct s as [[] r1]; try discriminate Hp. injection Hp as <-. destruct Hc as [Hc _].
    unfold answered. cbn [fst snd answer_at fmap list_fmap] in *. split; [done|].
    destruct (config_applied_calls hash out r1) as [-> [ack ->]]. destruct (host_calls r1); cbn; [done|lia]. }
  assert (Forall (λ n, (length (host_calls r) ≤ n < answered s1)%nat)
    (answer_log cfg hooks nonce uid ins (INext, r)).*1) as Hb1.
  { eapply Forall_impl; [exact Hb|]. simpl. intros n Hn. lia. }
  split_and!; [lia|auto| | |].
  - destruct Hat as [->|[-> _]]; [by rewrite app_nil_r|]. apply NoDup_app. split_and!; [done| |apply NoDup_singleton].
    intros n Hn ->%list_elem_of_singleton. rewrite Forall_forall in Hb. specialize (Hb _ Hn). lia.
  - apply Forall_app. split; [done|]. destruct Hat as [->|[-> Hlt]]; repeat constructor; lia.
  - intros ans [Ha Hi]%agrees_app. by eapply reads_step, Hans.
Qed.
End control.
