(* ===== verification/Agent.v ===== *)
(** * Sessions and the run loop: [src/agent.rs]

    The flush at a requested shutdown, one Channel session, one iteration of the
    run loop and startup, on the state of [Runner].  The background tasks of a
    session are modelled with their components ([FlushLoop], [Logs], [Status]) and
    composed in [Session]; here they appear as what they did to the two buffers
    before the session ended. *)

From stdpp Require Import base list strings gmap.
From Stdlib Require Import ZArith QArith Lia SpecFloat.
From S2P Require Import Prelude Time Proto Text Serde Errors Token F64 Backoff.
From S2P Require Import Metrics Logs Crypto Dek Fs Lkg License Creds Client Runner Inbound.

Local Open Scope string_scope.

Section agent.
Context `{!Json, !Base64, !Rfc3339, !Aead, !Hkdf, !BundleCodec, !Grpc}.
Context {Channel QuotaStatus : Type}.
Abbreviation Runner := (@Runner _ Channel QuotaStatus).
Abbreviation RegisterEnv := (@RegisterEnv Channel).
Abbreviation RegisterOutcome := (@RegisterOutcome _ Channel QuotaStatus).
Abbreviation ServerMessage := (@ServerMessage _ QuotaStatus).

(** ** Shutdown flush *)

Definition MAX_SHUTDOWN_FLUSH_BATCHES : nat := 16.

(** The metrics loop of [flush_remaining] on a channel that accepts [room] more
    messages, [now n] being the time [n] rounds before the last: what was queued,
    the buffer, the room left, or [None] when a send failed. *)
Fixpoint flush_metrics (code : ToolOutcome → Z) (n room : nat) (now : nat → DateTime)
    (b : Metrics.Inner) : list AgentMessage * Metrics.Inner * option nat :=
  match n with
  | O => ([], b, Some room)
  | S n =>
      let '(batch, b) := Metrics.drain (now n) b in
      let empty := Drained_is_empty batch in
      match Metrics.batch_to_message code (timestamp_secs (now n)) batch, room with
      | Some _, O => ([], b, None)
      | Some msg, S room =>
          if empty then ([msg], b, Some room)
          else let '(msgs, b, res) := flush_metrics code n room now b in (msg :: msgs, b, res)
      | None, _ =>
          if empty then ([], b, Some room) else flush_metrics code n room now b
      end
  end.

(** The log loop of [flush_remaining]. *)
Fixpoint flush_logs (level : ProtoLevel → Z) (n room : nat) (now : nat → DateTime)
    (b : Logs.Inner) : list AgentMessage * Logs.Inner * option nat :=
  match n with
  | O => ([], b, Some room)
  | S n =>
      let '(entries, dropped, seq_, b) := Logs.drain b in
      let empty := vec_is_empty entries && (dropped =? 0)%Z in
      match Logs.batch_to_message level (timestamp_secs (now n)) entries dropped seq_, room with
      | Some _, O => ([], b, None)
      | Some msg, S room =>
          if empty then ([msg], b, Some room)
          else let '(msgs, b, res) := flush_logs level n room now b in (msg :: msgs, b, res)
      | None, _ =>
          if empty then ([], b, Some room) else flush_logs level n room now b
      end
  end.

(** [flush_remaining]: a failed send ends it at once. *)
Definition flush_remaining (code : ToolOutcome → Z) (level : ProtoLevel → Z) (room : nat)
    (now : nat → DateTime) (r : Runner) : Runner :=
  let '(msgs, m, res) := flush_metrics code MAX_SHUTDOWN_FLUSH_BATCHES room now (metrics r) in
  match res with
  | None => fold_left (λ r msg, send true msg r) msgs (with_buffers m (logs r) r)
  | Some room =>
      let '(lmsgs, l, _) := flush_logs level MAX_SHUTDOWN_FLUSH_BATCHES room now (logs r) in
      fold_left (λ r msg, send true msg r) (msgs ++ lmsgs)%list (with_buffers m l r)
  end.

(** ** One session *)

(** What a session meets: the dial, the fresh nonce, the control plane's answer to
    the Channel call (given the request's metadata), the items of the inbound
    stream and where a shutdown notification cut the reader, what the
    recorders and the background tasks did to the buffers, and at the end the
    stopping flag, the room in the outbound channel and the times of the flush. *)
Record SessionEnv := {
  se_dial : Dial Channel;
  se_nonce : string;
  se_process_id : string;
  se_channel : Channel → list (string * string) → Result () Status;
  se_inbound : list (Result ServerMessage Status * bool);
  se_shutdown : option (nat * option nat);
  se_background : Metrics.Inner * Logs.Inner → Metrics.Inner * Logs.Inner;
  se_stopping : bool;
  se_room : nat;
  se_now : nat → DateTime
}.

(** The request metadata of the Channel call, the token included. *)
Definition channel_metadata (cfg : AgentRunnerConfig) (env : SessionEnv) (token : string)
    : Result (list (string * string)) Status :=
  interceptor_call token (insert_channel_metadata [] {|
    cm_nonce := se_nonce env; cm_version := rc_version cfg;
    cm_process := se_process_id env; cm_heartbeat := rc_heartbeat_interval cfg |}).

(** [run_session]. *)
Definition run_session (code : ToolOutcome → Z) (level : ProtoLevel → Z)
    (cfg : AgentRunnerConfig) (hooks : Hooks) (env : SessionEnv) (r : Runner)
    : Result () Error * Runner :=
  let '(res, c) := authed_client (se_dial env) (client r) in
  let r := with_client c r in
  match res with
  | Err e => (Err e, r)
  | Ok (ch, token) =>
      let instance_uid :=
        unwrap_str (t ← current_jwt (client r); jwt_instance_uid t) in
      let opened :=
        match channel_metadata cfg env token with
        | Err status => Err status
        | Ok md => se_channel env ch md
        end in
      match opened with
      | Err status => (Err (from_cause (CStatus status)), r)
      | Ok _ =>
          let r := emit ChannelConnected r in
          let '(inbound_result, r) :=
            match se_shutdown env with
            | Some (n, inside) =>
                inbound_cut cfg hooks (se_nonce env) instance_uid n inside (se_inbound env) r
            | None => read_inbound cfg hooks (se_nonce env) instance_uid (se_inbound env) r
            end in
          let '(m, l) := se_background env (metrics r, logs r) in
          let r := with_buffers m l r in
          let r := if se_stopping env then flush_remaining code level (se_room env) (se_now env) r
                   else r in
          (inbound_result, r)
      end
  end.

(** ** The run loop *)

(** What one iteration meets. *)
Record LoopEnv := {
  le_stopping : bool;
  le_enroll : RegisterEnv;
  le_session : SessionEnv;
  le_factor : Q;
  le_reenroll : RegisterEnv
}.

(** How an iteration ends: the loop returned, it failed, it goes on after having
    slept for the listed durations, Register still has no answer, or a delay was
    no duration. *)
Inductive LoopStep :=
| LReturn (r : Runner)
| LFail (e : Error) (r : Runner)
| LNext (slept : list Duration) (b : Backoff) (r : Runner)
| LPending (r : Runner)
| LPanic (r : Runner).

(** Continues with the runner Register left. *)
Definition after_register (o : RegisterOutcome) (k : list Duration → Runner → LoopStep) : LoopStep :=
  match o with
  | RegOk _ slept r => k slept r
  | RegErr e r => LFail e r
  | RegPending _ r => LPending r
  | RegPanic r => LPanic r
  end.

(** The step before the connect: a token the control plane would refuse is
    replaced. *)
Definition refresh_token (cfg : AgentRunnerConfig) (env : LoopEnv) (r : Runner)
    (k : list Duration → Runner → LoopStep) : LoopStep :=
  let now := timestamp_secs (clock (world r) (readings (world r))) in
  let r := (run_io utc_now r).2 in
  let exp := t ← current_jwt (client r); jwt_exp t in
  if expires_within exp now (token_refresh_window (rc_heartbeat_interval cfg)) then
    match extract_token (rc_enrollment_url cfg) with
    | Ok _ => after_register (register_fresh cfg (le_enroll env) r) k
    | Err _ => k [] r
    end
  else k [] r.

(** The step after a session. *)
Definition after_session (cfg : AgentRunnerConfig) (hooks : Hooks) (env : LoopEnv)
    (slept : list Duration) (b : Backoff) (res : Result () Error) (r : Runner) : LoopStep :=
  match res with
  | Ok _ => LNext slept (Backoff.reset b) r
  | Err e =>
      if is_credential_rejection e then
        match next_delay (le_factor env) b with
        | (None, _) => LPanic r
        | (Some delay, b) =>
            let r := emit (ChannelDisconnected (describe_session_error e)) r in
            let r := with_client (client_reset (client r)) r in
            match extract_token (rc_enrollment_url cfg) with
            | Err _ => LNext (slept ++ [delay])%list b r
            | Ok _ =>
                let r := (run_io (discard_stored_creds (rc_state_dir cfg)) r).2 in
                after_register (register_fresh cfg (le_reenroll env) r)
                  (λ slept' r, LNext (slept ++ delay :: slept')%list b r)
            end
        end
      else
        match slot_retry_in e with
        | Some (Some retry_in) =>
            let r := emit (ChannelDisconnected (describe_session_error e)) r in
            let r := if license_applier hooks then call_host (HSlotHeld retry_in) r else r in
            LNext (slept ++ [retry_in])%list b r
        | Some None => LPanic r
        | None =>
            match next_delay (le_factor env) b with
            | (None, _) => LPanic r
            | (Some delay, b) =>
                let r := emit (ChannelDisconnected (describe_session_error e)) r in
                let r := with_client (client_reset (client r)) r in
                LNext (slept ++ [delay])%list b r
            end
        end
  end.

(** One iteration of [run_loop]. *)
Definition loop_iteration (code : ToolOutcome → Z) (level : ProtoLevel → Z)
    (cfg : AgentRunnerConfig) (hooks : Hooks) (env : LoopEnv) (b : Backoff) (r : Runner) : LoopStep :=
  if le_stopping env then LReturn r
  else
    refresh_token cfg env r (λ slept r,
      let '(res, r) := run_session code level cfg hooks (le_session env) r in
      after_session cfg hooks env slept b res r).

(** [run_loop] over the iterations that happen. *)
Fixpoint run_loop_from (code : ToolOutcome → Z) (level : ProtoLevel → Z)
    (cfg : AgentRunnerConfig) (hooks : Hooks) (envs : list LoopEnv) (b : Backoff) (r : Runner)
    : LoopStep :=
  match envs with
  | [] => LNext [] b r
  | env :: envs =>
      match loop_iteration code level cfg hooks env b r with
      | LNext _ b r => run_loop_from code level cfg hooks envs b r
      | stop => stop
      end
  end.

Definition run_loop (code : ToolOutcome → Z) (level : ProtoLevel → Z)
    (cfg : AgentRunnerConfig) (hooks : Hooks) (envs : list LoopEnv) (r : Runner) : LoopStep :=
  run_loop_from code level cfg hooks envs
    (Backoff_new (rc_backoff_initial cfg) (rc_backoff_max cfg) true) r.

(** ** Startup *)

(** The preload of [run]: best effort. *)
Definition preload_lkg (cfg : AgentRunnerConfig) (r : Runner) : Runner :=
  match run_io (load_bundle (in_state_dir (rc_state_dir cfg))) r with
  | (Ok (Some (hash, _)), r) => emit (ConfigReceived hash) (with_applied (Some hash) r)
  | (_, r) => r
  end.

(** [run]. *)
Definition run (code : ToolOutcome → Z) (level : ProtoLevel → Z)
    (cfg : AgentRunnerConfig) (hooks : Hooks) (enroll : RegisterEnv) (envs : list LoopEnv)
    (r : Runner) : LoopStep :=
  match run_io (create_dir_all (rc_state_dir cfg)) r with
  | (Err e, r) => LFail e r
  | (Ok _, r) =>
      let r :=
        match rc_bootstrap_ca_pem cfg with
        | Some ca =>
            let m := {| ca_pem := ca; Client.client_cert_pem := ""; Client.client_key_pem := "";
                        server_name := None |} in
            with_client (set_tls (Some m) (client r)) r
        | None => r
        end in
      let start := λ _ r, run_loop code level cfg hooks envs (preload_lkg cfg r) in
      match cached_creds cfg r with
      | (Some creds, r) => start [] (install_creds creds r)
      | (None, r) => after_register (register_fresh cfg enroll r) start
      end
  end.
End agent.
