(* ===== verification/LoopControl.v ===== *)
(** * The run loop between sessions

    What the steps of [run_loop] outside [run_session] see and leave: they work on
    the control state of [Control] only, never touch the two buffers, and the calls
    of the host's hooks only accumulate.  With that a finished session's tasks may
    still run beside them. *)

From stdpp Require Import base list strings gmap.
From Stdlib Require Import ZArith QArith Lia Morphisms.
From S2P Require Import Prelude Time Proto Text Serde Errors Token F64 Backoff.
From S2P Require Import Metrics Logs Crypto Dek Fs Lkg License Creds Client Runner Inbound Control Agent.

Local Open Scope string_scope.

Section loop.
Context `{!Json, !Base64, !Rfc3339, !Aead, !Hkdf, !BundleCodec, !Grpc}.
Context {Channel QuotaStatus : Type}.
Abbreviation Runner := (@Runner _ Channel QuotaStatus).
Abbreviation LoopStep := (@LoopStep _ Channel QuotaStatus).
Abbreviation RegisterOutcome := (@RegisterOutcome _ Channel QuotaStatus).
Implicit Types (r : Runner) (o : LoopStep).

(** The runner an iteration leaves. *)
Definition step_runner o : Runner :=
  match o with LReturn r | LFail _ r | LNext _ _ r | LPending r | LPanic r => r end.

Definition outcome_runner (o : RegisterOutcome) : Runner :=
  match o with RegOk _ _ r | RegErr _ r | RegPending _ r | RegPanic r => r end.

(** ** What is kept *)

(** The buffers as they were, and every call of the host still there. *)
Definition keeps r r' : Prop :=
  metrics r' = metrics r ∧ logs r' = logs r ∧ (length (host_calls r) ≤ length (host_calls r'))%nat.

#[export] Instance keeps_preorder : PreOrder keeps.
Proof.
  split; [done|]. intros r1 r2 r3 (E1 & E2 & L1) (E3 & E4 & L2). unfold keeps. rewrite E3, E4.
  split_and!; [done|done|lia].
Qed.

Lemma run_io_keeps {A} (m : IO A) r : keeps r (run_io m r).2.
Proof. unfold run_io. by destruct (m (world r)). Qed.

Lemma call_host_keeps c r : keeps r (call_host c r).
Proof. split_and!; [done|done|]. cbn. rewrite length_app. lia. Qed.

Lemma install_creds_keeps creds r : keeps r (install_creds creds r).
Proof. unfold install_creds. by destruct (_ && _). Qed.

Lemma finish_register_keeps cfg resp r : keeps r (finish_register cfg resp r).2.
Proof.
  unfold finish_register. cbn [snd]. etransitivity; [|apply install_creds_keeps].
  etransitivity; [|apply run_io_keeps]. etransitivity; [|apply run_io_keeps].
  etransitivity; [|apply run_io_keeps]. done.
Qed.

Lemma retry_loop_runner {T S} (P : S → Prop) (ops : list ((S → Result T Error * S) * Q)) b slept s :
  Forall (λ op, ∀ s, P s → P (op.1 s).2) ops → P s →
  match retry_loop ops b slept s with RDone _ _ s' | RPending _ s' | RPanic s' => P s' end.
Proof.
  revert b slept s. induction ops as [|[op f] ops IH]; intros b slept s Hf Hs; [done|].
  apply Forall_cons in Hf as [Hop Hf]. cbn [retry_loop]. specialize (Hop s Hs). cbn [fst] in Hop.
  destruct (op s) as [[v|e] s1]; [done|]. destruct (next_delay f b) as [[d|] b']; [by apply IH|done].
Qed.

Lemma register_fresh_keeps cfg env r : keeps r (outcome_runner (register_fresh cfg env r)).
Proof.
  unfold register_fresh. destruct (extract_token _) as [token|e]; [|done].
  set (ops := _ <$> re_attempts env). unfold retry_with_backoff.
  pose proof (retry_loop_runner (keeps r) ops (Backoff_new (rc_backoff_initial cfg) (rc_backoff_max cfg) true)
    [] r) as H'.
  destruct (retry_loop _ _ _ _) as [resp slept r'|slept r'|r']; cbn [outcome_runner].
  2,3: apply H'; [|done].
  - rewrite (surjective_pairing (finish_register cfg resp r')).
    etransitivity; [|apply finish_register_keeps]. apply H'; [|done].
    apply Forall_fmap, Forall_true. intros [a f] r1 Hk. cbn. by destruct (register _ _ _).
  - apply Forall_fmap, Forall_true. intros [a f] r1 Hk. cbn. by destruct (register _ _ _).
  - apply Forall_fmap, Forall_true. intros [a f] r1 Hk. cbn. by destruct (register _ _ _).
Qed.

Lemma after_register_keeps (out : RegisterOutcome) k r :
  keeps r (outcome_runner out) → (∀ slept r', keeps r' (step_runner (k slept r'))) →
  keeps r (step_runner (after_register out k)).
Proof. intros Ho Hk. destruct out; cbn in *; try done. by etransitivity. Qed.

Lemma refresh_token_keeps cfg env r k :
  (∀ slept r', keeps r' (step_runner (k slept r'))) → keeps r (step_runner (refresh_token cfg env r k)).
Proof.
  intros Hk. unfold refresh_token. cbv zeta. etransitivity; [apply (run_io_keeps utc_now)|].
  destruct (expires_within _ _ _); [|done]. destruct (extract_token _) as [token|e]; [|done].
  by apply after_register_keeps; [apply register_fresh_keeps|].
Qed.

Lemma after_session_keeps cfg hooks env slept b res r :
  keeps r (step_runner (after_session cfg hooks env slept b res r)).
Proof.
  unfold after_session. destruct res as [[]|e]; [done|].
  destruct (is_credential_rejection e).
  - destruct (next_delay _ b) as [[delay|] b']; [|done]. cbv zeta.
    destruct (extract_token _) as [token|e']; [|done].
    apply after_register_keeps; [|done].
    etransitivity; [|apply register_fresh_keeps]. etransitivity; [|apply run_io_keeps]. done.
  - destruct (slot_retry_in e) as [[retry|]|]; [|done|].
    + cbn. destruct (license_applier hooks); [|done]. etransitivity; [|apply call_host_keeps]. done.
    + destruct (next_delay _ b) as [[delay|] b']; done.
Qed.

(** ** The control state only *)

(** Iterations that end alike over equivalent runners. *)
#[export] Instance loop_step_equiv : Equiv LoopStep := λ o o',
  match o, o' with
  | LReturn r, LReturn r' | LPending r, LPending r' | LPanic r, LPanic r' => r ≡ r'
  | LFail e r, LFail e' r' => e = e' ∧ r ≡ r'
  | LNext sl b r, LNext sl' b' r' => sl = sl' ∧ b = b' ∧ r ≡ r'
  | _, _ => False
  end.

#[export] Instance outcome_equiv : Equiv RegisterOutcome := λ (o o' : RegisterOutcome),
  match o, o' with
  | RegOk c sl r, RegOk c' sl' r' => c = c' ∧ sl = sl' ∧ r ≡ r'
  | RegErr e r, RegErr e' r' => e = e' ∧ r ≡ r'
  | RegPending sl r, RegPending sl' r' => sl = sl' ∧ r ≡ r'
  | RegPanic r, RegPanic r' => r ≡ r'
  | _, _ => False
  end.

Lemma step_runner_equiv o o' : o ≡ o' → step_runner o ≡ step_runner o'.
Proof. destruct o, o'; try done; cbn; [by intros [_ E]|by intros (_ & _ & E)]. Qed.

#[export] Instance loop_step_equivalence : Equivalence (≡@{LoopStep}).
Proof.
  split.
  - intros []; split_and?; done.
  - intros [] []; try done; [intros [-> E]; split|intros (-> & -> & E); split_and!]; try done; by symmetry.
  - intros [] [] []; try done; unfold equiv, loop_step_equiv;
      [by intros E E'; etransitivity| | |by intros E E'; etransitivity|by intros E E'; etransitivity].
    + intros [-> E] [-> E']. split; [done|by etransitivity].
    + intros (-> & -> & E) (-> & -> & E'). split_and!; [done|done|by etransitivity].
Qed.

#[export] Instance install_creds_proper creds :
  Proper ((≡) ==> (≡)) (install_creds (Channel := Channel) (QuotaStatus := QuotaStatus) creds).
Proof.
  intros r r' H'. unfold install_creds. destruct (_ && _); solve_control.
Qed.

Lemma finish_register_equiv cfg resp r r' :
  r ≡ r' → (finish_register cfg resp r).1 = (finish_register cfg resp r').1 ∧
  (finish_register cfg resp r).2 ≡ (finish_register cfg resp r').2.
Proof.
  intros H'. unfold finish_register. cbn [fst snd emit world]. rewrite (world_proper _ _ H').
  split; [done|]. apply install_creds_proper. do 3 apply run_io_snd_proper. by apply emit_proper.
Qed.

(** The runners a retried operation leaves. *)
Lemma retry_loop_equiv {T} (ops : list ((Runner → Result T Error * Runner) * Q)) b slept r r' :
  Forall (λ op, ∀ r r', r ≡ r' → (op.1 r).1 = (op.1 r').1 ∧ (op.1 r).2 ≡ (op.1 r').2) ops → r ≡ r' →
  match retry_loop ops b slept r, retry_loop ops b slept r' with
  | RDone v sl r, RDone v' sl' r' => v = v' ∧ sl = sl' ∧ r ≡ r'
  | RPending sl r, RPending sl' r' => sl = sl' ∧ r ≡ r'
  | RPanic r, RPanic r' => r ≡ r'
  | _, _ => False
  end.
Proof.
  revert b slept r r'. induction ops as [|[op f] ops IH]; intros b slept r r' Hf Hr; [done|].
  apply Forall_cons in Hf as [Hop Hf]. cbn [retry_loop]. destruct (Hop r r' Hr) as [E1 E2]. cbn [fst] in E1, E2.
  destruct (op r) as [res r1], (op r') as [res' r1']. cbn [fst snd] in E1, E2. subst res'.
  destruct res as [v|e]; [done|].
  destruct (next_delay f b) as [[d|] b']; [by apply IH|done].
Qed.

#[export] Instance register_fresh_proper cfg env :
  Proper ((≡) ==> (≡)) (register_fresh (Channel := Channel) (QuotaStatus := QuotaStatus) cfg env).
Proof.
  intros r r' Hr. unfold register_fresh. destruct (extract_token _) as [token|e]; [|done].
  set (ops := _ <$> re_attempts env). unfold retry_with_backoff.
  pose proof (retry_loop_equiv ops (Backoff_new (rc_backoff_initial cfg) (rc_backoff_max cfg) true)
    [] r r') as H'.
  assert (Forall (λ op, ∀ r r', r ≡ r' → (op.1 r).1 = (op.1 r').1 ∧ (op.1 r).2 ≡ (op.1 r').2) ops) as Hops.
  { apply Forall_fmap, Forall_true. intros [a f] r1 r2 Hr'. cbn. rewrite (client_proper _ _ Hr').
    destruct (register _ _ _) as [res c]. split; [done|]. by apply with_client_proper. }
  specialize (H' Hops Hr).
  destruct (retry_loop _ _ _ r) as [resp sl r1|sl r1|r1], (retry_loop _ _ _ r') as [resp' sl' r1'|sl' r1'|r1'];
    try done. destruct H' as (-> & -> & E). destruct (finish_register_equiv cfg resp' _ _ E) as [E1 E2].
  destruct (finish_register cfg resp' r1), (finish_register cfg resp' r1'). simplify_eq/=. done.
Qed.

Lemma after_register_equiv (out out' : RegisterOutcome) k k' :
  out ≡ out' → (∀ sl r r', r ≡ r' → k sl r ≡ k' sl r') → after_register out k ≡ after_register out' k'.
Proof.
  intros Ho Hk. destruct out, out'; try done; [|by destruct Ho].
  destruct Ho as (-> & -> & E). cbn. by apply Hk.
Qed.

Lemma refresh_token_equiv cfg env r r' k k' :
  r ≡ r' → (∀ sl r r', r ≡ r' → k sl r ≡ k' sl r') →
  refresh_token cfg env r k ≡ refresh_token cfg env r' k'.
Proof.
  intros Hr Hk. unfold refresh_token. cbv zeta. rewrite (world_proper _ _ Hr).
  pose proof (run_io_snd_proper utc_now _ _ Hr) as H1'. cbv beta in H1'.
  rewrite (client_proper _ _ H1'). destruct (expires_within _ _ _); [|by apply Hk].
  destruct (extract_token _) as [token|e]; [|by apply Hk].
  apply after_register_equiv; [by apply register_fresh_proper|done].
Qed.

#[export] Instance after_session_proper cfg hooks env slept b res :
  Proper ((≡) ==> (≡)) (after_session (Channel := Channel) (QuotaStatus := QuotaStatus) cfg hooks env slept b res).
Proof.
  intros r r' Hr. unfold after_session. destruct res as [[]|e]; [done|].
  destruct (is_credential_rejection e).
  - destruct (next_delay _ b) as [[delay|] b']; [|done]. cbv zeta.
    set (r1 := with_client _ _). set (r1' := with_client _ (emit _ r')).
    assert (r1 ≡ r1') as H1'.
    { unfold r1, r1'. cbn [client emit]. rewrite (client_proper _ _ Hr). by apply with_client_proper, emit_proper. }
    clearbody r1 r1'. destruct (extract_token _) as [token|e']; [|done].
    apply after_register_equiv; [|done]. by apply register_fresh_proper, run_io_snd_proper.
  - destruct (slot_retry_in e) as [[retry|]|]; [|done|].
    + split_and!; [done|done|]. destruct (license_applier hooks);
        [by apply call_host_proper, emit_proper|by apply emit_proper].
    + destruct (next_delay _ b) as [[delay|] b']; [|done]. split_and!; [done|done|]. cbn [client emit].
      rewrite (client_proper _ _ Hr). by apply with_client_proper, emit_proper.
Qed.
(** ** The head of an iteration *)

(** The continuation of [refresh_token] runs on what it left. *)
Lemma refresh_token_continue cfg (env : @LoopEnv _ Channel QuotaStatus) r b (k : list Duration → Runner → LoopStep) :
  refresh_token cfg env r k =
  match refresh_token cfg env r (λ slept r, LNext slept b r) with
  | LNext slept _ r => k slept r
  | o => o
  end.
Proof.
  unfold refresh_token. cbv zeta. destruct (expires_within _ _ _); [|done].
  destruct (extract_token _); [|done]. by destruct (register_fresh _ _ _).
Qed.

Lemma refresh_token_next cfg (env : @LoopEnv _ Channel QuotaStatus) r b slept b' r' :
  refresh_token cfg env r (λ slept r, LNext slept b r) = LNext slept b' r' → b' = b.
Proof.
  unfold refresh_token. cbv zeta. destruct (expires_within _ _ _); [|by intros [=]].
  destruct (extract_token _); [|by intros [=]]. destruct (register_fresh _ _ _); by intros [=].
Qed.

End loop.
