(* ===== verification/Handles.v ===== *)
(** * Builder methods and shared handles: [AgentRunner] of [src/agent.rs]

    An [AgentRunner] keeps what it shares with its host behind [Arc]s: the handles it
    gives out are further references to the same cells.  Here the cells live in a
    heap and a runner is a record of locations, so that aliasing is visible; the
    theorems show that a host that builds runners, takes handles and records through
    them at any time sees independent runners, each with the state of [Runner]. *)

From stdpp Require Import base list strings.
From Stdlib Require Import ZArith Lia.
From S2P Require Import Prelude Time Proto Errors Status Metrics Logs Crypto Dek Fs Lkg License.
From S2P Require Import LkgFacts Client Runner.

Section handles.
Context `{!BundleCodec}.
Context {Channel QuotaStatus : Type}.
Abbreviation Runner := (@Runner _ Channel QuotaStatus).

(** ** Cells *)

(** What an [Arc] points to.  A [Notify] has no state of its own here (its waiters are
    in [Shutdown]); a broadcast channel is the events sent on it. *)
Inductive Cell :=
| CEvents (sent : list AgentEvent)
| CMetrics (b : Metrics.Inner)
| CLogs (b : Logs.Inner)
| CQuota (q : option QuotaStatus)
| CDek (d : option DekHandle)
| CHash (h : option string)
| CFlag (b : bool)
| CNotify.

Abbreviation Heap := (list Cell).
Abbreviation Loc := nat.

(** [Arc::new]. *)
Definition alloc (c : Cell) (h : Heap) : Loc * Heap := (length h, h ++ [c]).

Definition events_at (h : Heap) (l : Loc) : option (list AgentEvent) :=
  match h !! l with Some (CEvents e) => Some e | _ => None end.
Definition metrics_at (h : Heap) (l : Loc) : option Metrics.Inner :=
  match h !! l with Some (CMetrics b) => Some b | _ => None end.
Definition logs_at (h : Heap) (l : Loc) : option Logs.Inner :=
  match h !! l with Some (CLogs b) => Some b | _ => None end.
Definition quota_at (h : Heap) (l : Loc) : option (option QuotaStatus) :=
  match h !! l with Some (CQuota q) => Some q | _ => None end.
Definition dek_at (h : Heap) (l : Loc) : option (option DekHandle) :=
  match h !! l with Some (CDek d) => Some d | _ => None end.
Definition hash_at (h : Heap) (l : Loc) : option (option string) :=
  match h !! l with Some (CHash s) => Some s | _ => None end.
Definition flag_at (h : Heap) (l : Loc) : option bool :=
  match h !! l with Some (CFlag b) => Some b | _ => None end.

(** ** The runner *)

(** [AgentRunner]: its locations, its hooks, and what it shares with nobody (the
    parts of [own] that live in cells are not used). *)
Record AgentRunner := {
  ar_cfg : AgentRunnerConfig;
  ar_process_id : string;
  ar_own : Runner;
  ar_events : Loc;
  ar_metrics : Loc;
  ar_shutdown : Loc;
  ar_stopping : Loc;
  ar_shutdown_done : Loc;
  ar_shutdown_finished : Loc;
  ar_logs : Loc;
  ar_quota_status : Loc;
  ar_payload_dek : Loc;
  ar_applied_config_hash : Loc;
  ar_config_applier : option (nat → ConfigBundle → Result () string);
  ar_status_source : option (nat → StatusSnapshot);
  ar_license_applier : bool
}.

(** [AgentShutdown], the handle on the four shutdown cells. *)
Record AgentShutdown := { ash_notify : Loc; ash_stopping : Loc; ash_done : Loc; ash_finished : Loc }.

(** [AgentRunner::new]; the process id and the world are arguments. *)
Definition build (cfg : AgentRunnerConfig) (process_id : string) (w : World) (h : Heap)
    : AgentRunner * Heap :=
  let '(events_, h) := alloc (CEvents []) h in
  let '(metrics_, h) := alloc (CMetrics MetricsBuffer_new) h in
  let '(shutdown_, h) := alloc CNotify h in
  let '(stopping_, h) := alloc (CFlag false) h in
  let '(done_, h) := alloc CNotify h in
  let '(finished_, h) := alloc (CFlag false) h in
  let '(logs_, h) := alloc (CLogs LogBuffer_new) h in
  let '(quota_, h) := alloc (CQuota None) h in
  let '(dek_, h) := alloc (CDek None) h in
  let '(hash_, h) := alloc (CHash None) h in
  ({| ar_cfg := cfg; ar_process_id := process_id; ar_own := AgentRunner_new cfg w;
      ar_events := events_; ar_metrics := metrics_; ar_shutdown := shutdown_;
      ar_stopping := stopping_; ar_shutdown_done := done_; ar_shutdown_finished := finished_;
      ar_logs := logs_; ar_quota_status := quota_; ar_payload_dek := dek_;
      ar_applied_config_hash := hash_; ar_config_applier := None; ar_status_source := None;
      ar_license_applier := false |}, h).

(** The record with its hooks and own state replaced. *)
Definition update_runner (a : AgentRunner) (own : Runner)
    (ca : option (nat → ConfigBundle → Result () string)) (ss : option (nat → StatusSnapshot))
    (la : bool) : AgentRunner :=
  {| ar_cfg := ar_cfg a; ar_process_id := ar_process_id a; ar_own := own;
     ar_events := ar_events a; ar_metrics := ar_metrics a; ar_shutdown := ar_shutdown a;
     ar_stopping := ar_stopping a; ar_shutdown_done := ar_shutdown_done a;
     ar_shutdown_finished := ar_shutdown_finished a; ar_logs := ar_logs a;
     ar_quota_status := ar_quota_status a; ar_payload_dek := ar_payload_dek a;
     ar_applied_config_hash := ar_applied_config_hash a; ar_config_applier := ca;
     ar_status_source := ss; ar_license_applier := la |}.

(** [AgentRunner::with_config_applier]. *)
Definition with_config_applier (applier : nat → ConfigBundle → Result () string)
    (a : AgentRunner) : AgentRunner :=
  update_runner a (ar_own a) (Some applier) (ar_status_source a) (ar_license_applier a).

(** [AgentRunner::with_status_source]. *)
Definition with_status_source (source : nat → StatusSnapshot) (a : AgentRunner) : AgentRunner :=
  update_runner a (ar_own a) (ar_config_applier a) (Some source) (ar_license_applier a).

(** [AgentRunner::with_license_applier]. *)
Definition with_license_applier (a : AgentRunner) : AgentRunner :=
  update_runner a (ar_own a) (ar_config_applier a) (ar_status_source a) true.

(** The hooks the runner's methods consult. *)
Definition hooks_of (a : AgentRunner) : Hooks :=
  {| config_applier := ar_config_applier a; license_applier := ar_license_applier a |}.

(** ** Handles *)

Definition EVENTS_CAP : nat := 64.

(** A [broadcast::Receiver]: its channel and the position of its next event. *)
Record Receiver := { rx_events : Loc; rx_next : nat }.

(** [AgentRunner::subscribe]: from the next event on. *)
Definition subscribe (a : AgentRunner) (h : Heap) : option Receiver :=
  sent ← events_at h (ar_events a); Some {| rx_events := ar_events a; rx_next := length sent |}.

(** What a receiver has still to get: the channel keeps the last [EVENTS_CAP] events, a
    receiver further behind skips to the oldest kept one. *)
Definition pending (rx : Receiver) (h : Heap) : option (list AgentEvent) :=
  sent ← events_at h (rx_events rx);
  Some (drop (rx_next rx `max` (length sent - EVENTS_CAP)) sent).

(** [quota_status_handle], [payload_dek_handle], [metrics], [logs] and
    [shutdown_handle]: clones of the [Arc]s. *)
Definition quota_status_handle (a : AgentRunner) : Loc := ar_quota_status a.
Definition payload_dek_handle (a : AgentRunner) : Loc := ar_payload_dek a.
Definition metrics_handle (a : AgentRunner) : Loc := ar_metrics a.
Definition logs_handle (a : AgentRunner) : Loc := ar_logs a.
Definition shutdown_handle (a : AgentRunner) : AgentShutdown :=
  {| ash_notify := ar_shutdown a; ash_stopping := ar_stopping a; ash_done := ar_shutdown_done a;
     ash_finished := ar_shutdown_finished a |}.

(** Recording through a handle, and the store of [AgentShutdown::trigger]. *)
Definition record_metric (l : Loc) (s : ToolCallSample) (h : Heap) : Heap :=
  match metrics_at h l with Some b => <[l := CMetrics (Metrics.record s b)]> h | None => h end.
Definition record_log (l : Loc) (line : LogLineSample) (h : Heap) : Heap :=
  match logs_at h l with Some b => <[l := CLogs (Logs.record line b)]> h | None => h end.
Definition trigger_store (s : AgentShutdown) (h : Heap) : Heap :=
  <[ash_stopping s := CFlag true]> h.

(** ** The runner's own accesses *)

(** The runner's state, its shared parts read from their cells. *)
Definition load_runner (a : AgentRunner) (h : Heap) : option Runner :=
  e ← events_at h (ar_events a); m ← metrics_at h (ar_metrics a); l ← logs_at h (ar_logs a);
  q ← quota_at h (ar_quota_status a); d ← dek_at h (ar_payload_dek a);
  c ← hash_at h (ar_applied_config_hash a);
  let r := ar_own a in
  Some {| world := world r; client := client r; events := e; metrics := m; logs := l;
          quota_status := q; payload_dek := d; applied_config_hash := c;
          host_calls := host_calls r; outbound := outbound r |}.

(** The cells after a method of the runner left the state [r]. *)
Definition store_runner (a : AgentRunner) (r : Runner) (h : Heap) : Heap :=
  <[ar_events a := CEvents (events r)]> (<[ar_metrics a := CMetrics (metrics r)]>
  (<[ar_logs a := CLogs (logs r)]> (<[ar_quota_status a := CQuota (quota_status r)]>
  (<[ar_payload_dek a := CDek (payload_dek r)]>
  (<[ar_applied_config_hash a := CHash (applied_config_hash r)]> h))))).

(** ** A host program *)

(** What a host does: build runners and wire their hooks, record through their
    handles, ask them to stop, and let one of their methods run. *)
Inductive UseAction :=
| ABuild (cfg : AgentRunnerConfig) (process_id : string) (w : World)
| AConfigApplier (i : nat) (applier : nat → ConfigBundle → Result () string)
| AStatusSource (i : nat) (source : nat → StatusSnapshot)
| ALicenseApplier (i : nat)
| AMetric (i : nat) (s : ToolCallSample)
| ALog (i : nat) (line : LogLineSample)
| ATrigger (i : nat)
| AMethod (i : nat) (f : Runner → Runner).

Record Host := { agents : list AgentRunner; heap : Heap }.

Definition host_empty : Host := {| agents := []; heap := [] |}.

(** One runner replaced, with its cells. *)
Definition on_agent (i : nat) (f : AgentRunner → Heap → AgentRunner * Heap) (s : Host) : Host :=
  match agents s !! i with
  | Some a => let '(a', h) := f a (heap s) in {| agents := <[i := a']> (agents s); heap := h |}
  | None => s
  end.

(** A method that takes the runner's state to [f] of it. *)
Definition run_method (f : Runner → Runner) (a : AgentRunner) (h : Heap) : AgentRunner * Heap :=
  match load_runner a h with
  | Some r => (update_runner a (f r) (ar_config_applier a) (ar_status_source a) (ar_license_applier a),
               store_runner a (f r) h)
  | None => (a, h)
  end.

Definition use_step (act : UseAction) (s : Host) : Host :=
  match act with
  | ABuild cfg pid w =>
      let '(a, h) := build cfg pid w (heap s) in {| agents := agents s ++ [a]; heap := h |}
  | AConfigApplier i f => on_agent i (λ a h, (with_config_applier f a, h)) s
  | AStatusSource i f => on_agent i (λ a h, (with_status_source f a, h)) s
  | ALicenseApplier i => on_agent i (λ a h, (with_license_applier a, h)) s
  | AMetric i x => on_agent i (λ a h, (a, record_metric (metrics_handle a) x h)) s
  | ALog i x => on_agent i (λ a h, (a, record_log (logs_handle a) x h)) s
  | ATrigger i => on_agent i (λ a h, (a, trigger_store (shutdown_handle a) h)) s
  | AMethod i f => on_agent i (run_method f) s
  end.

Definition host_run (acts : list UseAction) (s : Host) : Host :=
  fold_left (λ s act, use_step act s) acts s.

(** ** What the host may rely on: independent runners *)

Record AgentSpec := {
  as_runner : Runner;
  as_stopping : bool;
  as_config_applier : option (nat → ConfigBundle → Result () string);
  as_status_source : option (nat → StatusSnapshot);
  as_license_applier : bool
}.

Definition spec_runner (f : Runner → Runner) (a : AgentSpec) : AgentSpec :=
  {| as_runner := f (as_runner a); as_stopping := as_stopping a;
     as_config_applier := as_config_applier a; as_status_source := as_status_source a;
     as_license_applier := as_license_applier a |}.

Definition spec_step (act : UseAction) (s : list AgentSpec) : list AgentSpec :=
  match act with
  | ABuild cfg _ w =>
      s ++ [{| as_runner := AgentRunner_new cfg w; as_stopping := false; as_config_applier := None;
               as_status_source := None; as_license_applier := false |}]
  | AConfigApplier i f =>
      alter (λ a, {| as_runner := as_runner a; as_stopping := as_stopping a;
                     as_config_applier := Some f; as_status_source := as_status_source a;
                     as_license_applier := as_license_applier a |}) i s
  | AStatusSource i f =>
      alter (λ a, {| as_runner := as_runner a; as_stopping := as_stopping a;
                     as_config_applier := as_config_applier a; as_status_source := Some f;
                     as_license_applier := as_license_applier a |}) i s
  | ALicenseApplier i =>
      alter (λ a, {| as_runner := as_runner a; as_stopping := as_stopping a;
                     as_config_applier := as_config_applier a;
                     as_status_source := as_status_source a; as_license_applier := true |}) i s
  | AMetric i x =>
      alter (spec_runner (λ r, with_buffers (Metrics.record x (metrics r)) (logs r) r)) i s
  | ALog i x => alter (spec_runner (λ r, with_buffers (metrics r) (Logs.record x (logs r)) r)) i s
  | ATrigger i =>
      alter (λ a, {| as_runner := as_runner a; as_stopping := true;
                     as_config_applier := as_config_applier a;
                     as_status_source := as_status_source a;
                     as_license_applier := as_license_applier a |}) i s
  | AMethod i f => alter (spec_runner f) i s
  end.

Definition spec_run (acts : list UseAction) (s : list AgentSpec) : list AgentSpec :=
  fold_left (λ s act, spec_step act s) acts s.

(** ** The simulation *)

(** The cells of a runner, in the order [new] allocates them. *)
Definition cells (a : AgentRunner) : list Loc :=
  [ar_events a; ar_metrics a; ar_shutdown a; ar_stopping a; ar_shutdown_done a;
   ar_shutdown_finished a; ar_logs a; ar_quota_status a; ar_payload_dek a; ar_applied_config_hash a].

(** The locations of a runner are consecutive. *)
Definition laid_out (b : nat) (a : AgentRunner) : Prop := cells a = List.seq b 10.

Record represents (h : Heap) (a : AgentRunner) (sp : AgentSpec) : Prop := {
  rep_runner : load_runner a h = Some (as_runner sp);
  rep_stopping : flag_at h (ar_stopping a) = Some (as_stopping sp);
  rep_config : ar_config_applier a = as_config_applier sp;
  rep_status : ar_status_source a = as_status_source sp;
  rep_license : ar_license_applier a = as_license_applier sp
}.

Record simulates (s : Host) (sp : list AgentSpec) : Prop := {
  sim_length : length sp = length (agents s);
  sim_heap : length (heap s) = 10 * length (agents s);
  sim_layout i a : agents s !! i = Some a → laid_out (10 * i) a;
  sim_rep i a x : agents s !! i = Some a → sp !! i = Some x → represents (heap s) a x
}.

(** Splits a layout into the ten locations. *)
Lemma laid_out_fields b a :
  laid_out b a →
  ar_events a = b ∧ ar_metrics a = 1 + b ∧ ar_stopping a = 3 + b ∧ ar_logs a = 6 + b ∧
  ar_quota_status a = 7 + b ∧ ar_payload_dek a = 8 + b ∧ ar_applied_config_hash a = 9 + b.
Proof. unfold laid_out, cells. simpl. intros E. injection E as -> -> _ -> _ _ -> -> -> ->. lia. Qed.

(** A runner sees its own ten cells only. *)
Lemma represents_ext h h' b a sp :
  laid_out b a → (∀ k, k < 10 → h' !! (k + b) = h !! (k + b)) →
  represents h a sp → represents h' a sp.
Proof.
  intros (E1 & E2 & E3 & E4 & E5 & E6 & E7)%laid_out_fields Hh [H1 H2 H3 H4 H5].
  split; auto.
  - unfold load_runner, events_at, metrics_at, logs_at, quota_at, dek_at, hash_at in *.
    rewrite E1, E2, E4, E5, E6, E7 in *. pose proof (Hh 0 ltac:(lia)) as H0.
    change (0 + b) with b in H0. rewrite H0, !Hh by lia. done.
  - unfold flag_at in *. rewrite E3 in *. by rewrite Hh by lia.
Qed.

(** An action on one runner that keeps its layout and touches no other cells. *)
Lemma simulates_on_agent i f g s sp :
  simulates s sp →
  (∀ a x, laid_out (10 * i) a → length (heap s) = 10 * length (agents s) → i < length (agents s) →
     represents (heap s) a x →
     let '(a', h') := f a (heap s) in
     cells a' = cells a ∧ length h' = length (heap s) ∧
     (∀ l, l < 10 * i ∨ 10 * i + 10 ≤ l → h' !! l = heap s !! l) ∧ represents h' a' (g x)) →
  simulates (on_agent i f s) (alter g i sp).
Proof.
  intros [Hl Hh Hlay Hrep] Hf. unfold on_agent. destruct (agents s !! i) as [a|] eqn:Ea.
  - pose proof (lookup_lt_Some _ _ _ Ea) as Hi.
    destruct (sp !! i) as [x|] eqn:Ex; [|apply lookup_ge_None in Ex; lia].
    specialize (Hf a x (Hlay _ _ Ea) Hh Hi (Hrep _ _ _ Ea Ex)).
    destruct (f a (heap s)) as [a' h']. destruct Hf as (Hc & Hlen & Hout & Hr').
    split; cbn [agents heap]; rewrite ?length_alter, ?length_insert; [done|lia| |].
    + intros j a2. destruct (decide (i = j)) as [->|Hne].
      * rewrite list_lookup_insert_eq by done. intros [= <-]. unfold laid_out. rewrite Hc.
        by apply Hlay.
      * rewrite list_lookup_insert_ne by done. apply Hlay.
    + intros j a2 x2. destruct (decide (i = j)) as [->|Hne].
      * rewrite list_lookup_insert_eq, list_lookup_alter_eq, Ex by done.
        by intros [= <-] [= <-].
      * rewrite list_lookup_insert_ne, list_lookup_alter_ne by done. intros Ha2 Hx2.
        eapply represents_ext; [by apply Hlay| |by eapply Hrep].
        intros k Hk. apply Hout. lia.
  - apply lookup_ge_None in Ea. replace (alter g i sp) with sp; [done|].
    apply list_eq. intros j. rewrite list_lookup_alter. case_decide as E; [|done]. subst j.
    rewrite (proj2 (lookup_ge_None sp i)) by lia. done.
Qed.

(** The cells and own parts a runner's state is read from. *)
Record reads_as (a : AgentRunner) (h : Heap) (r : Runner) : Prop := {
  ra_events : h !! ar_events a = Some (CEvents (events r));
  ra_metrics : h !! ar_metrics a = Some (CMetrics (metrics r));
  ra_logs : h !! ar_logs a = Some (CLogs (logs r));
  ra_quota : h !! ar_quota_status a = Some (CQuota (quota_status r));
  ra_dek : h !! ar_payload_dek a = Some (CDek (payload_dek r));
  ra_hash : h !! ar_applied_config_hash a = Some (CHash (applied_config_hash r));
  ra_world : world (ar_own a) = world r;
  ra_client : client (ar_own a) = client r;
  ra_calls : host_calls (ar_own a) = host_calls r;
  ra_outbound : outbound (ar_own a) = outbound r
}.

Lemma load_runner_iff a h r : load_runner a h = Some r ↔ reads_as a h r.
Proof.
  unfold load_runner, events_at, metrics_at, logs_at, quota_at, dek_at, hash_at. split.
  - intros Hl. destruct (h !! ar_events a) as [[]|] eqn:E1; try done; simpl in Hl.
    destruct (h !! ar_metrics a) as [[]|] eqn:E2; try done; simpl in Hl.
    destruct (h !! ar_logs a) as [[]|] eqn:E3; try done; simpl in Hl.
    destruct (h !! ar_quota_status a) as [[]|] eqn:E4; try done; simpl in Hl.
    destruct (h !! ar_payload_dek a) as [[]|] eqn:E5; try done; simpl in Hl.
    destruct (h !! ar_applied_config_hash a) as [[]|] eqn:E6; try done; simpl in Hl.
    injection Hl as <-. by split.
  - intros [-> -> -> -> -> -> W C HC O]. simpl. rewrite W, C, HC, O. by destruct r.
Qed.

(** Lookups in a heap with cells written at the locations of a layout. *)
Ltac heap_lookup := repeat first
  [ rewrite list_lookup_insert_eq by (rewrite ?length_insert; lia)
  | rewrite list_lookup_insert_ne by lia ].

(** A store to the cell of one buffer. *)
Ltac buffer_represents Hlay :=
  let E1 := fresh "E" in let E2 := fresh "E" in let E3 := fresh "E" in let E4 := fresh "E" in
  let E5 := fresh "E" in let E6 := fresh "E" in let E7 := fresh "E" in
  destruct (laid_out_fields _ _ Hlay) as (E1 & E2 & E3 & E4 & E5 & E6 & E7);
  unfold flag_at in *; rewrite E1, E2, E3, E4, E5, E6, E7 in *;
  split_and!; [by rewrite length_insert|intros l Hl; by heap_lookup|];
  split; auto;
  [apply load_runner_iff; split; simpl; rewrite ?E1, ?E2, ?E4, ?E5, ?E6, ?E7; try done; by heap_lookup
  |unfold flag_at; rewrite E3; by heap_lookup].

Section steps.
Context (b : nat) (a : AgentRunner) (h : Heap) (sp : AgentSpec).
Hypotheses (Hlay : laid_out b a) (Hlen : b + 10 ≤ length h) (Hrep : represents h a sp).

Lemma method_represents f :
  let '(a', h') := run_method f a h in
  cells a' = cells a ∧ length h' = length h ∧
  (∀ l, l < b ∨ b + 10 ≤ l → h' !! l = h !! l) ∧ represents h' a' (spec_runner f sp).
Proof.
  destruct Hrep as [H1 H2 H3 H4 H5]. unfold run_method. rewrite H1.
  destruct (laid_out_fields _ _ Hlay) as (E1 & E2 & E3 & E4 & E5 & E6 & E7).
  unfold store_runner, update_runner. rewrite E1, E2, E4, E5, E6, E7.
  split_and!; [by unfold cells; simpl; rewrite E1, E2, E4, E5, E6, E7|by rewrite !length_insert| |].
  - intros l Hl. by heap_lookup.
  - split; simpl; auto.
    + apply load_runner_iff. split; simpl; try done; by heap_lookup.
    + unfold flag_at in *. rewrite E3 in *. by heap_lookup.
Qed.

Lemma metric_represents x :
  let h' := record_metric (metrics_handle a) x h in
  length h' = length h ∧ (∀ l, l < b ∨ b + 10 ≤ l → h' !! l = h !! l) ∧
  represents h' a (spec_runner (λ r, with_buffers (Metrics.record x (metrics r)) (logs r) r) sp).
Proof.
  destruct Hrep as [[]%load_runner_iff H2 H3 H4 H5].
  unfold record_metric, metrics_at, metrics_handle. rewrite ra_metrics0.
  buffer_represents Hlay.
Qed.

Lemma log_represents x :
  let h' := record_log (logs_handle a) x h in
  length h' = length h ∧ (∀ l, l < b ∨ b + 10 ≤ l → h' !! l = h !! l) ∧
  represents h' a (spec_runner (λ r, with_buffers (metrics r) (Logs.record x (logs r)) r) sp).
Proof.
  destruct Hrep as [[]%load_runner_iff H2 H3 H4 H5].
  unfold record_log, logs_at, logs_handle. rewrite ra_logs0.
  buffer_represents Hlay.
Qed.

Lemma trigger_represents :
  let h' := trigger_store (shutdown_handle a) h in
  length h' = length h ∧ (∀ l, l < b ∨ b + 10 ≤ l → h' !! l = h !! l) ∧
  load_runner a h' = Some (as_runner sp) ∧ flag_at h' (ar_stopping a) = Some true.
Proof.
  destruct Hrep as [[]%load_runner_iff H2 H3 H4 H5].
  unfold trigger_store, shutdown_handle. cbn [ash_stopping].
  destruct (laid_out_fields _ _ Hlay) as (E1 & E2 & E3 & E4 & E5 & E6 & E7).
  unfold flag_at in *. rewrite E1, E2, E3, E4, E5, E6, E7 in *.
  split_and!; [by rewrite length_insert|intros l Hl; by heap_lookup| |by heap_lookup].
  apply load_runner_iff. split; simpl; rewrite ?E1, ?E2, ?E4, ?E5, ?E6, ?E7; try done; by heap_lookup.
Qed.
End steps.

(** Rewiring a hook touches no cell. *)
Lemma rewired_represents h a sp ca ss la :
  represents h a sp →
  represents h (update_runner a (ar_own a) ca ss la)
    {| as_runner := as_runner sp; as_stopping := as_stopping sp; as_config_applier := ca;
       as_status_source := ss; as_license_applier := la |}.
Proof. intros [H1%load_runner_iff H2 _ _ _]. split; simpl; auto. apply load_runner_iff. by destruct H1. Qed.

(** A new runner has cells of its own. *)
Lemma simulates_build cfg pid w s sp :
  simulates s sp → simulates (use_step (ABuild cfg pid w) s) (spec_step (ABuild cfg pid w) sp).
Proof.
  intros [Hl Hh Hlay Hrep]. cbn [use_step build alloc spec_step].
  rewrite !length_app, <- !(assoc_L app). simpl length. simpl app.
  split; cbn [agents heap]; rewrite ?length_app; simpl; [lia|lia| |].
  - intros i a [Ha|[? Ha]]%lookup_app_Some; [by apply Hlay|].
    destruct (i - length (agents s)) as [|] eqn:Ei; [|done]. injection Ha as <-.
    unfold laid_out, cells. simpl. repeat (f_equal; [lia|]). f_equal; lia.
  - intros i a x [Ha|[? Ha]]%lookup_app_Some Hx.
    + pose proof (lookup_lt_Some _ _ _ Ha). rewrite lookup_app_l in Hx by lia.
      eapply represents_ext; [by apply Hlay| |by eapply Hrep].
      intros k Hk. rewrite lookup_app_l by lia. done.
    + destruct (i - length (agents s)) as [|] eqn:Ei; [|done]. injection Ha as <-.
      rewrite lookup_app_r in Hx by lia. replace (i - length sp) with 0 in Hx by lia.
      injection Hx as <-. split; try done.
      * apply load_runner_iff. split; simpl; try done; rewrite lookup_app_r by lia;
          by rewrite ?Nat.add_sub_swap, ?Nat.sub_diag by lia.
      * unfold flag_at. simpl. rewrite lookup_app_r by lia.
        by rewrite ?Nat.add_sub_swap, ?Nat.sub_diag by lia.
Qed.

Lemma use_step_simulates act s sp :
  simulates s sp → simulates (use_step act s) (spec_step act sp).
Proof.
  intros Hs. destruct act as [cfg pid w|i f|i f|i|i x|i x|i|i f]; [by apply simulates_build|..];
    cbn [use_step spec_step]; apply simulates_on_agent; try done;
    intros a sp0 Hlay Hlen Hi Hrep.
  1-3: split_and!; try done; pose proof Hrep as [_ _ C S L]; rewrite <- ?C, <- ?S, <- ?L;
    by apply rewired_represents.
  - split; [done|]. apply (metric_represents (10 * i)); [done|lia|done].
  - split; [done|]. apply (log_represents (10 * i)); [done|lia|done].
  - destruct (trigger_represents (10 * i) a (heap s) sp0) as (L & O & R & F); [done|lia|done|].
    split_and!; try done. destruct Hrep. by split.
  - apply (method_represents (10 * i)); [done|lia|done].
Qed.

Lemma host_run_simulates acts s sp :
  simulates s sp → simulates (host_run acts s) (spec_run acts sp).
Proof.
  revert s sp. induction acts as [|act acts IH]; intros s sp Hs; [done|].
  apply IH. by apply use_step_simulates.
Qed.

Lemma host_empty_simulates : simulates host_empty [].
Proof. by split. Qed.

(** Runners are never removed. *)
Lemma spec_run_length acts sp : length sp ≤ length (spec_run acts sp).
Proof.
  revert sp. induction acts as [|act acts IH]; intros sp; [done|]. cbn [spec_run fold_left].
  etransitivity; [|apply IH].
  destruct act; cbn [spec_step]; rewrite ?length_app, ?length_alter; simpl; lia.
Qed.

(** C26: a host may build any number of runners, wire their hooks, take handles before
    or after, and use them in any order: what every handle shows, however early it
    was taken, is the state its own runner has then, as if each runner were a record
    of its own; recording through an old handle reaches that runner's buffer; a
    receiver holds the events emitted since it subscribed, the last 64 of them at
    most; and the hooks are the ones wired last. *)
Theorem handles_refine_independent_runners before after i a :
  agents (host_run before host_empty) !! i = Some a →
  let s := host_run (before ++ after) host_empty in
  ∃ x0 x a',
    spec_run before [] !! i = Some x0 ∧ spec_run (before ++ after) [] !! i = Some x ∧
    agents s !! i = Some a' ∧ represents (heap s) a' x ∧
    quota_at (heap s) (quota_status_handle a) = Some (quota_status (as_runner x)) ∧
    dek_at (heap s) (payload_dek_handle a) = Some (payload_dek (as_runner x)) ∧
    metrics_at (heap s) (metrics_handle a) = Some (metrics (as_runner x)) ∧
    logs_at (heap s) (logs_handle a) = Some (logs (as_runner x)) ∧
    flag_at (heap s) (ash_stopping (shutdown_handle a)) = Some (as_stopping x) ∧
    (∀ y, heap (use_step (AMetric i y) s) = record_metric (metrics_handle a) y (heap s)) ∧
    (∀ rx, subscribe a (heap (host_run before host_empty)) = Some rx →
       let sent := events (as_runner x) in
       pending rx (heap s) =
         Some (drop (length (events (as_runner x0)) `max` (length sent - EVENTS_CAP)) sent)).
Proof.
  intros Ha s.
  pose proof (host_run_simulates before _ _ host_empty_simulates) as H0.
  pose proof (host_run_simulates (before ++ after) _ _ host_empty_simulates) as H1. fold s in H1.
  assert (∃ x0, spec_run before [] !! i = Some x0) as [x0 Hx0].
  { apply lookup_lt_is_Some. rewrite (sim_length _ _ H0). by eapply lookup_lt_Some. }
  assert (∃ x, spec_run (before ++ after) [] !! i = Some x) as [x Hx].
  { apply lookup_lt_is_Some. unfold spec_run. rewrite fold_left_app.
    eapply Nat.lt_le_trans; [by eapply lookup_lt_Some|apply spec_run_length]. }
  assert (∃ a', agents s !! i = Some a') as [a' Ha'].
  { apply lookup_lt_is_Some. rewrite <- (sim_length _ _ H1). by eapply lookup_lt_Some. }
  exists x0, x, a'. pose proof (sim_rep _ _ H1 _ _ _ Ha' Hx) as Hrep.
  pose proof (sim_rep _ _ H0 _ _ _ Ha Hx0) as Hrep0.
  destruct (laid_out_fields _ _ (sim_layout _ _ H0 _ _ Ha)) as (E1 & E2 & E3 & E4 & E5 & E6 & _).
  destruct (laid_out_fields _ _ (sim_layout _ _ H1 _ _ Ha')) as (F1 & F2 & F3 & F4 & F5 & F6 & _).
  destruct (Hrep) as [Hr%load_runner_iff Hf _ _ _]. destruct Hr.
  unfold quota_at, dek_at, metrics_at, logs_at, quota_status_handle, payload_dek_handle,
    metrics_handle, logs_handle, shutdown_handle; cbn [ash_stopping].
  rewrite E2, E3, E4, E5, E6, <- F2, <- F3, <- F4, <- F5, <- F6.
  split_and!; try done; [by rewrite ra_quota0|by rewrite ra_dek0|by rewrite ra_metrics0|
    by rewrite ra_logs0| |].
  - intros y. cbn [use_step]. unfold on_agent. by rewrite Ha'.
  - intros rx. unfold subscribe, pending, events_at. destruct Hrep0 as [Hr%load_runner_iff _ _ _ _].
    rewrite (ra_events _ _ _ Hr). intros [= <-]. cbn [rx_events rx_next mbind option_bind].
    rewrite E1, <- F1, ra_events0. done.
Qed.
End handles.

(** ** The property on concrete values *)

(** Two runners; the handles of the first are taken before the control plane pushes a
    quota to it. *)
Definition two_runners : list (@UseAction concrete_bundle unit unit) :=
  [ABuild (AgentRunnerConfig_default "a" "1.0") "p1" empty_world;
   ABuild (AgentRunnerConfig_default "b" "1.0") "p2" empty_world].

Definition quota_pushed : list (@UseAction concrete_bundle unit unit) :=
  [ALicenseApplier 0; AMethod 0 (with_quota (Some tt)); ATrigger 1].

Definition first_runner : @AgentRunner concrete_bundle unit unit :=
  (build (AgentRunnerConfig_default "a" "1.0") "p1" empty_world []).1.

Lemma handles_refine_independent_runners_witness :
  quota_at (heap (host_run (two_runners ++ quota_pushed) host_empty))
    (quota_status_handle first_runner) = Some (Some tt) ∧
  flag_at (heap (host_run (two_runners ++ quota_pushed) host_empty))
    (ash_stopping (shutdown_handle first_runner)) = Some false.
Proof.
  destruct (handles_refine_independent_runners two_runners quota_pushed 0 first_runner eq_refl)
    as (x0 & x & a' & _ & Hx & _ & _ & Hq & _ & _ & _ & Hf & _).
  injection Hx as <-. split; [exact Hq|exact Hf].
Defined.
