(* ===== verification/SessionFacts.v ===== *)
(** * Properties of the agent's session: [src/agent.rs]

    The inbound handlers, the heartbeat and Register, and the flush at a
    requested shutdown. *)

From stdpp Require Import base list strings gmap.
From Stdlib Require Import ZArith QArith Lqa Lia.
From Stdlib.Strings Require Byte.
From S2P Require Import Prelude Time BTree Proto Text Serde Concrete Errors Token F64 Backoff.
From S2P Require Import Metrics MetricsFacts FlushLoop FlushLoopFacts Logs LogsFacts.
From S2P Require Import Crypto Dek Fs FsFacts Lkg LkgFacts License Creds Client Runner Inbound Agent.

Local Open Scope string_scope.

(** ** The shutdown flush *)

(** Enough rounds on a channel with enough room ship every sample. *)
Lemma flush_metrics_complete code n room now b :
  (1 ≤ Metrics.batch_cap b)%nat → (length (samples (Metrics.buf b)) ≤ n * Metrics.batch_cap b)%nat →
  (n ≤ room)%nat →
  let '(msgs, b', res) := flush_metrics code n room now b in
  concat (invocations <$> msgs) = map (sample_to_wire code) (samples (Metrics.buf b)) ∧
  samples (Metrics.buf b') = [] ∧
  ∃ room', res = Some room' ∧ (room ≤ room' + n)%nat.
Proof.
  revert room b. induction n as [|n IH]; intros room b Hbc Hlen Hroom; cbn [flush_metrics].
  { assert (samples (Metrics.buf b) = []) as -> by (apply nil_length_inv; lia).
    split_and!; try done. exists room. split; [done|lia]. }
  pose proof (drain_spec (now n) b) as Hd.
  destruct (Metrics.drain (now n) b) as [d b1].
  destruct Hd as (Hs & Hdl & _ & _ & _ & _ & _ & _ & _ & _ & _ & Hb1 & _).
  pose proof (batch_to_message_invocations code (timestamp_secs (now n)) d) as Hinv.
  assert (length (samples (Metrics.buf b)) = length (d_samples d) + length (samples (Metrics.buf b1)))%nat
    as Hl by (by rewrite <- Hs, length_app).
  assert (Drained_is_empty d = true → d_samples d = [] ∧ samples (Metrics.buf b1) = []) as He.
  { intros [E _]%Drained_is_empty_zero. split; [done|]. apply nil_length_inv.
    rewrite E in Hdl. simpl in Hdl. lia. }
  assert (length (samples (Metrics.buf b1)) ≤ n * Metrics.batch_cap b1)%nat as Hn.
  { rewrite Hb1. simpl in Hlen. lia. }
  rewrite <- Hs, map_app.
  destruct (Metrics.batch_to_message code _ d) as [msg|] eqn:Emsg.
  - destruct room as [|room]; [lia|].
    destruct (Drained_is_empty d) eqn:E.
    + unfold Metrics.batch_to_message in Emsg. by rewrite E in Emsg.
    + specialize (IH room b1). rewrite Hb1 in IH. rewrite Hb1 in Hn.
      destruct (flush_metrics code n room now b1) as [[msgs b2] res].
      destruct IH as (E1 & E2 & room' & E3 & E4); [lia..|]. split_and!; [|done|].
      * rewrite fmap_cons. cbn [concat]. by rewrite Hinv, E1.
      * exists room'. split; [done|lia].
  - rewrite Hinv. destruct (Drained_is_empty d) eqn:E.
    + destruct (He eq_refl) as [_ ->]. split_and!; try done. exists room. split; [done|lia].
    + unfold Metrics.batch_to_message in Emsg. by rewrite E in Emsg.
Qed.

Lemma flush_logs_complete level n room now b :
  (1 ≤ Logs.batch_cap b)%nat → (length (Logs.buf b) ≤ n * Logs.batch_cap b)%nat → (n ≤ room)%nat →
  let '(msgs, b', res) := flush_logs level n room now b in
  concat (batch_lines <$> msgs) = map (line_to_wire level) (Logs.buf b) ∧
  Logs.buf b' = [] ∧ is_Some res.
Proof.
  revert room b. induction n as [|n IH]; intros room b Hbc Hlen Hroom; cbn [flush_logs].
  { assert (Logs.buf b = []) as -> by (apply nil_length_inv; lia). by split_and!; [..|eexists]. }
  pose proof (drain_split b) as Hd. unfold Logs.drain in *. cbv zeta in *.
  set (k := (length (Logs.buf b) `min` Logs.batch_cap b)%nat) in *.
  set (b1 := {| Logs.buf := drop k (Logs.buf b) |}) in *.
  destruct Hd as (Hs & _ & _ & _ & _ & _ & _ & Hb1).
  assert (length (Logs.buf b1) ≤ n * Logs.batch_cap b1)%nat as Hn.
  { simpl. rewrite length_drop. simpl in Hlen. lia. }
  assert (map (line_to_wire level) (Logs.buf b) =
    (map (line_to_wire level) (take k (Logs.buf b)) ++ map (line_to_wire level) (Logs.buf b1))%list)
    as Hm by (by rewrite <- map_app, Hs).
  unfold Logs.batch_to_message.
  destruct (vec_is_empty (take k (Logs.buf b)) && (Logs.dropped_overflow b =? 0)%Z) eqn:E.
  - apply andb_true_iff in E as [E _]. apply vec_is_empty_true in E.
    assert (Logs.buf b1 = []) as Hb1e.
    { apply (f_equal length) in E. rewrite length_take in E. simpl in E.
      apply nil_length_inv. simpl. rewrite length_drop. lia. }
    rewrite Hm, E, Hb1e. by split_and!; [..|eexists].
  - destruct room as [|room]; [lia|]. specialize (IH room b1).
    destruct (flush_logs level n room now b1) as [[msgs b2] res].
    destruct IH as (E1 & E2 & E3); [done|done|lia|]. split_and!; try done.
    rewrite Hm, fmap_cons. cbn [concat]. by rewrite E1.
Qed.

Section session.
Context `{!Json, !Base64, !Rfc3339, !Aead, !Hkdf, !BundleCodec, !Grpc}.
Context {Channel QuotaStatus : Type}.
Implicit Types r : @Runner _ Channel QuotaStatus.

(** Queueing messages changes nothing but the queue. *)
Lemma send_all msgs r :
  let r' := fold_left (λ r msg, send true msg r) msgs r in
  outbound r' = (outbound r ++ msgs)%list ∧ metrics r' = metrics r ∧ logs r' = logs r.
Proof.
  revert r. induction msgs as [|m msgs IH]; intros r; cbn [fold_left]; [by rewrite app_nil_r|].
  destruct (IH (send true m r)) as (E1 & E2 & E3). rewrite E1, E2, E3. simpl.
  by rewrite <- (assoc_L app).
Qed.

(** C22: a requested shutdown ships everything that is buffered: when both buffers
    hold at most sixteen batches, which the default caps of 5000 and 500
    guarantee, and the channel stays open for the at most 32 messages, the reports
    carry every buffered sample and the log batches every buffered line, in order,
    and both buffers end up empty. *)
Theorem shutdown_flush_ships_everything code level room now r :
  Metrics.Inner_wf (metrics r) → Logs.Inner_wf (logs r) →
  (1 ≤ Metrics.batch_cap (metrics r))%nat → (1 ≤ Logs.batch_cap (logs r))%nat →
  (Metrics.cap (metrics r) `max` 1 ≤ 16 * Metrics.batch_cap (metrics r))%nat →
  (Logs.cap (logs r) `max` 1 ≤ 16 * Logs.batch_cap (logs r))%nat → (32 ≤ room)%nat →
  ∃ reports batches,
    outbound (flush_remaining code level room now r) = (outbound r ++ reports ++ batches)%list ∧
    concat (invocations <$> reports) = map (sample_to_wire code) (samples (Metrics.buf (metrics r))) ∧
    concat (batch_lines <$> batches) = map (line_to_wire level) (Logs.buf (logs r)) ∧
    samples (Metrics.buf (metrics (flush_remaining code level room now r))) = [] ∧
    Logs.buf (logs (flush_remaining code level room now r)) = [].
Proof.
  intros Hm Hl Hmb Hlb Hmc Hlc Hroom. unfold flush_remaining.
  pose proof (iw_len _ Hm) as Hlen. pose proof (lw_len _ Hl) as Hllen.
  pose proof (flush_metrics_complete code MAX_SHUTDOWN_FLUSH_BATCHES room now (metrics r) Hmb) as Hfm.
  destruct (flush_metrics _ _ _ _ _) as [[msgs m] res].
  destruct Hfm as (E1 & E2 & room' & -> & Hroom'); unfold MAX_SHUTDOWN_FLUSH_BATCHES in *; [lia..|].
  pose proof (flush_logs_complete level 16 room' now (logs r) Hlb) as Hfl.
  destruct (flush_logs _ _ _ _ _) as [[lmsgs l] lres].
  destruct Hfl as (E3 & E4 & _); [lia..|].
  pose proof (send_all (msgs ++ lmsgs) (with_buffers m l r)) as (E5 & E6 & E7).
  exists msgs, lmsgs. rewrite E5, E6, E7. done.
Qed.

(** ** Configuration updates *)

(** What the host answers to an update, [Ok] when nothing is to be applied. *)
Definition apply_outcome (hooks : Hooks) (u : ConfigUpdate)
    (r : @Runner _ Channel QuotaStatus) : Result () string :=
  match cu_bundle u, config_applier hooks with
  | Some b, Some apply => apply (length (host_calls r)) b
  | _, _ => Ok tt
  end.

Lemma run_io_runner {A} (m : IO A) r : ∃ w, (run_io m r).2 = with_world w r ∧ w = (m (world r)).2.
Proof. unfold run_io. destruct (m (world r)) as [res w]. by exists w. Qed.

(** C14: the acknowledgement of a configuration update is truthful, for every
    update, on an open and on a closed channel: while the channel is open exactly
    one is queued, with the pushed hash, [active] when the host applied the bundle
    (or there was nothing to apply) and otherwise [error] with the host's reason,
    and on a closed channel none is; the hash in effect becomes the pushed one
    exactly when it is not empty and the host did not reject the bundle, and
    otherwise stays; and the host was asked at most once. *)
Theorem config_ack_truthful cfg hooks open_ u r :
  let r' := on_config_update cfg hooks open_ u r in
  (∃ at_, outbound r' = (outbound r ++
     if open_ then [{| kind := Some (KConfigAck {|
     ca_config_hash := cu_config_hash u; ca_applied_at := at_;
     ca_applied_state := match apply_outcome hooks u r with Ok _ => "active" | Err _ => "error" end;
     ca_error := match apply_outcome hooks u r with Ok _ => "" | Err e => e end |}) |}]
     else [])%list) ∧
  applied_config_hash r' =
    (if is_ok (apply_outcome hooks u r) && negb (str_is_empty (cu_config_hash u))
     then Some (cu_config_hash u) else applied_config_hash r) ∧
  host_calls r' = (host_calls r ++
    match cu_bundle u, config_applier hooks with Some b, Some _ => [HApply b] | _, _ => [] end)%list ∧
  events r' = (events r ++ [ConfigReceived (cu_config_hash u)])%list ∧
  (client r', payload_dek r', quota_status r') = (client r, payload_dek r, quota_status r).
Proof.
  unfold on_config_update, apply_outcome. cbv zeta.
  destruct (cu_bundle u) as [b|].
  - destruct (run_io_runner (save (in_state_dir (rc_state_dir cfg)) (cu_config_hash u) b) r)
      as (w & -> & _).
    destruct (config_applier hooks) as [apply|]; [destruct (apply _ b) as [[]|e] eqn:E|];
      cbn [host_calls with_world] in *; rewrite ?E;
      destruct (str_is_empty (cu_config_hash u)) eqn:Eh, open_; cbn; rewrite ?app_nil_r;
      split_and!; try done; first [by exists None|by eexists].
  - destruct (str_is_empty (cu_config_hash u)) eqn:Eh, open_; cbn; rewrite ?app_nil_r;
      split_and!; try done; first [by exists None|by eexists].
Qed.

(** ** Inbound stream *)

(** An item the loop handles and goes on after. *)
Definition harmless (item : Result (@ServerMessage _ QuotaStatus) Status * bool) : bool :=
  match item.1 with
  | Ok msg => match server_kind msg with Some (SQuarantine _) => false | _ => true end
  | Err _ => false
  end.

Lemma handle_harmless cfg hooks nonce uid open_ msg r :
  harmless (Ok msg, open_) = true → (handle_message cfg hooks nonce uid open_ msg r).1 = Ok tt.
Proof. unfold harmless, handle_message. simpl. by destruct (server_kind msg) as [[]|]. Qed.

Lemma read_inbound_app cfg hooks nonce uid pre post r :
  forallb harmless pre = true →
  read_inbound cfg hooks nonce uid (pre ++ post) r =
  read_inbound cfg hooks nonce uid post (read_inbound cfg hooks nonce uid pre r).2.
Proof.
  revert r. induction pre as [|[[msg|st] o] pre IH]; intros r Hp; [done| |done].
  cbn [forallb] in Hp. apply andb_true_iff in Hp as [Hm Hp].
  cbn [app read_inbound]. pose proof (handle_harmless cfg hooks nonce uid o msg r Hm) as Hr.
  destruct (handle_message _ _ _ _ _ _ r) as [[[]|e] r1]; [|done]. by apply IH.
Qed.

Lemma harmless_split (stream : list (Result (@ServerMessage _ QuotaStatus) Status * bool)) :
  ∃ pre post, stream = (pre ++ post)%list ∧ forallb harmless pre = true ∧
    match post with [] => True | item :: _ => harmless item = false end.
Proof.
  induction stream as [|item stream (pre & post & -> & Hp & Hq)]; [by exists [], []|].
  destruct (harmless item) eqn:E.
  - exists (item :: pre), post. simpl. by rewrite E.
  - by exists [], (item :: pre ++ post)%list.
Qed.

(** Inbound messages are handled in order up to the first stream error or
    quarantine notice, which ends the session with that error; nothing after it
    is handled; and a session without either ends cleanly. *)
Theorem inbound_stops_at_first_failure cfg hooks nonce uid stream r :
  ∃ pre post, stream = (pre ++ post)%list ∧ forallb harmless pre = true ∧
    (read_inbound cfg hooks nonce uid stream r).2 =
      fold_left (λ r item, match item.1 with
        | Ok msg => (handle_message cfg hooks nonce uid item.2 msg r).2
        | Err _ => r end) pre r ∧
    match post with
    | [] => (read_inbound cfg hooks nonce uid stream r).1 = Ok tt
    | (Err status, _) :: _ =>
        (read_inbound cfg hooks nonce uid stream r).1 = Err (from_cause (CStatus status))
    | (Ok msg, _) :: _ => ∃ reason, server_kind msg = Some (SQuarantine reason) ∧
        (read_inbound cfg hooks nonce uid stream r).1 = Err (anyhow ("quarantined: " +:+ reason))
    end.
Proof.
  destruct (harmless_split stream) as (pre & post & -> & Hp & Hq). exists pre, post.
  split; [done|]. split; [done|]. rewrite read_inbound_app by done.
  assert ((read_inbound cfg hooks nonce uid pre r).2 = fold_left (λ r item, match item.1 with
        | Ok msg => (handle_message cfg hooks nonce uid item.2 msg r).2
        | Err _ => r end) pre r) as <-.
  { revert r Hp. clear. induction pre as [|[[msg|st] o] pre IH]; intros r Hp; [done| |done].
    cbn [forallb] in Hp. apply andb_true_iff in Hp as [Hm Hp]. cbn [read_inbound fold_left fst snd].
    pose proof (handle_harmless cfg hooks nonce uid o msg r Hm) as Hr.
    destruct (handle_message _ _ _ _ _ _ r) as [[[]|e] r1]; [|done]. by apply IH. }
  destruct post as [|[[msg|st] o] post]; [done| |done].
  unfold harmless in Hq. cbn [fst] in Hq. cbn [read_inbound]. unfold handle_message.
  destruct (server_kind msg) as [[]|]; try done. split; [done|]. by eexists.
Qed.
End session.

(** ** Persistence through the handlers *)

Section persistence.
Context `{!Json, !JsonLaws, !Base64, !Base64Laws, !Rfc3339, !Rfc3339Laws}.
Context `{!Aead, !AeadLaws, !Hkdf, !HkdfLaws, !BundleCodec, !BundleLaws, !Grpc}.
Context {Channel QuotaStatus : Type}.
Implicit Types r : @Runner _ Channel QuotaStatus.

(** The disk after an update is the one its save left. *)
Lemma config_update_disk cfg hooks open_ b hash r :
  disk (world (on_config_update cfg hooks open_ {| cu_config_hash := hash; cu_bundle := Some b |} r)) =
  disk (save (in_state_dir (rc_state_dir cfg)) hash b (world r)).2.
Proof.
  unfold on_config_update. cbn [cu_bundle cu_config_hash].
  destruct (run_io_runner (save (in_state_dir (rc_state_dir cfg)) hash b) r) as (w & -> & ->).
  destruct (config_applier hooks) as [apply|]; [destruct (apply _ b)|];
    destruct (str_is_empty hash), open_; done.
Qed.

Lemma preload_lkg_calm cfg hash bundle r :
  load_bundle (in_state_dir (rc_state_dir cfg)) (world r) = (Ok (Some (hash, bundle)), world r) →
  applied_config_hash (preload_lkg cfg r) = Some hash.
Proof. intros E. unfold preload_lkg, run_io. by rewrite E. Qed.

(** C34: a pushed bundle is persisted before it is applied, so one that the host
    rejects is kept as the last-known-good: the running process acknowledges the
    error and keeps its previous hash, but after a restart the preload loads the
    rejected bundle and reports its hash as the configuration in effect. *)
Theorem rejected_config_preloaded_on_restart cfg hooks apply reason hash bundle r r2 :
  config_applier hooks = Some apply → apply (length (host_calls r)) bundle = Err reason →
  calm (world r) → dt_ok (clock (world r) (readings (world r))) →
  entry_fits hash bundle (clock (world r) (readings (world r))) →
  let r' := on_config_update cfg hooks true {| cu_config_hash := hash; cu_bundle := Some bundle |} r in
  calm (world r2) → disk (world r2) = disk (world r') →
  applied_config_hash r' = applied_config_hash r ∧
  applied_config_hash (preload_lkg cfg r2) = Some hash.
Proof.
  intros Ha He Hc Ht Hf r' Hc2 Hd2. split.
  - unfold r', on_config_update. cbn [cu_bundle cu_config_hash].
    destruct (run_io_runner (save (in_state_dir (rc_state_dir cfg)) hash bundle) r) as (w & -> & _).
    rewrite Ha. cbn [host_calls with_world]. rewrite He. done.
  - destruct (save_calm (rc_state_dir cfg) hash bundle (world r) Hc Ht Hf)
      as (sealed & w1 & w' & E & Ho & [Hcw Hs] & Hp).
    unfold r' in Hd2. rewrite config_update_disk, E in Hd2. simpl in Hd2.
    eapply preload_lkg_calm, load_bundle_calm; [done| |by rewrite Hd2].
    split; [done|]. by rewrite Hd2.
Qed.

(** The credentials handler up to its disk: what it leaves in memory, and on the
    disk when nothing fails there. *)
Lemma rotation_runner cfg cr r :
  cr_instance_jwt cr ≠ "" →
  let persist := persist_rotated_creds (rc_state_dir cfg) (cr_instance_jwt cr)
    (cr_client_cert_pem cr) (cr_client_key_pem cr) (cr_payload_dek cr) (cr_payload_dek_version cr) in
  let w := (persist (world r)).2 in
  let rotated ca := {| ca_pem := ca; Client.client_cert_pem := cr_client_cert_pem cr;
    Client.client_key_pem := cr_client_key_pem cr; server_name := None |} in
  ∃ w' t,
    on_credential_rotation cfg cr r =
      with_dek (rotate_payload_dek (cr_payload_dek cr) (cr_payload_dek_version cr) (payload_dek r))
        (with_client (set_tls t (set_jwt (cr_instance_jwt cr) (client r))) (with_world w' r)) ∧
    (t = tls (client r) ∨ cr_client_cert_pem cr ≠ "" ∧ ∃ ca, t = Some (rotated ca)) ∧
    (cr_client_cert_pem cr = "" → t = tls (client r)) ∧
    (calm w → w' = w ∧
       (cr_client_cert_pem cr ≠ "" → ∀ c, creds_on (rc_state_dir cfg) (disk w) = Some c →
          t = Some (rotated (Creds.ca_chain_pem c)))).
Proof.
  intros Hne. cbv zeta. unfold on_credential_rotation.
  rewrite (proj2 (str_is_empty_false _) Hne).
  set (r1 := with_client _ r). set (persist := persist_rotated_creds _ _ _ _ _ _).
  destruct (run_io_runner persist r1) as (w & -> & ->). change (world r1) with (world r).
  set (w := (persist (world r)).2).
  destruct (str_is_empty (cr_client_cert_pem cr)) eqn:Ec.
  - apply str_is_empty_true in Ec. exists w, (tls (client r)). rewrite Ec.
    split_and!; [by destruct r|by left|done|]. by intros ?.
  - apply str_is_empty_false in Ec. unfold run_io. cbn [world with_world].
    pose proof (read_stored_creds_calm (rc_state_dir cfg) w) as Hrd.
    destruct (read_stored_creds (rc_state_dir cfg) w) as [[stored|e] w1]; cbn [fst snd] in Hrd.
    + eexists w1, _. split; [reflexivity|]. split_and!; [right; eauto|done|].
      intros Hc. destruct (Hrd Hc) as [-> Hs]. split; [done|]. intros _ c Hon.
      cbn [result_ok] in Hs. rewrite Hon in Hs. by injection Hs as ->.
    + exists w1, (tls (client r)). split; [by destruct r|]. split_and!; [by left|done|].
      intros Hc. destruct (Hrd Hc) as [-> Hs]. split; [done|]. intros _ c Hon.
      cbn [result_ok] in Hs. by rewrite Hon in Hs.
Qed.

End persistence.

(** ** Licences, Register and heartbeats *)

Section register.
Context `{!Json, !JsonLaws, !Base64, !Base64Laws, !Rfc3339, !Rfc3339Laws}.
Context `{!Aead, !Hkdf, !BundleCodec, !Grpc}.
Context {Channel QuotaStatus : Type}.
Implicit Types r : @Runner _ Channel QuotaStatus.

(** The payload key of issued credentials. *)
Lemma install_issued_dek resp now slot :
  install_payload_dek_from_creds (creds_of_response resp now) slot =
  match from_proto (rr_payload_dek resp) (rr_payload_dek_version resp) with
  | Ok (Some h) => Some h | _ => slot end.
Proof.
  destruct (vec_is_empty (rr_payload_dek resp)) eqn:Ev.
  - apply vec_is_empty_true in Ev. rewrite Ev. unfold install_payload_dek_from_creds.
    simpl. by rewrite Ev.
  - apply install_encoded; [by apply vec_is_empty_false|]. simpl. by rewrite Ev.
Qed.

(** Writing well-formed credentials and making them private, without faults. *)
Lemma write_creds_calm dir c w :
  let p := creds_path dir in
  let b := json_print_pretty (StoredCreds_serialize c) in
  calm w → dir ∈ dirs w → creds_wf c →
  let w' := (set_permissions p MODE_600 (write p b w).2).2 in
  creds_on dir (disk w') = Some c ∧ mode <$> disk w' !! p = Some MODE_600.
Proof.
  intros p b Hc Hdir Hwf w'. unfold w'.
  destruct (write_calm p b w) as (w2 & E2 & C2 & _ & _ & _ & _ & K2); [done|done|]. rewrite E2.
  destruct (set_permissions_calm p MODE_600 w2 (mkFile b (mode_at p w)))
    as (w3 & E3 & C3 & _ & _ & _ & K3); [done|by rewrite K2, lookup_insert_eq|].
  simpl. rewrite E3. simpl. split; [|by rewrite K3, lookup_insert_eq].
  unfold creds_on. fold p. rewrite K3, lookup_insert_eq. cbn [mbind option_bind content].
  unfold b. rewrite json_parse_print_pretty by (by apply StoredCreds_value_ok).
  by apply StoredCreds_roundtrip.
Qed.

(** C16: a Register response takes effect and survives a restart: the client
    presents the issued token and, when both a certificate and a CA came with it,
    handshakes anew with them; the payload key becomes the issued one when it is
    acceptable, and otherwise stays what it was; and without disk faults the
    credentials file holds exactly the issued credentials, private to its owner. *)
Theorem register_persists_and_installs cfg resp r :
  let creds := (finish_register cfg resp r).1 in
  let r' := (finish_register cfg resp r).2 in
  current_jwt (client r') = Some (rr_instance_jwt resp) ∧
  (rr_client_cert_pem resp ≠ "" → rr_ca_chain_pem resp ≠ "" →
     channel (client r') = None ∧
     tls (client r') = Some {| ca_pem := rr_ca_chain_pem resp;
       Client.client_cert_pem := rr_client_cert_pem resp;
       Client.client_key_pem := rr_client_key_pem resp; server_name := None |}) ∧
  payload_dek r' = match from_proto (rr_payload_dek resp) (rr_payload_dek_version resp) with
                   | Ok (Some h) => Some h | _ => payload_dek r end ∧
  events r' = (events r ++ [Registered (rr_instance_id resp)])%list ∧
  (calm (world r) → rc_state_dir cfg ∈ dirs (world r) → in_u32 (rr_payload_dek_version resp) →
   dt_ok (clock (world r) (readings (world r))) →
   creds_on (rc_state_dir cfg) (disk (world r')) = Some creds ∧
   mode <$> disk (world r') !! creds_path (rc_state_dir cfg) = Some MODE_600).
Proof.
  cbv zeta. unfold finish_register. cbn [fst snd].
  set (now := clock _ _). set (creds := creds_of_response resp now).
  set (p := creds_path (rc_state_dir cfg)). set (b := json_print_pretty _).
  set (r1 := (run_io utc_now _).2).
  destruct (run_io_runner (write p b) r1) as (w2 & -> & Hw2).
  destruct (run_io_runner (set_permissions p MODE_600) (with_world w2 r1)) as (w3 & -> & Hw3).
  split_and!.
  - unfold install_creds. by destruct (_ && _).
  - intros H1' H2'. unfold install_creds, creds. simpl.
    by rewrite (proj2 (str_is_empty_false _) H1'), (proj2 (str_is_empty_false _) H2').
  - unfold install_creds. destruct (_ && _); apply install_issued_dek.
  - unfold install_creds. by destruct (_ && _).
  - intros Hc Hdir Hver Ht.
    assert (world (install_creds creds (with_world w3 (with_world w2 r1))) = w3) as ->
      by (unfold install_creds; by destruct (_ && _)).
    rewrite Hw3. cbn [world with_world]. rewrite Hw2. by apply write_creds_calm.
Qed.
End register.

(** ** Retrying *)

Section retry.
Context {T S : Type}.
Implicit Types ops : list ((S → Result T Error * S) * Q).

(** The state after these attempts, if all of them fail. *)
Fixpoint all_fail ops (s : S) : option S :=
  match ops with
  | [] => Some s
  | (op, _) :: ops => match op s with (Err _, s) => all_fail ops s | (Ok _, _) => None end
  end.

(** A delay of a backoff with this maximum: at most a quarter more. *)
Definition delay_ok (m d : Duration) : Prop :=
  (0 <= d)%Z ∧ (inject_Z d <= inject_Z m * (5 # 4) * (1 + 7 * u53) + (1 # 2))%Q.

Lemma next_delay_ok f b :
  Backoff_wf b → jitter b = true → factor_ok f → (Backoff.max b <= from_secs (2 ^ 63))%Z →
  ∃ d b', next_delay f b = (Some d, b') ∧ delay_ok (Backoff.max b) d ∧ Backoff_wf b' ∧
    jitter b' = true ∧ Backoff.max b' = Backoff.max b.
Proof.
  intros Hwf Hj Hf Hm. pose proof (next_delay_wf f b Hwf) as Hwf'.
  pose proof (bounded_delay_range b Hwf) as [H0 H1].
  destruct (jitter_range f (bounded_delay b)) as (d & E & Hd & _ & Hu); [lia|done|].
  unfold next_delay in *. rewrite Hj in *. rewrite E in *. eexists _, _. split; [done|].
  split; [|done]. split; [done|]. rewrite Zle_Qle in H1. unfold u53 in *. lra.
Qed.

Lemma retry_loop_fail ops post b slept s s1 :
  all_fail ops s = Some s1 → Forall (λ a, factor_ok a.2) ops → Backoff_wf b → jitter b = true →
  (Backoff.max b <= from_secs (2 ^ 63))%Z →
  ∃ b' more, retry_loop (ops ++ post) b slept s = retry_loop post b' (slept ++ more) s1 ∧
    length more = length ops ∧ Forall (delay_ok (Backoff.max b)) more.
Proof.
  revert b slept s. induction ops as [|[op f] ops IH]; intros b slept s Hs Hf Hwf Hj Hm.
  { injection Hs as <-. exists b, []. by rewrite app_nil_r. }
  cbn [all_fail] in Hs. cbn [app retry_loop]. apply Forall_cons in Hf as [Hf0 Hf].
  destruct (op s) as [[v|e] s0]; [done|].
  destruct (next_delay_ok f b Hwf Hj Hf0 Hm) as (d & b1 & -> & Hd & Hwf1 & Hj1 & Hm1).
  destruct (IH b1 (slept ++ [d])%list s0) as (b' & more & E & Hl & Hmore); [done..|by rewrite Hm1|].
  exists b', (d :: more). split; [by rewrite E, <- (assoc_L app)|]. simpl. rewrite Hl.
  split; [done|]. constructor; [done|]. by rewrite <- Hm1.
Qed.

(** Retrying returns the value of the first attempt that succeeds, on the
    state the failed ones left, having slept once after each of them, never
    longer than five quarters of the maximum (up to rounding); while every
    attempt fails it keeps retrying; no delay panics. *)
Theorem retry_until_first_success initial_ max_ ops s :
  in_duration initial_ → (0 <= max_ <= from_secs (2 ^ 63))%Z → Forall (λ a, factor_ok a.2) ops →
  (∀ pre op f post s1 v s2, ops = (pre ++ (op, f) :: post)%list → all_fail pre s = Some s1 →
     op s1 = (Ok v, s2) →
     ∃ slept, retry_with_backoff initial_ max_ ops s = RDone v slept s2 ∧
       length slept = length pre ∧ Forall (delay_ok max_) slept) ∧
  (∀ s1, all_fail ops s = Some s1 →
     ∃ slept, retry_with_backoff initial_ max_ ops s = RPending slept s1 ∧
       length slept = length ops ∧ Forall (delay_ok max_) slept).
Proof.
  intros Hi [Hm0 Hm] Hf.
  assert (Backoff_wf (Backoff_new initial_ max_ true)) as Hwf.
  { split; simpl; [done| |unfold in_u32, U32_MAX; lia]. split; [done|].
    transitivity (from_secs (2 ^ 63)); [done|]. by vm_compute. }
  unfold retry_with_backoff. split.
  - intros pre op f post s1 v s2 -> Hs Hop. apply Forall_app in Hf as [Hf _].
    destruct (retry_loop_fail pre ((op, f) :: post) (Backoff_new initial_ max_ true) [] s s1)
      as (b' & more & E & Hl & Hmore); [done..|].
    exists more. rewrite E. cbn [retry_loop app]. rewrite Hop. done.
  - intros s1 Hs.
    destruct (retry_loop_fail ops [] (Backoff_new initial_ max_ true) [] s s1)
      as (b' & more & E & Hl & Hmore); [done..|].
    rewrite app_nil_r in E. exists more. by rewrite E.
Qed.
End retry.

(** ** Heartbeats *)

Definition heartbeat_seq (m : AgentMessage) : Z :=
  match kind m with Some (KHeartbeat h) => hb_seq h | _ => 0%Z end.

Lemma heartbeat_task_spec n ticks :
  (0 <= n)%Z → (n + Z.of_nat (length ticks) <= U64_MAX)%Z →
  let '(msgs, evs, stopped) := heartbeat_task n ticks in
  heartbeat_seq <$> msgs = (λ i, n + 1 + Z.of_nat i)%Z <$> List.seq 0%nat (length msgs) ∧
  evs = HeartbeatSent ∘ heartbeat_seq <$> msgs ∧
  (stopped = false → length msgs = length ticks).
Proof.
  revert n. induction ticks as [|[now o] ticks IH]; intros n Hn Hlen; [done|].
  cbn [heartbeat_task]. destruct o; cbn [negb]; [|done].
  assert (saturating_add_u64 n 1 = n + 1)%Z as ->.
  { unfold saturating_add_u64. simpl in Hlen. lia. }
  specialize (IH (n + 1)%Z). destruct (heartbeat_task (n + 1) ticks) as [[msgs evs] stopped].
  destruct IH as (E1 & E2 & E3); [lia|simpl in Hlen; lia|]. split_and!.
  - rewrite fmap_cons. cbn [length List.seq]. rewrite fmap_cons. f_equal; [cbn [heartbeat_seq heartbeat_message kind hb_seq]; rewrite Z.add_0_r; done|].
    rewrite E1, <- fmap_S_seq, <- list_fmap_compose. apply list_fmap_ext. intros i x _. simpl. lia.
  - rewrite fmap_cons, E2. done.
  - intros Hs. simpl. by rewrite E3.
Qed.

(** The heartbeats of a Channel are numbered from one without gaps, each
    accepted one is announced by an event with its number, and the task stops only
    when the channel is closed. *)
Theorem heartbeats_numbered ticks :
  (Z.of_nat (length ticks) <= U64_MAX)%Z →
  let '(msgs, evs, stopped) := heartbeat_task 0 ticks in
  heartbeat_seq <$> msgs = (λ i, Z.of_nat (S i)) <$> List.seq 0%nat (length msgs) ∧
  evs = HeartbeatSent ∘ heartbeat_seq <$> msgs ∧
  (stopped = false → length msgs = length ticks).
Proof.
  intros Hl. pose proof (heartbeat_task_spec 0 ticks ltac:(lia) ltac:(lia)) as H.
  destruct (heartbeat_task 0 ticks) as [[msgs evs] stopped]. destruct H as (E1 & E2).
  split; [|done]. rewrite E1. apply list_fmap_ext. intros i x _. lia.
Qed.

(** ** The properties on concrete values *)

Definition demo_runner_config : AgentRunnerConfig := {|
  rc_cp_endpoint := "http://cp"; rc_enrollment_url := "http://cp/enroll/v1#token=ENROL-abc";
  rc_instance_uid := "gw-1"; rc_version := "1.0"; rc_state_dir := "/s";
  rc_heartbeat_interval := from_secs 30; rc_backoff_initial := from_secs 1;
  rc_backoff_max := from_secs 60; rc_bootstrap_ca_pem := None; rc_metrics_flush_interval := None
|}.

Definition demo_runner : @Runner concrete_bundle unit unit :=
  AgentRunner_new demo_runner_config creds_world.

(** The same runner with a sample and a log line buffered. *)
Definition busy_runner : @Runner concrete_bundle unit unit :=
  with_buffers (Metrics.record (sample_of "a" SampleOutcome.Ok) MetricsBuffer_new)
    (Logs.record {| Logs.at_ := mkDateTime 0 0; Logs.level := Logs.LogLevel.Info;
       Logs.target := "t"; Logs.message := "m"; Logs.plugin_id := None |} LogBuffer_new)
    demo_runner.

Definition rejecting_hooks : @Hooks concrete_bundle :=
  {| config_applier := Some (λ _ _, Err "bad bundle"); license_applier := true |}.

Lemma shutdown_flush_ships_everything_witness :
  ∃ reports batches,
    outbound (flush_remaining outcome_code (λ _, 0%Z) 64 (λ _, mkDateTime 0 0) busy_runner) =
      (reports ++ batches)%list ∧
    length (concat (invocations <$> reports)) = 1%nat ∧
    length (concat (batch_lines <$> batches)) = 1%nat.
Proof.
  destruct (shutdown_flush_ships_everything outcome_code (λ _, 0%Z) 64 (λ _, mkDateTime 0 0)
    busy_runner) as (reports & batches & E1 & E2 & E3 & _).
  - apply MetricsFacts.record_wf, MetricsFacts.with_caps_wf.
  - apply LogsFacts.log_record_wf. split; vm_compute; try (intuition discriminate). lia.
  - vm_compute. lia.
  - vm_compute. lia.
  - apply Nat.leb_le. vm_compute. reflexivity.
  - apply Nat.leb_le. vm_compute. reflexivity.
  - lia.
  - exists reports, batches. split; [exact E1|]. rewrite E2, E3. split; reflexivity.
Defined.

(** The next process's view of a disk, without faults. *)
Lemma restart_calm w : calm (set_faults [] w).
Proof. done. Qed.

Lemma restart_disk w : disk (set_faults [] w) = disk w.
Proof. done. Qed.

Lemma rejected_config_preloaded_on_restart_witness :
  let r' := on_config_update demo_runner_config rejecting_hooks true
    {| cu_config_hash := "h2"; cu_bundle := Some demo_bundle |} demo_runner in
  applied_config_hash r' = None ∧
  applied_config_hash (preload_lkg demo_runner_config
    (AgentRunner_new demo_runner_config (set_faults [] (world r')) : @Runner _ unit unit)) =
    Some "h2".
Proof.
  assert (dt_ok (clock creds_world (readings creds_world))) as Ht by apply creds_world_time.
  assert (entry_fits "h2" demo_bundle (clock creds_world (readings creds_world))) as Hf.
  { intros buf [= <-]. vm_compute. discriminate. }
  intros r'.
  exact (rejected_config_preloaded_on_restart demo_runner_config rejecting_hooks
    (λ _ _, Err "bad bundle") "bad bundle" "h2" demo_bundle demo_runner
    (AgentRunner_new demo_runner_config (set_faults [] (world r')))
    eq_refl eq_refl eq_refl Ht Hf (restart_calm _) (restart_disk _)).
Defined.

Definition demo_rotation : CredentialRotation := {|
  cr_instance_jwt := "new"; cr_client_cert_pem := "cert2"; cr_client_key_pem := "key2";
  cr_payload_dek := demo_key; cr_payload_dek_version := 3
|}.


Definition demo_response : RegisterResponse := {|
  rr_instance_id := "i-2"; rr_instance_jwt := "fresh"; rr_cp_endpoint := "http://cp";
  rr_client_cert_pem := "cert"; rr_client_key_pem := "key"; rr_ca_chain_pem := "ca";
  rr_payload_dek := demo_key; rr_payload_dek_version := 1
|}.

Lemma register_persists_and_installs_witness :
  let r' := (finish_register demo_runner_config demo_response demo_runner).2 in
  current_jwt (client r') = Some "fresh" ∧ payload_dek r' = Some demo_handle ∧
  mode <$> disk (world r') !! creds_path "/s" = Some MODE_600.
Proof.
  destruct (register_persists_and_installs demo_runner_config demo_response demo_runner)
    as (H1 & _ & H2 & _ & H3).
  split; [exact H1|]. split; [exact H2|]. apply H3.
  - reflexivity.
  - apply creds_world_dir.
  - unfold in_u32, U32_MAX. simpl. lia.
  - apply creds_world_time.
Defined.

Lemma retry_until_first_success_witness :
  ∃ slept, retry_with_backoff (from_secs 1) (from_secs 60)
    [(λ n : nat, (Err (anyhow "down"), S n), 1%Q); (λ n : nat, (Ok n, n), 1%Q)] 0%nat =
      RDone 1%nat slept 1%nat ∧ length slept = 1%nat.
Proof.
  destruct (retry_until_first_success (from_secs 1) (from_secs 60)
    [(λ n : nat, (Err (anyhow "down"), S n), 1%Q); (λ n : nat, (Ok n, n), 1%Q)] 0%nat) as [H _].
  - vm_compute. intuition discriminate.
  - vm_compute. intuition discriminate.
  - repeat constructor; vm_compute; discriminate.
  - destruct (H [(λ n : nat, (Err (anyhow "down"), S n), 1%Q)] (λ n : nat, (Ok n, n)) 1%Q []
      1%nat 1%nat 1%nat eq_refl eq_refl eq_refl) as (slept & E & Hl & _).
    exists slept. split; [exact E|exact Hl].
Defined.

Lemma heartbeats_numbered_witness :
  heartbeat_seq <$> (heartbeat_task 0 [(10%Z, true); (20%Z, true); (30%Z, false)]).1.1 = [1%Z; 2%Z].
Proof.
  assert (Z.of_nat (length [(10%Z, true); (20%Z, true); (30%Z, false)]) <= U64_MAX)%Z as Hl
    by (vm_compute; discriminate).
  pose proof (heartbeats_numbered [(10%Z, true); (20%Z, true); (30%Z, false)] Hl) as [H _].
  exact H.
Defined.
