(* ===== verification/LoopFacts.v ===== *)
(** * Properties of the run loop: [run_loop] of [src/agent.rs]

    When the loop returns, what a session is started with, and how the loop
    reacts to the way a session ends. *)

From stdpp Require Import base list strings gmap.
From Stdlib Require Import ZArith QArith Lia.
From Stdlib.Strings Require Byte.
From S2P Require Import Prelude Time BTree Proto Text Serde Concrete Errors Token F64 Backoff.
From S2P Require Import Metrics MetricsFacts FlushLoop FlushLoopFacts Logs LogsFacts.
From S2P Require Import Crypto Dek Fs FsFacts Lkg LkgFacts License Creds Client Runner Inbound Agent SessionFacts.

Local Open Scope string_scope.

(** ** Backoff along the loop *)

Lemma reset_wf b : Backoff_wf b → Backoff_wf (Backoff.reset b).
Proof. intros [Hi Hm _]. split; simpl; [done|done|]. unfold in_u32, U32_MAX. lia. Qed.

Section retry.
Context {T S : Type}.
Implicit Types ops : list ((S → Result T Error * S) * Q).

Lemma retry_loop_no_panic ops b slept s s' :
  Forall (λ a, factor_ok a.2) ops → Backoff_wf b → jitter b = true →
  (Backoff.max b <= from_secs (2 ^ 63))%Z → retry_loop ops b slept s ≠ RPanic s'.
Proof.
  revert b slept s. induction ops as [|[op f] ops IH]; intros b slept s Hf Hwf Hj Hm; [done|].
  cbn [retry_loop]. apply Forall_cons in Hf as [Hf0 Hf].
  destruct (op s) as [[v|e] s0]; [done|].
  destruct (next_delay_ok f b Hwf Hj Hf0 Hm) as (d & b1 & -> & _ & Hwf1 & Hj1 & Hm1).
  apply IH; [done..|]. by rewrite Hm1.
Qed.
End retry.

Section loop.
Context `{!Json, !Base64, !Rfc3339, !Aead, !Hkdf, !BundleCodec, !Grpc}.
Context {Channel QuotaStatus : Type}.
Implicit Types r : @Runner _ Channel QuotaStatus.
Implicit Types env : @LoopEnv _ Channel QuotaStatus.

(** Durations of the configuration that no delay can overflow. *)
Record cfg_ok (cfg : AgentRunnerConfig) : Prop := {
  co_initial : in_duration (rc_backoff_initial cfg);
  co_max : (0 <= rc_backoff_max cfg <= from_secs (2 ^ 63))%Z
}.

(** Jitter factors as the generator draws them. *)
Definition factors_ok (reg : @RegisterEnv Channel) : Prop :=
  Forall (λ a, factor_ok a.2) (re_attempts reg).

Record env_ok env : Prop := {
  eo_factor : factor_ok (le_factor env);
  eo_enroll : factors_ok (le_enroll env);
  eo_reenroll : factors_ok (le_reenroll env)
}.

(** A backoff of the loop. *)
Record loop_backoff (b : Backoff) : Prop := {
  lb_wf : Backoff_wf b;
  lb_jitter : jitter b = true;
  lb_max : (Backoff.max b <= from_secs (2 ^ 63))%Z
}.

Lemma loop_backoff_new cfg :
  cfg_ok cfg → loop_backoff (Backoff_new (rc_backoff_initial cfg) (rc_backoff_max cfg) true).
Proof.
  intros [Hi [Hm0 Hm]]. split; [split|done|done]; simpl; [done| |unfold in_u32, U32_MAX; lia].
  split; [done|]. transitivity (from_secs (2 ^ 63)); [done|]. by vm_compute.
Qed.

Lemma loop_backoff_reset b : loop_backoff b → loop_backoff (Backoff.reset b).
Proof. intros [Hw Hj Hm]. split; [by apply reset_wf|done|done]. Qed.

Lemma loop_backoff_next f b :
  loop_backoff b → factor_ok f →
  ∃ d b', next_delay f b = (Some d, b') ∧ delay_ok (Backoff.max b) d ∧ loop_backoff b' ∧
    Backoff.attempt b' = saturating_add_u32 (Backoff.attempt b) 1.
Proof.
  intros [Hw Hj Hm] Hf. destruct (next_delay_ok f b Hw Hj Hf Hm) as (d & b' & E & Hd & Hw' & Hj' & Hm').
  exists d, b'. split; [done|]. split; [done|]. split; [split; [done|done|by rewrite Hm']|].
  unfold next_delay in E. by injection E as _ <-.
Qed.

(** Register fails only for want of a token, and never panics. *)
Lemma register_fresh_cases cfg reg r :
  cfg_ok cfg → factors_ok reg →
  match register_fresh cfg reg r with
  | RegErr e _ => extract_token (rc_enrollment_url cfg) = Err e
  | RegPanic _ => False
  | RegOk creds _ r' => current_jwt (client r') = Some (Creds.instance_jwt creds)
  | RegPending _ _ => True
  end.
Proof.
  intros Hcfg Hf. unfold register_fresh.
  destruct (extract_token _) as [token|e]; [|done]. cbv zeta.
  set (ops := _ <$> re_attempts reg).
  assert (Forall (λ a, factor_ok a.2) ops) as Hops by (by apply Forall_fmap).
  destruct (loop_backoff_new cfg Hcfg) as [Hw Hj Hm].
  pose proof (λ r', retry_loop_no_panic ops _ [] r r' Hops Hw Hj Hm) as Hnp.
  unfold retry_with_backoff. destruct (retry_loop ops _ [] r) as [resp slept r1|slept r1|r1] eqn:E.
  - unfold finish_register, install_creds. cbv zeta. by destruct (_ && _).
  - done.
  - exact (Hnp r1 eq_refl).
Qed.

(** ** One iteration *)

(** What an iteration of a loop that has a good backoff can end in. *)
Definition step_ok (s : @LoopStep _ Channel QuotaStatus) : Prop :=
  match s with
  | LNext _ b _ => loop_backoff b
  | LPending _ => True
  | LReturn _ | LFail _ _ | LPanic _ => False
  end.

Lemma after_register_ok cfg reg r k token :
  cfg_ok cfg → factors_ok reg → extract_token (rc_enrollment_url cfg) = Ok token →
  (∀ slept r', step_ok (k slept r')) → step_ok (after_register (register_fresh cfg reg r) k).
Proof.
  intros Hcfg Hf Ht Hk. pose proof (register_fresh_cases cfg reg r Hcfg Hf) as H'.
  destruct (register_fresh cfg reg r); simpl; [apply Hk|congruence|done|done].
Qed.

Lemma after_session_ok cfg hooks env slept b res r :
  cfg_ok cfg → env_ok env → loop_backoff b → step_ok (after_session cfg hooks env slept b res r).
Proof.
  intros Hcfg [Hf _ Hre] Hb. unfold after_session. destruct res as [[]|e].
  { by apply loop_backoff_reset. }
  destruct (loop_backoff_next (le_factor env) b Hb Hf) as (d & b' & -> & _ & Hb' & _).
  destruct (is_credential_rejection e).
  - destruct (extract_token (rc_enrollment_url cfg)) as [token|] eqn:Et; [|done].
    by eapply after_register_ok.
  - destruct (slot_retry_in e) as [[d'|]|] eqn:Es; [done| |done].
    destruct (slot_retry_total e) as [He _]. exact (He Es).
Qed.

Lemma loop_iteration_ok code level cfg hooks env b r :
  cfg_ok cfg → env_ok env → loop_backoff b → le_stopping env = false →
  step_ok (loop_iteration code level cfg hooks env b r).
Proof.
  intros Hcfg Henv Hb Hs. unfold loop_iteration, refresh_token. rewrite Hs. cbv zeta.
  assert (∀ slept r1, step_ok (let '(res, r2) := run_session code level cfg hooks (le_session env) r1
    in after_session cfg hooks env slept b res r2)) as Hk.
  { intros slept r1. destruct (run_session _ _ _ _ _ r1) as [res r2]. by apply after_session_ok. }
  destruct (expires_within _ _ _); [|apply Hk].
  destruct (extract_token _) as [token|] eqn:Et; [|apply Hk].
  eapply after_register_ok; [done|apply Henv|done|apply Hk].
Qed.

(** ** Main properties *)

Lemma run_loop_from_ok code level cfg hooks envs b r :
  cfg_ok cfg → Forall env_ok envs → loop_backoff b →
  match run_loop_from code level cfg hooks envs b r with
  | LReturn _ => ∃ env, env ∈ envs ∧ le_stopping env = true
  | LNext _ b' _ => Forall (λ env, le_stopping env = false) envs ∧ loop_backoff b'
  | LPending _ => True
  | LFail _ _ | LPanic _ => False
  end.
Proof.
  intros Hcfg. revert b r. induction envs as [|env envs IH]; intros b r He Hb; [by split|].
  apply Forall_cons in He as [He0 He]. cbn [run_loop_from].
  destruct (le_stopping env) eqn:Es.
  { unfold loop_iteration. rewrite Es. exists env. split; [left|done]. }
  pose proof (loop_iteration_ok code level cfg hooks env b r Hcfg He0 Hb Es) as Hok.
  destruct (loop_iteration _ _ _ _ _ _ r) as [| |slept b1 r1| |]; try done.
  specialize (IH b1 r1 He Hok). destruct (run_loop_from _ _ _ _ envs b1 r1); try done.
  - destruct IH as (env' & Hin & Hs'). exists env'. split; [by right|done].
  - destruct IH as [Hall ?]. split; [by constructor|done].
Qed.

(** The run loop returns only when a shutdown was requested, whatever the
    network, the disk, the control plane and the host do: it never fails and
    never panics, and every iteration that starts without the stopping flag set
    goes on to the next (or still waits for Register). *)
Theorem run_loop_returns_only_on_shutdown code level cfg hooks envs r :
  cfg_ok cfg → Forall env_ok envs →
  match run_loop code level cfg hooks envs r with
  | LReturn _ => ∃ env, env ∈ envs ∧ le_stopping env = true
  | LNext _ _ _ => Forall (λ env, le_stopping env = false) envs
  | LPending _ => True
  | LFail _ _ | LPanic _ => False
  end.
Proof.
  intros Hcfg He. unfold run_loop.
  pose proof (run_loop_from_ok code level cfg hooks envs _ r Hcfg He (loop_backoff_new cfg Hcfg)) as Hok.
  destruct (run_loop_from _ _ _ _ _ _ _); try done. by destruct Hok.
Qed.

(** The expiry the loop reads off the client's token. *)
Definition token_exp r : option Z := t ← current_jwt (client r); jwt_exp t.

(** C11: an agent that can re-enrol never starts a session on a token it knows to be
    expired, about to expire or unreadable: the session starts with the token
    unchanged only if that token was good at the time of the check, and otherwise
    with the token that Register has just issued; without an enrollment token the
    session starts on the old one. *)
Theorem session_starts_on_good_token cfg env r (k : list Duration → Runner → LoopStep) :
  cfg_ok cfg → factors_ok (le_enroll env) →
  let now := timestamp_secs (clock (world r) (readings (world r))) in
  let window := token_refresh_window (rc_heartbeat_interval cfg) in
  (∃ r1, refresh_token cfg env r k = k [] r1 ∧ client r1 = client r ∧
     (expires_within (token_exp r1) now window = false ∨
      ∃ e, extract_token (rc_enrollment_url cfg) = Err e)) ∨
  (expires_within (token_exp r) now window = true ∧
   ((∃ slept r1 creds, refresh_token cfg env r k = k slept r1 ∧
       current_jwt (client r1) = Some (Creds.instance_jwt creds)) ∨
    ∃ r1, refresh_token cfg env r k = LPending r1)).
Proof.
  intros Hcfg Hf now window. unfold refresh_token.
  destruct (run_io_runner utc_now r) as (w & -> & _).
  change (t ← current_jwt (client (with_world w r)); jwt_exp t) with (token_exp r).
  fold now. fold window. cbv zeta.
  destruct (expires_within (token_exp r) now window) eqn:E.
  - destruct (extract_token (rc_enrollment_url cfg)) as [token|e] eqn:Et.
    + right. split; [done|].
      pose proof (register_fresh_cases cfg (le_enroll env) (with_world w r) Hcfg Hf) as Hr.
      destruct (register_fresh _ _ _) as [creds slept r1|e r1|slept r1|r1]; simpl.
      * left. by exists slept, r1, creds.
      * congruence.
      * right. by exists r1.
      * done.
    + left. exists (with_world w r). split_and!; [done|done|]. right. by exists e.
  - left. exists (with_world w r). split_and!; [done|done|]. left. exact E.
Qed.

(** Credentials the control plane rejected are discarded only when they can be
    replaced: without an enrollment token the disk, the token and the payload key
    stay, the connection is dropped and the loop retries after the next backoff
    delay. *)
Theorem rejected_creds_kept_without_enrollment cfg hooks env slept b e r :
  env_ok env → loop_backoff b → is_credential_rejection e = true →
  is_ok (extract_token (rc_enrollment_url cfg)) = false →
  ∃ d b' r', after_session cfg hooks env slept b (Err e) r = LNext (slept ++ [d])%list b' r' ∧
    delay_ok (Backoff.max b) d ∧
    Backoff.attempt b' = saturating_add_u32 (Backoff.attempt b) 1 ∧
    world r' = world r ∧ current_jwt (client r') = current_jwt (client r) ∧
    channel (client r') = None ∧ payload_dek r' = payload_dek r ∧
    events r' = (events r ++ [ChannelDisconnected (describe_session_error e)])%list.
Proof.
  intros [Hf _ _] Hb Hrej Ht. unfold after_session. rewrite Hrej.
  destruct (loop_backoff_next (le_factor env) b Hb Hf) as (d & b' & -> & Hd & Hb' & Ha).
  destruct (extract_token _); [done|]. eexists _, _, _. split; [reflexivity|]. split_and!; done.
Qed.

(** What discarding the credentials does to the disk. *)
Lemma discard_disk dir w :
  disk (discard_stored_creds dir w).2 = delete (creds_path dir) (disk w) ∨
  disk (discard_stored_creds dir w).2 = disk w.
Proof.
  unfold discard_stored_creds, bind, Fs.attempt, remove_file, next_fault.
  destruct (faults w) as [|[] fs]; simpl; auto;
    (destruct (disk w !! creds_path dir) eqn:E; simpl; auto).
Qed.

Lemma discard_disk_calm dir w :
  calm w → disk (discard_stored_creds dir w).2 = delete (creds_path dir) (disk w).
Proof.
  intros Hc. unfold discard_stored_creds, bind, Fs.attempt, remove_file.
  rewrite next_fault_calm by done.
  destruct (disk w !! _) as [x|] eqn:Ex; simpl; [done|]. by rewrite delete_id.
Qed.

(** Attempts that keep a property of the state keep it to the end. *)
Lemma retry_loop_keeps {T S} (P : S → Prop) ops b slept (s : S) :
  Forall (λ op : (S → Result T Error * S) * _, ∀ s, P s → P (op.1 s).2) ops → P s →
  match retry_loop ops b slept s with
  | RDone _ _ s' | RPending _ s' | RPanic s' => P s'
  end.
Proof.
  intros Hops. revert b slept s. induction Hops as [|[op f] ops Hop _ IH]; intros b slept s Hs; [done|].
  cbn [retry_loop]. specialize (Hop s Hs). cbn [fst] in Hop.
  destruct (op s) as [[v|e] s1]; cbn [snd] in Hop; [done|].
  destruct (next_delay f b) as [[d|] b1]; [by apply IH|done].
Qed.

(** Register touches the disk only once it has its response. *)
Lemma register_fresh_world cfg reg r :
  cfg_ok cfg → factors_ok reg → is_ok (extract_token (rc_enrollment_url cfg)) = true →
  (∃ slept r', register_fresh cfg reg r = RegPending slept r' ∧ world r' = world r) ∨
  ∃ resp slept r1, world r1 = world r ∧
    register_fresh cfg reg r =
      RegOk (finish_register cfg resp r1).1 slept (finish_register cfg resp r1).2.
Proof.
  intros Hcfg Hf Ht. pose proof (register_fresh_cases cfg reg r Hcfg Hf) as Hcases.
  unfold register_fresh in *. destruct (extract_token _) as [token|e]; [|done].
  unfold retry_with_backoff in *. cbv zeta in *. set (ops := _ <$> re_attempts reg) in *.
  assert (Forall (λ op, ∀ r0 : @Runner _ Channel QuotaStatus,
    world r0 = world r → world (op.1 r0).2 = world r) ops) as Hops.
  { apply Forall_fmap, Forall_true. intros [a f] r0 E. cbn. by destruct (register _ _ _). }
  pose proof (retry_loop_keeps (λ r0, world r0 = world r) ops
    (Backoff_new (rc_backoff_initial cfg) (rc_backoff_max cfg) true) [] r Hops eq_refl) as Hk.
  destruct (retry_loop ops _ [] r) as [resp slept r1|slept r1|r1]; [| |done].
  - right. exists resp, slept, r1. split; [done|]. by destruct (finish_register cfg resp r1).
  - left. by exists slept, r1.
Qed.

(** C28: rejected credentials are replaced when they can be.  With an enrollment
    token the stored credentials are removed before Register is called (on a disk
    whose call fails they stay, and the agent goes on): as long as Register has no
    response the agent waits in it on that very disk, so that without a disk fault a
    process that dies there enrols anew instead of presenting them again; with a
    response the loop continues, after its backoff delay, with the issued token.
    Without an enrollment token nothing is removed: disk, token and payload key stay,
    the connection is dropped and the loop retries after the next backoff delay. *)
Theorem rejected_creds_replaced cfg hooks env slept b e r :
  cfg_ok cfg → env_ok env → loop_backoff b → is_credential_rejection e = true →
  match extract_token (rc_enrollment_url cfg) with
  | Ok _ =>
      ∃ w1, (disk w1 = delete (creds_path (rc_state_dir cfg)) (disk (world r)) ∨
             disk w1 = disk (world r)) ∧
        (calm (world r) → disk w1 = delete (creds_path (rc_state_dir cfg)) (disk (world r))) ∧
        ((∃ r', after_session cfg hooks env slept b (Err e) r = LPending r' ∧ world r' = w1) ∨
         ∃ d b' slept' resp r1,
           world r1 = w1 ∧ delay_ok (Backoff.max b) d ∧
           after_session cfg hooks env slept b (Err e) r =
             LNext (slept ++ d :: slept')%list b' (finish_register cfg resp r1).2 ∧
           current_jwt (client (finish_register cfg resp r1).2) = Some (rr_instance_jwt resp))
  | Err _ =>
      ∃ d b' r', after_session cfg hooks env slept b (Err e) r = LNext (slept ++ [d])%list b' r' ∧
        delay_ok (Backoff.max b) d ∧ world r' = world r ∧
        current_jwt (client r') = current_jwt (client r) ∧ payload_dek r' = payload_dek r ∧
        channel (client r') = None
  end.
Proof.
  intros Hcfg [Hf _ Hre] Hb Hrej. unfold after_session. rewrite Hrej.
  destruct (loop_backoff_next (le_factor env) b Hb Hf) as (d & b' & -> & Hd & _).
  destruct (extract_token _) as [token|err] eqn:Et;
    [|eexists _, _, _; split; [reflexivity|]; by split_and!].
  cbv zeta. set (r0 := with_client _ (emit _ r)).
  destruct (run_io_runner (discard_stored_creds (rc_state_dir cfg)) r0) as (w & -> & Hw).
  change (world r0) with (world r) in Hw. exists w. split_and!.
  - subst w. apply discard_disk.
  - intros Hc. subst w. by apply discard_disk_calm.
  - destruct (register_fresh_world cfg (le_reenroll env) (with_world w r0) Hcfg Hre)
      as [(slept' & r' & -> & Ew)|(resp & slept' & r1 & Ew & ->)]; [by rewrite Et|left|right].
    + by exists r'.
    + exists d, b', slept', resp, r1. split_and!; try done.
      unfold finish_register, install_creds. cbv zeta. by destruct (_ && _).
Qed.

(** A held slot is waited for and not backed off from: the loop sleeps exactly
    the time the slot needs (never more than its cap), tells the host, and leaves
    the backoff, the connection and everything on disk as they were; a clean end
    of a session resets the backoff and sleeps not at all. *)
Theorem slot_held_waits_for_slot cfg hooks env slept b e r d :
  slot_retry_in e = Some (Some d) →
  (∃ r', after_session cfg hooks env slept b (Err e) r = LNext (slept ++ [d])%list b r' ∧
     (0 < d <= MAX_SLOT_RETRY)%Z ∧ client r' = client r ∧ world r' = world r ∧
     host_calls r' = (host_calls r ++ if license_applier hooks then [HSlotHeld d] else [])%list) ∧
  after_session cfg hooks env slept b (Ok tt) r = LNext slept (Backoff.reset b) r.
Proof.
  intros Hs. split; [|done]. unfold after_session.
  assert (is_credential_rejection e = false) as ->.
  { revert Hs. unfold is_credential_rejection, slot_retry_in. destruct (find_status e) as [s|]; [|done].
    by destruct (code s). }
  rewrite Hs. eexists. split; [reflexivity|]. split; [by apply (slot_retry_total e)|].
  destruct (license_applier hooks); simpl; [done|]. by rewrite app_nil_r.
Qed.
End loop.

(** ** The properties on concrete values *)

#[local] Existing Instance demo_grpc.

Definition demo_register : @RegisterEnv unit := {|
  re_os := "linux"; re_arch := "x86_64"; re_var := λ _, None;
  re_attempts := [(λ _ _, Err (anyhow "down"), λ _ _, Err (anyhow "unreachable"), 1%Q);
                  (λ _ _, Ok tt, λ _ _, Ok demo_response, 1%Q)]
|}.

Definition rejection : Status :=
  {| Errors.code := Unauthenticated; Errors.message := "instance-token: ExpiredSignature";
     Errors.metadata := [] |}.

(** A session the control plane refuses. *)
Definition refused_session : @SessionEnv concrete_bundle unit unit := {|
  se_dial := λ _ _, Ok tt; se_nonce := "n1"; se_process_id := "p1";
  se_channel := λ _ _, Err rejection; se_inbound := []; se_shutdown := None;
  se_background := λ bs, bs; se_stopping := false; se_room := 64; se_now := λ _, mkDateTime 0 0
|}.

Definition demo_env (stopping : bool) : @LoopEnv concrete_bundle unit unit := {|
  le_stopping := stopping; le_enroll := demo_register; le_session := refused_session;
  le_factor := 1%Q; le_reenroll := demo_register
|}.

Lemma demo_factors : factors_ok demo_register.
Proof. repeat constructor; discriminate. Qed.

Lemma demo_env_ok s : env_ok (demo_env s).
Proof. split; [split; discriminate|apply demo_factors|apply demo_factors]. Qed.

Lemma demo_cfg_ok : cfg_ok demo_runner_config.
Proof. split; vm_compute; intuition discriminate. Qed.

Definition no_enroll_config : AgentRunnerConfig := {|
  rc_cp_endpoint := "http://cp"; rc_enrollment_url := ""; rc_instance_uid := "gw-1";
  rc_version := "1.0"; rc_state_dir := "/s"; rc_heartbeat_interval := from_secs 30;
  rc_backoff_initial := from_secs 1; rc_backoff_max := from_secs 60;
  rc_bootstrap_ca_pem := None; rc_metrics_flush_interval := None
|}.

Definition demo_backoff : Backoff := Backoff_new (from_secs 1) (from_secs 60) true.

Lemma demo_backoff_ok : loop_backoff demo_backoff.
Proof. exact (loop_backoff_new demo_runner_config demo_cfg_ok). Qed.

Lemma run_loop_returns_only_on_shutdown_witness :
  match run_loop outcome_code (λ _, 0%Z) demo_runner_config rejecting_hooks
          [demo_env false; demo_env true] demo_runner with
  | LFail _ _ | LPanic _ => False
  | _ => True
  end.
Proof.
  assert (Forall env_ok [demo_env false; demo_env true]) as He
    by (constructor; [apply demo_env_ok|constructor; [apply demo_env_ok|constructor]]).
  pose proof (run_loop_returns_only_on_shutdown outcome_code (λ _, 0%Z) demo_runner_config
    rejecting_hooks [demo_env false; demo_env true] demo_runner demo_cfg_ok He) as H.
  destruct (run_loop _ _ _ _ _ demo_runner); try exact I; exact H.
Defined.

Lemma session_starts_on_good_token_witness :
  (∃ slept r1 creds,
    refresh_token demo_runner_config (demo_env false) demo_runner (λ d r, LNext d demo_backoff r) =
      LNext slept demo_backoff r1 ∧
    current_jwt (client r1) = Some (Creds.instance_jwt creds)) ∨
  ∃ r1, refresh_token demo_runner_config (demo_env false) demo_runner
    (λ d r, LNext d demo_backoff r) = LPending r1.
Proof.
  destruct (session_starts_on_good_token demo_runner_config (demo_env false) demo_runner
    (λ d r, LNext d demo_backoff r) demo_cfg_ok demo_factors)
    as [(r1 & _ & Hc & [He|[e He]])|[_ H]].
  - exfalso. unfold token_exp in He. rewrite Hc in He. discriminate He.
  - discriminate He.
  - exact H.
Defined.

Lemma rejected_creds_kept_without_enrollment_witness :
  ∃ d b' r', after_session no_enroll_config rejecting_hooks (demo_env false) [] demo_backoff
      (Err (from_cause (CStatus rejection))) demo_runner = LNext [d] b' r' ∧
    world r' = creds_world ∧ channel (client r') = None.
Proof.
  destruct (rejected_creds_kept_without_enrollment no_enroll_config rejecting_hooks (demo_env false)
    [] demo_backoff (from_cause (CStatus rejection)) demo_runner
    (demo_env_ok false) demo_backoff_ok eq_refl eq_refl)
    as (d & b' & r' & E & _ & _ & Hw & _ & Hch & _).
  exists d, b', r'. split; [exact E|]. split; [exact Hw|exact Hch].
Defined.

(** The control plane rejects the credentials, and then does not answer Register. *)
Definition silent_env : @LoopEnv concrete_bundle unit unit := {|
  le_stopping := false; le_enroll := demo_register; le_session := refused_session; le_factor := 1%Q;
  le_reenroll := {| re_os := "linux"; re_arch := "x86_64"; re_var := λ _, None;
    re_attempts := [(λ _ _, Err (anyhow "down"), λ _ _, Err (anyhow "unreachable"), 1%Q)] |}
|}.

Lemma silent_env_ok : env_ok silent_env.
Proof. split; [split; discriminate|apply demo_factors|repeat constructor; discriminate]. Qed.

Lemma silent_pending :
  match after_session demo_runner_config rejecting_hooks silent_env [] demo_backoff
    (Err (from_cause (CStatus rejection))) demo_runner with LPending _ => true | _ => false end = true.
Proof. vm_compute. reflexivity. Qed.

Lemma rejected_creds_replaced_witness :
  ∃ r', after_session demo_runner_config rejecting_hooks silent_env [] demo_backoff
      (Err (from_cause (CStatus rejection))) demo_runner = LPending r' ∧
    is_Some (disk (world demo_runner) !! creds_path "/s") ∧
    disk (world r') !! creds_path "/s" = None.
Proof.
  pose proof silent_pending as Hp.
  destruct (rejected_creds_replaced demo_runner_config rejecting_hooks silent_env []
    demo_backoff (from_cause (CStatus rejection)) demo_runner
    demo_cfg_ok silent_env_ok demo_backoff_ok eq_refl)
    as (w1 & _ & Hc & [(r' & E & Ew)|(d & b' & slept' & resp & r1 & _ & _ & E & _)]).
  - exists r'. split; [exact E|]. split; [eexists; reflexivity|].
    rewrite Ew, (Hc eq_refl). apply lookup_delete_eq.
  - exfalso. rewrite E in Hp. discriminate Hp.
Defined.

Lemma slot_held_waits_for_slot_witness :
  ∃ r', after_session demo_runner_config rejecting_hooks (demo_env false) [] demo_backoff
      (Err (from_cause (CStatus held_slot))) demo_runner =
        LNext [from_millis 1750] demo_backoff r' ∧
    host_calls r' = [HSlotHeld (from_millis 1750)].
Proof.
  assert (slot_retry_in (from_cause (CStatus held_slot)) = Some (Some (from_millis 1750))) as Hs
    by (vm_compute; reflexivity).
  destruct (slot_held_waits_for_slot demo_runner_config rejecting_hooks (demo_env false) []
    demo_backoff (from_cause (CStatus held_slot)) demo_runner (from_millis 1750) Hs)
    as [(r' & E & _ & _ & _ & Hh) _].
  exists r'. split; [exact E|exact Hh].
Defined.
