(* ===== verification/LoopPacing.v ===== *)
(** * How fast [run_loop] of [src/agent.rs] reconnects

    The pauses of the run loop, iteration by iteration: none is longer than the
    configured maximum (with its jitter) or the longest wait for a held slot, so the
    agent always comes back; and every session that failed is followed by a pause of
    at least three quarters of the first delay, or by the wait for the slot, so that a
    control plane that refuses it is not hammered.  A session that ended cleanly is
    followed by no pause at all. *)

From stdpp Require Import base list strings gmap.
From Stdlib Require Import ZArith QArith Qminmax Lqa Lia.
From S2P Require Import Prelude Time BTree Proto Text Serde Concrete Errors Token F64 Backoff.
From S2P Require Import Metrics MetricsFacts FlushLoop FlushLoopFacts Logs LogsFacts.
From S2P Require Import Crypto Dek Fs FsFacts Lkg LkgFacts License Creds Client Runner Inbound Agent SessionFacts.
From S2P Require Import LoopControl LoopFacts.

Local Open Scope string_scope.
Local Open Scope list_scope.

(** The time slept. *)
Definition total (ps : list Duration) : Z := sum_over id ps.

Lemma total_cons p ps : total (p :: ps) = (p + total ps)%Z.
Proof. done. Qed.

(** The shortest delay of a backoff, jitter and rounding included. *)
Definition least_delay (initial max : Duration) : Q :=
  (inject_Z (Z.min initial max) * (3 # 4) * (1 - 7 * u53) - (1 # 2))%Q.

Definition pause_floor (initial max : Duration) : Q :=
  Qmin (least_delay initial max) (inject_Z SLOT_RETRY_MARGIN).

(** The longest pause: a delay of the backoff, or the wait for a slot. *)
Definition pause_ok (max p : Duration) : Prop :=
  (0 <= p)%Z ∧ (delay_ok max p ∨ (p <= MAX_SLOT_RETRY)%Z).

Lemma delay_pause_ok m d : delay_ok m d → pause_ok m d.
Proof. intros Hd. split; [apply Hd|by left]. Qed.

(** ** The pauses of an iteration *)

Section retry.
Context {T S : Type}.

Lemma retry_loop_slept (ops : list ((S → Result T Error * S) * Q)) b slept s v slept' s' :
  Forall (λ a, factor_ok a.2) ops → loop_backoff b →
  retry_loop ops b slept s = RDone v slept' s' →
  Forall (delay_ok (Backoff.max b)) slept → Forall (delay_ok (Backoff.max b)) slept'.
Proof.
  revert b slept s. induction ops as [|[op f] ops IH]; intros b slept s Hf Hb; [done|]. cbn [retry_loop].
  apply Forall_cons in Hf as [Hf0 Hf]. destruct (op s) as [[x|e] s0]; [by intros [= _ <- _]|].
  destruct Hb as [Hw Hj Hm].
  destruct (next_delay_ok f b Hw Hj Hf0 Hm) as (d & b' & -> & Hd & Hw' & Hj' & Em).
  intros Hr Hs. rewrite <- Em. eapply IH; [done| |exact Hr|].
  - split; [done|done|by rewrite Em].
  - rewrite Em. apply Forall_app. split; [done|by apply Forall_singleton].
Qed.
End retry.

Section pacing.
Context `{!Json, !Base64, !Rfc3339, !Aead, !Hkdf, !BundleCodec, !Grpc}.
Context {Channel QuotaStatus : Type}.
Abbreviation Runner := (@Runner _ Channel QuotaStatus).
Abbreviation LoopEnv := (@LoopEnv _ Channel QuotaStatus).
Abbreviation LoopStep := (@LoopStep _ Channel QuotaStatus).
Implicit Types (r : Runner) (env : LoopEnv) (o : LoopStep).

Lemma slot_retry_least e d : slot_retry_in e = Some (Some d) → (SLOT_RETRY_MARGIN <= d <= MAX_SLOT_RETRY)%Z.
Proof.
  unfold slot_retry_in. destruct (find_status e) as [s|]; [|done]. destruct (code s); try done.
  intros [= E]. revert E. set (named := metadata_get _ _ ≫= _).
  assert (∀ ms, in_u64 ms → ∃ d', dur_add (from_millis ms) SLOT_RETRY_MARGIN = Some d' ∧ (SLOT_RETRY_MARGIN <= d')%Z) as Kadd.
  { intros ms Hms. eexists. split; [by apply dur_add_millis|]. destruct Hms.
    unfold SLOT_RETRY_MARGIN, from_millis, NANOS_PER_MILLI. lia. }
  assert ((SLOT_RETRY_MARGIN <= MAX_SLOT_RETRY)%Z) by (by vm_compute).
  destruct named as [fi|] eqn:En; [|intros [= <-]; lia].
  unfold named in En. apply bind_Some in En as (x & _ & (y & _ & (ms & Ep & [= <-])%bind_Some)%bind_Some).
  destruct (Kadd ms) as (d' & -> & Hd); [by eapply parse_u64_range|]. cbn. intros [= <-]. lia.
Qed.

Lemma register_fresh_slept cfg (reg : @RegisterEnv Channel) r creds slept r' :
  cfg_ok cfg → factors_ok reg → register_fresh cfg reg r = RegOk creds slept r' →
  Forall (delay_ok (rc_backoff_max cfg)) slept.
Proof.
  intros Hcfg Hf. unfold register_fresh. destruct (extract_token _) as [token|]; [|done]. cbv zeta.
  set (ops := _ <$> re_attempts reg).
  assert (Forall (λ a, factor_ok a.2) ops) as Hops by (by apply Forall_fmap).
  unfold retry_with_backoff. destruct (retry_loop ops _ [] r) as [resp sl r1|sl r1|r1] eqn:E; try done.
  destruct (finish_register _ _ _). intros [= _ <- _].
  exact (retry_loop_slept ops _ [] r resp sl r1 Hops (loop_backoff_new cfg Hcfg) E (List.Forall_nil _)).
Qed.

(** What an iteration that goes on did after its session. *)
Record paced (b : Backoff) (clean : bool) (slept more : list Duration) (b' : Backoff) : Prop := {
  pa_initial : Backoff.initial b' = Backoff.initial b;
  pa_max : Backoff.max b' = Backoff.max b;
  pa_backoff : loop_backoff b';
  pa_pauses : Forall (pause_ok (Backoff.max b)) more;
  pa_failed : clean = false →
    (pause_floor (Backoff.initial b) (Backoff.max b) <= inject_Z (total more))%Q;
  pa_clean : clean = true → more = [] ∧ Backoff.attempt b' = 0%Z
}.

Lemma total_nonneg m ps : Forall (pause_ok m) ps → (0 <= total ps)%Z.
Proof. induction 1 as [|p ps [Hp _] _ IH]; [done|]. rewrite total_cons. lia. Qed.

Lemma total_app ps qs : total (ps ++ qs) = (total ps + total qs)%Z.
Proof. apply sum_over_app. Qed.

(** A delay of the backoff is no shorter than its first. *)
Lemma next_delay_paced f b :
  loop_backoff b → factor_ok f →
  ∃ d b', next_delay f b = (Some d, b') ∧ delay_ok (Backoff.max b) d ∧ loop_backoff b' ∧
    Backoff.initial b' = Backoff.initial b ∧ Backoff.max b' = Backoff.max b ∧
    (least_delay (Backoff.initial b) (Backoff.max b) <= inject_Z d)%Q.
Proof.
  intros Hb Hf. pose proof Hb as [Hw Hj Hm].
  destruct (loop_backoff_next f b Hb Hf) as (d & b' & E & Hd & Hb' & _).
  destruct (jittered_delay_within_a_quarter f b Hw Hj Hf Hm) as (d' & E' & _ & Hl & _).
  rewrite E in E'. injection E' as <-. exists d, b'. split_and!; try done;
    [unfold next_delay in E; by injection E as _ <-..|].
  assert (Z.min (Backoff.initial b) (Backoff.max b) <= bounded_delay b)%Z as Hmin.
  { transitivity (bounded_delay (Backoff.reset b)).
    - unfold bounded_delay, dur_saturating_mul, Backoff.reset. cbn. rewrite Z.mul_1_r.
      destruct Hw as [[_ Hi] _ _]. lia.
    - apply bounded_delay_mono; [by apply reset_wf|done..|]. apply Hw. }
  rewrite Zle_Qle in Hmin. unfold least_delay, u53 in *. lra.
Qed.

Lemma floor_least i m d :
  (least_delay i m <= inject_Z d)%Q ∨ (SLOT_RETRY_MARGIN <= d)%Z → (pause_floor i m <= inject_Z d)%Q.
Proof.
  unfold pause_floor. intros [Hd|Hd].
  - eapply Qle_trans; [apply Q.le_min_l|done].
  - eapply Qle_trans; [apply Q.le_min_r|]. by rewrite <- Zle_Qle.
Qed.

Definition is_ok (res : Result () Error) : bool := match res with Ok _ => true | Err _ => false end.

Lemma after_session_paced cfg hooks env slept b res r slept' b' r' :
  cfg_ok cfg → env_ok env → loop_backoff b → Backoff.max b = rc_backoff_max cfg →
  after_session cfg hooks env slept b res r = LNext slept' b' r' →
  ∃ more, slept' = slept ++ more ∧ paced b (is_ok res) slept more b'.
Proof.
  intros Hcfg [Hf _ Hre] Hb Hmx. unfold after_session. destruct res as [[]|e].
  { intros [= <- <- _]. exists []. split; [by rewrite app_nil_r|]. split; try done. by apply loop_backoff_reset. }
  destruct (next_delay_paced (le_factor env) b Hb Hf) as (d & b1 & -> & Hd & Hb1 & Ei & Em & Hl).
  assert (∀ more, Forall (pause_ok (Backoff.max b)) more →
    paced b false slept (d :: more) b1) as Hp.
  { intros more Hmore. split; try done; [by constructor; [apply delay_pause_ok|]|]. intros _.
    apply floor_least. left. eapply Qle_trans; [exact Hl|]. rewrite <- Zle_Qle.
    rewrite total_cons. pose proof (total_nonneg _ _ Hmore). lia. }
  destruct (is_credential_rejection e).
  - destruct (extract_token (rc_enrollment_url cfg)) as [token|] eqn:Et.
    + set (r1 := (run_io _ _).2). unfold after_register.
      destruct (register_fresh cfg (le_reenroll env) r1) as [creds sl r2|e2 r2|sl r2|r2] eqn:Er; try done.
      intros [= <- <- _]. exists (d :: sl). split; [done|]. apply Hp. rewrite Hmx.
      eapply Forall_impl; [by eapply register_fresh_slept|]. intros; by apply delay_pause_ok.
    + intros [= <- <- _]. exists [d]. split; [done|]. apply Hp. constructor.
  - destruct (slot_retry_in e) as [[d'|]|] eqn:Es; [|done|].
    + intros [= <- <- _]. exists [d']. split; [done|]. pose proof (slot_retry_least _ _ Es) as [Hlo Hhi].
      assert ((0 <= SLOT_RETRY_MARGIN)%Z) by (by vm_compute).
      split; try done; [apply Forall_singleton; split; [lia|by right]|]. intros _. apply floor_least. right.
      rewrite total_cons. change (total []) with 0%Z. lia.
    + intros [= <- <- _]. exists [d]. split; [done|]. apply Hp. constructor.
Qed.

(** ** The loop *)

(** Whether the session of an iteration ended cleanly. *)
Definition ended_cleanly code level cfg hooks env b r : bool :=
  match refresh_token cfg env r (λ slept r, LNext slept b r) with
  | LNext _ _ r => is_ok (run_session code level cfg hooks (le_session env) r).1
  | _ => false
  end.

(** [run_loop_from] with what each iteration came to and how long it slept. *)
Fixpoint loop_trace (code : ToolOutcome → Z) (level : ProtoLevel → Z) (cfg : AgentRunnerConfig)
    (hooks : Hooks) (envs : list LoopEnv) (b : Backoff) (r : Runner)
    : list (bool * list Duration) * LoopStep :=
  match envs with
  | [] => ([], LNext [] b r)
  | env :: envs =>
      match loop_iteration code level cfg hooks env b r with
      | LNext slept b' r' =>
          let '(t, o) := loop_trace code level cfg hooks envs b' r' in
          ((ended_cleanly code level cfg hooks env b r, slept) :: t, o)
      | stop => ([], stop)
      end
  end.

Lemma loop_trace_run code level cfg hooks envs b r :
  (loop_trace code level cfg hooks envs b r).2 = run_loop_from code level cfg hooks envs b r.
Proof.
  revert b r. induction envs as [|env envs IH]; intros b r; [done|]. cbn [loop_trace run_loop_from].
  destruct (loop_iteration _ _ _ _ env b r) as [r'|e r'|sl b' r'|r'|r']; try done.
  rewrite <- IH. by destruct (loop_trace _ _ _ _ envs b' r').
Qed.

Lemma refresh_token_slept cfg env r b slept b' r' :
  cfg_ok cfg → env_ok env → refresh_token cfg env r (λ slept r, LNext slept b r) = LNext slept b' r' →
  Forall (delay_ok (rc_backoff_max cfg)) slept.
Proof.
  intros Hcfg [_ He _]. unfold refresh_token. cbv zeta. destruct (expires_within _ _ _); [|by intros [= <- _ _]].
  destruct (extract_token _); [|by intros [= <- _ _]]. unfold after_register.
  destruct (register_fresh _ _ _) as [creds sl r2|e2 r2|sl r2|r2] eqn:Er; try done.
  intros [= <- _ _]. by eapply register_fresh_slept.
Qed.

Lemma loop_iteration_paced code level cfg hooks env b r slept b' r' :
  cfg_ok cfg → env_ok env → loop_backoff b → Backoff.max b = rc_backoff_max cfg →
  loop_iteration code level cfg hooks env b r = LNext slept b' r' →
  ∃ before after, slept = before ++ after ∧ Forall (pause_ok (Backoff.max b)) before ∧
    paced b (ended_cleanly code level cfg hooks env b r) before after b'.
Proof.
  intros Hcfg Henv Hb Hm. unfold loop_iteration, ended_cleanly. destruct (le_stopping env); [done|].
  rewrite (refresh_token_continue _ _ _ b).
  destruct (refresh_token cfg env r _) as [r1|e r1|before b1 r1|r1|r1] eqn:Et; try done.
  destruct (run_session _ _ _ _ _ r1) as [res r2]. intros Ha. cbn [fst].
  destruct (after_session_paced _ _ _ _ _ _ _ _ _ _ Hcfg Henv Hb Hm Ha) as (after & E & Hp).
  exists before, after. split_and!; [done| |done]. rewrite Hm.
  eapply Forall_impl; [by eapply refresh_token_slept|]. intros; by apply delay_pause_ok.
Qed.

Definition sessions_failed (t : list (bool * list Duration)) : nat := count_if (λ x, negb x.1) t.

(** C38: the run loop always comes back and never hammers the control plane: no pause
    of any iteration, retries of Register included, is longer than five quarters of
    the configured maximum or than the longest wait for a held slot; and over any
    number of iterations the time slept is at least, for each session that failed,
    three quarters of the first delay (rounding apart) or the margin of a slot. *)
Theorem run_loop_is_paced code level cfg hooks envs r t o :
  cfg_ok cfg → Forall env_ok envs →
  loop_trace code level cfg hooks envs
    (Backoff_new (rc_backoff_initial cfg) (rc_backoff_max cfg) true) r = (t, o) →
  o = run_loop code level cfg hooks envs r ∧
  Forall (pause_ok (rc_backoff_max cfg)) (concat (t.*2)) ∧
  (inject_Z (Z.of_nat (sessions_failed t)) *
     pause_floor (rc_backoff_initial cfg) (rc_backoff_max cfg) <=
   inject_Z (total (concat (t.*2))))%Q.
Proof.
  intros Hcfg Henv Ht.
  split; [unfold run_loop; by rewrite <- loop_trace_run, Ht|].
  set (b := Backoff_new _ _ true) in Ht.
  assert (loop_backoff b ∧ Backoff.initial b = rc_backoff_initial cfg ∧ Backoff.max b = rc_backoff_max cfg)
    as (Hb & Ei & Em) by (split; [by apply loop_backoff_new|done]).
  assert (inject_Z (Z.of_nat (sessions_failed [])) *
    pause_floor (rc_backoff_initial cfg) (rc_backoff_max cfg) <= inject_Z (total []))%Q as Hzero
    by (change (0 * pause_floor (rc_backoff_initial cfg) (rc_backoff_max cfg) <= 0)%Q; rewrite Qmult_0_l; apply Qle_refl).
  clearbody b. revert b r t Hb Ei Em Ht. induction Henv as [|env envs He _ IH]; intros b r t Hb Ei Em; cbn [loop_trace].
  { intros [= <- _]. split; [constructor|]. exact Hzero. }
  destruct (loop_iteration _ _ _ _ env b r) as [r'|e r'|slept b' r'|r'|r'] eqn:Ei';
    try (intros [= <- _]; split; [constructor|]; exact Hzero).
  destruct (loop_trace _ _ _ _ envs b' r') as [t' o'] eqn:Et. intros [= <- ->].
  destruct (loop_iteration_paced _ _ _ _ _ _ _ _ _ _ Hcfg He Hb Em Ei') as (before & after & -> & Hbef & Hp).
  destruct Hp as [P1 P2 P3 P4 P5 _]. rewrite Em, Ei in *.
  destruct (IH b' r' t' P3 P1 P2 Et) as [Hall Hsum].
  set (c := ended_cleanly _ _ _ _ env b r) in *. cbn [fmap list_fmap concat snd].
  split; [by rewrite !Forall_app|]. rewrite !total_app, !inject_Z_plus.
  pose proof (total_nonneg _ _ Hbef) as N1. pose proof (total_nonneg _ _ P4) as N2.
  rewrite Zle_Qle in N1, N2. change (inject_Z 0) with 0%Q in N1, N2.
  unfold sessions_failed in *. cbn [count_if fst]. destruct c; cbn [negb]; [rewrite Nat.add_0_l; lra|].
  rewrite Nat2Z.inj_add, inject_Z_plus. change (inject_Z (Z.of_nat 1)) with 1%Q. specialize (P5 eq_refl). lra.
Qed.
End pacing.

(** ** The property on a concrete execution *)

#[local] Existing Instance demo_grpc.

Definition refused_twice : list (bool * list Duration) * @LoopStep concrete_bundle unit unit :=
  loop_trace outcome_code (λ _, 0%Z) demo_runner_config rejecting_hooks [demo_env false; demo_env false]
    (Backoff_new (rc_backoff_initial demo_runner_config) (rc_backoff_max demo_runner_config) true) demo_runner.

Lemma refused_twice_trace :
  loop_trace outcome_code (λ _, 0%Z) demo_runner_config rejecting_hooks [demo_env false; demo_env false]
    (Backoff_new (rc_backoff_initial demo_runner_config) (rc_backoff_max demo_runner_config) true)
    demo_runner = (refused_twice.1, refused_twice.2).
Proof. unfold refused_twice. apply surjective_pairing. Qed.

Lemma refused_twice_failed : sessions_failed refused_twice.1 = 2%nat.
Proof. vm_compute. reflexivity. Qed.

Lemma demo_envs_ok : Forall env_ok [demo_env false; demo_env false].
Proof. constructor; [apply demo_env_ok|constructor; [apply demo_env_ok|constructor]]. Qed.

Lemma run_loop_is_paced_witness :
  sessions_failed refused_twice.1 = 2%nat ∧
  Forall (pause_ok (rc_backoff_max demo_runner_config)) (concat (refused_twice.1.*2)) ∧
  (inject_Z (Z.of_nat (sessions_failed refused_twice.1)) *
     pause_floor (rc_backoff_initial demo_runner_config) (rc_backoff_max demo_runner_config) <=
   inject_Z (total (concat (refused_twice.1.*2))))%Q.
Proof.
  split; [exact refused_twice_failed|].
  exact (proj2 (run_loop_is_paced _ _ _ _ _ _ _ _ demo_cfg_ok demo_envs_ok refused_twice_trace)).
Defined.
