(* ===== verification/Session.v ===== *)
(** * One Channel session as a concurrent system: [run_session] of [src/agent.rs]

    What runs while a Channel is open: the reader of inbound messages inside the
    [select!] of [run_session], the heartbeat, metrics, log and status tasks it
    spawned, the threads of the host that record samples and lines and may ask for
    a shutdown, and the transport that takes messages off the bounded outbound
    channel.  [session_step] runs one of them from one point where another can
    intervene to the next; an execution is a list of actions.  The end of
    [run_session] is part of it: the [abort]s, which only request a cancellation,
    the load of [stopping], and the loops of [flush_remaining]. *)

From stdpp Require Import base list strings gmap.
From Stdlib Require Import ZArith QArith Lia.
From S2P Require Import Prelude Time BTree Proto Text Serde Errors Token.
From S2P Require Import Metrics MetricsFacts FlushLoop FlushLoopFacts Logs Status.
From S2P Require Import Crypto Dek Fs Lkg License Creds Client Runner Inbound Agent.

Local Open Scope string_scope.

(** [mpsc::channel(64)]. *)
Definition CHANNEL_CAP : nat := 64.

(** The heartbeat task: waiting for a tick, in its send, or gone. *)
Inductive HbPc :=
| HbWait (seq : Z)
| HbSending (seq : Z) (msg : AgentMessage)
| HbDone.

(** The log task. *)
Inductive LogPc :=
| LWait
| LSending (msg : AgentMessage)
| LDone.

(** The status task; a host without a status source has none. *)
Inductive StatusPc :=
| SWait
| SSnapshot
| SSending (msg : AgentMessage)
| SDone.

Inductive TaskId := THeartbeat | TMetrics | TLogs | TStatus.

(** The order of the four [abort]s. *)
Definition abort_index (t : TaskId) : nat :=
  match t with THeartbeat => 0 | TMetrics => 1 | TLogs => 2 | TStatus => 3 end.

Section session.
Context `{!Json, !Base64, !Rfc3339, !Aead, !Hkdf, !BundleCodec, !Grpc}.
Context {Channel QuotaStatus : Type}.
Abbreviation Runner := (@Runner _ Channel QuotaStatus).
Abbreviation InboundPc := (@InboundPc _).
Abbreviation InboundIn := (@InboundIn _ QuotaStatus).

(** Where [run_session] is: in the [select!], between the [abort]s, at the load of
    [stopping], in one of the loops of [flush_remaining] with [n] rounds left, in
    one of their sends, or back. *)
Inductive MainPc :=
| MSelect (pc : InboundPc)
| MAborting (res : Result () Error)
| MLoad (res : Result () Error)
| MFlushMetrics (n : nat) (res : Result () Error)
| MFlushMetricsSend (n : nat) (batch : Drained) (msg : AgentMessage) (res : Result () Error)
| MFlushLogs (n : nat) (res : Result () Error)
| MFlushLogsSend (n : nat) (empty : bool) (msg : AgentMessage) (res : Result () Error)
| MReturned (res : Result () Error).

(** The shared state: the runner, whose [outbound] lists every message the channel
    accepted; how many of them the transport has taken and whether it still
    listens; the tasks; the shutdown request; how many [abort]s were called.  The
    last three fields are for the statements: the samples recorded, the batches
    whose report was accepted, and the batches a failed shutdown send gave up. *)
Record Session := {
  ss_runner : Runner;
  ss_taken : nat;
  ss_open : bool;
  ss_main : MainPc;
  ss_hb : HbPc;
  ss_metrics : FlushPc;
  ss_logs : LogPc;
  ss_status : StatusPc;
  ss_stopping : bool;
  ss_notified : bool;
  ss_aborts : nat;
  ss_recorded : list ToolCallSample;
  ss_shipped : list Drained;
  ss_lost : list Drained
}.

Definition set_runner (r : Runner) (s : Session) : Session :=
  {| ss_runner := r; ss_taken := ss_taken s; ss_open := ss_open s; ss_main := ss_main s;
     ss_hb := ss_hb s; ss_metrics := ss_metrics s; ss_logs := ss_logs s; ss_status := ss_status s;
     ss_stopping := ss_stopping s; ss_notified := ss_notified s; ss_aborts := ss_aborts s;
     ss_recorded := ss_recorded s; ss_shipped := ss_shipped s; ss_lost := ss_lost s |}.

Definition set_channel (taken : nat) (open_ : bool) (s : Session) : Session :=
  {| ss_runner := ss_runner s; ss_taken := taken; ss_open := open_; ss_main := ss_main s;
     ss_hb := ss_hb s; ss_metrics := ss_metrics s; ss_logs := ss_logs s; ss_status := ss_status s;
     ss_stopping := ss_stopping s; ss_notified := ss_notified s; ss_aborts := ss_aborts s;
     ss_recorded := ss_recorded s; ss_shipped := ss_shipped s; ss_lost := ss_lost s |}.

Definition set_main (pc : MainPc) (s : Session) : Session :=
  {| ss_runner := ss_runner s; ss_taken := ss_taken s; ss_open := ss_open s; ss_main := pc;
     ss_hb := ss_hb s; ss_metrics := ss_metrics s; ss_logs := ss_logs s; ss_status := ss_status s;
     ss_stopping := ss_stopping s; ss_notified := ss_notified s; ss_aborts := ss_aborts s;
     ss_recorded := ss_recorded s; ss_shipped := ss_shipped s; ss_lost := ss_lost s |}.

Definition set_tasks (h : HbPc) (m : FlushPc) (l : LogPc) (t : StatusPc) (s : Session) : Session :=
  {| ss_runner := ss_runner s; ss_taken := ss_taken s; ss_open := ss_open s; ss_main := ss_main s;
     ss_hb := h; ss_metrics := m; ss_logs := l; ss_status := t;
     ss_stopping := ss_stopping s; ss_notified := ss_notified s; ss_aborts := ss_aborts s;
     ss_recorded := ss_recorded s; ss_shipped := ss_shipped s; ss_lost := ss_lost s |}.

Definition set_hb (h : HbPc) (s : Session) : Session :=
  set_tasks h (ss_metrics s) (ss_logs s) (ss_status s) s.
Definition set_metrics (m : FlushPc) (s : Session) : Session :=
  set_tasks (ss_hb s) m (ss_logs s) (ss_status s) s.
Definition set_logs (l : LogPc) (s : Session) : Session :=
  set_tasks (ss_hb s) (ss_metrics s) l (ss_status s) s.
Definition set_status (t : StatusPc) (s : Session) : Session :=
  set_tasks (ss_hb s) (ss_metrics s) (ss_logs s) t s.

Definition set_shutdown (stopping notified : bool) (aborts : nat) (s : Session) : Session :=
  {| ss_runner := ss_runner s; ss_taken := ss_taken s; ss_open := ss_open s; ss_main := ss_main s;
     ss_hb := ss_hb s; ss_metrics := ss_metrics s; ss_logs := ss_logs s; ss_status := ss_status s;
     ss_stopping := stopping; ss_notified := notified; ss_aborts := aborts;
     ss_recorded := ss_recorded s; ss_shipped := ss_shipped s; ss_lost := ss_lost s |}.

Definition set_ledger (recorded : list ToolCallSample) (shipped lost : list Drained) (s : Session)
    : Session :=
  {| ss_runner := ss_runner s; ss_taken := ss_taken s; ss_open := ss_open s; ss_main := ss_main s;
     ss_hb := ss_hb s; ss_metrics := ss_metrics s; ss_logs := ss_logs s; ss_status := ss_status s;
     ss_stopping := ss_stopping s; ss_notified := ss_notified s; ss_aborts := ss_aborts s;
     ss_recorded := recorded; ss_shipped := shipped; ss_lost := lost |}.

(** The metrics and the log buffer of the runner. *)
Definition set_metrics_buf (b : Metrics.Inner) (s : Session) : Session :=
  set_runner (with_buffers b (logs (ss_runner s)) (ss_runner s)) s.
Definition set_logs_buf (b : Logs.Inner) (s : Session) : Session :=
  set_runner (with_buffers (metrics (ss_runner s)) b (ss_runner s)) s.

(** ** The outbound channel *)

(** Messages accepted and not taken yet. *)
Definition queued (s : Session) : nat := length (outbound (ss_runner s)) - ss_taken s.

(** Whether a send has to wait: the channel is open and full. *)
Definition blocked (s : Session) : bool := ss_open s && (CHANNEL_CAP <=? queued s)%nat.

(** A send that does not wait: accepted while the channel is open, an error after. *)
Definition push (msg : AgentMessage) (s : Session) : Session :=
  set_runner (send (ss_open s) msg (ss_runner s)) s.

(** A session just after its tasks were spawned, on a channel nothing was queued
    on. *)
Definition session_init (r : Runner) (has_status stopping : bool) : Session :=
  {| ss_runner := r; ss_taken := length (outbound r); ss_open := true; ss_main := MSelect INext;
     ss_hb := HbWait 0; ss_metrics := Starting; ss_logs := LWait;
     ss_status := if has_status then SWait else SDone;
     ss_stopping := stopping; ss_notified := false; ss_aborts := 0;
     ss_recorded := []; ss_shipped := []; ss_lost := [] |}.

(** ** The actors *)

(** The host: tool calls, event deliveries and log lines are recorded through the
    runner's handles, and [AgentShutdown::trigger] stores the flag and wakes the
    [Notified] of a session that is in its [select!]. *)
Inductive HostAction :=
| HostRecord (sample : ToolCallSample)
| HostRecordEvents (now : DateTime) (name mode_ : string) (c : EventCounts)
| HostLog (line : LogLineSample)
| HostTrigger
| HostNotify.

Definition host_step (a : HostAction) (s : Session) : option Session :=
  let r := ss_runner s in
  match a with
  | HostRecord sample =>
      Some (set_ledger (ss_recorded s ++ [sample])%list (ss_shipped s) (ss_lost s)
        (set_metrics_buf (Metrics.record sample (metrics r)) s))
  | HostRecordEvents now name mode_ c =>
      Some (set_metrics_buf (record_events now name mode_ c (metrics r)) s)
  | HostLog line => Some (set_logs_buf (Logs.record line (logs r)) s)
  | HostTrigger => Some (set_shutdown true (ss_notified s) (ss_aborts s) s)
  | HostNotify =>
      let waiting := match ss_main s with MSelect _ => true | _ => false end in
      Some (set_shutdown (ss_stopping s) (waiting || ss_notified s) (ss_aborts s) s)
  end.

(** The transport: it takes the next message, or drops the receiver. *)
Inductive NetAction := NetTake | NetClose.

Definition net_step (a : NetAction) (s : Session) : option Session :=
  match a with
  | NetTake =>
      if ss_open s && (0 <? queued s)%nat then Some (set_channel (S (ss_taken s)) true s) else None
  | NetClose => Some (set_channel (ss_taken s) false s)
  end.

(** The heartbeat task. *)
Inductive HbAction := HbTick (now : Z) | HbSend.

Definition hb_step (a : HbAction) (s : Session) : option Session :=
  match a, ss_hb s with
  | HbTick now, HbWait seq =>
      let seq := saturating_add_u64 seq 1 in
      Some (set_hb (HbSending seq (heartbeat_message now seq)) s)
  | HbSend, HbSending seq msg =>
      if blocked s then None
      else if ss_open s then
        let s := push msg s in
        Some (set_hb (HbWait seq) (set_runner (emit (HeartbeatSent seq) (ss_runner s)) s))
      else Some (set_hb HbDone s)
  | _, _ => None
  end.

(** The metrics task: the program counter of [FlushLoop] against the channel. *)
Inductive MetricsAction :=
| MetTick
| MetEarly
| MetWake
| MetRoundDone
| MetDrain (now : DateTime)
| MetSend.

Definition metrics_step (code : ToolOutcome → Z) (a : MetricsAction) (s : Session) : option Session :=
  let b := metrics (ss_runner s) in
  match a, ss_metrics s with
  | MetTick, Starting | MetTick, Idle => Some (set_metrics (Round (batches_per_tick b)) s)
  | MetEarly, Idle =>
      if Metrics.flush_early b
      then Some (set_metrics EarlySleep (set_metrics_buf (set_flush_early b false) s))
      else None
  | MetWake, EarlySleep => Some (set_metrics (Round (batches_per_tick b)) s)
  | MetRoundDone, Round O => Some (set_metrics Idle s)
  | MetDrain now, Round (S n) =>
      let '(d, b) := Metrics.drain now b in
      let s := set_metrics_buf b s in
      match Metrics.batch_to_message code (timestamp_secs now) d with
      | Some msg => Some (set_metrics (Sending n d msg) s)
      | None => Some (set_metrics (after_batch b (length (d_samples d)) n) s)
      end
  | MetSend, Sending n d msg =>
      if blocked s then None
      else if ss_open s then
        let s := set_ledger (ss_recorded s) (ss_shipped s ++ [d])%list (ss_lost s) (push msg s) in
        Some (set_metrics (after_batch b (length (d_samples d)) n) s)
      else Some (set_metrics Closed (set_metrics_buf (InFlight_drop (Some d) b) s))
  | _, _ => None
  end.

(** The log task. *)
Inductive LogAction := LogTick (now : Z) | LogSend.

Definition logs_step (level : ProtoLevel → Z) (a : LogAction) (s : Session) : option Session :=
  match a, ss_logs s with
  | LogTick now, LWait =>
      let '((drained, dropped, seq_), b) := Logs.drain (logs (ss_runner s)) in
      let s := set_logs_buf b s in
      match Logs.batch_to_message level now drained dropped seq_ with
      | Some msg => Some (set_logs (LSending msg) s)
      | None => Some (set_logs LWait s)
      end
  | LogSend, LSending msg =>
      if blocked s then None
      else if ss_open s then Some (set_logs LWait (push msg s))
      else Some (set_logs LDone s)
  | _, _ => None
  end.

(** The status task: the hash is loaded after the host's snapshot is complete. *)
Inductive StatusAction :=
| StaTick
| StaSnapshot (snap : StatusSnapshot) (now : Z)
| StaSend.

Definition status_step (a : StatusAction) (s : Session) : option Session :=
  match a, ss_status s with
  | StaTick, SWait => Some (set_status SSnapshot s)
  | StaSnapshot snap now, SSnapshot =>
      let hash := unwrap_str (applied_config_hash (ss_runner s)) in
      Some (set_status (SSending (snapshot_to_message now snap hash)) s)
  | StaSend, SSending msg =>
      if blocked s then None
      else if ss_open s then Some (set_status SWait (push msg s))
      else Some (set_status SDone s)
  | _, _ => None
  end.

(** A requested cancellation takes effect: the future is dropped at its [await],
    the metrics task's with its guard. *)
Definition cancel_step (t : TaskId) (s : Session) : option Session :=
  if (abort_index t <? ss_aborts s)%nat then
    match t with
    | THeartbeat => Some (set_hb HbDone s)
    | TMetrics =>
        if at_await (ss_metrics s) then
          let b := InFlight_drop (in_flight (ss_metrics s)) (metrics (ss_runner s)) in
          Some (set_metrics Closed (set_metrics_buf b s))
        else None
    | TLogs => Some (set_logs LDone s)
    | TStatus => Some (set_status SDone s)
    end
  else None.

(** [run_session] itself: the reader is polled or, once notified, dropped; then the
    four [abort]s, the load of [stopping], and [flush_remaining]. *)
Inductive MainAction :=
| MainPoll (i : InboundIn)
| MainAck
| MainNotified
| MainAbort
| MainLoad
| MainDrain (now : DateTime)
| MainSend.

Definition after_poll (s : Session) (st : InboundPc * Runner) : Session :=
  set_main (match st.1 with IReturned res => MAborting res | pc => MSelect pc end)
    (set_runner st.2 s).

(** The reader's part. *)
Definition select_step (cfg : AgentRunnerConfig) (hooks : Hooks) (channel_nonce instance_uid : string)
    (a : MainAction) (pc : InboundPc) (s : Session) : option Session :=
  match a with
  | MainPoll (InSent _) => None
  | MainPoll i =>
      after_poll s <$> inbound_poll cfg hooks channel_nonce instance_uid i (pc, ss_runner s)
  | MainAck =>
      if blocked s then None
      else after_poll s <$>
             inbound_poll cfg hooks channel_nonce instance_uid (InSent (ss_open s)) (pc, ss_runner s)
  | MainNotified => if ss_notified s then Some (set_main (MAborting (Ok tt)) s) else None
  | _ => None
  end.

(** The end of the session. *)
Definition finish_step (code : ToolOutcome → Z) (level : ProtoLevel → Z) (a : MainAction)
    (pc : MainPc) (s : Session) : option Session :=
  match a, pc with
  | MainAbort, MAborting res =>
      let aborts := S (ss_aborts s) in
      let s := set_shutdown (ss_stopping s) (ss_notified s) aborts s in
      Some (if (4 <=? aborts)%nat then set_main (MLoad res) s else s)
  | MainLoad, MLoad res =>
      Some (set_main (if ss_stopping s then MFlushMetrics MAX_SHUTDOWN_FLUSH_BATCHES res
                      else MReturned res) s)
  | MainDrain now, MFlushMetrics O res =>
      Some (set_main (MFlushLogs MAX_SHUTDOWN_FLUSH_BATCHES res) s)
  | MainDrain now, MFlushMetrics (S n) res =>
      let '(d, b) := Metrics.drain now (metrics (ss_runner s)) in
      let s := set_metrics_buf b s in
      match Metrics.batch_to_message code (timestamp_secs now) d with
      | Some msg => Some (set_main (MFlushMetricsSend n d msg res) s)
      | None => Some (set_main (if Drained_is_empty d then MFlushLogs MAX_SHUTDOWN_FLUSH_BATCHES res
                                else MFlushMetrics n res) s)
      end
  | MainSend, MFlushMetricsSend n d msg res =>
      if blocked s then None
      else if ss_open s then
        let s := set_ledger (ss_recorded s) (ss_shipped s ++ [d])%list (ss_lost s) (push msg s) in
        Some (set_main (if Drained_is_empty d then MFlushLogs MAX_SHUTDOWN_FLUSH_BATCHES res
                        else MFlushMetrics n res) s)
      else Some (set_main (MReturned res)
                   (set_ledger (ss_recorded s) (ss_shipped s) (ss_lost s ++ [d])%list s))
  | MainDrain now, MFlushLogs O res => Some (set_main (MReturned res) s)
  | MainDrain now, MFlushLogs (S n) res =>
      let '((entries, dropped, seq_), b) := Logs.drain (logs (ss_runner s)) in
      let empty := vec_is_empty entries && (dropped =? 0)%Z in
      let s := set_logs_buf b s in
      match Logs.batch_to_message level (timestamp_secs now) entries dropped seq_ with
      | Some msg => Some (set_main (MFlushLogsSend n empty msg res) s)
      | None => Some (set_main (if empty then MReturned res else MFlushLogs n res) s)
      end
  | MainSend, MFlushLogsSend n empty msg res =>
      if blocked s then None
      else if ss_open s then
        Some (set_main (if empty then MReturned res else MFlushLogs n res) (push msg s))
      else Some (set_main (MReturned res) s)
  | _, _ => None
  end.

Definition main_step (code : ToolOutcome → Z) (level : ProtoLevel → Z) (cfg : AgentRunnerConfig)
    (hooks : Hooks) (channel_nonce instance_uid : string) (a : MainAction) (s : Session)
    : option Session :=
  match ss_main s with
  | MSelect pc => select_step cfg hooks channel_nonce instance_uid a pc s
  | pc => finish_step code level a pc s
  end.

(** ** Executions *)

Inductive Action :=
| Host (a : HostAction)
| Net (a : NetAction)
| Hb (a : HbAction)
| Met (a : MetricsAction)
| Log (a : LogAction)
| Sta (a : StatusAction)
| Cancel (t : TaskId)
| Main (a : MainAction).

(** What a session is run with: the wire numbering of the two enums, the
    configuration, the hooks, and the Channel's nonce and instance. *)
Record SessionSetup := {
  su_code : ToolOutcome → Z;
  su_level : ProtoLevel → Z;
  su_cfg : AgentRunnerConfig;
  su_hooks : @Hooks _;
  su_nonce : string;
  su_uid : string
}.

Definition session_step (u : SessionSetup) (a : Action) (s : Session) : option Session :=
  match a with
  | Host a => host_step a s
  | Net a => net_step a s
  | Hb a => hb_step a s
  | Met a => metrics_step (su_code u) a s
  | Log a => logs_step (su_level u) a s
  | Sta a => status_step a s
  | Cancel t => cancel_step t s
  | Main a => main_step (su_code u) (su_level u) (su_cfg u) (su_hooks u) (su_nonce u) (su_uid u) a s
  end.

(** An execution: every action possible where it is taken. *)
Fixpoint session_run (u : SessionSetup) (acts : list Action) (s : Session) : option Session :=
  match acts with
  | [] => Some s
  | a :: acts => s ← session_step u a s; session_run u acts s
  end.
End session.
