(* ===== verification/SessionSafety.v ===== *)
(** * Properties of the concurrent session

    Conservation of tool calls over every execution of [session_step], the end of
    [run_session] included, the bound on what a dying Channel can take with it, and
    the termination of the shutdown flush. *)

From stdpp Require Import base list strings gmap.
From Stdlib Require Import ZArith QArith Lia.
From S2P Require Import Prelude Time BTree Proto Text Serde Concrete Errors Token.
From S2P Require Import Metrics MetricsFacts FlushLoop FlushLoopFacts Ledger Logs LogsFacts Status.
From S2P Require Import Crypto Dek Fs FsFacts Lkg LkgFacts License Creds Client Runner Inbound Agent.
From S2P Require Import SessionFacts Session.

#[local] Arguments Metrics.drain : simpl never.
#[local] Arguments Metrics.record : simpl never.
#[local] Arguments Logs.drain : simpl never.
#[local] Arguments InFlight_drop : simpl never.
#[local] Arguments record_events : simpl never.
#[local] Arguments Metrics.batch_to_message : simpl never.
#[local] Arguments Logs.batch_to_message : simpl never.

Section safety.
Context `{!Json, !Base64, !Rfc3339, !Aead, !Hkdf, !BundleCodec, !Grpc}.
Context {Channel QuotaStatus : Type}.
Abbreviation Session := (@Session _ Channel QuotaStatus).
Abbreviation Runner := (@Runner _ Channel QuotaStatus).
Implicit Types (s : Session) (r : Runner) (u : SessionSetup).

(** ** Conservation *)

(** The batch a shutdown flush is sending. *)
Definition main_flight (pc : @MainPc _) : option Drained :=
  match pc with MFlushMetricsSend _ d _ _ => Some d | _ => None end.

(** The batches that left the buffer: in flight in the metrics task, in flight in
    the shutdown flush, given up by it, accepted by the channel. *)
Definition session_out s : list Drained :=
  option_list (in_flight (ss_metrics s)) ++ option_list (main_flight (ss_main s)) ++
  ss_lost s ++ ss_shipped s.

Definition session_billable s : Z :=
  sum_over batch_billable (session_out s) + ledger_billable (metrics (ss_runner s)).
Definition session_non_billable s : Z :=
  sum_over batch_non_billable (session_out s) + ledger_non_billable (metrics (ss_runner s)).

Definition session_inv (bb bn : Z) s : Prop :=
  ledger_ok bb bn (metrics (ss_runner s)) (session_out s) (ss_recorded s).

(** Counts a host records are machine integers. *)
Definition action_ok (a : @Action _ QuotaStatus) : Prop :=
  match a with Host (HostRecordEvents _ _ _ c) => EventCounts_wf c | _ => True end.

Lemma session_inv_keep bb bn s s' :
  metrics (ss_runner s') = metrics (ss_runner s) → session_out s' = session_out s →
  ss_recorded s' = ss_recorded s → session_inv bb bn s → session_inv bb bn s'.
Proof. unfold session_inv. by intros -> -> ->. Qed.

(** No handler of inbound messages touches the buffers. *)
Definition buffers r : Metrics.Inner * Logs.Inner := (metrics r, logs r).

Lemma run_io_buffers {A} (m : IO A) r : buffers (run_io m r).2 = buffers r.
Proof. unfold run_io. by destruct (m (world r)). Qed.

Lemma config_applied_buffers hash outcome r :
  buffers (config_applied hash outcome r).2 = buffers r.
Proof.
  unfold config_applied. destruct outcome; cbn [snd]; rewrite run_io_buffers; by destruct (_ && _).
Qed.

Lemma jwt_locked_buffers cfg cr r : buffers (jwt_locked cfg cr r).2 = buffers r.
Proof.
  unfold jwt_locked. cbv zeta. set (r1 := (run_io _ _).2).
  assert (buffers r1 = buffers r) as <- by (unfold r1; by rewrite run_io_buffers).
  destruct (str_is_empty _); [done|].
  rewrite <- (run_io_buffers (read_stored_creds (rc_state_dir cfg)) r1).
  by destruct (run_io _ r1) as [[st|e] r2].
Qed.

Lemma inbound_start_buffers cfg hooks nonce uid msg r :
  buffers (inbound_start cfg hooks nonce uid msg r).2 = buffers r.
Proof.
  unfold inbound_start. destruct (server_kind msg) as [[up|c|cr|reason| | |qs|up]|]; try done.
  - cbv zeta. destruct (cu_bundle up) as [b|]; [|apply config_applied_buffers].
    destruct (config_applier hooks);
      [|rewrite config_applied_buffers]; exact (run_io_buffers _ r).
  - by destruct (str_is_empty _).
  - destruct (license_applier hooks); exact (run_io_buffers _ r).
Qed.

Lemma inbound_poll_buffers cfg hooks nonce uid i st st' :
  inbound_poll cfg hooks nonce uid i st = Some st' → buffers st'.2 = buffers st.2.
Proof.
  unfold inbound_poll. destruct st as [pc r]. cbn [fst snd].
  destruct pc, i; try done; repeat case_match; intros [= <-]; cbn [snd]; try done;
    eauto using inbound_start_buffers, config_applied_buffers, jwt_locked_buffers.
  by destruct open_.
Qed.

(** Each actor keeps the ledger. *)
Lemma host_step_inv bb bn a s s' :
  action_ok (Host a) → host_step a s = Some s' → session_inv bb bn s → session_inv bb bn s'.
Proof.
  intros Ha Hs Hi. destruct a; injection Hs as <-; unfold session_inv in *; cbn.
  - by apply ledger_record.
  - by apply ledger_record_events.
  - done.
  - done.
  - done.
Qed.

Lemma net_step_inv bb bn a s s' :
  net_step a s = Some s' → session_inv bb bn s → session_inv bb bn s'.
Proof. destruct a; cbn; [case_match|]; intros [= <-]; by apply session_inv_keep. Qed.

(** An accepted message changes the queue only. *)
Lemma push_metrics msg s : metrics (ss_runner (push msg s)) = metrics (ss_runner s).
Proof. unfold push. by destruct (ss_open s). Qed.

Lemma hb_step_inv bb bn a s s' :
  hb_step a s = Some s' → session_inv bb bn s → session_inv bb bn s'.
Proof.
  unfold hb_step. destruct a, (ss_hb s); try done; [intros [= <-]; by apply session_inv_keep|].
  destruct (blocked s); [done|]. case_match eqn:Eo; intros [= <-]; apply session_inv_keep; try done.
  cbn. by rewrite Eo.
Qed.

Lemma logs_step_inv bb bn level a s s' :
  logs_step level a s = Some s' → session_inv bb bn s → session_inv bb bn s'.
Proof.
  unfold logs_step. destruct a, (ss_logs s); try done.
  - destruct (Logs.drain _) as [[[entries dropped] seq_] b].
    case_match; intros [= <-]; by apply session_inv_keep.
  - destruct (blocked s); [done|]. case_match eqn:Eo; intros [= <-]; apply session_inv_keep; try done.
    cbn. apply push_metrics.
Qed.

Lemma status_step_inv bb bn a s s' :
  status_step a s = Some s' → session_inv bb bn s → session_inv bb bn s'.
Proof.
  unfold status_step. destruct a, (ss_status s); try done; try (intros [= <-]; by apply session_inv_keep).
  destruct (blocked s); [done|]. case_match eqn:Eo; intros [= <-]; apply session_inv_keep; try done.
  cbn. apply push_metrics.
Qed.
(** A drain puts its batch in flight or found nothing to report. *)
Lemma drain_inv bb bn code s now d b out :
  Metrics.drain now (metrics (ss_runner s)) = (d, b) → session_inv bb bn s →
  out ≡ₚ d :: session_out s ∨
    (out ≡ₚ session_out s ∧ Metrics.batch_to_message code (timestamp_secs now) d = None) →
  ledger_ok bb bn b out (ss_recorded s).
Proof.
  intros E Hi Hout. pose proof (ledger_drain bb bn _ _ _ _ _ _ E Hi) as Hl.
  destruct Hout as [Hp|[Hp Hm]]; eapply ledger_perm; [by symmetry|done|by symmetry|].
  eapply ledger_empty; [|done]. unfold Metrics.batch_to_message in Hm.
  by destruct (Drained_is_empty d).
Qed.

Lemma metrics_step_inv bb bn code a s s' :
  metrics_step code a s = Some s' → session_inv bb bn s → session_inv bb bn s'.
Proof.
  intros Hs Hi. unfold metrics_step in Hs. destruct a, (ss_metrics s) as [| | |[|n]|n d msg|] eqn:Ep;
    try discriminate Hs; try (injection Hs as <-; apply (session_inv_keep _ _ s);
      unfold session_out; cbn; rewrite ?Ep; done).
  - destruct (Metrics.flush_early _) eqn:Ee; [|done]. injection Hs as <-.
    unfold session_inv, session_out in *. cbn. rewrite Ep in Hi. by apply ledger_flush_early.
  - destruct (Metrics.drain now _) as [d b] eqn:Ed.
    destruct (Metrics.batch_to_message _ _ d) as [msg|] eqn:Em; injection Hs as <-;
      unfold session_inv; cbn; eapply (drain_inv bb bn code); try done.
    + left. unfold session_out. cbn. by rewrite Ep.
    + right. split; [|done]. unfold session_out. cbn. by rewrite after_batch_flight, Ep.
  - destruct (blocked s); [done|]. destruct (ss_open s) eqn:Eo; injection Hs as <-.
    + unfold session_inv in *. cbn. unfold push. rewrite Eo. cbn.
      eapply ledger_perm; [|done]. unfold session_out. cbn. rewrite after_batch_flight, Ep. cbn.
      solve_Permutation.
    + unfold session_inv in *. cbn. apply ledger_requeue. unfold session_out in *. cbn.
      by rewrite Ep in Hi.
Qed.

Lemma cancel_step_inv bb bn t s s' :
  cancel_step t s = Some s' → session_inv bb bn s → session_inv bb bn s'.
Proof.
  unfold cancel_step. destruct (_ <? _)%nat; [|done].
  destruct t; try (intros [= <-]; by apply session_inv_keep).
  destruct (at_await _); [|done]. intros [= <-] Hi. unfold session_inv in *. cbn.
  by apply ledger_requeue.
Qed.

Lemma select_step_inv bb bn cfg hooks nonce uid a pc s s' :
  ss_main s = MSelect pc → select_step cfg hooks nonce uid a pc s = Some s' →
  session_inv bb bn s → session_inv bb bn s'.
Proof.
  intros Ep Hs Hi.
  assert (∀ i, after_poll s <$> inbound_poll cfg hooks nonce uid i (pc, ss_runner s) = Some s' →
    session_inv bb bn s') as Hpoll.
  { intros i (st & Hp & ->)%fmap_Some. pose proof (inbound_poll_buffers _ _ _ _ _ _ _ Hp) as [= E _].
    apply (session_inv_keep _ _ s); [done| |done|done]. unfold session_out, after_poll. cbn.
    rewrite Ep. by destruct (st.1). }
  unfold select_step in Hs. destruct a as [i| | | | | |]; try done.
  - destruct i; try done; by eapply Hpoll.
  - destruct (blocked s); [done|]. by eapply Hpoll.
  - destruct (ss_notified s); [|done]. injection Hs as <-.
    apply (session_inv_keep _ _ s); try done. unfold session_out. cbn. by rewrite Ep.
Qed.

Lemma finish_step_inv bb bn code level a s s' :
  finish_step code level a (ss_main s) s = Some s' → session_inv bb bn s → session_inv bb bn s'.
Proof.
  intros Hs Hi. unfold finish_step in Hs.
  destruct a, (ss_main s) as [pc|res|res|[|n] res|n d msg res|[|n] res|n e msg res|res] eqn:Ep;
    try discriminate Hs; try (injection Hs as <-; apply (session_inv_keep _ _ s); try done;
      unfold session_out; cbn; rewrite Ep; repeat case_match; done).
  - cbv zeta in Hs. destruct (4 <=? _)%nat; injection Hs as <-; apply (session_inv_keep _ _ s); try done;
      unfold session_out; cbn; rewrite Ep; done.
  - destruct (Metrics.drain now _) as [d b] eqn:Ed.
    destruct (Metrics.batch_to_message _ _ d) as [msg|] eqn:Em; injection Hs as <-;
      unfold session_inv; cbn; eapply (drain_inv bb bn code); try done.
    + left. unfold session_out. cbn. rewrite Ep. cbn. solve_Permutation.
    + right. split; [|done]. unfold session_out. cbn. rewrite Ep. by destruct (Drained_is_empty d).
  - destruct (Logs.drain _) as [[[entries dropped] seq_] b].
    case_match; injection Hs as <-; apply (session_inv_keep _ _ s); try done;
      unfold session_out; cbn; rewrite Ep; repeat case_match; done.
  - destruct (blocked s); [done|]. destruct (ss_open s) eqn:Eo; injection Hs as <-;
      unfold session_inv in *; cbn; unfold push; rewrite ?Eo; cbn;
      (eapply ledger_perm; [|done]); unfold session_out; cbn; rewrite Ep;
      try (destruct (Drained_is_empty d)); cbn; solve_Permutation.
  - destruct (blocked s); [done|]. destruct (ss_open s) eqn:Eo; injection Hs as <-;
      apply (session_inv_keep _ _ s); try done; cbn; rewrite ?Eo; try done;
      unfold session_out; cbn; rewrite Ep; repeat case_match; done.
Qed.

Lemma session_step_inv bb bn u a s s' :
  action_ok a → session_step u a s = Some s' → session_inv bb bn s → session_inv bb bn s'.
Proof.
  destruct a; cbn [session_step]; intros Ha; eauto using host_step_inv, net_step_inv, hb_step_inv,
    metrics_step_inv, logs_step_inv, status_step_inv, cancel_step_inv.
  unfold main_step. destruct (ss_main s) eqn:Ep; [by eapply select_step_inv|..];
    rewrite <- Ep; apply finish_step_inv.
Qed.

Lemma session_run_inv bb bn u acts s s' :
  Forall action_ok acts → session_run u acts s = Some s' → session_inv bb bn s → session_inv bb bn s'.
Proof.
  intros Ha. revert s. induction Ha as [|a acts Ha _ IH]; intros s; cbn; [by intros [= <-]|].
  intros (s1 & E1 & E2)%bind_Some Hi. eapply IH; [done|]. by eapply session_step_inv.
Qed.

(** C7: no tool call is lost or counted twice in a session, in any interleaving of
    the host, the four tasks, the transport, the inbound reader and the end of
    [run_session] with its cancellations and its flush: the billable calls in
    accepted reports, in flight in the metrics task or in the shutdown flush, given
    up by a shutdown flush that found the channel closed, and still in the buffer,
    drop counts included, are those the session found plus those recorded since
    (modulo the 64-bit counters); likewise the non-billable ones. *)
Theorem session_conserves_calls u r has_status stopping acts s :
  Metrics.Inner_wf (metrics r) → Forall action_ok acts →
  session_run u acts (session_init r has_status stopping) = Some s →
  eq64 (session_billable s)
    (ledger_billable (metrics r) + Z.of_nat (count_if billable (ss_recorded s))) ∧
  eq64 (session_non_billable s)
    (ledger_non_billable (metrics r) + Z.of_nat (count_if non_billable_sample (ss_recorded s))) ∧
  Metrics.Inner_wf (metrics (ss_runner s)).
Proof.
  intros Hw Ha Hr.
  assert (session_inv (ledger_billable (metrics r)) (ledger_non_billable (metrics r)) s) as [H1' _ H2' H3'].
  { eapply session_run_inv; [done..|]. split; cbn; [done|constructor| |]; apply eq64_of_eq; lia. }
  split_and!; done.
Qed.

(** ** The outbound channel *)

(** What a handler's segment queues: nothing, or its acknowledgement. *)
Lemma run_io_outbound {A} (m : IO A) r : outbound (run_io m r).2 = outbound r.
Proof. unfold run_io. by destruct (m (world r)). Qed.

Lemma config_applied_outbound hash outcome r :
  outbound (config_applied hash outcome r).2 = outbound r.
Proof.
  unfold config_applied. destruct outcome; cbn [snd]; rewrite run_io_outbound; by destruct (_ && _).
Qed.

Lemma jwt_locked_outbound cfg cr r : outbound (jwt_locked cfg cr r).2 = outbound r.
Proof.
  unfold jwt_locked. cbv zeta. set (r1 := (run_io _ _).2).
  assert (outbound r1 = outbound r) as <- by (unfold r1; by rewrite run_io_outbound).
  destruct (str_is_empty _); [done|].
  rewrite <- (run_io_outbound (read_stored_creds (rc_state_dir cfg)) r1).
  by destruct (run_io _ r1) as [[st|e] r2].
Qed.

Lemma inbound_start_outbound cfg hooks nonce uid msg r :
  outbound (inbound_start cfg hooks nonce uid msg r).2 = outbound r.
Proof.
  unfold inbound_start. destruct (server_kind msg) as [[up|c|cr|reason| | |qs|up]|]; try done.
  - cbv zeta. destruct (cu_bundle up) as [b|]; [|apply config_applied_outbound].
    destruct (config_applier hooks);
      [|rewrite config_applied_outbound]; exact (run_io_outbound _ r).
  - by destruct (str_is_empty _).
  - destruct (license_applier hooks); exact (run_io_outbound _ r).
Qed.

Lemma inbound_poll_outbound cfg hooks nonce uid i pc r st' :
  inbound_poll cfg hooks nonce uid i (pc, r) = Some st' →
  outbound st'.2 = match pc, i with
                   | IAck ack, InSent true => outbound r ++ [ack]
                   | _, _ => outbound r
                   end.
Proof.
  unfold inbound_poll. cbn [fst snd].
  destruct pc, i; try done; repeat case_match; intros [= <-]; cbn [snd]; try done;
    eauto using inbound_start_outbound, config_applied_outbound, jwt_locked_outbound.
Qed.

(** What one step may do to the channel. *)
Inductive channel_step s s' : Prop :=
| channel_idle :
    outbound (ss_runner s') = outbound (ss_runner s) → ss_taken s' = ss_taken s →
    ss_open s' = ss_open s → channel_step s s'
| channel_accept m :
    outbound (ss_runner s') = outbound (ss_runner s) ++ [m] → ss_taken s' = ss_taken s →
    ss_open s = true → ss_open s' = true → (queued s < CHANNEL_CAP)%nat → channel_step s s'
| channel_take :
    outbound (ss_runner s') = outbound (ss_runner s) → ss_taken s' = S (ss_taken s) →
    ss_open s = true → ss_open s' = true → (0 < queued s)%nat → channel_step s s'
| channel_close :
    outbound (ss_runner s') = outbound (ss_runner s) → ss_taken s' = ss_taken s →
    ss_open s' = false → channel_step s s'.

Lemma not_blocked s : blocked s = false → ss_open s = true → (queued s < CHANNEL_CAP)%nat.
Proof. unfold blocked. intros H' Ho. rewrite Ho in H'. simpl in H'. by apply Nat.leb_gt. Qed.

Lemma push_channel msg s s' :
  blocked s = false → ss_open s = true →
  outbound (ss_runner s') = outbound (ss_runner (push msg s)) →
  ss_taken s' = ss_taken s → ss_open s' = ss_open s → channel_step s s'.
Proof.
  intros Hb Ho E1 E2 E3. eapply channel_accept; [|done|done|congruence|by apply not_blocked].
  rewrite E1. unfold push. by rewrite Ho.
Qed.

(** A send of a task: refused while blocked, then accepted or failed. *)
Ltac channel_send :=
  match goal with
  | |- context [blocked ?s] =>
      destruct (blocked s) eqn:?; [discriminate|];
      destruct (ss_open s) eqn:?; intros [= <-];
      [eapply push_channel; [done|done|reflexivity|done|done]|by apply channel_idle]
  end.

Lemma select_step_channel cfg hooks nonce uid a pc s s' :
  select_step cfg hooks nonce uid a pc s = Some s' → channel_step s s'.
Proof.
  unfold select_step. destruct a as [i| | | | | |]; try done.
  - destruct i as [item|outcome|o| |]; try done; intros (st & Hp & ->)%fmap_Some;
      apply inbound_poll_outbound in Hp; apply channel_idle; try done; cbn;
      rewrite Hp; by destruct pc.
  - destruct (blocked s) eqn:Eb; [done|]. intros (st & Hp & ->)%fmap_Some.
    apply inbound_poll_outbound in Hp.
    destruct (ss_open s) eqn:Eo; [|apply channel_idle; try done; cbn; rewrite Hp; by destruct pc].
    destruct pc; try (apply channel_idle; [cbn; by rewrite Hp|done..]).
    eapply channel_accept; [cbn; by rewrite Hp|done|done|done|by apply not_blocked].
  - destruct (ss_notified s); [|done]. intros [= <-]. by apply channel_idle.
Qed.

Lemma finish_step_channel code level a pc s s' :
  finish_step code level a pc s = Some s' → channel_step s s'.
Proof.
  unfold finish_step. destruct a, pc as [pc|res|res|[|n] res|n d msg res|[|n] res|n e msg res|res];
    try done; try channel_send; try (intros [= <-]; by apply channel_idle).
  - cbv zeta. destruct (4 <=? _)%nat; intros [= <-]; by apply channel_idle.
  - destruct (Metrics.drain _ _) as [d b]. case_match; intros [= <-]; by apply channel_idle.
  - destruct (Logs.drain _) as [[[entries dropped] seq_] b].
    case_match; intros [= <-]; by apply channel_idle.
Qed.

Lemma metrics_step_channel code a s s' : metrics_step code a s = Some s' → channel_step s s'.
Proof.
  unfold metrics_step. destruct a, (ss_metrics s) as [| | |[|n]|n d msg|]; try done;
    try channel_send; try (intros [= <-]; by apply channel_idle).
  - destruct (Metrics.flush_early _); [|done]. intros [= <-]. by apply channel_idle.
  - destruct (Metrics.drain _ _) as [d b]. case_match; intros [= <-]; by apply channel_idle.
Qed.

Lemma session_step_channel u a s s' : session_step u a s = Some s' → channel_step s s'.
Proof.
  destruct a as [a|a|a|a|a|a|t|a]; cbn [session_step].
  - destruct a; intros [= <-]; by apply channel_idle.
  - unfold net_step. destruct a; [|intros [= <-]; by apply channel_close].
    destruct (_ && _) eqn:E; [|done]. apply andb_true_iff in E as [Eo Eq%Nat.ltb_lt].
    intros [= <-]. by apply channel_take.
  - unfold hb_step. destruct a, (ss_hb s); try done; [intros [= <-]; by apply channel_idle|].
    destruct (blocked s) eqn:?; [done|]. destruct (ss_open s) eqn:Eo; intros [= <-];
      [|by apply channel_idle]. eapply push_channel; [done|done|reflexivity|done|done].
  - apply metrics_step_channel.
  - unfold logs_step. destruct a, (ss_logs s); try done; [|channel_send].
    destruct (Logs.drain _) as [[[entries dropped] seq_] b].
    case_match; intros [= <-]; by apply channel_idle.
  - unfold status_step. destruct a, (ss_status s); try done; try channel_send;
      intros [= <-]; by apply channel_idle.
  - unfold cancel_step. destruct (_ <? _)%nat; [|done].
    destruct t; try destruct (at_await _); try done; intros [= <-]; by apply channel_idle.
  - unfold main_step. destruct (ss_main s) eqn:Ep; eauto using select_step_channel, finish_step_channel.
Qed.

Record channel_inv (sent0 : list AgentMessage) s : Prop := {
  ci_taken : (ss_taken s ≤ length (outbound (ss_runner s)))%nat;
  ci_queued : (queued s ≤ CHANNEL_CAP)%nat;
  ci_grows : sent0 `prefix_of` outbound (ss_runner s)
}.

Lemma channel_step_inv sent0 s s' :
  channel_step s s' → channel_inv sent0 s → channel_inv sent0 s'.
Proof.
  intros Hs [H1' H2' H3']. unfold queued in *.
  destruct Hs as [E1 E2 E3|m E1 E2 E3 E4 E5|E1 E2 E3 E4 E5|E1 E2 E3]; split; unfold queued in *;
    rewrite ?E1, ?E2; rewrite ?length_app; simpl; try lia; try done.
  by apply prefix_app_r.
Qed.

Lemma session_run_channel u acts s s' sent0 :
  session_run u acts s = Some s' → channel_inv sent0 s → channel_inv sent0 s'.
Proof.
  revert s. induction acts as [|a acts IH]; intros s; cbn; [by intros [= <-]|].
  intros (s1 & E1 & E2)%bind_Some Hi. eapply IH; [done|].
  eapply channel_step_inv; [by eapply session_step_channel|done].
Qed.

(** A channel that was closed stays closed and accepts nothing. *)
Lemma session_run_closed u acts s s' :
  session_run u acts s = Some s' → ss_open s = false →
  ss_open s' = false ∧ outbound (ss_runner s') = outbound (ss_runner s) ∧ ss_taken s' = ss_taken s.
Proof.
  revert s. induction acts as [|a acts IH]; intros s; cbn; [by intros [= <-]|].
  intros (s1 & E1 & E2)%bind_Some Ho. apply session_step_channel in E1.
  assert (ss_open s1 = false ∧ outbound (ss_runner s1) = outbound (ss_runner s) ∧
    ss_taken s1 = ss_taken s) as (F1 & F2 & F3) by (destruct E1; split_and!; congruence).
  destruct (IH s1 E2 F1) as (-> & -> & ->). done.
Qed.

(** The outbound channel of a session is a bounded queue: the messages taken by
    the transport are the oldest accepted ones, never more than 64 accepted ones
    wait, so that a Channel that dies takes at most 64 accepted messages with it,
    and a closed channel accepts no message of any task ever again. *)
Theorem session_queue_is_bounded u r has_status stopping acts s :
  session_run u acts (session_init r has_status stopping) = Some s →
  (ss_taken s ≤ length (outbound (ss_runner s)))%nat ∧
  (length (drop (ss_taken s) (outbound (ss_runner s))) ≤ CHANNEL_CAP)%nat ∧
  outbound r `prefix_of` outbound (ss_runner s) ∧
  (ss_open s = false → ∀ acts' s', session_run u acts' s = Some s' →
     outbound (ss_runner s') = outbound (ss_runner s) ∧ ss_taken s' = ss_taken s).
Proof.
  intros Hr. assert (channel_inv (outbound r) s) as [H1' H2' H3'].
  { eapply session_run_channel; [done|]. split; unfold queued; cbn; [lia|lia|done]. }
  split_and!; [done|by rewrite length_drop|done|].
  intros Ho acts' s' Hr'. by destruct (session_run_closed _ _ _ _ Hr' Ho) as (_ & ? & ?).
Qed.

(** ** The end of a session *)

Definition past_select s : Prop := match ss_main s with MSelect _ => False | _ => True end.

Definition is_main (a : @Action _ QuotaStatus) : bool := match a with Main _ => true | _ => false end.

(** Steps [run_session] has left, at most. *)
Definition logs_rank (n : nat) : nat := 2 * n + 1.
Definition metrics_rank (n : nat) : nat := 2 * n + 1 + logs_rank MAX_SHUTDOWN_FLUSH_BATCHES.

Definition main_rank s : nat :=
  match ss_main s with
  | MSelect _ | MReturned _ => 0
  | MAborting _ => S (3 - ss_aborts s) + S (metrics_rank MAX_SHUTDOWN_FLUSH_BATCHES)
  | MLoad _ => S (metrics_rank MAX_SHUTDOWN_FLUSH_BATCHES)
  | MFlushMetrics n _ => metrics_rank n
  | MFlushMetricsSend n _ _ _ => S (metrics_rank n)
  | MFlushLogs n _ => logs_rank n
  | MFlushLogsSend n _ _ _ => S (logs_rank n)
  end.

(** The result [run_session] will return. *)
Definition main_result (pc : @MainPc _) : option (Result () Error) :=
  match pc with
  | MSelect _ => None
  | MAborting res | MLoad res | MFlushMetrics _ res | MFlushMetricsSend _ _ _ res
  | MFlushLogs _ res | MFlushLogsSend _ _ _ res | MReturned res => Some res
  end.

(** What no other actor touches. *)
Lemma other_step_main u a s s' :
  is_main a = false → session_step u a s = Some s' →
  ss_main s' = ss_main s ∧ ss_aborts s' = ss_aborts s.
Proof.
  destruct a as [a|a|a|a|a|a|t|a]; intros Hm; try discriminate Hm; clear Hm; cbn [session_step].
  - destruct a; by intros [= <-].
  - unfold net_step. destruct a; [case_match|]; by intros [= <-].
  - unfold hb_step. destruct a, (ss_hb s); try done; repeat case_match; by intros [= <-].
  - unfold metrics_step. destruct a, (ss_metrics s) as [| | |[|n]|n d msg|]; try done;
      repeat case_match; by intros [= <-].
  - unfold logs_step. destruct a, (ss_logs s); try done; repeat case_match; by intros [= <-].
  - unfold status_step. destruct a, (ss_status s); try done; repeat case_match; by intros [= <-].
  - unfold cancel_step. repeat case_match; by intros [= <-].
Qed.

Lemma finish_step_rank code level a s s' :
  past_select s → finish_step code level a (ss_main s) s = Some s' →
  past_select s' ∧ (main_rank s' < main_rank s)%nat ∧
  main_result (ss_main s') = main_result (ss_main s).
Proof.
  unfold past_select, main_rank, finish_step. intros Hp Hs.
  destruct a, (ss_main s) as [pc|res|res|[|n] res|n d msg res|[|n] res|n e msg res|res] eqn:Ep;
    try discriminate Hs; cbv zeta in Hs.
  - destruct (Nat.leb_spec 4 (S (ss_aborts s))); injection Hs as <-; cbn; rewrite ?Ep; split_and!; try done;
      simpl; lia.
  - destruct (ss_stopping s); injection Hs as <-; cbn; split_and!; try done; lia.
  - injection Hs as <-. cbn. split_and!; [done| |done]. unfold metrics_rank. lia.
  - destruct (Metrics.drain _ _) as [d b]. destruct (Metrics.batch_to_message _ _ _);
      [|destruct (Drained_is_empty d)]; injection Hs as <-; cbn; split_and!; try done;
      unfold metrics_rank; lia.
  - injection Hs as <-. cbn. split_and!; [done| |done]. unfold logs_rank. lia.
  - destruct (Logs.drain _) as [[[entries dropped] seq_] b].
    destruct (Logs.batch_to_message _ _ _ _ _); [|destruct (_ && _)]; injection Hs as <-; cbn;
      split_and!; try done; unfold logs_rank; lia.
  - destruct (blocked s); [done|]. destruct (ss_open s); [destruct (Drained_is_empty d)|];
      injection Hs as <-; cbn; split_and!; try done; unfold metrics_rank; lia.
  - destruct (blocked s); [done|]. destruct (ss_open s); [destruct e|];
      injection Hs as <-; cbn; split_and!; try done; unfold logs_rank; lia.
Qed.

(** The end of a session waits for nothing but room in the channel. *)
Lemma finish_progress u s :
  past_select s →
  (∃ res, ss_main s = MReturned res) ∨ (∃ a, is_Some (session_step u (Main a) s)) ∨
  (blocked s = true ∧ is_Some (session_step u (Net NetTake) s)).
Proof.
  intros Hp. unfold past_select in Hp.
  assert (blocked s = true → is_Some (session_step u (Net NetTake) s)) as Hb.
  { unfold blocked. intros [Ho Hq]%andb_true_iff. apply Nat.leb_le in Hq. unfold CHANNEL_CAP in Hq.
    cbn [session_step net_step]. rewrite Ho. cbn [andb]. destruct (Nat.ltb_spec 0 (queued s)); [by eexists|lia]. }
  cbn [session_step]. unfold main_step.
  destruct (ss_main s) as [pc|res|res|[|n] res|n d msg res|[|n] res|n e msg res|res] eqn:Ep;
    [done|..|by left; exists res].
  - right. left. exists MainAbort. by eexists.
  - right. left. exists MainLoad. by eexists.
  - right. left. exists (MainDrain epoch). by eexists.
  - right. left. exists (MainDrain epoch). cbn. destruct (Metrics.drain _ _). case_match; by eexists.
  - destruct (blocked s) eqn:E; [right; right; auto|]. right. left. exists MainSend. cbn. rewrite E.
    case_match; by eexists.
  - right. left. exists (MainDrain epoch). by eexists.
  - right. left. exists (MainDrain epoch). cbn. destruct (Logs.drain _) as [[[] ] ]. case_match; by eexists.
  - destruct (blocked s) eqn:E; [right; right; auto|]. right. left. exists MainSend. cbn. rewrite E.
    case_match; by eexists.
Qed.

Lemma session_run_rank u acts s s' :
  past_select s → session_run u acts s = Some s' →
  past_select s' ∧ (count_if is_main acts + main_rank s' ≤ main_rank s)%nat ∧
  main_result (ss_main s') = main_result (ss_main s).
Proof.
  revert s. induction acts as [|a acts IH]; intros s Hp; cbn; [by intros [= <-]|].
  intros (s1 & E1 & E2)%bind_Some. destruct (is_main a) eqn:Em.
  - destruct a as [| | | | | | |a]; try discriminate Em.
    assert (past_select s1 ∧ (main_rank s1 < main_rank s)%nat ∧
      main_result (ss_main s1) = main_result (ss_main s)) as (Hp1 & Hlt & Hres).
    { cbn in E1. unfold main_step in E1. unfold past_select in Hp. destruct (ss_main s) eqn:Ep; [done|..];
        rewrite <- Ep in E1 |- *; (eapply finish_step_rank; [unfold past_select; by rewrite Ep|done]). }
    destruct (IH s1 Hp1 E2) as (? & ? & ?). split_and!; [done|lia|congruence].
  - destruct (other_step_main u a s s1 Em E1) as [F1 F2].
    destruct (IH s1) as (? & ? & F3); [unfold past_select; by rewrite F1|done|].
    rewrite F1 in F3. split_and!; [done| |done]. unfold main_rank in *. rewrite F1, F2 in *. lia.
Qed.

(** C19: once its [select!] is over a session ends, with the reader's result:
    [run_session] takes at most 71 further steps of its own, whatever the host keeps
    recording and however the other tasks are scheduled, and at each of them it can
    go on, or waits for room in a full channel that the transport can make. *)
Theorem session_end_terminates u acts s s' res :
  ss_main s = MAborting res → session_run u acts s = Some s' →
  (count_if is_main acts ≤ 71)%nat ∧
  (ss_main s' = MReturned res ∨ (∃ a, is_Some (session_step u (Main a) s')) ∨
   (blocked s' = true ∧ is_Some (session_step u (Net NetTake) s'))).
Proof.
  intros Hm Hr. assert (past_select s) as Hp by (unfold past_select; by rewrite Hm).
  destruct (session_run_rank u acts s s' Hp Hr) as (Hp' & Hrk & Hres). split.
  - unfold main_rank at 2 in Hrk. rewrite Hm in Hrk.
    unfold metrics_rank, logs_rank, MAX_SHUTDOWN_FLUSH_BATCHES in Hrk. lia.
  - destruct (finish_progress u s' Hp') as [[res' E]|Hgo]; [|by right].
    left. rewrite Hm, E in Hres. injection Hres as ->. done.
Qed.
End safety.

(** ** The properties on concrete executions *)

#[local] Existing Instance demo_grpc.

Definition demo_setup : @SessionSetup concrete_bundle := {|
  su_code := outcome_code; su_level := λ _, 0%Z; su_cfg := demo_runner_config;
  su_hooks := rejecting_hooks; su_nonce := "n1"; su_uid := "gw-1"
|}.

Definition demo_session (stopping : bool) : @Session concrete_bundle unit unit :=
  session_init demo_runner false stopping.

Definition call : ToolCallSample := sample_of "a" SampleOutcome.Ok.

(** A call recorded, reported, and a second one flushed at a shutdown. *)
Definition quiet_shutdown : list (@Action concrete_bundle unit) :=
  [Host (HostRecord call); Met MetTick; Met (MetDrain epoch); Met MetSend;
   Host (HostRecord call); Host HostTrigger; Host HostNotify; Main MainNotified;
   Main MainAbort; Main MainAbort; Main MainAbort; Main MainAbort; Cancel TMetrics;
   Main MainLoad; Main (MainDrain epoch); Main MainSend; Main (MainDrain epoch);
   Main (MainDrain epoch)].

Example quiet_shutdown_runs :
  match session_run demo_setup quiet_shutdown (demo_session false) with
  | Some s => ss_main s = MReturned (Ok tt) ∧ length (ss_shipped s) = 2%nat ∧
              samples (Metrics.buf (metrics (ss_runner s))) = []
  | None => False
  end.
Proof. vm_compute. auto. Qed.

(** The steps of a quiet shutdown stay within the hypotheses of the theorems. *)
Lemma quiet_shutdown_ok : Forall action_ok quiet_shutdown.
Proof. repeat constructor. Qed.

Definition quiet_end : @Session concrete_bundle unit unit :=
  default (demo_session false) (session_run demo_setup quiet_shutdown (demo_session false)).

Lemma quiet_end_reached : session_run demo_setup quiet_shutdown (demo_session false) = Some quiet_end.
Proof. vm_compute. reflexivity. Qed.

Lemma session_conserves_calls_witness :
  count_if billable (ss_recorded quiet_end) = 2%nat ∧ eq64 (session_billable quiet_end) 2.
Proof.
  split; [reflexivity|].
  exact (proj1 (session_conserves_calls demo_setup demo_runner false false quiet_shutdown quiet_end
    (MetricsFacts.with_caps_wf _ _) quiet_shutdown_ok quiet_end_reached)).
Defined.

Lemma session_queue_is_bounded_witness :
  (length (drop (ss_taken quiet_end) (outbound (ss_runner quiet_end))) ≤ CHANNEL_CAP)%nat ∧
  length (outbound (ss_runner quiet_end)) = 2%nat.
Proof.
  split; [|reflexivity].
  exact (proj1 (proj2 (session_queue_is_bounded demo_setup demo_runner false false quiet_shutdown
    quiet_end quiet_end_reached))).
Defined.

(** The same execution from the end of its [select!]. *)
Definition quiet_aborting : @Session concrete_bundle unit unit :=
  default (demo_session false) (session_run demo_setup (take 8 quiet_shutdown) (demo_session false)).

Lemma session_end_terminates_witness :
  ss_main quiet_aborting = MAborting (Ok tt) ∧
  (count_if is_main (drop 8 quiet_shutdown) ≤ 71)%nat ∧
  session_run demo_setup (drop 8 quiet_shutdown) quiet_aborting = Some quiet_end.
Proof.
  assert (ss_main quiet_aborting = MAborting (Ok tt)) as Hm by (vm_compute; reflexivity).
  assert (session_run demo_setup (drop 8 quiet_shutdown) quiet_aborting = Some quiet_end) as Hr
    by (vm_compute; reflexivity).
  split; [exact Hm|]. split; [|exact Hr].
  exact (proj1 (session_end_terminates demo_setup (drop 8 quiet_shutdown) quiet_aborting quiet_end
    (Ok tt) Hm Hr)).
Defined.
