(* ===== verification/SessionStranding.v ===== *)
(** * A batch stranded by its shutdown

    [run_session] aborts its metrics task and flushes the buffer, but [abort] only
    requests the cancellation: here is what happens when the runtime gets to the task
    after the flush. *)

From stdpp Require Import base list strings gmap.
From Stdlib Require Import ZArith Lia.
From S2P Require Import Prelude Time Proto Text Serde Concrete Errors.
From S2P Require Import Metrics MetricsFacts FlushLoop FlushLoopFacts Ledger Logs Status.
From S2P Require Import Crypto Dek Fs Lkg LkgFacts License Creds Client Runner Inbound Agent.
From S2P Require Import SessionFacts Session SessionSafety.


#[local] Arguments Metrics.drain : simpl never.
#[local] Arguments Logs.drain : simpl never.
#[local] Arguments Metrics.batch_to_message : simpl never.
#[local] Arguments Logs.batch_to_message : simpl never.
#[local] Arguments Metrics.record : simpl never.

Section stranding.
Context `{!Json, !Base64, !Rfc3339, !Aead, !Hkdf, !BundleCodec, !Grpc}.
Context {Channel QuotaStatus : Type}.
Abbreviation Session := (@Session _ Channel QuotaStatus).
Implicit Types (s : Session).

(** A step of anybody but the metrics task, whose cancellation has not come yet
    either. *)
Definition spares_metrics (a : @Action _ QuotaStatus) : bool :=
  match a with Met _ | Cancel TMetrics => false | _ => true end.

Definition buffered s : list ToolCallSample := samples (Metrics.buf (metrics (ss_runner s))).

(** The samples that have gone to the reports of [ships], to one on its way in the
    shutdown flush, and to the buffer. *)
Definition gone (ships : list Drained) s : list ToolCallSample :=
  concat (d_samples <$> ships) ++ concat (d_samples <$> option_list (main_flight (ss_main s)))
    ++ buffered s.

Definition counted s : Prop :=
  Metrics.non_billable (Metrics.buf (metrics (ss_runner s))) = count_if non_billable_sample (buffered s).

(** [s] has come from [s0] past its [select!], with the metrics task as it was: what
    was shipped meanwhile was in the buffer of [s0] or recorded since. *)
Record beside (s0 s : Session) : Prop := {
  be_metrics : ss_metrics s = ss_metrics s0;
  be_counted : counted s;
  be_main : match ss_main s with
            | MSelect _ => False | MAborting _ => True | _ => (4 <= ss_aborts s)%nat end;
  be_gone : ∃ ships rec, ss_shipped s = (ss_shipped s0 ++ ships)%list ∧
    ss_recorded s = (ss_recorded s0 ++ rec)%list ∧
    gone ships s `sublist_of` buffered s0 ++ rec
}.

(** What leaves the metrics lane alone. *)
Lemma beside_keep s0 s s' :
  beside s0 s → ss_metrics s' = ss_metrics s → Metrics.buf (metrics (ss_runner s')) = Metrics.buf (metrics (ss_runner s)) →
  ss_shipped s' = ss_shipped s → ss_recorded s' = ss_recorded s →
  main_flight (ss_main s') = main_flight (ss_main s) →
  match ss_main s' with
  | MSelect _ => False | MAborting _ => True | _ => (4 <= ss_aborts s')%nat end →
  beside s0 s'.
Proof.
  intros [Bm Bc Ba (ships & rec & E1 & E2 & Hs)] Em Eb Es Er Ef Ha. split; [congruence| |done|].
  - unfold counted, buffered in *. by rewrite Eb.
  - exists ships, rec. unfold gone, buffered in *. rewrite Es, Er, Ef, Eb. done.
Qed.

Lemma beside_same s0 s s' :
  beside s0 s → ss_metrics s' = ss_metrics s → Metrics.buf (metrics (ss_runner s')) = Metrics.buf (metrics (ss_runner s)) →
  ss_shipped s' = ss_shipped s → ss_recorded s' = ss_recorded s → ss_main s' = ss_main s →
  ss_aborts s' = ss_aborts s → beside s0 s'.
Proof.
  intros Hb Em Eb Es Er Ef Ea. eapply beside_keep; try done; rewrite Ef, ?Ea; [done|]. apply Hb.
Qed.

Lemma beside_record s0 s sample s' :
  beside s0 s → host_step (HostRecord sample) s = Some s' → beside s0 s'.
Proof.
  intros [Bm Bc Ba (ships & rec & E1 & E2 & Hs)] [= <-].
  destruct (record_refines sample (metrics (ss_runner s)) Bc) as (Es & En & _).
  split; [done| |done|].
  - unfold counted, buffered. cbn. by rewrite En, Es.
  - exists ships, (rec ++ [sample])%list. split_and!; [done|cbn; by rewrite E2, (assoc_L app)|].
    unfold gone, buffered in *. cbn. rewrite Es.
    etrans; [apply sublist_app; [done|apply sublist_app; [done|apply spec_record_sublist]]|].
    rewrite !(assoc_L app). rewrite !(assoc_L app) in Hs. by apply sublist_app.
Qed.

(** A drain moves the front of the buffer into a batch. *)
Lemma drain_exact now (b : Metrics.Inner) d b' :
  Metrics.drain now b = (d, b') →
  Metrics.non_billable (Metrics.buf b) = count_if non_billable_sample (samples (Metrics.buf b)) →
  samples (Metrics.buf b) = (d_samples d ++ samples (Metrics.buf b'))%list ∧
  Metrics.non_billable (Metrics.buf b') = count_if non_billable_sample (samples (Metrics.buf b')).
Proof.
  unfold Metrics.drain. intros [= <- <-] Hn. cbn. split; [by rewrite take_drop|].
  change (λ c : ToolCallSample, negb (Metrics.is_billable (outcome c))) with non_billable_sample. rewrite Hn.
  set (n := (_ `min` _)%nat).
  pose proof (count_if_take_drop non_billable_sample n (samples (Metrics.buf b))). lia.
Qed.

(** The flush drains a batch that it will send, or that is empty. *)
Lemma beside_drain s0 s now d b pc :
  beside s0 s → Metrics.drain now (metrics (ss_runner s)) = (d, b) →
  main_flight (ss_main s) = None → (4 <= ss_aborts s)%nat →
  match pc with MSelect _ | MAborting _ => False | _ => True end →
  main_flight pc = Some d ∨ main_flight pc = None →
  beside s0 (set_main pc (set_metrics_buf b s)).
Proof.
  intros [Bm Bc _ (ships & rec & E1 & E2 & Hs)] Ed Ef Ha Hpc Hd.
  destruct (drain_exact _ _ _ _ Ed Bc) as [Es En].
  split; [done|done| |].
  - cbn. by destruct pc.
  - exists ships, rec. split_and!; [done..|]. etrans; [|exact Hs].
    unfold gone, buffered. cbn. rewrite Ef, Es. cbn. apply sublist_app; [done|].
    destruct Hd as [-> | ->]; cbn; [by rewrite app_nil_r|by apply sublist_inserts_l].
Qed.

(** A batch the flush holds is shipped, or lost on a closed channel. *)
Lemma beside_sent s0 s d s' :
  beside s0 s → main_flight (ss_main s) = Some d → main_flight (ss_main s') = None →
  ss_metrics s' = ss_metrics s → Metrics.buf (metrics (ss_runner s')) = Metrics.buf (metrics (ss_runner s)) →
  ss_recorded s' = ss_recorded s → (4 <= ss_aborts s')%nat →
  match ss_main s' with MSelect _ | MAborting _ => False | _ => True end →
  ss_shipped s' = (ss_shipped s ++ [d])%list ∨ ss_shipped s' = ss_shipped s →
  beside s0 s'.
Proof.
  intros [Bm Bc _ (ships & rec & E1 & E2 & Hs)] Ef Ef' Em Eb Er Ha Hpc Hsh.
  unfold gone, buffered in Hs. rewrite Ef in Hs. cbn in Hs. rewrite app_nil_r in Hs.
  split; [congruence|unfold counted, buffered in *; by rewrite Eb|by destruct (ss_main s')|].
  destruct Hsh as [Hsh|Hsh].
  - exists (ships ++ [d])%list, rec.
    split_and!; [by rewrite Hsh, E1, (assoc_L app)|congruence|].
    unfold gone, buffered. rewrite Ef', Eb, fmap_app, concat_app. cbn.
    by rewrite app_nil_r, <- (assoc_L app).
  - exists ships, rec. split_and!; [congruence..|]. etrans; [|exact Hs].
    unfold gone, buffered. rewrite Ef', Eb. cbn. apply sublist_app; [done|by apply sublist_inserts_l].
Qed.

Lemma finish_step_beside s0 code level a s s' :
  beside s0 s → finish_step code level a (ss_main s) s = Some s' → beside s0 s'.
Proof.
  intros Hb Hs. pose proof (be_main _ _ Hb) as Ha. unfold finish_step in Hs.
  destruct a, (ss_main s) as [pc|res|res|[|n] res|n d msg res|[|n] res|n e msg res|res] eqn:Ep;
    try discriminate Hs; cbv zeta in Hs.
  - destruct (Nat.leb_spec 4 (S (ss_aborts s))); injection Hs as <-;
      apply (beside_keep _ s); try done; cbn; by rewrite Ep.
  - destruct (ss_stopping s); injection Hs as <-; apply (beside_keep _ s); try done; cbn; by rewrite Ep.
  - injection Hs as <-. apply (beside_keep _ s); try done; cbn; by rewrite Ep.
  - destruct (Metrics.drain _ _) as [d b] eqn:Ed. destruct (Metrics.batch_to_message _ _ _);
      [|destruct (Drained_is_empty d)]; injection Hs as <-;
      (eapply beside_drain; [done|done|by rewrite Ep|done|done|auto]).
  - injection Hs as <-. apply (beside_keep _ s); try done; cbn; by rewrite Ep.
  - destruct (Logs.drain _) as [[[entries dropped] seq_] b].
    destruct (Logs.batch_to_message _ _ _ _ _); [|destruct (_ && _)]; injection Hs as <-;
      apply (beside_keep _ s); try done; cbn; by rewrite Ep.
  - destruct (blocked s); [done|]. destruct (ss_open s) eqn:Eo; injection Hs as <-;
      (eapply (beside_sent _ _ d); [exact Hb|by rewrite Ep|..]); cbn;
      rewrite ?push_metrics; unfold push; rewrite ?Eo; cbn; try (by destruct (Drained_is_empty d)); auto.
  - destruct (blocked s); [done|]. destruct (ss_open s) eqn:Eo; injection Hs as <-;
      apply (beside_keep _ s); try done; cbn; unfold push; rewrite ?Eo, ?Ep; cbn; by try destruct e.
Qed.

Lemma session_step_beside u a s0 s s' :
  spares_metrics a = true → beside s0 s → session_step u a s = Some s' → beside s0 s'.
Proof.
  intros Hm Hb Hs. destruct a as [a|a|a|a|a|a|t|a]; try discriminate Hm; cbn [session_step] in Hs.
  - destruct a; [by eapply beside_record|..]; injection Hs as <-; apply (beside_same _ s); try done.
    cbn. unfold record_events. by case_decide.
  - unfold net_step in Hs. destruct a; [case_match; [|done]|]; injection Hs as <-; by apply (beside_same _ s).
  - unfold hb_step in Hs. destruct a, (ss_hb s); try done; [injection Hs as <-; by apply (beside_same _ s)|].
    destruct (blocked s); [done|]. destruct (ss_open s) eqn:Eo; injection Hs as <-; apply (beside_same _ s); try done;
      cbn; unfold push; cbn; by rewrite ?Eo.
  - unfold logs_step in Hs. destruct a, (ss_logs s); try done.
    + destruct (Logs.drain _) as [[[entries dropped] seq_] b]. case_match; injection Hs as <-; by apply (beside_same _ s).
    + destruct (blocked s); [done|]. destruct (ss_open s) eqn:Eo; injection Hs as <-; apply (beside_same _ s); try done;
        cbn; unfold push; cbn; by rewrite ?Eo.
  - unfold status_step in Hs. destruct a, (ss_status s); try done; try (injection Hs as <-; by apply (beside_same _ s)).
    destruct (blocked s); [done|]. destruct (ss_open s) eqn:Eo; injection Hs as <-; apply (beside_same _ s); try done;
      cbn; unfold push; cbn; by rewrite ?Eo.
  - unfold cancel_step in Hs. destruct (_ <? _)%nat; [|done].
    destruct t; try discriminate Hm; injection Hs as <-; by apply (beside_same _ s).
  - unfold main_step in Hs. pose proof (be_main _ _ Hb) as Ha.
    destruct (ss_main s) as [pc| | | | | | |] eqn:Ep; [done|..]; rewrite <- Ep in Hs;
      by eapply finish_step_beside.
Qed.

Lemma session_run_beside u acts s0 s s' :
  forallb spares_metrics acts = true → beside s0 s → session_run u acts s = Some s' → beside s0 s'.
Proof.
  revert s. induction acts as [|a acts IH]; intros s Hm Hb; cbn [session_run]; [by intros [= <-]|].
  cbn [forallb] in Hm. apply andb_true_iff in Hm as [Ha Hm].
  intros (s1 & E1 & E2)%bind_Some. eapply IH; [done| |exact E2]. by eapply session_step_beside.
Qed.

(** ** A session that is over ships nothing *)

Definition over s : Prop := ss_metrics s = Closed ∧ ∃ res, ss_main s = MReturned res.

Lemma over_step u a s s' :
  over s → session_step u a s = Some s' → over s' ∧ ss_shipped s' = ss_shipped s.
Proof.
  intros [Em [res Er]] Hs. destruct a as [a|a|a|a|a|a|t|a]; cbn [session_step] in Hs.
  - destruct a; injection Hs as <-; (split; [split; [done|by exists res]|done]).
  - unfold net_step in Hs. destruct a; [case_match; [|done]|]; injection Hs as <-;
      (split; [split; [done|by exists res]|done]).
  - unfold hb_step in Hs. destruct a, (ss_hb s); try done; repeat case_match; simplify_eq/=;
      (split; [split; [done|by exists res]|done]).
  - unfold metrics_step in Hs. rewrite Em in Hs. by destruct a.
  - unfold logs_step in Hs. destruct a, (ss_logs s); try done; repeat case_match; simplify_eq/=;
      (split; [split; [done|by exists res]|done]).
  - unfold status_step in Hs. destruct a, (ss_status s); try done; repeat case_match; simplify_eq/=;
      (split; [split; [done|by exists res]|done]).
  - unfold cancel_step in Hs. rewrite Em in Hs. destruct (_ <? _)%nat; [|done].
    destruct t; try discriminate Hs; injection Hs as <-; (split; [split; [done|by exists res]|done]).
  - unfold main_step in Hs. rewrite Er in Hs. unfold finish_step in Hs. by destruct a.
Qed.

Lemma over_run u acts s s' :
  over s → session_run u acts s = Some s' → ss_shipped s' = ss_shipped s.
Proof.
  revert s. induction acts as [|a acts IH]; intros s Ho; cbn [session_run]; [by intros [= <-]|].
  intros (s1 & E1 & E2)%bind_Some. destruct (over_step _ _ _ _ Ho E1) as [Ho1 <-]. by eapply IH.
Qed.

(** C25: a session that ends while its metrics task waits in a send strands the
    batch, whenever the runtime gets to the task only after [run_session] has
    returned: however the end of the session (aborts, load of the flag, flush) is
    then interleaved with the host, the transport and the other tasks, everything it
    ships was in the buffer when its [select!] was over or was recorded since, in
    order, so nothing of the batch; the cancellation that then takes effect
    returns the batch to the buffer, as far as it fits in front of what is there;
    and nothing this session does afterwards ships anything.  That includes a
    session that a requested shutdown ends, on a channel that stays open, with the
    flush that is its last: the comment at the [abort]s says the opposite. *)
Theorem shutdown_flush_can_strand_batch u acts s s1 n d msg res res' :
  Metrics.Inner_wf (metrics (ss_runner s)) →
  ss_main s = MAborting res → ss_metrics s = Sending n d msg →
  forallb spares_metrics acts = true →
  session_run u acts s = Some s1 → ss_main s1 = MReturned res' →
  (∃ ships rec, ss_shipped s1 = (ss_shipped s ++ ships)%list ∧
     ss_recorded s1 = (ss_recorded s ++ rec)%list ∧
     concat (d_samples <$> ships) ++ samples (Metrics.buf (metrics (ss_runner s1)))
       `sublist_of` samples (Metrics.buf (metrics (ss_runner s))) ++ rec) ∧
  ∃ s2, session_step u (Cancel TMetrics) s1 = Some s2 ∧ ss_main s2 = MReturned res' ∧
    ss_shipped s2 = ss_shipped s1 ∧
    samples (Metrics.buf (metrics (ss_runner s2))) =
      (drop (length (d_samples d) - (Metrics.cap (metrics (ss_runner s1)) -
         length (samples (Metrics.buf (metrics (ss_runner s1)))))) (d_samples d) ++
       samples (Metrics.buf (metrics (ss_runner s1))))%list ∧
    ∀ acts' s3, session_run u acts' s2 = Some s3 → ss_shipped s3 = ss_shipped s1.
Proof.
  intros Hwf Em Et Hacts Hrun Er.
  assert (beside s s) as Hb0.
  { split; [done|apply Hwf|by rewrite Em|]. exists [], []. rewrite !app_nil_r.
    split_and!; [done..|]. unfold gone. by rewrite Em. }
  pose proof (session_run_beside _ _ _ _ _ Hacts Hb0 Hrun) as [Bm Bc Ba (ships & rec & E1 & E2 & Hs)].
  rewrite Er in Ba. split.
  { exists ships, rec. split_and!; [done..|]. unfold gone in Hs. by rewrite Er in Hs. }
  rewrite Et in Bm.
  set (s2 := set_metrics Closed
    (set_metrics_buf (InFlight_drop (Some d) (metrics (ss_runner s1))) s1)).
  exists s2. split_and!; [|done|done| |].
  - cbn [session_step]. unfold cancel_step. cbn [abort_index].
    rewrite (proj2 (Nat.ltb_lt 1 (ss_aborts s1))) by lia. by rewrite Bm.
  - cbn. pose proof (requeue_samples (d_samples d) (metrics (ss_runner s1)) Bc) as [Hq _].
    destruct (Drained_is_empty d) eqn:Ee.
    + apply Drained_is_empty_zero in Ee as [-> _]. by destruct (_ - _)%nat.
    + exact Hq.
  - intros acts' s3 Hrun'. eapply (over_run u acts' s2); [|exact Hrun']. by split; [|exists res'].
Qed.
End stranding.

(** ** The property on a concrete execution *)

(** Heartbeats fill the channel, the metrics task waits in its send with a drained
    batch, and the shutdown comes: the [abort] only requests the cancellation, the
    flush finds an empty buffer and [run_session] returns; the cancellation then
    hands the batch back to a buffer that nothing will flush. *)
Definition stranding_shutdown : list (@Action concrete_bundle unit) :=
  concat (replicate CHANNEL_CAP [Hb (HbTick 0); Hb HbSend]) ++
  [Host (HostRecord call); Met MetTick; Met (MetDrain epoch);
   Host HostTrigger; Host HostNotify; Main MainNotified;
   Main MainAbort; Main MainAbort; Main MainAbort; Main MainAbort;
   Main MainLoad; Main (MainDrain epoch); Main (MainDrain epoch);
   Cancel THeartbeat; Cancel TMetrics; Cancel TLogs; Cancel TStatus].

(** When the notification has ended the [select!], and when [run_session] has
    returned with the channel open. *)
Definition stranding_notified : @Session concrete_bundle unit unit :=
  default (demo_session false) (session_run demo_setup (take 134 stranding_shutdown) (demo_session false)).

Definition stranding_returned : @Session concrete_bundle unit unit :=
  default (demo_session false)
    (session_run demo_setup (take 8 (drop 134 stranding_shutdown)) stranding_notified).

Lemma stranding_notified_wf : Metrics.Inner_wf (metrics (ss_runner stranding_notified)).
Proof.
  assert (session_run demo_setup (take 134 stranding_shutdown) (demo_session false) =
    Some stranding_notified) as Hr by (apply some_default; vm_compute; reflexivity).
  apply (lo_wf (ledger_billable (metrics demo_runner)) (ledger_non_billable (metrics demo_runner)) _
    (session_out stranding_notified) (ss_recorded stranding_notified)).
  eapply (session_run_inv _ _ demo_setup (take 134 stranding_shutdown)); [|exact Hr|].
  - apply Forall_take. unfold stranding_shutdown. apply Forall_app.
    split; [|repeat constructor]. apply Forall_concat, Forall_replicate. repeat constructor.
  - split; cbn; [apply MetricsFacts.with_caps_wf|constructor| |]; apply eq64_of_eq; lia.
Qed.

Lemma stranding_batch :
  ∃ n d msg, ss_metrics stranding_notified = Sending n d msg ∧ d_samples d = [call].
Proof. eexists _, _, _. vm_compute. split; reflexivity. Qed.

Lemma stranding_run :
  session_run demo_setup (take 8 (drop 134 stranding_shutdown)) stranding_notified =
    Some stranding_returned ∧
  ss_main stranding_notified = MAborting (Ok tt) ∧ ss_main stranding_returned = MReturned (Ok tt) ∧
  ss_open stranding_returned = true ∧ ss_stopping stranding_returned = true ∧
  ss_shipped stranding_returned = [] ∧ ss_recorded stranding_returned = [call] ∧
  samples (Metrics.buf (metrics (ss_runner stranding_returned))) = [] ∧
  Metrics.cap (metrics (ss_runner stranding_returned)) = 5000%nat.
Proof. split; [apply some_default|]; vm_compute; repeat split. Qed.

Lemma shutdown_flush_can_strand_batch_witness :
  ss_open stranding_returned = true ∧ ss_recorded stranding_returned = [call] ∧
  billable call = true ∧
  ∃ s2, session_step demo_setup (Cancel TMetrics) stranding_returned = Some s2 ∧
    samples (Metrics.buf (metrics (ss_runner s2))) = [call] ∧
    ∀ acts' s3, session_run demo_setup acts' s2 = Some s3 → ss_shipped s3 = [].
Proof.
  destruct stranding_run as (Hr & Hm & Hret & Ho & _ & Hs & Hrec & Hb & Hc).
  split; [exact Ho|]. split; [exact Hrec|]. split; [reflexivity|].
  destruct stranding_batch as (n & d & msg & Et & Ed).
  destruct (shutdown_flush_can_strand_batch demo_setup (take 8 (drop 134 stranding_shutdown))
    stranding_notified stranding_returned n d msg (Ok tt) (Ok tt) stranding_notified_wf Hm Et eq_refl Hr Hret)
    as (_ & s2 & E2 & _ & _ & Hsm & Hafter).
  exists s2. split; [exact E2|]. split.
  - rewrite Hsm, Hb, Hc, Ed. reflexivity.
  - intros acts' s3 H3. rewrite (Hafter acts' s3 H3). exact Hs.
Defined.
