(* ===== verification/SessionRefinement.v ===== *)
(** * The session against the models of its parts

    Until its shutdown flush a session does to the metrics buffer what the flush task
    of [FlushLoop] and the host do, and nothing else; and the end of [run_session],
    left alone, is the function [flush_remaining]. *)

From stdpp Require Import base list strings gmap relations.
From Stdlib Require Import ZArith QArith Lia.
From S2P Require Import Prelude Time BTree Proto Text Serde Concrete Errors Token.
From S2P Require Import Metrics MetricsFacts FlushLoop FlushLoopFacts Ledger Logs LogsFacts Status.
From S2P Require Import Crypto Dek Fs FsFacts Lkg LkgFacts License Creds Client Runner Inbound Agent.
From S2P Require Import SessionFacts Session SessionSafety.

#[local] Arguments Metrics.drain : simpl never.
#[local] Arguments Metrics.record : simpl never.
#[local] Arguments Logs.drain : simpl never.
#[local] Arguments InFlight_drop : simpl never.
#[local] Arguments record_events : simpl never.
#[local] Arguments Metrics.batch_to_message : simpl never.
#[local] Arguments Logs.batch_to_message : simpl never.

Section refinement.
Context `{!Json, !Base64, !Rfc3339, !Aead, !Hkdf, !BundleCodec, !Grpc}.
Context {Channel QuotaStatus : Type}.
Abbreviation Session := (@Session _ Channel QuotaStatus).
Abbreviation Runner := (@Runner _ Channel QuotaStatus).
Implicit Types (s : Session) (r : Runner) (u : SessionSetup).

(** ** The flush task *)

(** [st] is the flush task of the session [s]; [rest] was shipped elsewhere. *)
Record flush_sim (rest : list Drained) s (st : FlushState) : Prop := {
  fm_buf : fs_buf st = metrics (ss_runner s);
  fm_pc : fs_pc st = ss_metrics s;
  fm_shipped : fs_shipped st ≡ₚ ss_shipped s ++ rest;
  fm_main : main_flight (ss_main s) = None
}.

(** Not a step of the shutdown flush. *)
Definition no_flush (a : @Action _ QuotaStatus) : Prop :=
  match a with Main (MainDrain _) => False | _ => True end.

(** A step that leaves the flush task alone. *)
Lemma flush_sim_stutter rest s s' st :
  flush_sim rest s st → metrics (ss_runner s') = metrics (ss_runner s) →
  ss_metrics s' = ss_metrics s → ss_shipped s' = ss_shipped s →
  main_flight (ss_main s') = None → flush_sim rest s' st.
Proof. intros [H1' H2' H3' H4'] E1 E2 E3 E4. split; congruence. Qed.

Lemma metrics_step_sim code a s s' rest st :
  metrics_step code a s = Some s' → flush_sim rest s st →
  ∃ st', flush_task_step code st st' ∧ flush_sim rest s' st'.
Proof.
  intros Hs [Hb Hp Hsh Hm]. unfold metrics_step in Hs. rewrite <- Hb in Hs.
  destruct a, (ss_metrics s) as [| | |[|n]|n d msg|] eqn:Ep; try discriminate Hs.
  - injection Hs as <-. eexists. split; [apply step_tick; auto|]. by split.
  - injection Hs as <-. eexists. split; [apply step_tick; auto|]. by split.
  - destruct (Metrics.flush_early _) eqn:Ee; [|done]. injection Hs as <-.
    eexists. split; [by apply step_early|]. by split.
  - injection Hs as <-. eexists. split; [by apply step_early_wake|]. by split.
  - injection Hs as <-. eexists. split; [by apply step_round_done|]. by split.
  - destruct (Metrics.drain now _) as [d b] eqn:Ed.
    eexists. split; [by eapply step_drain|].
    destruct (Metrics.batch_to_message _ _ d) as [msg|]; injection Hs as <-; by split.
  - destruct (blocked s); [done|]. destruct (ss_open s) eqn:Eo; injection Hs as <-.
    + eexists. split; [by eapply step_sent|]. split; cbn; try done.
      * unfold push. by rewrite Eo.
      * rewrite Hsh. solve_Permutation.
    + eexists. split; [by eapply step_send_failed|]. by split.
Qed.

Lemma main_step_sim u a s s' rest st :
  no_flush (Main a) → session_step u (Main a) s = Some s' → flush_sim rest s st → flush_sim rest s' st.
Proof.
  intros Hn Hs Hi. pose proof (fm_main _ _ _ Hi) as Hm. cbn in Hs. unfold main_step in Hs.
  destruct (ss_main s) as [pc|res|res|[|n] res|n d msg res|[|n] res|n e msg res|res] eqn:Ep;
    try discriminate Hm.
  { assert (∀ i, after_poll s <$> inbound_poll (su_cfg u) (su_hooks u) (su_nonce u) (su_uid u) i
      (pc, ss_runner s) = Some s' → flush_sim rest s' st) as Hpoll.
    { intros i (t & Hp & ->)%fmap_Some. pose proof (inbound_poll_buffers _ _ _ _ _ _ _ Hp) as [= E _].
      apply (flush_sim_stutter rest s); try done. cbn. by destruct (t.1). }
    unfold select_step in Hs. destruct a as [i| | | | | |]; try done.
    - destruct i; try done; by eapply Hpoll.
    - destruct (blocked s); [done|]. by eapply Hpoll.
    - destruct (ss_notified s); [|done]. injection Hs as <-. by apply (flush_sim_stutter rest s). }
  all: destruct a; try discriminate Hs; try done; cbn in Hs; cbv zeta in Hs;
    repeat case_match; try discriminate Hs; injection Hs as <-;
    apply (flush_sim_stutter rest s); try done; cbn; rewrite ?Ep; try done;
    first [by case_match|by destruct (ss_open s)].
Qed.

(** A step of the session, the host's aside, is one of the flush task or none. *)
Lemma session_step_sim u a s s' rest st :
  match a with Host _ => False | _ => no_flush a end →
  session_step u a s = Some s' → flush_sim rest s st →
  ∃ st', (st' = st ∨ flush_task_step (su_code u) st st') ∧ flush_sim rest s' st'.
Proof.
  intros Hn Hs Hi.
  assert (∀ s', metrics (ss_runner s') = metrics (ss_runner s) → ss_metrics s' = ss_metrics s →
    ss_shipped s' = ss_shipped s → ss_main s' = ss_main s →
    ∃ st', (st' = st ∨ flush_task_step (su_code u) st st') ∧ flush_sim rest s' st') as Hstutter.
  { intros s1 E1 E2 E3 E4. exists st. split; [by left|].
    apply (flush_sim_stutter rest s); try done. rewrite E4. apply Hi. }
  destruct a as [a|a|a|a|a|a|t|a]; cbn [session_step] in Hs; try done.
  - unfold net_step in Hs. destruct a; [case_match; [|done]|]; injection Hs as <-; by apply Hstutter.
  - unfold hb_step in Hs. destruct a, (ss_hb s); try done; [injection Hs as <-; by apply Hstutter|].
    destruct (blocked s); [done|]. destruct (ss_open s) eqn:Eo; injection Hs as <-;
      apply Hstutter; try done; cbn; by rewrite Eo.
  - destruct (metrics_step_sim _ _ _ _ _ _ Hs Hi) as (st' & Hst & Hi').
    exists st'. split; [by right|done].
  - unfold logs_step in Hs. destruct a, (ss_logs s); try done.
    + destruct (Logs.drain _) as [[[entries dropped] seq_] b].
      case_match; injection Hs as <-; by apply Hstutter.
    + destruct (blocked s); [done|]. destruct (ss_open s) eqn:Eo; injection Hs as <-;
        apply Hstutter; try done; cbn; by rewrite Eo.
  - unfold status_step in Hs. destruct a, (ss_status s); try done;
      try (injection Hs as <-; by apply Hstutter).
    destruct (blocked s); [done|]. destruct (ss_open s) eqn:Eo; injection Hs as <-;
      apply Hstutter; try done; cbn; by rewrite Eo.
  - unfold cancel_step in Hs. destruct (_ <? _)%nat; [|done].
    destruct t; try (injection Hs as <-; by apply Hstutter).
    destruct (at_await (ss_metrics s)) eqn:Ea; [|done]. injection Hs as <-.
    destruct Hi as [Hb Hp Hsh Hm]. eexists.
    split; [right; apply step_abort; by rewrite Hp|]. split; cbn; try done. by rewrite Hb, Hp.
  - exists st. split; [by left|]. by eapply main_step_sim.
Qed.

(** ** The shutdown flush *)

Lemma session_run_app u acts acts' s :
  session_run u (acts ++ acts') s = session_run u acts s ≫= session_run u acts'.
Proof.
  revert s. induction acts as [|a acts IH]; intros s; [done|]. cbn.
  destruct (session_step u a s) as [s1|]; cbn; [apply IH|done].
Qed.

(** Steps of [run_session] itself and of the transport. *)
Definition own_step (a : @Action _ QuotaStatus) : Prop :=
  match a with Main _ | Net NetTake => True | _ => False end.

Lemma take_all u n s :
  ss_open s = true → (n ≤ queued s)%nat →
  session_run u (replicate n (Net NetTake)) s = Some (set_channel (n + ss_taken s) true s).
Proof.
  revert s. induction n as [|n IH]; intros s Ho Hn.
  { cbn. f_equal. destruct s; cbn in *. by subst. }
  cbn [replicate session_run]. cbn [session_step net_step]. rewrite Ho. cbn [andb].
  destruct (Nat.ltb_spec 0 (queued s)); [|lia]. cbn [mbind option_bind].
  rewrite IH; [|done|unfold queued in *; cbn; lia].
  unfold set_channel. cbn [ss_taken ss_runner ss_main ss_hb ss_metrics ss_logs ss_status ss_stopping
    ss_notified ss_aborts ss_recorded ss_shipped ss_lost]. by rewrite Nat.add_succ_r.
Qed.

(** The transport makes room. *)
Lemma make_room u s :
  ss_open s = true →
  ∃ acts s', Forall own_step acts ∧ session_run u acts s = Some s' ∧ blocked s' = false ∧
    ss_runner s' = ss_runner s ∧ ss_main s' = ss_main s ∧ ss_open s' = true.
Proof.
  intros Ho. exists (replicate (queued s) (Net NetTake)), (set_channel (queued s + ss_taken s) true s).
  split_and!; try done; [by apply Forall_replicate|by apply take_all|].
  unfold blocked. apply andb_false_intro2, Nat.leb_gt. unfold queued, CHANNEL_CAP.
  cbn [ss_runner ss_taken set_channel]. lia.
Qed.

(** One accepted send of the flush. *)
Lemma flush_send u s msg :
  ss_open s = true →
  (∃ n d res, ss_main s = MFlushMetricsSend n d msg res) ∨
    (∃ n e res, ss_main s = MFlushLogsSend n e msg res) →
  ∃ acts s', Forall own_step acts ∧ session_run u acts s = Some s' ∧ ss_open s' = true ∧
    ss_runner s' = send true msg (ss_runner s) ∧
    ss_main s' = match ss_main s with
                 | MFlushMetricsSend n d _ res =>
                     if Drained_is_empty d then MFlushLogs MAX_SHUTDOWN_FLUSH_BATCHES res
                     else MFlushMetrics n res
                 | MFlushLogsSend n e _ res => if e then MReturned res else MFlushLogs n res
                 | pc => pc
                 end.
Proof.
  intros Ho Hm. destruct (make_room u s Ho) as (acts & s1 & Hown & Hr & Hb & Er & Em & Ho1).
  exists (acts ++ [Main MainSend]). setoid_rewrite session_run_app. rewrite Hr. cbn.
  unfold main_step. rewrite Em.
  destruct Hm as [(n & d & res & E)|(n & e & res & E)]; rewrite E; cbn; rewrite Hb, Ho1;
    (eexists; split; [apply Forall_app; split; [done|by repeat constructor]|];
     split; [reflexivity|]; cbn; rewrite Ho1, Er; done).
Qed.

Lemma flush_metrics_alone u n room now res s :
  ss_main s = MFlushMetrics n res → ss_open s = true → (n ≤ room)%nat →
  let '(msgs, b, _) := flush_metrics (su_code u) n room now (metrics (ss_runner s)) in
  ∃ acts s', Forall own_step acts ∧ session_run u acts s = Some s' ∧ ss_open s' = true ∧
    ss_main s' = MFlushLogs MAX_SHUTDOWN_FLUSH_BATCHES res ∧
    ss_runner s' = fold_left (λ r msg, send true msg r) msgs
                     (with_buffers b (logs (ss_runner s)) (ss_runner s)).
Proof.
  revert room s. induction n as [|n IH]; intros room s Hm Ho Hn; cbn [flush_metrics].
  { exists [Main (MainDrain epoch)]. cbn. unfold main_step. rewrite Hm. cbn.
    eexists. split_and!; [by repeat constructor|done|done|done|]. cbn. by destruct (ss_runner s). }
  destruct (Metrics.drain (now n) (metrics (ss_runner s))) as [d b] eqn:Ed.
  assert (session_step u (Main (MainDrain (now n))) s =
    Some (match Metrics.batch_to_message (su_code u) (timestamp_secs (now n)) d with
          | Some msg => set_main (MFlushMetricsSend n d msg res) (set_metrics_buf b s)
          | None => set_main (if Drained_is_empty d then MFlushLogs MAX_SHUTDOWN_FLUSH_BATCHES res
                              else MFlushMetrics n res) (set_metrics_buf b s)
          end)) as Hstep.
  { cbn. unfold main_step. rewrite Hm. cbn. rewrite Ed. by case_match. }
  destruct (Metrics.batch_to_message (su_code u) (timestamp_secs (now n)) d) as [msg|] eqn:Em.
  - destruct room as [|room]; [lia|].
    assert (Drained_is_empty d = false) as Hne.
    { unfold Metrics.batch_to_message in Em. by destruct (Drained_is_empty d). }
    rewrite Hne.
    destruct (flush_send u (set_main (MFlushMetricsSend n d msg res) (set_metrics_buf b s)) msg)
      as (acts1 & s1 & Hown1 & Hr1 & Ho1 & Er1 & Em1); [done|left; by eexists _, _, _|].
    cbn in Em1. rewrite Hne in Em1.
    specialize (IH room s1 Em1 Ho1 ltac:(lia)). rewrite Er1 in IH. cbn in IH.
    destruct (flush_metrics (su_code u) n room now b) as [[msgs b2] o].
    destruct IH as (acts2 & s2 & Hown2 & Hr2 & Ho2 & Em2 & Er2).
    exists (Main (MainDrain (now n)) :: acts1 ++ acts2), s2. split_and!; try done.
    + constructor; [done|]. by apply Forall_app.
    + cbn [session_run]. rewrite Hstep. cbn [mbind option_bind]. by rewrite session_run_app, Hr1.
  - assert (Drained_is_empty d = true) as He.
    { unfold Metrics.batch_to_message in Em. by destruct (Drained_is_empty d). }
    rewrite He in *. exists [Main (MainDrain (now n))].
    cbn [session_run]. rewrite Hstep. cbn.
    eexists. split_and!; [by repeat constructor|done|done|done|done].
Qed.

Lemma flush_logs_alone u n room now res s :
  ss_main s = MFlushLogs n res → ss_open s = true → (n ≤ room)%nat →
  let '(msgs, b, _) := flush_logs (su_level u) n room now (logs (ss_runner s)) in
  ∃ acts s', Forall own_step acts ∧ session_run u acts s = Some s' ∧ ss_open s' = true ∧
    ss_main s' = MReturned res ∧
    ss_runner s' = fold_left (λ r msg, send true msg r) msgs
                     (with_buffers (metrics (ss_runner s)) b (ss_runner s)).
Proof.
  revert room s. induction n as [|n IH]; intros room s Hm Ho Hn; cbn [flush_logs].
  { exists [Main (MainDrain epoch)]. cbn. unfold main_step. rewrite Hm. cbn.
    eexists. split_and!; [by repeat constructor|done|done|done|]. cbn. by destruct (ss_runner s). }
  destruct (Logs.drain (logs (ss_runner s))) as [[[entries dropped] seq_] b] eqn:Ed.
  set (empty := vec_is_empty entries && (dropped =? 0)%Z).
  assert (session_step u (Main (MainDrain (now n))) s =
    Some (match Logs.batch_to_message (su_level u) (timestamp_secs (now n)) entries dropped seq_ with
          | Some msg => set_main (MFlushLogsSend n empty msg res) (set_logs_buf b s)
          | None => set_main (if empty then MReturned res else MFlushLogs n res) (set_logs_buf b s)
          end)) as Hstep.
  { cbn. unfold main_step. rewrite Hm. cbn. rewrite Ed. by case_match. }
  destruct (Logs.batch_to_message _ _ entries dropped seq_) as [msg|] eqn:Em.
  - destruct room as [|room]; [lia|].
    assert (empty = false) as Hne.
    { unfold Logs.batch_to_message in Em. fold empty in Em. by destruct empty. }
    rewrite Hne in *.
    destruct (flush_send u (set_main (MFlushLogsSend n false msg res) (set_logs_buf b s)) msg)
      as (acts1 & s1 & Hown1 & Hr1 & Ho1 & Er1 & Em1); [done|right; by eexists _, _, _|].
    cbn in Em1. specialize (IH room s1 Em1 Ho1 ltac:(lia)). rewrite Er1 in IH. cbn in IH.
    destruct (flush_logs (su_level u) n room now b) as [[msgs b2] o].
    destruct IH as (acts2 & s2 & Hown2 & Hr2 & Ho2 & Em2 & Er2).
    exists (Main (MainDrain (now n)) :: acts1 ++ acts2), s2. split_and!; try done.
    + constructor; [done|]. by apply Forall_app.
    + cbn [session_run]. rewrite Hstep. cbn [mbind option_bind]. by rewrite session_run_app, Hr1.
  - assert (empty = true) as He.
    { unfold Logs.batch_to_message in Em. fold empty in Em. by destruct empty. }
    rewrite He in *. exists [Main (MainDrain (now n))].
    cbn [session_run]. rewrite Hstep. cbn.
    eexists. split_and!; [by repeat constructor|done|done|done|done].
Qed.

Lemma flush_metrics_room code n room now b :
  (n ≤ room)%nat → ∃ room', (flush_metrics code n room now b).2 = Some room' ∧ (room ≤ room' + n)%nat.
Proof.
  revert room b. induction n as [|n IH]; intros room b Hn; cbn [flush_metrics]; [eexists; split; [done|lia]|].
  destruct (Metrics.drain (now n) b) as [d b1].
  destruct (Metrics.batch_to_message _ _ d); [destruct room as [|room]; [lia|]|];
    destruct (Drained_is_empty d); try (eexists; split; [done|lia]).
  - destruct (IH room b1) as (room' & E & Hl); [lia|].
    destruct (flush_metrics code n room now b1) as [[msgs b2] o]. exists room'. split; [done|lia].
  - destruct (IH room b1) as (room' & E & Hl); [lia|]. exists room'. split; [done|lia].
Qed.

Lemma send_all_buffers msgs m l r :
  with_buffers m l (fold_left (λ r msg, send true msg r) msgs r) =
  fold_left (λ r msg, send true msg r) msgs (with_buffers m l r).
Proof. revert r. induction msgs as [|msg msgs IH]; intros r; [done|]. cbn [fold_left]. by rewrite IH. Qed.

(** Left alone, the end of a session that was asked to stop is
    [flush_remaining]: with no task but the transport running, the steps of
    [run_session] after its [abort]s end with the reader's result and leave exactly
    the runner, buffers and accepted messages that [flush_remaining] computes on an
    open channel. *)
Theorem session_end_is_flush_remaining u s res now :
  ss_main s = MLoad res → ss_stopping s = true → ss_open s = true →
  ∃ acts s', Forall own_step acts ∧ session_run u acts s = Some s' ∧ ss_main s' = MReturned res ∧
    ss_runner s' = flush_remaining (su_code u) (su_level u) (2 * MAX_SHUTDOWN_FLUSH_BATCHES) now
                     (ss_runner s).
Proof.
  intros Hm Hst Ho. set (s1 := set_main (MFlushMetrics MAX_SHUTDOWN_FLUSH_BATCHES res) s).
  assert (session_step u (Main MainLoad) s = Some s1) as Hstep.
  { cbn. unfold main_step. rewrite Hm. cbn. by rewrite Hst. }
  pose proof (flush_metrics_alone u MAX_SHUTDOWN_FLUSH_BATCHES (2 * MAX_SHUTDOWN_FLUSH_BATCHES) now res s1)
    as Hfm.
  destruct (flush_metrics_room (su_code u) MAX_SHUTDOWN_FLUSH_BATCHES (2 * MAX_SHUTDOWN_FLUSH_BATCHES)
    now (metrics (ss_runner s))) as (room' & E & Hroom); [lia|].
  unfold flush_remaining. change (ss_runner s1) with (ss_runner s) in Hfm.
  destruct (flush_metrics _ _ _ _ _) as [[msgs m] o]. cbn in E. subst o.
  destruct Hfm as (acts1 & s2 & Hown1 & Hr1 & Ho2 & Hm2 & Er2); [done|done|lia|].
  pose proof (flush_logs_alone u MAX_SHUTDOWN_FLUSH_BATCHES room' now res s2 Hm2 Ho2 ltac:(lia)) as Hfl.
  assert (logs (ss_runner s2) = logs (ss_runner s) ∧ metrics (ss_runner s2) = m) as [El Em].
  { rewrite Er2. destruct (send_all msgs (with_buffers m (logs (ss_runner s)) (ss_runner s)))
      as (_ & E1 & E2). by rewrite E1, E2. }
  rewrite El, Em in Hfl. destruct (flush_logs _ _ _ _ _) as [[lmsgs l] o].
  destruct Hfl as (acts2 & s3 & Hown2 & Hr2 & Ho3 & Hm3 & Er3).
  exists (Main MainLoad :: acts1 ++ acts2), s3. split_and!; [|  |done|].
  - constructor; [done|]. by apply Forall_app.
  - cbn [session_run]. rewrite Hstep. cbn [mbind option_bind]. by rewrite session_run_app, Hr1.
  - by rewrite Er3, Er2, send_all_buffers, fold_left_app.
Qed.
End refinement.

(** ** The properties on concrete executions *)

#[local] Existing Instance demo_grpc.

Lemma session_end_is_flush_remaining_witness :
  ∃ (s0 : @Session concrete_bundle unit unit) acts s', ss_main s0 = MLoad (Ok tt) ∧ length (samples (Metrics.buf (metrics (ss_runner s0)))) = 1%nat ∧
    session_run demo_setup acts s0 = Some s' ∧ ss_main s' = MReturned (Ok tt) ∧
    ss_runner s' = flush_remaining outcome_code (λ _, 0%Z) 32 (λ _, epoch) (ss_runner s0).
Proof.
  assert (∃ s0, session_run demo_setup (take 13 quiet_shutdown) (demo_session false) = Some s0 ∧
    ss_main s0 = MLoad (Ok tt) ∧ ss_stopping s0 = true ∧ ss_open s0 = true ∧
    length (samples (Metrics.buf (metrics (ss_runner s0)))) = 1%nat) as (s0 & _ & Hm & Hst & Ho & Hl).
  { eexists. split; [vm_compute; reflexivity|]. repeat split. }
  destruct (session_end_is_flush_remaining demo_setup s0 (Ok tt) (λ _, epoch) Hm Hst Ho)
    as (acts & s' & _ & Hr & Hm' & Hr').
  exists s0, acts, s'. split; [exact Hm|]. split; [exact Hl|]. split; [exact Hr|].
  split; [exact Hm'|exact Hr'].
Defined.
