(* ===== verification/SessionWire.v ===== *)
(** * What a session puts on the wire

    The messages the outbound channel accepted, against what the tasks of the
    session meant to send: the metrics reports are the shipped batches, one each and
    in order, and the heartbeats are numbered from one without a gap, whatever else
    is queued between them. *)

From stdpp Require Import base list strings gmap.
From Stdlib Require Import ZArith QArith Lia.
From S2P Require Import Prelude Time BTree Proto Text Serde Concrete Errors Token.
From S2P Require Import Metrics MetricsFacts FlushLoop FlushLoopFacts Ledger Logs LogsFacts Status.
From S2P Require Import Crypto Dek Fs FsFacts Lkg LkgFacts License Creds Client Runner Inbound Control Agent.
From S2P Require Import SessionFacts Session SessionSafety.

#[local] Arguments Metrics.drain : simpl never.
#[local] Arguments Logs.drain : simpl never.
#[local] Arguments Metrics.batch_to_message : simpl never.
#[local] Arguments Logs.batch_to_message : simpl never.
#[local] Arguments snapshot_to_message : simpl never.
#[local] Arguments heartbeat_message : simpl never.

(** ** Kinds of messages *)

Definition is_report (m : AgentMessage) : bool :=
  match kind m with Some (KMetricsReport _) => true | _ => false end.

Definition heartbeat_of (m : AgentMessage) : option Z :=
  match kind m with Some (KHeartbeat h) => Some (hb_seq h) | _ => None end.

(** Neither a report nor a heartbeat. *)
Definition plain (m : AgentMessage) : Prop := is_report m = false ∧ heartbeat_of m = None.

(** The task whose lane a message belongs to; an acknowledgement is of none. *)
Definition lane (m : AgentMessage) : option TaskId :=
  match kind m with
  | Some (KHeartbeat _) => Some THeartbeat
  | Some (KMetricsReport _) => Some TMetrics
  | Some (KLogBatch _) => Some TLogs
  | Some (KStatusReport _) => Some TStatus
  | Some (KConfigAck _) | None => None
  end.

Lemma lane_plain m : lane m = Some TLogs ∨ lane m = Some TStatus ∨ lane m = None → plain m.
Proof. unfold lane, plain, is_report, heartbeat_of. destruct m as [[[]|]]; cbn; naive_solver. Qed.

Lemma lane_no_ack m t : lane m = Some t → is_ack m = false.
Proof. unfold lane, is_ack. by destruct m as [[[]|]]. Qed.

Definition reports (code : ToolOutcome → Z) (d : Drained) (m : AgentMessage) : Prop :=
  ∃ now, Metrics.batch_to_message code now d = Some m.

Lemma reports_lane code d m : reports code d m → lane m = Some TMetrics.
Proof.
  intros [now E]. unfold Metrics.batch_to_message in E. destruct (Drained_is_empty d); [done|].
  by injection E as <-.
Qed.

Lemma reports_kind code d m : reports code d m → is_report m = true ∧ heartbeat_of m = None.
Proof.
  intros E%reports_lane. revert E. unfold lane, is_report, heartbeat_of. by destruct m as [[[]|]].
Qed.

Lemma log_batch_lane level now lines dropped seq_ m :
  Logs.batch_to_message level now lines dropped seq_ = Some m → lane m = Some TLogs.
Proof. unfold Logs.batch_to_message. destruct (_ && _); [done|]. by intros [= <-]. Qed.

(** The heartbeat numbers of a list of messages, and the first [n] numbers. *)
Definition heartbeat_numbers (l : list AgentMessage) : list Z := omap heartbeat_of l.
Definition numbers (n : nat) : list Z := (λ i, Z.of_nat (S i)) <$> List.seq 0 n.

Lemma numbers_S n : numbers (S n) = numbers n ++ [Z.of_nat (S n)].
Proof. unfold numbers. by rewrite seq_S, fmap_app. Qed.

Section wire.
Context `{!Json, !Base64, !Rfc3339, !Aead, !Hkdf, !BundleCodec, !Grpc}.
Context {Channel QuotaStatus : Type}.
Context (code : ToolOutcome → Z).
Abbreviation Session := (@Session _ Channel QuotaStatus).
Abbreviation Runner := (@Runner _ Channel QuotaStatus).
Implicit Types (s : Session) (r : Runner) (u : SessionSetup).

(** What is waiting to be sent is of its kind. *)
Definition hb_pending (pc : HbPc) : Prop :=
  match pc with HbSending _ m => lane m = Some THeartbeat | _ => True end.
Definition metrics_pending (pc : FlushPc) : Prop :=
  match pc with Sending _ d m => reports code d m | _ => True end.
Definition logs_pending (pc : LogPc) : Prop :=
  match pc with LSending m => lane m = Some TLogs | _ => True end.
Definition status_pending (pc : StatusPc) : Prop :=
  match pc with SSending m => lane m = Some TStatus | _ => True end.
Definition main_pending (pc : @MainPc _) : Prop :=
  match pc with
  | MSelect (IAck m) => lane m = None
  | MFlushMetricsSend _ d m _ => reports code d m
  | MFlushLogsSend _ _ m _ => lane m = Some TLogs
  | _ => True
  end.

Record pending_ok s : Prop := {
  po_hb : hb_pending (ss_hb s);
  po_metrics : metrics_pending (ss_metrics s);
  po_logs : logs_pending (ss_logs s);
  po_status : status_pending (ss_status s);
  po_main : main_pending (ss_main s)
}.

(** The messages [new] accepted since the start, [n] of them heartbeats. *)
Record accepted_ok (sent0 new : list AgentMessage) (n : nat) s : Prop := {
  ao_outbound : outbound (ss_runner s) = sent0 ++ new;
  ao_reports : Forall2 (reports code) (ss_shipped s) (List.filter is_report new);
  ao_numbers : heartbeat_numbers new = numbers n;
  ao_hb : match ss_hb s with
          | HbWait k => k = Z.of_nat n
          | HbSending k m => k = Z.of_nat (S n) ∧ is_report m = false ∧ heartbeat_of m = Some k
          | HbDone => True
          end
}.

(** What one step may do to the accepted messages and to the heartbeat task. *)
Inductive wire_step s s' : Prop :=
| wire_idle :
    outbound (ss_runner s') = outbound (ss_runner s) → ss_shipped s' = ss_shipped s →
    ss_hb s' = ss_hb s ∨ ss_hb s' = HbDone → wire_step s s'
| wire_plain m :
    outbound (ss_runner s') = outbound (ss_runner s) ++ [m] → plain m →
    ss_shipped s' = ss_shipped s → ss_hb s' = ss_hb s → wire_step s s'
| wire_report d m :
    outbound (ss_runner s') = outbound (ss_runner s) ++ [m] → reports code d m →
    ss_shipped s' = ss_shipped s ++ [d] → ss_hb s' = ss_hb s → wire_step s s'
| wire_hb_tick k now :
    outbound (ss_runner s') = outbound (ss_runner s) → ss_shipped s' = ss_shipped s →
    ss_hb s = HbWait k →
    ss_hb s' = HbSending (saturating_add_u64 k 1) (heartbeat_message now (saturating_add_u64 k 1)) →
    wire_step s s'
| wire_hb_sent k m :
    outbound (ss_runner s') = outbound (ss_runner s) ++ [m] → ss_shipped s' = ss_shipped s →
    ss_hb s = HbSending k m → ss_hb s' = HbWait k → wire_step s s'.

Lemma accepted_step sent0 new n s s' :
  wire_step s s' → accepted_ok sent0 new n s → (Z.of_nat (S n) ≤ U64_MAX)%Z →
  ∃ new' n', accepted_ok sent0 new' n' s' ∧ (n' ≤ S n)%nat.
Proof.
  intros Hs [Ho Hr Hn Hh] Hmax.
  assert (∀ m, heartbeat_numbers (new ++ [m]) = heartbeat_numbers new ++ heartbeat_numbers [m]) as Happ.
  { intros m. unfold heartbeat_numbers. by rewrite omap_app. }
  destruct Hs as [E1 E2 E3|m E1 [P1 P2] E2 E3|d m E1 Hd E2 E3|k now E1 E2 E3 E4|k m E1 E2 E3 E4].
  - exists new, n. split; [|lia]. split; [congruence|by rewrite E2|done|].
    destruct E3 as [-> | ->]; [done|done].
  - exists (new ++ [m]), n. split; [|lia]. split.
    + by rewrite E1, Ho, (assoc_L app).
    + rewrite E2, List.filter_app. cbn. by rewrite P1, app_nil_r.
    + rewrite Happ, Hn. unfold heartbeat_numbers. cbn. by rewrite P2, app_nil_r.
    + by rewrite E3.
  - destruct (reports_kind code d m Hd) as [P1 P2].
    exists (new ++ [m]), n. split; [|lia]. split.
    + by rewrite E1, Ho, (assoc_L app).
    + rewrite E2, List.filter_app. cbn. rewrite P1. apply Forall2_app; [done|]. by constructor.
    + rewrite Happ, Hn. unfold heartbeat_numbers. cbn. by rewrite P2, app_nil_r.
    + by rewrite E3.
  - exists new, n. split; [|lia]. rewrite E3 in Hh. subst k.
    split; [congruence|by rewrite E2|done|]. rewrite E4.
    assert (saturating_add_u64 (Z.of_nat n) 1 = Z.of_nat (S n)) as ->
      by (unfold saturating_add_u64; lia). done.
  - rewrite E3 in Hh. destruct Hh as (-> & P1 & P2).
    exists (new ++ [m]), (S n). split; [|lia]. split.
    + by rewrite E1, Ho, (assoc_L app).
    + rewrite E2, List.filter_app. cbn. by rewrite P1, app_nil_r.
    + rewrite Happ, Hn, numbers_S. unfold heartbeat_numbers. cbn. by rewrite P2.
    + by rewrite E4.
Qed.

(** What the reader queues is of no task's lane. *)
Lemma config_applied_lane hash outcome r m :
  (config_applied hash outcome r).1 = IAck m → lane m = None.
Proof. unfold config_applied. destruct outcome; cbn; by intros [= <-]. Qed.

Lemma inbound_poll_lane cfg hooks nonce uid i (st : @InboundPc _ * Runner) st' m :
  inbound_poll cfg hooks nonce uid i st = Some st' → st'.1 = IAck m → lane m = None.
Proof.
  unfold inbound_poll. destruct st as [pc r]. cbn [fst snd].
  destruct pc, i; try done; repeat case_match; intros [= <-]; cbn [fst]; try done;
    eauto using config_applied_lane.
  - unfold inbound_start. destruct (server_kind _) as [[up|c|cr|reason| | |qs|up]|]; try done.
    + repeat case_match; try done; eauto using config_applied_lane.
    + by case_match.
    + by case_match.
  - unfold jwt_locked. repeat case_match; done.
Qed.

(** Each actor's step on the wire. *)
Lemma select_step_wire cfg hooks nonce uid a pc s s' :
  ss_main s = MSelect pc → pending_ok s →
  select_step cfg hooks nonce uid a pc s = Some s' → wire_step s s'.
Proof.
  intros Ep Hp. unfold select_step. destruct a as [i| | | | | |]; try done.
  - destruct i as [item|outcome|o| |]; try done; intros (st & Hq & ->)%fmap_Some;
      apply inbound_poll_outbound in Hq; apply wire_idle; auto; cbn; rewrite Hq; by destruct pc.
  - destruct (blocked s) eqn:Eb; [done|]. intros (st & Hq & ->)%fmap_Some.
    apply inbound_poll_outbound in Hq.
    destruct pc as [|h b|ack|cr|cr m|d|res]; try (apply wire_idle; [cbn; by rewrite Hq|done|by left]).
    destruct (ss_open s); [|apply wire_idle; [cbn; by rewrite Hq|done|by left]].
    apply (wire_plain _ _ ack); try done. pose proof (po_main s Hp) as Hm. rewrite Ep in Hm.
    apply lane_plain. auto.
  - destruct (ss_notified s); [|done]. intros [= <-]. apply wire_idle; auto.
Qed.

Lemma finish_step_wire level a s s' :
  pending_ok s → finish_step code level a (ss_main s) s = Some s' → wire_step s s'.
Proof.
  intros Hp Hs. pose proof (po_main s Hp) as Hm. unfold finish_step in Hs.
  destruct a, (ss_main s) as [pc|res|res|[|n] res|n d msg res|[|n] res|n e msg res|res] eqn:Ep;
    try discriminate Hs; try (injection Hs as <-; apply wire_idle; auto; done).
  - cbv zeta in Hs. destruct (4 <=? _)%nat; injection Hs as <-; apply wire_idle; auto.
  - destruct (Metrics.drain _ _) as [d b]. destruct (Metrics.batch_to_message _ _ _); injection Hs as <-;
      apply wire_idle; auto.
  - destruct (Logs.drain _) as [[[entries dropped] seq_] b].
    destruct (Logs.batch_to_message _ _ _ _ _); injection Hs as <-; apply wire_idle; auto.
  - destruct (blocked s); [done|]. destruct (ss_open s) eqn:Eo; injection Hs as <-;
      [|by apply wire_idle; auto].
    eapply wire_report; [cbn; by rewrite Eo|done|done|done].
  - destruct (blocked s); [done|]. destruct (ss_open s) eqn:Eo; injection Hs as <-;
      [|by apply wire_idle; auto].
    eapply wire_plain; [cbn; by rewrite Eo|apply lane_plain; auto|done|done].
Qed.

Lemma task_step_wire u a s s' :
  su_code u = code → pending_ok s → is_main a = false → session_step u a s = Some s' → wire_step s s'.
Proof.
  intros Hu Hp Hm Hs. destruct a as [a|a|a|a|a|a|t|a]; try discriminate Hm; cbn [session_step] in Hs.
  - destruct a; injection Hs as <-; apply wire_idle; auto.
  - unfold net_step in Hs. destruct a; [case_match; [|done]|]; injection Hs as <-; apply wire_idle; auto.
  - unfold hb_step in Hs. destruct a, (ss_hb s) as [k|k m|] eqn:Eh; try done.
    + injection Hs as <-. by eapply wire_hb_tick.
    + destruct (blocked s); [done|]. destruct (ss_open s) eqn:Eo; injection Hs as <-;
        [|by apply wire_idle; auto]. eapply wire_hb_sent; [cbn; by rewrite Eo|done|done|done].
  - unfold metrics_step in Hs. rewrite Hu in Hs.
    destruct a, (ss_metrics s) as [| | |[|n]|n d msg|] eqn:Em; try done;
      try (injection Hs as <-; apply wire_idle; auto; done).
    + destruct (Metrics.flush_early _); [|done]. injection Hs as <-. apply wire_idle; auto.
    + destruct (Metrics.drain _ _) as [d b]. case_match; injection Hs as <-; apply wire_idle; auto.
    + destruct (blocked s); [done|]. destruct (ss_open s) eqn:Eo; injection Hs as <-;
        [|by apply wire_idle; auto].
      pose proof (po_metrics s Hp) as Hk. rewrite Em in Hk.
      eapply wire_report; [cbn; by rewrite Eo|done|done|done].
  - unfold logs_step in Hs. destruct a, (ss_logs s) as [|msg|] eqn:El; try done.
    + destruct (Logs.drain _) as [[[entries dropped] seq_] b].
      case_match; injection Hs as <-; apply wire_idle; auto.
    + destruct (blocked s); [done|]. destruct (ss_open s) eqn:Eo; injection Hs as <-;
        [|by apply wire_idle; auto].
      pose proof (po_logs s Hp) as Hk. rewrite El in Hk.
      eapply wire_plain; [cbn; by rewrite Eo|apply lane_plain; auto|done|done].
  - unfold status_step in Hs. destruct a, (ss_status s) as [| |msg|] eqn:El; try done;
      try (injection Hs as <-; apply wire_idle; auto; done).
    destruct (blocked s); [done|]. destruct (ss_open s) eqn:Eo; injection Hs as <-;
      [|by apply wire_idle; auto].
    pose proof (po_status s Hp) as Hk. rewrite El in Hk.
    eapply wire_plain; [cbn; by rewrite Eo|apply lane_plain; auto|done|done].
  - unfold cancel_step in Hs. destruct (_ <? _)%nat; [|done].
    destruct t; try destruct (at_await _); try done; injection Hs as <-; apply wire_idle; auto.
Qed.

(** What is waiting to be sent stays of its kind. *)
Lemma pending_keep s s' :
  pending_ok s → ss_hb s' = ss_hb s → ss_metrics s' = ss_metrics s → ss_logs s' = ss_logs s →
  ss_status s' = ss_status s → main_pending (ss_main s') → pending_ok s'.
Proof. intros [P0 P1 P2 P3 P4] E0 E1 E2 E3 Hm. split; congruence. Qed.

Lemma main_step_pending u a s s' :
  su_code u = code → pending_ok s → session_step u (Main a) s = Some s' → pending_ok s'.
Proof.
  intros Hu Hp Hs. cbn [session_step] in Hs. unfold main_step in Hs. rewrite Hu in Hs.
  destruct (ss_main s) as [pc|res|res|[|n] res|n d msg res|[|n] res|n e msg res|res] eqn:Ep.
  { assert (∀ i, after_poll s <$> inbound_poll (su_cfg u) (su_hooks u) (su_nonce u) (su_uid u) i
      (pc, ss_runner s) = Some s' → pending_ok s') as Hpoll.
    { intros i (st & Hq & ->)%fmap_Some. pose proof (λ m, inbound_poll_lane _ _ _ _ _ _ _ m Hq) as Hk.
      apply (pending_keep s); try done. cbn. destruct (st.1); try done. by apply Hk. }
    unfold select_step in Hs. destruct a as [i| | | | | |]; try done.
    - destruct i; try done; by eapply Hpoll.
    - destruct (blocked s); [done|]. by eapply Hpoll.
    - destruct (ss_notified s); [|done]. injection Hs as <-. by apply (pending_keep s). }
  all: unfold finish_step in Hs; destruct a; try discriminate Hs; cbv zeta in Hs;
    try (injection Hs as <-; apply (pending_keep s); try done; cbn; by repeat case_match).
  - destruct (4 <=? _)%nat; injection Hs as <-; apply (pending_keep s); try done. cbn. by rewrite Ep.
  - destruct (Metrics.drain _ _) as [d b]. destruct (Metrics.batch_to_message _ _ d) eqn:Em;
      injection Hs as <-; apply (pending_keep s); try done; [by eexists|]. cbn. by case_match.
  - destruct (blocked s); [done|]. destruct (ss_open s); injection Hs as <-;
      apply (pending_keep s); try done. cbn. by case_match.
  - destruct (Logs.drain _) as [[[entries dropped] seq_] b].
    destruct (Logs.batch_to_message _ _ _ _ _) eqn:Em; injection Hs as <-;
      apply (pending_keep s); try done; [by eapply log_batch_lane|]. cbn. by case_match.
  - destruct (blocked s); [done|]. destruct (ss_open s); injection Hs as <-;
      apply (pending_keep s); try done. cbn. by case_match.
Qed.

Lemma metrics_step_pending a s s' :
  pending_ok s → metrics_step code a s = Some s' → pending_ok s'.
Proof.
  intros [P0 P1 P2 P3 P4] Hs. unfold metrics_step in Hs.
  destruct a, (ss_metrics s) as [| | |[|n]|n d msg|] eqn:Em; try done;
    try (injection Hs as <-; by split).
  - destruct (Metrics.flush_early _); [|done]. injection Hs as <-. by split.
  - destruct (Metrics.drain _ _) as [d b]. destruct (Metrics.batch_to_message _ _ d) eqn:Ed;
      injection Hs as <-; split; try done; [by eexists|].
    cbn. unfold after_batch. by case_match.
  - destruct (blocked s); [done|]. destruct (ss_open s); injection Hs as <-; split; try done.
    cbn. unfold after_batch. by case_match.
Qed.

Lemma pending_step u a s s' :
  su_code u = code → pending_ok s → session_step u a s = Some s' → pending_ok s'.
Proof.
  intros Hu Hp Hs. destruct a as [a|a|a|a|a|a|t|a]; [..|by eapply main_step_pending];
    cbn [session_step] in Hs; try (rewrite Hu in Hs; by eapply metrics_step_pending);
    destruct Hp as [P0 P1 P2 P3 P4].
  - destruct a; injection Hs as <-; by split.
  - unfold net_step in Hs. destruct a; [case_match; [|done]|]; injection Hs as <-; by split.
  - unfold hb_step in Hs. destruct a, (ss_hb s); try done; [injection Hs as <-; by split|].
    destruct (blocked s); [done|]. destruct (ss_open s); injection Hs as <-; by split.
  - unfold logs_step in Hs. destruct a, (ss_logs s) as [|msg|]; try done.
    + destruct (Logs.drain _) as [[[entries dropped] seq_] b].
      destruct (Logs.batch_to_message _ _ _ _ _) eqn:Em; injection Hs as <-; split; try done.
      by eapply log_batch_lane.
    + destruct (blocked s); [done|]. destruct (ss_open s); injection Hs as <-; by split.
  - unfold status_step in Hs. destruct a, (ss_status s) as [| |msg|]; try done;
      try (injection Hs as <-; by split).
    destruct (blocked s); [done|]. destruct (ss_open s); injection Hs as <-; by split.
  - unfold cancel_step in Hs. destruct (_ <? _)%nat; [|done].
    destruct t; try destruct (at_await _); try done; injection Hs as <-; by split.
Qed.

Lemma session_init_pending r has_status stopping : pending_ok (session_init r has_status stopping).
Proof. split; try done. cbn. by destruct has_status. Qed.

Lemma session_run_wire u acts s s' sent0 new n :
  su_code u = code → (Z.of_nat (n + length acts) < U64_MAX)%Z →
  pending_ok s → accepted_ok sent0 new n s → session_run u acts s = Some s' →
  ∃ new' n', accepted_ok sent0 new' n' s'.
Proof.
  intros Hu. revert new n s. induction acts as [|a acts IH]; intros new n s Hmax Hp Ha; cbn [session_run].
  { intros [= <-]. by exists new, n. }
  intros (s1 & E1 & E2)%bind_Some.
  assert (wire_step s s1) as Hw.
  { destruct (is_main a) eqn:Em; [|by eapply task_step_wire].
    destruct a as [| | | | | | |a]; try discriminate Em. cbn in E1. unfold main_step in E1.
    rewrite Hu in E1. destruct (ss_main s) eqn:Ep; [by eapply select_step_wire|..];
      rewrite <- Ep in E1; by eapply finish_step_wire. }
  destruct (accepted_step sent0 new n s s1 Hw Ha) as (new1 & n1 & Ha1 & Hn1); [cbn in Hmax; lia|].
  eapply (IH new1 n1); [cbn in Hmax; lia|by eapply pending_step|done|done].
Qed.

End wire.

(** C20: what the tasks shipped is what the channel accepted: in every execution the
    metrics reports among the messages accepted since the session started are, in
    this order, one report for each batch counted as shipped, by the metrics task or
    by the shutdown flush, and the heartbeats among them are numbered 1, 2, 3 and so
    on without a gap. *)
Theorem session_wire_is_faithful `{!Json, !Base64, !Rfc3339, !Aead, !Hkdf, !BundleCodec, !Grpc}
    {Channel QuotaStatus : Type} (u : SessionSetup) (r : @Runner _ Channel QuotaStatus)
    has_status stopping acts s :
  (Z.of_nat (length acts) < U64_MAX)%Z →
  session_run u acts (session_init r has_status stopping) = Some s →
  ∃ new, outbound (ss_runner s) = outbound r ++ new ∧
    Forall2 (reports (su_code u)) (ss_shipped s) (List.filter is_report new) ∧
    heartbeat_numbers new = numbers (length (heartbeat_numbers new)).
Proof.
  intros Hl Hr.
  destruct (session_run_wire (su_code u) u acts (session_init r has_status stopping) s
    (outbound r) [] 0) as (new & n & [E1 E2 E3 _]); [done|done| | |done|].
  - apply session_init_pending.
  - split; try done. cbn. by rewrite app_nil_r.
  - exists new. split_and!; [done|done|]. rewrite E3. unfold numbers. by rewrite length_fmap, length_seq.
Qed.

#[local] Existing Instance demo_grpc.

Lemma session_wire_is_faithful_witness :
  ∃ new, outbound (ss_runner quiet_end) = new ∧ length (List.filter is_report new) = 2%nat ∧
    Forall2 (reports outcome_code) (ss_shipped quiet_end) (List.filter is_report new).
Proof.
  destruct (session_wire_is_faithful demo_setup demo_runner false false quiet_shutdown quiet_end)
    as (new & E1 & E2 & _).
  - vm_compute. reflexivity.
  - exact quiet_end_reached.
  - exists new. split; [exact E1|]. split; [|exact E2].
    rewrite <- (Forall2_length _ _ _ E2). reflexivity.
Defined.
