(* ===== verification/SessionControl.v ===== *)
(** * A concurrent session against the sequential [run_session]

    [Agent] runs a session as one function: the inbound reader over a stream, then
    the end.  [Session] interleaves the reader with the tasks, the host and the
    transport.  Here every execution of the second is an execution of the first on
    the control state of [Control]: what the other actors do never reaches it, and
    the reader's own steps are [read_inbound], or [inbound_cut] when a shutdown was
    notified, on the messages it received. *)

From stdpp Require Import base list strings gmap.
From Stdlib Require Import ZArith QArith Lia Morphisms.
From S2P Require Import Prelude Time BTree Proto Text Serde Concrete Errors Token.
From S2P Require Import Metrics MetricsFacts FlushLoop FlushLoopFacts Logs Status.
From S2P Require Import Crypto Dek Fs FsFacts Lkg LkgFacts License Creds Client Runner Inbound Control.
From S2P Require Import Agent SessionFacts Session SessionSafety SessionWire.

Local Open Scope string_scope.

#[local] Arguments Metrics.drain : simpl never.
#[local] Arguments Logs.drain : simpl never.
#[local] Arguments Metrics.batch_to_message : simpl never.
#[local] Arguments Logs.batch_to_message : simpl never.
#[local] Arguments snapshot_to_message : simpl never.
#[local] Arguments heartbeat_message : simpl never.

Section control.
Context `{!Json, !Base64, !Rfc3339, !Aead, !Hkdf, !BundleCodec, !Grpc}.
Context {Channel QuotaStatus : Type}.
Abbreviation Session := (@Session _ Channel QuotaStatus).
Abbreviation Runner := (@Runner _ Channel QuotaStatus).
Implicit Types (s : Session) (r : Runner) (u : SessionSetup).

(** ** The other actors *)

Lemma push_control t msg s : lane msg = Some t → ss_runner (push msg s) ≡ ss_runner s.
Proof. intros E. by eapply send_equiv, lane_no_ack. Qed.

(** The tasks, the host and the transport do not touch the control state, nor take
    a notification back. *)
Lemma other_step_control u a s s' :
  pending_ok (su_code u) s → is_main a = false → session_step u a s = Some s' →
  ss_runner s' ≡ ss_runner s ∧ (ss_notified s = true → ss_notified s' = true).
Proof.
  intros [P0 P1 P2 P3 _] Hm Hs.
  destruct a as [a|a|a|a|a|a|t|a]; try discriminate Hm; clear Hm; cbn [session_step] in Hs.
  - destruct a; injection Hs as <-; split; try done. cbn. intros ->. apply orb_true_r.
  - unfold net_step in Hs. destruct a; [case_match; [|done]|]; injection Hs as <-; by split.
  - unfold hb_step in Hs. destruct a, (ss_hb s) as [k|k m|]; try done; [injection Hs as <-; by split|].
    destruct (blocked s); [done|]. destruct (ss_open s); injection Hs as <-; split; try done.
    cbn. etransitivity; [apply emit_heartbeat_equiv|]. by eapply push_control.
  - unfold metrics_step in Hs. destruct a, (ss_metrics s) as [| | |[|n]|n d msg|]; try done;
      try (injection Hs as <-; by split).
    + destruct (Metrics.flush_early _); [|done]. injection Hs as <-. by split.
    + destruct (Metrics.drain _ _) as [d b]. case_match; injection Hs as <-; by split.
    + destruct (blocked s); [done|]. destruct (ss_open s); injection Hs as <-; split; try done.
      cbn. eapply push_control, reports_lane, P1.
  - unfold logs_step in Hs. destruct a, (ss_logs s) as [|msg|]; try done.
    + destruct (Logs.drain _) as [[[entries dropped] seq_] b]. case_match; injection Hs as <-; by split.
    + destruct (blocked s); [done|]. destruct (ss_open s); injection Hs as <-; split; try done.
      cbn. eapply push_control, P2.
  - unfold status_step in Hs. destruct a, (ss_status s) as [| |msg|]; try done;
      try (injection Hs as <-; by split).
    destruct (blocked s); [done|]. destruct (ss_open s); injection Hs as <-; split; try done.
    cbn. eapply push_control, P3.
  - unfold cancel_step in Hs. destruct (_ <? _)%nat; [|done].
    destruct t; try destruct (at_await _); try done; injection Hs as <-; by split.
Qed.

(** Neither does the end of the session. *)
Lemma finish_step_control code level a s s' :
  pending_ok code s → finish_step code level a (ss_main s) s = Some s' →
  ss_runner s' ≡ ss_runner s ∧ (ss_notified s = true → ss_notified s' = true).
Proof.
  intros Hp Hs. pose proof (po_main _ s Hp) as Hm. unfold finish_step in Hs.
  destruct a, (ss_main s) as [pc|res|res|[|n] res|n d msg res|[|n] res|n e msg res|res];
    try discriminate Hs; try (injection Hs as <-; by split).
  - cbv zeta in Hs. destruct (4 <=? _)%nat; injection Hs as <-; by split.
  - destruct (Metrics.drain _ _) as [d b]. case_match; injection Hs as <-; by split.
  - destruct (Logs.drain _) as [[[entries dropped] seq_] b]. case_match; injection Hs as <-; by split.
  - destruct (blocked s); [done|]. destruct (ss_open s); injection Hs as <-; split; try done.
    cbn. eapply push_control, reports_lane, Hm.
  - destruct (blocked s); [done|]. destruct (ss_open s); injection Hs as <-; split; try done.
    cbn. eapply push_control, Hm.
Qed.

(** ** What the reader of a session is given *)

(** The ends of its waits, on a channel that is open at first. *)
Fixpoint polls (open_ : bool) (acts : list (@Action _ QuotaStatus)) : list (@InboundIn _ QuotaStatus) :=
  match acts with
  | [] => []
  | Main (MainPoll i) :: acts => i :: polls open_ acts
  | Main MainAck :: acts => InSent open_ :: polls open_ acts
  | Net NetClose :: acts => polls false acts
  | _ :: acts => polls open_ acts
  end.

Definition closes (a : @Action _ QuotaStatus) : bool :=
  match a with Net NetClose => true | _ => false end.
Definition still_open (open_ : bool) (acts : list (@Action _ QuotaStatus)) : bool :=
  open_ && negb (existsb closes acts).

(** The [select!] took its shutdown arm. *)
Definition is_notified (a : @Action _ QuotaStatus) : bool :=
  match a with Main MainNotified => true | _ => false end.
Definition cut_in (acts : list (@Action _ QuotaStatus)) : option (nat * option nat) :=
  if existsb is_notified acts then Some (cut_of (polls true acts)) else None.

(** The answers of the applier along an execution. *)
Definition session_answer (a : @Action _ QuotaStatus) r : list (nat * Result () string) :=
  match a with Main (MainPoll i) => answer_at i (INext, r) | _ => [] end.

Fixpoint session_answers u (acts : list (@Action _ QuotaStatus)) s
    : list (nat * Result () string) :=
  match acts with
  | [] => []
  | a :: acts =>
      (session_answer a (ss_runner s) ++
       from_option (session_answers u acts) [] (session_step u a s))%list
  end.

Lemma polls_snoc open_ acts a :
  polls open_ (acts ++ [a])%list = (polls open_ acts ++ polls (still_open open_ acts) [a])%list.
Proof.
  revert open_. induction acts as [|c acts IH]; intros open_; [cbn [app polls]; unfold still_open; cbn [existsb negb]; by rewrite andb_true_r|].
  destruct c as [| [] | | | | | | []]; cbn [app polls]; rewrite IH; unfold still_open; cbn [existsb closes orb];
    rewrite ?andb_false_r; done.
Qed.

Lemma still_open_snoc open_ acts a :
  still_open open_ (acts ++ [a])%list = still_open open_ acts && negb (closes a).
Proof. unfold still_open. rewrite existsb_app. cbn. destruct open_, (existsb _ _), (closes a); done. Qed.

Lemma step_open u a s s' :
  session_step u a s = Some s' → ss_open s' = ss_open s && negb (closes a).
Proof.
  intros Hs. destruct a as [a|a|a|a|a|a|t|a]; cbn [session_step closes negb] in *; rewrite ?andb_true_r.
  - destruct a; by injection Hs as <-.
  - destruct a; cbn in Hs |- *; [|injection Hs as <-; by rewrite andb_false_r].
    rewrite andb_true_r. destruct (ss_open s); [|done]. cbn in Hs. case_match; by simplify_eq.
  - unfold hb_step in Hs. destruct a, (ss_hb s); try done; repeat case_match; by simplify_eq.
  - unfold metrics_step in Hs. destruct a, (ss_metrics s) as [| | |[|n]|n d msg|]; try done;
      repeat case_match; by simplify_eq.
  - unfold logs_step in Hs. destruct a, (ss_logs s); try done; repeat case_match; by simplify_eq.
  - unfold status_step in Hs. destruct a, (ss_status s); try done; repeat case_match; by simplify_eq.
  - unfold cancel_step in Hs. repeat case_match; by simplify_eq.
  - unfold main_step in Hs. destruct (ss_main s) as [pc|res|res|[|n] res|n d msg res|[|n] res|n e msg res|res].
    { unfold select_step in Hs. destruct a as [i| | | | | |]; try done;
        [destruct i; try done|destruct (blocked s); [done|]|];
        try (apply fmap_Some in Hs as (st & _ & ->); done). destruct (ss_notified s); by simplify_eq. }
    all: unfold finish_step in Hs; destruct a; try discriminate Hs; cbv zeta in Hs;
      repeat case_match; by simplify_eq.
Qed.

(** ** The reader's steps *)

(** The reader of a session, taken out of it: on what it was given in [acts] it has
    got from [r] to the point it is at, or was dropped at, with these answers of the
    applier, and the session's control state is the one it left. *)
Definition reader_at u r acts log (pc : @InboundPc _) s : Prop :=
  ∃ r', poll_run (su_cfg u) (su_hooks u) (su_nonce u) (su_uid u) (polls true acts) (INext, r) =
          Some (pc, r') ∧
    answer_log (su_cfg u) (su_hooks u) (su_nonce u) (su_uid u) (polls true acts) (INext, r) = log ∧
    ss_runner s ≡ r'.

Definition waiting (pc : @InboundPc _) : Prop := ∀ res, pc ≠ IReturned res.

(** The reader is over with [res]: it returned it, or it was dropped. *)
Definition reader_done u r acts log (res : Result () Error) s : Prop :=
  existsb is_notified acts = false ∧ reader_at u r acts log (IReturned res) s ∨
  existsb is_notified acts = true ∧ res = Ok tt ∧ ss_notified s = true ∧
    ∃ pc, waiting pc ∧ reader_at u r acts log pc s.

Definition reader_ok u r acts log s : Prop :=
  ss_open s = still_open true acts ∧
  match main_result (ss_main s) with
  | None =>
      existsb is_notified acts = false ∧
      ∃ pc, ss_main s = MSelect pc ∧ waiting pc ∧ reader_at u r acts log pc s
  | Some res => reader_done u r acts log res s
  end.

(** A step that is not the reader's. *)
Lemma reader_at_quiet u r acts log pc s a s' :
  polls (still_open true acts) [a] = [] → ss_runner s' ≡ ss_runner s →
  reader_at u r acts log pc s → reader_at u r (acts ++ [a])%list log pc s'.
Proof.
  intros Ea E (r' & Hp & Hl & Hr). exists r'. rewrite polls_snoc, Ea, app_nil_r.
  split_and!; [done|done|by etransitivity].
Qed.

Lemma reader_done_keep u r acts acts' log res s s' :
  existsb is_notified acts' = existsb is_notified acts →
  (∀ pc, reader_at u r acts log pc s → reader_at u r acts' log pc s') →
  (ss_notified s = true → ss_notified s' = true) →
  reader_done u r acts log res s → reader_done u r acts' log res s'.
Proof.
  intros Ex Hat Hn [[Hx Hr]|(Hx & -> & Hn' & pc & Hw & Hr)]; [left|right]; rewrite Ex; [by auto|].
  split_and!; [done|done|by auto|]. exists pc. by auto.
Qed.

(** A state that differs in nothing the reader has to do with. *)
Lemma reader_ok_same u r acts log s s' :
  ss_runner s' ≡ ss_runner s → (ss_notified s = true → ss_notified s' = true) →
  ss_main s' = ss_main s → ss_open s' = ss_open s →
  reader_ok u r acts log s → reader_ok u r acts log s'.
Proof.
  intros E Hn Em Eo [Ho Hr].
  assert (∀ pc, reader_at u r acts log pc s → reader_at u r acts log pc s') as Hat.
  { intros pc (r' & Hp & Hl & Hr'). exists r'. split_and!; [done|done|by etransitivity]. }
  split; [congruence|]. rewrite Em. destruct (main_result (ss_main s)) as [res|].
  - by eapply reader_done_keep.
  - destruct Hr as (Hx & pc & Ep & Hw & Hr). split; [done|]. exists pc. by auto.
Qed.

Lemma reader_ok_keep u r acts log s a s' :
  polls (still_open true acts) [a] = [] → is_notified a = false →
  ss_runner s' ≡ ss_runner s → (ss_notified s = true → ss_notified s' = true) →
  ss_open s' = ss_open s && negb (closes a) →
  ss_main s' = ss_main s ∨ past_select s ∧ main_result (ss_main s') = main_result (ss_main s) →
  reader_ok u r acts log s → reader_ok u r (acts ++ [a])%list log s'.
Proof.
  intros Ea En E Hn Eo Hm [Ho Hr].
  assert (∀ pc, reader_at u r acts log pc s → reader_at u r (acts ++ [a])%list log pc s') as Hat
    by eauto using reader_at_quiet.
  assert (existsb is_notified (acts ++ [a]) = existsb is_notified acts) as Ex
    by (rewrite existsb_app; cbn; by rewrite En, !orb_false_r).
  split; [by rewrite Eo, Ho, still_open_snoc|].
  assert (main_result (ss_main s') = main_result (ss_main s)) as -> by (by destruct Hm as [-> | [_ ->]]).
  destruct (main_result (ss_main s)) as [res|]; [by eapply reader_done_keep|].
  destruct Hr as (Hx & pc & Ep & Hw & Hr). rewrite Ex. split; [done|]. exists pc.
  destruct Hm as [-> | [Hp _]]; [by auto|]. unfold past_select in Hp. by rewrite Ep in Hp.
Qed.

(** The reader is polled. *)
Lemma reader_ok_poll u r acts log pc s a i st :
  polls (still_open true acts) [a] = [i] → is_notified a = false → closes a = false →
  session_answer a (ss_runner s) = answer_at i (INext, ss_runner s) →
  ss_open s = still_open true acts → existsb is_notified acts = false → reader_at u r acts log pc s →
  inbound_poll (su_cfg u) (su_hooks u) (su_nonce u) (su_uid u) i (pc, ss_runner s) = Some st →
  reader_ok u r (acts ++ [a])%list (log ++ session_answer a (ss_runner s))%list (after_poll s st).
Proof.
  intros Ea En Ec El Ho Hx (r' & Hp & Hl & E) Hs.
  destruct (inbound_poll_proper _ _ _ _ _ (pc, ss_runner s) (pc, r') _ (conj eq_refl E) Hs) as (st' & Hs' & [Epc Er]).
  assert (reader_at u r (acts ++ [a]) (log ++ session_answer a (ss_runner s)) st.1 (after_poll s st)) as Hat.
  { exists st'.2. rewrite polls_snoc, Ea, poll_run_snoc, Hp. cbn. rewrite Hs', Epc.
    split_and!; [by destruct st'| |done].
    rewrite (answer_log_snoc _ _ _ _ _ _ _ _ Hp), Hl, El. f_equal. unfold answer_at. cbn [snd].
    by rewrite (host_calls_proper _ _ E). }
  assert (existsb is_notified (acts ++ [a]) = false) as Ex
    by (rewrite existsb_app; cbn; by rewrite Hx, En).
  split; [by rewrite still_open_snoc, Ec, andb_true_r|].
  unfold reader_done. rewrite Ex.
  cbn [ss_main after_poll set_main]. destruct st as [[] r1]; cbn [fst main_result] in *;
    try (split; [done|]; eexists; split_and!; [done|by intros res|done]). by left.
Qed.

Lemma select_step_reader u r acts log a pc s s' :
  waiting pc → ss_open s = still_open true acts → existsb is_notified acts = false →
  reader_at u r acts log pc s →
  select_step (su_cfg u) (su_hooks u) (su_nonce u) (su_uid u) a pc s = Some s' →
  reader_ok u r (acts ++ [Main a])%list (log ++ session_answer (Main a) (ss_runner s))%list s'.
Proof.
  intros Hw Ho Hx Hr Hs. unfold select_step in Hs. destruct a as [i| | | | | |]; try done.
  - destruct i; try done; apply fmap_Some in Hs as (st & Hs & ->); by eapply reader_ok_poll.
  - destruct (blocked s); [done|]. apply fmap_Some in Hs as (st & Hs & ->).
    eapply (reader_ok_poll _ _ _ _ _ _ _ (InSent (ss_open s))); try done. by rewrite Ho.
  - destruct (ss_notified s) eqn:En; [|done]. injection Hs as <-.
    split; [by rewrite still_open_snoc, andb_true_r|]. right. rewrite existsb_app. cbn.
    rewrite orb_true_r, app_nil_r. split_and!; [done|done|done|].
    exists pc. split; [done|]. eapply reader_at_quiet; [done| |done]. done.
Qed.

Lemma session_step_reader u r acts log a s s' :
  pending_ok (su_code u) s → reader_ok u r acts log s → session_step u a s = Some s' →
  reader_ok u r (acts ++ [a])%list (log ++ session_answer a (ss_runner s))%list s'.
Proof.
  intros Hp Hr Hs. pose proof (step_open _ _ _ _ Hs) as Eo. destruct (is_main a) eqn:Em.
  - destruct a as [| | | | | | |a]; try discriminate Em. cbn in Hs. unfold main_step in Hs.
    destruct (ss_main s) as [pc| | | | | | |] eqn:Ep.
    { destruct Hr as [Ho Hr]. rewrite Ep in Hr. destruct Hr as (Hx & ? & [= <-] & Hw & Hr).
      by eapply select_step_reader. }
    all: assert (past_select s) as Hps by (unfold past_select; by rewrite Ep);
      rewrite <- Ep in Hs; destruct (finish_step_control _ _ _ _ _ Hp Hs) as [E1 E2];
      destruct (finish_step_rank _ _ _ _ _ Hps Hs) as (_ & _ & E3);
      assert (polls (still_open true acts) [Main a] = [] ∧ is_notified (Main a) = false ∧
        session_answer (Main a) (ss_runner s) = []) as (Ea & En & ->)
        by (unfold finish_step in Hs; rewrite Ep in Hs; by destruct a);
      rewrite app_nil_r; (eapply reader_ok_keep; [done|done|done|done|done|by right|done]).
  - destruct (other_step_control _ _ _ _ Hp Em Hs) as [E1 E2].
    destruct (other_step_main _ _ _ _ Em Hs) as [E3 _].
    assert (polls (still_open true acts) [a] = [] ∧ is_notified a = false ∧
      session_answer a (ss_runner s) = []) as (Ea & En & ->)
      by (destruct a as [| [] | | | | | |]; done).
    rewrite app_nil_r. eapply reader_ok_keep; [done|done|done|done|done|by left|done].
Qed.

Lemma session_run_reader u r before log acts s s' :
  pending_ok (su_code u) s → reader_ok u r before log s → session_run u acts s = Some s' →
  reader_ok u r (before ++ acts)%list (log ++ session_answers u acts s)%list s'.
Proof.
  revert before log s. induction acts as [|a acts IH]; intros before log s Hp Hr; cbn [session_run session_answers].
  - intros [= <-]. by rewrite !app_nil_r.
  - intros (s1 & E1 & E2)%bind_Some. rewrite E1. cbn [from_option].
    rewrite (cons_middle a before acts), !(assoc_L app).
    apply IH; [by eapply pending_step| |done]. by apply session_step_reader.
Qed.

Lemma session_init_reader u r has_status stopping :
  reader_ok u r [] [] (session_init r has_status stopping).
Proof. split; [done|]. split; [done|]. exists INext. split_and!; [done|by intros res|]. by exists r. Qed.

(** ** The sequential session *)

(** The environment of a session with the items its reader received and where it
    was cut. *)
Definition with_inbound (stream : list (Result (@ServerMessage _ QuotaStatus) Status * bool))
    (cut : option (nat * option nat)) (env : @SessionEnv _ Channel QuotaStatus)
    : @SessionEnv _ Channel QuotaStatus :=
  {| se_dial := se_dial env; se_nonce := se_nonce env; se_process_id := se_process_id env;
     se_channel := se_channel env; se_inbound := stream; se_shutdown := cut;
     se_background := se_background env; se_stopping := se_stopping env;
     se_room := se_room env; se_now := se_now env |}.

(** The reader's part of [run_session]. *)
Definition session_inbound (cfg : AgentRunnerConfig) (hooks : Hooks) (nonce uid : string)
    (stream : list (Result (@ServerMessage _ QuotaStatus) Status * bool))
    (cut : option (nat * option nat)) r : Result () Error * Runner :=
  match cut with
  | Some (n, inside) => inbound_cut cfg hooks nonce uid n inside stream r
  | None => read_inbound cfg hooks nonce uid stream r
  end.

(** A reader that is over, as a sequential one, with a host that gave the same
    answers; these were answers to different calls, made since it began. *)
Lemma reader_done_sequential u r acts log s res :
  reader_done u r acts log res s →
  NoDup log.*1 ∧
  Forall (λ n, (length (host_calls r) ≤ n < length (host_calls (ss_runner s)))%nat) log.*1 ∧
  (length (host_calls r) ≤ length (host_calls (ss_runner s)))%nat ∧
  (is_Some (cut_in acts) → ss_notified s = true) ∧
  ∀ ans, agrees ans log →
    ∃ r', session_inbound (su_cfg u) (with_answers (su_hooks u) ans) (su_nonce u) (su_uid u)
            (received (polls true acts)) (cut_in acts) r = (res, r') ∧ ss_runner s ≡ r'.
Proof.
  assert (∀ pc r', (answered (pc, r') ≤ length (host_calls r'))%nat) as Hle
    by (intros [] r'; unfold answered; cbn; lia).
  intros [(Hx & r' & Hp & <- & E)|(Hx & -> & Hn & pc & Hw & r' & Hp & <- & E)];
    destruct (poll_run_reads _ _ _ _ _ _ _ Hp) as (Hlen & _ & Hnd & Hb & Hans);
    rewrite (host_calls_proper _ _ E);
    [specialize (Hle (IReturned res) r')|specialize (Hle pc r')]; unfold cut_in; rewrite Hx;
    (split_and!; [done|eapply Forall_impl; [exact Hb|]; simpl; lia|lia|by intros []|intros ans Ha]).
  - exists r'. split; [|done]. cbn [session_inbound]. by rewrite (reads_done _ _ _ _ _ _ _ (Hans ans Ha) eq_refl).
  - exists r'. split; [|done].
    pose proof (reads_dropped _ _ _ _ _ _ _ (Hans ans Ha) Hw) as Hc. unfold session_inbound.
    by destruct (cut_of _).
Qed.

(** The answers so far of a reader wherever it is. *)
Lemma reader_ok_answers u r acts log s :
  reader_ok u r acts log s →
  NoDup log.*1 ∧
  Forall (λ n, (length (host_calls r) ≤ n < length (host_calls (ss_runner s)))%nat) log.*1 ∧
  (length (host_calls r) ≤ length (host_calls (ss_runner s)))%nat.
Proof.
  intros [_ Hr].
  assert (∃ pc, reader_at u r acts log pc s) as (pc & r' & Hp & <- & E).
  { destruct (main_result (ss_main s)); [|by destruct Hr as (_ & pc & _ & _ & Hr); exists pc].
    destruct Hr as [[_ Hr]|(_ & _ & _ & pc & _ & Hr)]; eauto. }
  destruct (poll_run_reads _ _ _ _ _ _ _ Hp) as (Hlen & _ & Hnd & Hb & _).
  assert (answered (pc, r') ≤ length (host_calls r'))%nat by (unfold answered; destruct pc; cbn; lia).
  rewrite (host_calls_proper _ _ E). split_and!; [done| |lia].
  eapply Forall_impl; [exact Hb|]. simpl. lia.
Qed.

(** Queueing messages that are no acknowledgements. *)
Lemma send_all_equiv msgs r :
  Forall (λ m, is_ack m = false) msgs → fold_left (λ r msg, send true msg r) msgs r ≡ r.
Proof.
  revert r. induction msgs as [|m msgs IH]; intros r Hf; cbn [fold_left]; [done|].
  apply Forall_cons in Hf as [Hm Hf]. etransitivity; [by apply IH|]. by apply send_equiv.
Qed.

Lemma flush_metrics_no_ack code n room now b :
  Forall (λ m, is_ack m = false) (flush_metrics code n room now b).1.1.
Proof.
  revert room b. induction n as [|n IH]; intros room b; cbn [flush_metrics]; [constructor|].
  destruct (Metrics.drain _ _) as [d b1].
  destruct (Metrics.batch_to_message _ _ d) as [m|] eqn:Em; [|by case_match; [constructor|]].
  assert (is_ack m = false) as Hm by (eapply lane_no_ack, (reports_lane code d); by eexists).
  destruct room as [|room]; [constructor|]. case_match; [by repeat constructor|].
  specialize (IH room b1). destruct (flush_metrics _ _ _ _ _) as [[msgs b2] res]. by constructor.
Qed.

Lemma flush_logs_no_ack level n room now b :
  Forall (λ m, is_ack m = false) (flush_logs level n room now b).1.1.
Proof.
  revert room b. induction n as [|n IH]; intros room b; cbn [flush_logs]; [constructor|].
  destruct (Logs.drain _) as [[[entries dropped] seq_] b1].
  destruct (Logs.batch_to_message _ _ _ _ _) as [m|] eqn:Em; [|by case_match; [constructor|]].
  assert (is_ack m = false) as Hm by eapply lane_no_ack, log_batch_lane, Em.
  destruct room as [|room]; [constructor|]. case_match; [by repeat constructor|].
  specialize (IH room b1). destruct (flush_logs _ _ _ _ _) as [[msgs b2] res]. by constructor.
Qed.

Lemma flush_remaining_equiv code level room now r : flush_remaining code level room now r ≡ r.
Proof.
  unfold flush_remaining. pose proof (flush_metrics_no_ack code MAX_SHUTDOWN_FLUSH_BATCHES room now (metrics r)) as Hm.
  destruct (flush_metrics _ _ _ _ _) as [[msgs m] [room'|]];
    [|etransitivity; [by apply send_all_equiv|apply with_buffers_equiv]].
  pose proof (flush_logs_no_ack level MAX_SHUTDOWN_FLUSH_BATCHES room' now (logs r)) as Hl.
  destruct (flush_logs _ _ _ _ _) as [[lmsgs l] ?].
  etransitivity; [apply send_all_equiv; by apply Forall_app|apply with_buffers_equiv].
Qed.

(** What the Channel call of a session needs to succeed, and the runner it leaves. *)
Definition channel_opened (cfg : AgentRunnerConfig) (env : @SessionEnv _ Channel QuotaStatus) r
    : option (string * Runner) :=
  match authed_client (se_dial env) (client r) with
  | (Ok (ch, token), c) =>
      match channel_metadata cfg env token with
      | Ok md =>
          if is_ok (se_channel env ch md)
          then Some (unwrap_str (t ← current_jwt c; jwt_instance_uid t),
                     emit ChannelConnected (with_client c r))
          else None
      | Err _ => None
      end
  | _ => None
  end.

Lemma run_session_opened code level cfg hooks env r uid r0 stream cut :
  channel_opened cfg env r = Some (uid, r0) →
  (run_session code level cfg hooks (with_inbound stream cut env) r).1 =
    (session_inbound cfg hooks (se_nonce env) uid stream cut r0).1 ∧
  (run_session code level cfg hooks (with_inbound stream cut env) r).2 ≡
    (session_inbound cfg hooks (se_nonce env) uid stream cut r0).2.
Proof.
  unfold channel_opened, run_session.
  change (se_dial (with_inbound stream cut env)) with (se_dial env).
  destruct (authed_client _ _) as [[[ch token]|e] c]; [|done]. cbn [client with_client].
  change (channel_metadata cfg (with_inbound stream cut env) token) with (channel_metadata cfg env token).
  destruct (channel_metadata cfg env token) as [md|st]; [|done]. cbn [se_channel with_inbound].
  destruct (se_channel env ch md) as [[]|st]; [|done]. intros [= <- <-].
  cbn [se_shutdown se_nonce se_inbound se_background se_stopping with_inbound].
  change (match cut with Some (n, inside) => _ | None => _ end) with
    (session_inbound cfg hooks (se_nonce env) (unwrap_str (t ← current_jwt c; jwt_instance_uid t))
       stream cut (emit ChannelConnected (with_client c r))).
  destruct (session_inbound _ _ _ _ _ _ _) as [res r1]. destruct (se_background _ _) as [m l].
  cbn [fst snd]. split; [done|]. destruct (se_stopping env); [|done].
  etransitivity; [apply flush_remaining_equiv|apply with_buffers_equiv].
Qed.

(** C8: a concurrent session is a sequential one: every execution of a session that
    returned, however the reader, the tasks, the host, the transport and the flush
    were interleaved, has the result and the control state (disk and clock, client
    with its token and TLS material, payload key, quota, configuration hash, host
    calls, events but heartbeats, acknowledgements) of [run_session] on exactly the
    items its reader was polled with, each with the state of the channel at its
    acknowledgement, cut where the [select!] dropped the reader if it did, and with
    every host that gives the applier's calls the answers they got in the execution.
    There is such a host, and the reader is dropped only if a shutdown was
    notified. *)
Theorem session_refines_run_session u env r uid r0 has_status stopping acts s res :
  channel_opened (su_cfg u) env r = Some (uid, r0) → su_nonce u = se_nonce env → su_uid u = uid →
  session_run u acts (session_init r0 has_status stopping) = Some s → ss_main s = MReturned res →
  let log := session_answers u acts (session_init r0 has_status stopping) in
  agrees (answers_of log) log ∧
  (existsb is_notified acts = true → ss_notified s = true) ∧
  ∀ ans, agrees ans log →
    let '(res', r') := run_session (su_code u) (su_level u) (su_cfg u)
      (with_answers (su_hooks u) ans)
      (with_inbound (received (polls true acts)) (cut_in acts) env) r in
    res' = res ∧ ss_runner s ≡ r'.
Proof.
  intros Hopen En Eu Hrun Em. cbv zeta.
  pose proof (session_run_reader u r0 [] [] acts _ _ (session_init_pending _ r0 has_status stopping)
    (session_init_reader u r0 has_status stopping) Hrun) as [_ Hr'].
  rewrite Em in Hr'. cbn [main_result app] in Hr'.
  destruct (reader_done_sequential u r0 _ _ s res Hr') as (Hnd & _ & _ & Hn & Hans).
  split_and!; [by apply answers_of_agrees| |].
  { intros Hx. apply Hn. unfold cut_in. by rewrite Hx. }
  intros ans Ha. destruct (Hans ans Ha) as (r' & Hs & E).
  destruct (run_session_opened (su_code u) (su_level u) (su_cfg u) (with_answers (su_hooks u) ans) env r
    uid r0 (received (polls true acts)) (cut_in acts) Hopen) as [E1 E2].
  rewrite <- En, <- Eu, Hs in E1, E2. destruct (run_session _ _ _ _ _ _) as [res' r1].
  cbn [fst snd] in E1, E2. split; [done|by rewrite E, E2].
Qed.
End control.

(** ** The property on a concrete execution *)

#[local] Existing Instance demo_grpc.

(** A session the control plane accepts, on a runner that holds a token. *)
Definition accepted_env : @SessionEnv concrete_bundle unit unit := {|
  se_dial := λ _ _, Ok tt; se_nonce := "n1"; se_process_id := "p1";
  se_channel := λ _ _, Ok tt; se_inbound := []; se_shutdown := None;
  se_background := λ bs, bs; se_stopping := false; se_room := 64; se_now := λ _, epoch
|}.

Definition holder : @Runner concrete_bundle unit unit :=
  with_client (set_jwt "tok" (client demo_runner)) demo_runner.

Definition connected : @Runner concrete_bundle unit unit :=
  (default ("", holder) (channel_opened demo_runner_config accepted_env holder)).2.

Definition accepted_setup : @SessionSetup concrete_bundle := {|
  su_code := outcome_code; su_level := λ _, 0%Z; su_cfg := demo_runner_config;
  su_hooks := rejecting_hooks; su_nonce := "n1"; su_uid := ""
|}.

(** A configuration the host rejects while a heartbeat waits in its send and a call
    is recorded, then a quarantine notice. *)
Definition quarantined_actions : list (@Action concrete_bundle unit) :=
  [Main (MainPoll (InItem (Some (Ok {| server_kind :=
     Some (SConfigUpdate {| cu_config_hash := "h2"; cu_bundle := Some demo_bundle |}) |}))));
   Hb (HbTick 0); Host (HostRecord call); Main (MainPoll (InApplied (Err "port taken")));
   Hb HbSend; Main MainAck; Met MetTick; Met (MetDrain epoch); Met MetSend;
   Main (MainPoll (InItem (Some (Ok {| server_kind := Some (SQuarantine "abuse") |}))));
   Main MainAbort; Main MainAbort; Main MainAbort; Main MainAbort; Main MainLoad].

Definition quarantined_end : @Session concrete_bundle unit unit :=
  default (session_init connected false false)
    (session_run accepted_setup quarantined_actions (session_init connected false false)).

Lemma quarantined_end_reached :
  session_run accepted_setup quarantined_actions (session_init connected false false) =
  Some quarantined_end.
Proof. apply some_default. vm_compute. reflexivity. Qed.

Lemma session_refines_run_session_witness :
  length (outbound (ss_runner quarantined_end)) = 3%nat ∧
  received (polls true quarantined_actions) =
    [(Ok {| server_kind := Some (SConfigUpdate {| cu_config_hash := "h2"; cu_bundle := Some demo_bundle |}) |}, true);
     (Ok {| server_kind := Some (SQuarantine "abuse") |}, true)] ∧
  let '(res, r) := run_session outcome_code (λ _, 0%Z) demo_runner_config
      (with_answers rejecting_hooks (λ _, Err "port taken"))
      (with_inbound (received (polls true quarantined_actions)) None accepted_env) holder in
    res = Err (anyhow "quarantined: abuse") ∧ ss_runner quarantined_end ≡ r.
Proof.
  split; [vm_compute; reflexivity|]. split; [reflexivity|].
  destruct (session_refines_run_session accepted_setup accepted_env holder "" connected false false
    quarantined_actions quarantined_end (Err (anyhow "quarantined: abuse")))
    as (_ & _ & Hrun);
    [vm_compute; reflexivity..|exact quarantined_end_reached|vm_compute; reflexivity|].
  assert (session_answers accepted_setup quarantined_actions (session_init connected false false) =
    [(0%nat, Err "port taken")]) as El by (vm_compute; reflexivity).
  rewrite El in Hrun. apply (Hrun (λ _, Err "port taken")). repeat constructor.
Defined.
