(* ===== verification/LicenseBinding.v ===== *)
(** * The licences of a session

    Every licence a session gives to the host is one that came down its Channel,
    bound to it, and is on disk before the host is asked to take it: an invariant
    of the executions of [Session], in every interleaving. *)

From stdpp Require Import base list strings gmap.
From Stdlib Require Import ZArith Lia.
From S2P Require Import Prelude Time Proto Text Serde Concrete Errors Token.
From S2P Require Import Metrics FlushLoopFacts Logs Crypto Dek Fs FsFacts Lkg LkgFacts License Creds Client Runner.
From S2P Require Import Inbound Control Agent SessionFacts Session SessionSafety.
From S2P Require Import SessionRefinement SessionWire SessionControl.

Local Open Scope string_scope.

(** ** I/O that leaves a file alone *)

(** From [w] to [w'] no fault has appeared and the file at [p] has stayed. *)
Definition spares (p : Path) (w w' : World) : Prop :=
  (calm w → calm w') ∧ disk w' !! p = disk w !! p.

#[export] Instance spares_preorder p : PreOrder (spares p).
Proof. split; [done|]. intros w1 w2 w3 [C1 D1] [C2 D2]. split; [auto|congruence]. Qed.

Lemma spares_bind {A B} p (m : IO A) (k : A → IO B) w :
  spares p w (m w).2 → (∀ a w1, spares p w1 (k a w1).2) → spares p w (bind m k w).2.
Proof.
  unfold bind. intros Hm Hk. destruct (m w) as [[a|e] w1]; simpl in *; [|done]. by etransitivity.
Qed.

Lemma spares_attempt {A} p (m : IO A) w : spares p w (m w).2 → spares p w (attempt m w).2.
Proof. unfold attempt. by destruct (m w). Qed.

Ltac next_fault_cases w :=
  unfold next_fault; destruct (faults w) as [|[| |?n] ?fs] eqn:Ef;
  repeat (case_match; simplify_eq/=); (split; [intros Hcalm; unfold calm in *; simpl; congruence|]).

Lemma exists_spares p q w : spares p w (exists_ q w).2.
Proof. unfold exists_. by next_fault_cases w. Qed.
Lemma read_spares p q w : spares p w (read q w).2.
Proof. unfold read. by next_fault_cases w. Qed.
Lemma create_dir_all_spares p d w : spares p w (create_dir_all d w).2.
Proof. unfold create_dir_all. by next_fault_cases w. Qed.
Lemma read_to_string_spares p q w : spares p w (read_to_string q w).2.
Proof. apply spares_bind; [apply read_spares|]. intros b w1. by destruct (utf8_valid b). Qed.

Section other_path.
Context (p q : Path) (Hne : q ≠ p).

Lemma write_spares b w : spares p w (write q b w).2.
Proof.
  unfold write. next_fault_cases w; try done; cbn [disk set_disk set_faults]; unfold partial; by rewrite lookup_insert_ne.
Qed.

Lemma set_permissions_spares m w : spares p w (set_permissions q m w).2.
Proof.
  unfold set_permissions. next_fault_cases w; try done; cbn [disk set_disk set_faults]; by rewrite lookup_insert_ne.
Qed.

Lemma rename_spares src w : src ≠ p → spares p w (rename src q w).2.
Proof.
  intros Hs. unfold rename. next_fault_cases w; try done; cbn [disk set_disk set_faults];
    by rewrite lookup_insert_ne, lookup_delete_ne.
Qed.
End other_path.

(** Decomposes a goal [spares p w (m w).2] along the binds of [m]. *)
Ltac spare :=
  repeat lazymatch goal with
  | |- ∀ _, _ => intro
  | |- spares _ _ (bind _ _ _).2 => apply spares_bind
  | |- spares _ _ (attempt _ _).2 => apply spares_attempt
  | |- spares _ _ (read _ _).2 => apply read_spares
  | |- spares _ _ (read_to_string _ _).2 => apply read_to_string_spares
  | |- spares _ _ (exists_ _ _).2 => apply exists_spares
  | |- spares _ _ (create_dir_all _ _).2 => apply create_dir_all_spares
  | |- spares _ _ (write _ _ _).2 => apply write_spares
  | |- spares _ _ (rename _ _ _).2 => apply rename_spares
  | |- spares _ _ (set_permissions _ _ _).2 => apply set_permissions_spares
  | |- spares _ _ (match ?x with _ => _ end _).2 => destruct x
  | |- spares _ _ (let _ := _ in _).2 => cbv zeta
  | |- spares _ _ _ => split; done
  end.

(** ** What the handlers write besides the licence *)

Section handlers.
Context `{!Json, !JsonLaws, !Base64, !Rfc3339, !Aead, !Hkdf, !BundleCodec, !Grpc}.
Context {Channel QuotaStatus : Type}.
Implicit Types (r : @Runner _ Channel QuotaStatus).

Lemma save_spares dir hash bundle w :
  spares (cache_path dir) w (save (in_state_dir dir) hash bundle w).2.
Proof.
  unfold save, seal_entry, encrypt, derive_key, node_secret, fallback_secret, generate_secret.
  spare; try discriminate; intros [=].
Qed.

Lemma persist_spares dir jwt cert key dek ver w :
  spares (cache_path dir) w (persist_rotated_creds dir jwt cert key dek ver w).2.
Proof. unfold persist_rotated_creds. spare; try discriminate; intros [=]. Qed.

Lemma read_stored_creds_spares dir w :
  spares (cache_path dir) w (read_stored_creds dir w).2.
Proof. unfold read_stored_creds. spare. Qed.

Lemma run_io_spares {A} p (m : IO A) r :
  spares p (world r) (m (world r)).2 → spares p (world r) (world (run_io m r).2).
Proof. unfold run_io. by destruct (m (world r)). Qed.

(** ** One step of the reader *)

(** The licences the host was given. *)
Definition deliveries (cs : list HostCall) : list LicenseDelivery :=
  omap (λ c, match c with HApplyLicense d => Some d | _ => None end) cs.

(** The licence update in what ends a wait of the reader. *)
Definition licence_in (i : @InboundIn _ QuotaStatus) : option LicenseUpdate :=
  match i with
  | InItem (Some (Ok msg)) =>
      match server_kind msg with Some (SLicenseUpdate up) => Some up | _ => None end
  | _ => None
  end.

(** The cache file holds [d]. *)
Definition keeps (dir : string) (d : LicenseDelivery) (w : World) : Prop :=
  ∀ w', calm w' → disk w' !! cache_path dir = disk w !! cache_path dir →
    load_cached dir w' = (Ok (Some d), w').

Lemma save_cached_keeps dir d w :
  calm w → calm (save_cached dir d w).2 ∧ keeps dir d (save_cached dir d w).2.
Proof.
  intros Hc. destruct (save_cached_calm dir d w Hc) as (w1 & E & Hc1). rewrite E. split; [done|].
  intros w' Hc' Hd. pose proof (save_cached_outcome dir d w) as [_ Hr].
  rewrite E in Hr. cbn [fst snd] in Hr, Hd. rewrite <- Hd in Hr.
  destruct (disk w' !! cache_path dir) as [x|] eqn:Ex; [|done]. injection Hr as Hr.
  unfold load_cached. erewrite bind_run by (apply attempt_ok; by apply read_calm).
  rewrite Hr, json_parse_print by reflexivity. simpl. by rewrite LicenseDelivery_roundtrip.
Qed.

(** The reader went from [r] to [r'] handling the update [up], if any. *)
Definition licensed (cfg : AgentRunnerConfig) (hooks : @Hooks _) (nonce uid : string)
    (up : option LicenseUpdate) r r' : Prop :=
  deliveries (host_calls r') = (deliveries (host_calls r) ++
    if license_applier hooks then option_list (delivery_of nonce uid <$> up) else [])%list ∧
  match up with
  | Some up => calm (world r) → calm (world r') ∧
      keeps (rc_state_dir cfg) (delivery_of nonce uid up) (world r')
  | None => spares (cache_path (rc_state_dir cfg)) (world r) (world r')
  end.

(** What calls the host for no licence and spares the file. *)
Lemma licensed_none cfg hooks nonce uid r r' :
  deliveries (host_calls r') = deliveries (host_calls r) →
  spares (cache_path (rc_state_dir cfg)) (world r) (world r') →
  licensed cfg hooks nonce uid None r r'.
Proof. intros E ?. split; [|done]. simpl. rewrite E. by destruct (license_applier _); rewrite app_nil_r. Qed.

Lemma deliveries_app cs cs' : deliveries (cs ++ cs')%list = (deliveries cs ++ deliveries cs')%list.
Proof. apply omap_app. Qed.

Lemma config_applied_licensed cfg hooks nonce uid hash outcome r :
  licensed cfg hooks nonce uid None r (config_applied hash outcome r).2.
Proof. apply licensed_none; unfold config_applied; destruct outcome; by case_match. Qed.

Lemma licensed_after cfg hooks nonce uid r r1 r2 :
  licensed cfg hooks nonce uid None r r1 → licensed cfg hooks nonce uid None r1 r2 →
  licensed cfg hooks nonce uid None r r2.
Proof.
  intros [E1 S1] [E2 S2]. split; [|by etransitivity].
  rewrite E2, E1. simpl. destruct (license_applier _); by rewrite !app_nil_r.
Qed.

Lemma run_io_licensed {A} cfg hooks nonce uid (m : IO A) r :
  spares (cache_path (rc_state_dir cfg)) (world r) (m (world r)).2 →
  licensed cfg hooks nonce uid None r (run_io m r).2.
Proof.
  intros Hs. apply licensed_none; [by rewrite run_io_calls|by apply run_io_spares].
Qed.

Lemma jwt_locked_licensed cfg hooks nonce uid cr r :
  licensed cfg hooks nonce uid None r (jwt_locked cfg cr r).2.
Proof.
  unfold jwt_locked. cbv zeta. set (r0 := with_client _ r). set (persist := persist_rotated_creds _ _ _ _ _ _).
  assert (licensed cfg hooks nonce uid None r (run_io persist r0).2) as Hpre.
  { eapply licensed_after; [|apply run_io_licensed, persist_spares]. by apply licensed_none. }
  set (r1 := (run_io persist r0).2) in *. clearbody r1.
  destruct (str_is_empty _); [eapply licensed_after; [exact Hpre|by apply licensed_none]|].
  pose proof (run_io_licensed cfg hooks nonce uid (read_stored_creds (rc_state_dir cfg)) r1
    (read_stored_creds_spares _ _)) as Hread.
  destruct (run_io _ r1) as [[st|e] r2]; eapply licensed_after; try exact Hpre; [exact Hread|].
  eapply licensed_after; [exact Hread|by apply licensed_none].
Qed.

Lemma inbound_poll_licensed cfg hooks nonce uid i s s' :
  inbound_poll cfg hooks nonce uid i s = Some s' →
  licensed cfg hooks nonce uid (licence_in i) s.2 s'.2.
Proof.
  destruct s as [pc r]. unfold inbound_poll. cbn [fst snd]. intros Hs.
  destruct pc, i as [[[msg|st]|]|outcome|o| |]; try discriminate Hs; injection Hs as <-;
    cbn [licence_in fst snd]; try by apply licensed_none.
  - unfold inbound_start. destruct (server_kind msg) as [[up|c|cr|reason| | |qs|up]|] eqn:Ek;
      try by apply licensed_none.
    + destruct (cu_bundle up) as [b|]; [|apply config_applied_licensed].
      pose proof (run_io_licensed cfg hooks nonce uid _ r (save_spares (rc_state_dir cfg) (cu_config_hash up) b (world r))) as Hpre.
      destruct (config_applier hooks).
      * eapply licensed_after; [exact Hpre|]. apply licensed_none; [|done].
        cbn [snd host_calls call_host]. rewrite deliveries_app. by rewrite app_nil_r.
      * eapply licensed_after; [exact Hpre|apply config_applied_licensed].
    + destruct (str_is_empty _); by apply licensed_none.
    + destruct (run_io_runner (save_cached (rc_state_dir cfg) (delivery_of nonce uid up)) r) as (w & -> & ->).
      split.
      * destruct (license_applier hooks); cbn; [by rewrite deliveries_app|by rewrite app_nil_r].
      * intros Hc. destruct (license_applier hooks); by apply save_cached_keeps.
  - apply config_applied_licensed.
  - destruct o; by apply licensed_none.
  - apply jwt_locked_licensed.
Qed.

(** ** The session *)

Lemma session_run_pending u acts (s s' : @Session _ Channel QuotaStatus) :
  pending_ok (su_code u) s → session_run u acts s = Some s' → pending_ok (su_code u) s'.
Proof.
  revert s. induction acts as [|a acts IH]; intros s Hp; cbn [session_run]; [by intros [= <-]|].
  intros (s1 & E1 & E2)%bind_Some. eapply IH; [|exact E2]. by eapply pending_step.
Qed.

(** What an action of a session brings its reader. *)
Definition licence_of (a : @Action _ QuotaStatus) : option LicenseUpdate :=
  match a with Main (MainPoll i) => licence_in i | _ => None end.

Lemma licensed_equiv u r r' :
  r' ≡ r → licensed (su_cfg u) (su_hooks u) (su_nonce u) (su_uid u) None r r'.
Proof.
  intros E. apply licensed_none; [by rewrite (host_calls_proper _ _ E)|].
  by rewrite (world_proper _ _ E).
Qed.

Lemma session_step_licensed u a (s s' : @Session _ Channel QuotaStatus) :
  pending_ok (su_code u) s → session_step u a s = Some s' →
  licensed (su_cfg u) (su_hooks u) (su_nonce u) (su_uid u) (licence_of a)
    (ss_runner s) (ss_runner s').
Proof.
  intros Hp Hs. destruct (is_main a) eqn:Em.
  - destruct a as [| | | | | | |a]; try discriminate Em. cbn in Hs. unfold main_step in Hs.
    destruct (ss_main s) as [pc| | | | | | |] eqn:Ep.
    { unfold select_step in Hs. destruct a as [i| | | | | |]; try done.
      - destruct i; try done; apply fmap_Some in Hs as (st & Hs & ->);
          exact (inbound_poll_licensed _ _ _ _ _ _ _ Hs).
      - destruct (blocked s); [done|]. apply fmap_Some in Hs as (st & Hs & ->).
        exact (inbound_poll_licensed _ _ _ _ _ _ _ Hs).
      - destruct (ss_notified s); [|done]. injection Hs as <-. by apply licensed_none. }
    all: assert (licence_of (Main a) = None) as ->
      by (unfold finish_step in Hs; by destruct a);
      rewrite <- Ep in Hs; by apply licensed_equiv, (finish_step_control _ _ _ _ _ Hp Hs).
  - assert (licence_of a = None) as -> by (by destruct a).
    by apply licensed_equiv, (other_step_control _ _ _ _ Hp Em Hs).
Qed.

(** A licence as its host is to get it: everything that was pushed, with the nonce
    of the Channel it came down and the instance the Channel was opened as. *)
Definition bound_to (nonce uid : string) (up : LicenseUpdate) : LicenseDelivery := {|
  License.license_jwt := lu_license_jwt up;
  License.org_slug := lu_org_slug up;
  License.refresh_failing := lu_refresh_failing up;
  License.delivery_proof := lu_delivery_proof up;
  License.channel_nonce := nonce;
  License.instance_uid := uid
|}.

(** The deliveries of a session: the licences its reader was given, in order, bound
    to its Channel. *)
Definition pushed u (acts : list (@Action _ QuotaStatus)) : list LicenseDelivery :=
  bound_to (su_nonce u) (su_uid u) <$> omap licence_of acts.

(** C30: a licence is bound to the Channel it came down, and kept before the host
    sees it.  At every moment of every execution of a session, the host has been
    given, besides what it had, exactly the licences received, in order, each with
    the nonce and the instance uid of this Channel (and none without a licence
    hook).  And if no I/O fails, the cache file holds at that moment the last
    licence received, so that the delivery the host is just being given is what a
    restart loads even if the process dies in the call; before the first one the
    file is as the session found it. *)
Theorem license_bound_to_channel u r has_status stopping acts s :
  session_run u acts (session_init r has_status stopping) = Some s →
  deliveries (host_calls (ss_runner s)) = (deliveries (host_calls r) ++
    if license_applier (su_hooks u) then pushed u acts else [])%list ∧
  (calm (world r) → ∀ w, calm w →
     disk w !! cache_path (rc_state_dir (su_cfg u)) =
       disk (world (ss_runner s)) !! cache_path (rc_state_dir (su_cfg u)) →
     match last (pushed u acts) with
     | Some d => load_cached (rc_state_dir (su_cfg u)) w = (Ok (Some d), w)
     | None => disk w !! cache_path (rc_state_dir (su_cfg u)) =
                 disk (world r) !! cache_path (rc_state_dir (su_cfg u))
     end).
Proof.
  intros Hrun.
  enough (deliveries (host_calls (ss_runner s)) = (deliveries (host_calls r) ++
    if license_applier (su_hooks u) then pushed u acts else [])%list ∧
    (calm (world r) → calm (world (ss_runner s)) ∧
       match last (pushed u acts) with
       | Some d => keeps (rc_state_dir (su_cfg u)) d (world (ss_runner s))
       | None => disk (world (ss_runner s)) !! cache_path (rc_state_dir (su_cfg u)) =
                 disk (world r) !! cache_path (rc_state_dir (su_cfg u))
       end)) as [Hd Hk].
  { split; [done|]. intros Hc w Hcw Hw. destruct (Hk Hc) as [_ Hl].
    destruct (last (pushed u acts)); [by apply Hl|congruence]. }
  revert s Hrun. induction acts as [|a acts IH] using rev_ind; intros s Hrun.
  { injection Hrun as <-. cbn. split; [by destruct (license_applier _); rewrite app_nil_r|done]. }
  rewrite session_run_app in Hrun. apply bind_Some in Hrun as (s1 & Hrun & Hs).
  cbn [session_run] in Hs. apply bind_Some in Hs as (s2 & Hs & [= ->]).
  destruct (IH s1 Hrun) as [Hd Hk].
  assert (pending_ok (su_code u) s1) as Hp
    by (eapply session_run_pending; [apply session_init_pending|exact Hrun]).
  destruct (session_step_licensed u a s1 s Hp Hs) as [Hd1 Hw1].
  assert (pushed u (acts ++ [a]) = (pushed u acts ++
    option_list (bound_to (su_nonce u) (su_uid u) <$> licence_of a))%list) as Hpush.
  { unfold pushed. rewrite omap_app, fmap_app. f_equal. simpl. by destruct (licence_of a). }
  rewrite Hpush. split.
  - rewrite Hd1, Hd. by destruct (license_applier _); rewrite <- (assoc_L app).
  - intros Hc. destruct (Hk Hc) as [Hc1 Hl]. destruct (licence_of a) as [up|]; simpl.
    + rewrite last_snoc. by destruct (Hw1 Hc1).
    + rewrite app_nil_r. destruct Hw1 as [Hca Hda]. split; [by apply Hca|].
      destruct (last (pushed u acts)); [|congruence].
      intros w Hcw Hww. apply Hl; [done|congruence].
Qed.
End handlers.

(** ** The property on a concrete execution *)

#[local] Existing Instance demo_grpc.

Definition licence_setup : @SessionSetup concrete_bundle := {|
  su_code := outcome_code; su_level := λ _, 0%Z; su_cfg := demo_runner_config;
  su_hooks := {| config_applier := None; license_applier := true |};
  su_nonce := "n1"; su_uid := "gw-1"
|}.

Definition renewed : LicenseUpdate := {|
  lu_license_jwt := "lic2"; lu_org_slug := "acme"; lu_refresh_failing := false;
  lu_delivery_proof := "proof2" |}.

(** Two licences with a heartbeat in between; the host has not yet taken the second. *)
Definition licence_actions : list (@Action concrete_bundle unit) :=
  [Main (MainPoll (InItem (Some (Ok {| server_kind :=
     Some (SLicenseUpdate {| lu_license_jwt := "lic1"; lu_org_slug := "acme";
       lu_refresh_failing := false; lu_delivery_proof := "proof1" |}) |}))));
   Hb (HbTick 0); Main (MainPoll InLicensed); Hb HbSend;
   Main (MainPoll (InItem (Some (Ok {| server_kind := Some (SLicenseUpdate renewed) |}))))].

Definition licence_end : @Session concrete_bundle unit unit :=
  default (session_init demo_runner false false)
    (session_run licence_setup licence_actions (session_init demo_runner false false)).

Lemma licence_end_reached :
  session_run licence_setup licence_actions (session_init demo_runner false false) = Some licence_end.
Proof. apply some_default. vm_compute. reflexivity. Qed.

Lemma license_bound_to_channel_witness :
  License.license_jwt <$> deliveries (host_calls (ss_runner licence_end)) = ["lic1"; "lic2"] ∧
  ∀ w, calm w → disk w !! cache_path "/s" = disk (world (ss_runner licence_end)) !! cache_path "/s" →
    load_cached "/s" w = (Ok (Some (bound_to "n1" "gw-1" renewed)), w).
Proof.
  destruct (license_bound_to_channel licence_setup demo_runner false false licence_actions licence_end
    licence_end_reached) as [Hd Hk].
  split; [rewrite Hd; reflexivity|]. exact (Hk eq_refl).
Defined.
