(* ===== verification/SessionTime.v ===== *)
(** * A session in time: the tickers of its tasks

    The session of [Session] with a clock.  A task passes its [tick] not before its
    ticker's deadline; it may be late by any amount.  Of [tokio::time::Interval] the
    model has the documented behaviour: the first tick is due at once; after a tick
    the next deadline is one interval after the one that was met, and under
    [MissedTickBehavior::Delay], which all tickers but the heartbeat's set, after a
    late tick one interval after the moment it was seen.  With that the traffic of a
    session is bounded by its duration. *)

From stdpp Require Import base list strings gmap.
From Stdlib Require Import ZArith Lia.
From S2P Require Import Prelude Time BTree Proto Text Serde Concrete Errors Token.
From S2P Require Import Metrics MetricsFacts FlushLoop FlushLoopFacts FlushWake FlushTime Logs Status.
From S2P Require Import Crypto Dek Fs FsFacts Lkg LkgFacts License Creds Client Runner Inbound Control.
From S2P Require Import Agent SessionFacts Session SessionSafety SessionWire.

Local Open Scope list_scope.

#[local] Arguments Metrics.drain : simpl never.
#[local] Arguments Metrics.record : simpl never.
#[local] Arguments Logs.drain : simpl never.
#[local] Arguments InFlight_drop : simpl never.
#[local] Arguments record_events : simpl never.
#[local] Arguments Metrics.batch_to_message : simpl never.
#[local] Arguments Logs.batch_to_message : simpl never.
#[local] Arguments snapshot_to_message : simpl never.
#[local] Arguments heartbeat_message : simpl never.
#[local] Arguments batches_per_tick : simpl never.

#[export] Instance TaskId_eq_dec : EqDecision TaskId.
Proof. solve_decision. Defined.

(** [MissedTickBehavior]: the default, and the one three of the loops set. *)
Inductive MissedTick := Burst | Delay.

Definition tick_behavior (t : TaskId) : MissedTick :=
  match t with THeartbeat => Burst | _ => Delay end.

(** The intervals [run_session] starts its tasks with. *)
Definition tick_interval (cfg : AgentRunnerConfig) (t : TaskId) : Duration :=
  match t with
  | THeartbeat => rc_heartbeat_interval cfg
  | TMetrics => default DEFAULT_FLUSH_INTERVAL (rc_metrics_flush_interval cfg)
  | TLogs => DEFAULT_LOG_FLUSH_INTERVAL
  | TStatus => DEFAULT_STATUS_INTERVAL
  end.

(** The deadline after a tick at [now]; [late] is whether the ticker takes it to be
    late. *)
Definition next_deadline (b : MissedTick) (late : bool) (deadline now : Z) (interval : Duration) : Z :=
  match b with
  | Delay => if late then (now + interval)%Z else (deadline + interval)%Z
  | Burst => (deadline + interval)%Z
  end.

Section time.
Context `{!Json, !Base64, !Rfc3339, !Aead, !Hkdf, !BundleCodec, !Grpc}.
Context {Channel QuotaStatus : Type}.
Abbreviation Session := (@Session _ Channel QuotaStatus).
Abbreviation Runner := (@Runner _ Channel QuotaStatus).
Abbreviation Action := (@Action _ QuotaStatus).
Implicit Types (s : Session) (r : Runner) (u : @SessionSetup _).

(** The session, the time, the deadlines of the tickers, the start of the metrics
    task's latest round, and for the statements the ticks and the early rounds. *)
Record Clocked := {
  ck_session : Session;
  ck_now : Z;
  ck_deadline : TaskId → Z;
  ck_started : Z;
  ck_ticks : TaskId → nat;
  ck_earlies : nat
}.

Definition clocked_init (r : Runner) (has_status stopping : bool) (t0 : Z) : Clocked := {|
  ck_session := session_init r has_status stopping; ck_now := t0; ck_deadline := λ _, t0;
  ck_started := t0; ck_ticks := λ _, 0%nat; ck_earlies := 0%nat
|}.

(** The steps that wait for a ticker, and the one that waits out the spacing. *)
Definition tick_of (a : Action) : option TaskId :=
  match a with
  | Hb (HbTick _) => Some THeartbeat
  | Met MetTick => Some TMetrics
  | Log (LogTick _) => Some TLogs
  | Sta StaTick => Some TStatus
  | _ => None
  end.
Definition is_wake (a : Action) : bool := match a with Met MetWake => true | _ => false end.

Definition update {A} (t : TaskId) (x : A) (f : TaskId → A) : TaskId → A :=
  λ t', if decide (t' = t) then x else f t'.

Inductive ClockAction :=
| Pass (d : Z)
| Act (late : bool) (a : Action).

Definition clock_step u (x : ClockAction) (c : Clocked) : option Clocked :=
  match x with
  | Pass d =>
      if (0 <=? d)%Z then
        Some {| ck_session := ck_session c; ck_now := (ck_now c + d)%Z; ck_deadline := ck_deadline c;
                ck_started := ck_started c; ck_ticks := ck_ticks c; ck_earlies := ck_earlies c |}
      else None
  | Act late a =>
      s ← session_step u a (ck_session c);
      match tick_of a with
      | Some t =>
          if (ck_deadline c t <=? ck_now c)%Z then
            let next := next_deadline (tick_behavior t) late (ck_deadline c t) (ck_now c)
                          (tick_interval (su_cfg u) t) in
            Some {| ck_session := s; ck_now := ck_now c;
                    ck_deadline := update t next (ck_deadline c);
                    ck_started := if decide (t = TMetrics) then ck_now c else ck_started c;
                    ck_ticks := update t (S (ck_ticks c t)) (ck_ticks c);
                    ck_earlies := ck_earlies c |}
          else None
      | None =>
          if is_wake a then
            if (ck_started c + EARLY_FLUSH_SPACING <=? ck_now c)%Z then
              Some {| ck_session := s; ck_now := ck_now c; ck_deadline := ck_deadline c;
                      ck_started := ck_now c; ck_ticks := ck_ticks c;
                      ck_earlies := S (ck_earlies c) |}
            else None
          else
            Some {| ck_session := s; ck_now := ck_now c; ck_deadline := ck_deadline c;
                    ck_started := ck_started c; ck_ticks := ck_ticks c;
                    ck_earlies := ck_earlies c |}
      end
  end.

Fixpoint clock_run u (xs : list ClockAction) (c : Clocked) : option Clocked :=
  match xs with
  | [] => Some c
  | x :: xs => c ← clock_step u x c; clock_run u xs c
  end.

(** ** The caps of the metrics buffer never change *)

Definition caps (b : Metrics.Inner) : nat * nat := (Metrics.cap b, Metrics.batch_cap b).

Lemma count_drop_caps o b : caps (count_drop o b) = caps b.
Proof. unfold count_drop. by destruct (is_billable o). Qed.

Lemma record_caps sample b : caps (Metrics.record sample b) = caps b.
Proof.
  unfold Metrics.record. cbv zeta. set (b1 := if (_ <=? _)%nat then _ else b).
  assert (caps b1 = caps b) as <- by (unfold b1; by case_match). clearbody b1.
  destruct (_ <=? _)%nat; [|done]. destruct (negb _); [apply count_drop_caps|].
  destruct (Ring_remove _ _) as [[dropped ring]|]; [|done].
  change (caps (set_buf ?b _)) with (caps b). rewrite count_drop_caps. done.
Qed.

Lemma record_events_caps now name md c b : caps (record_events now name md c b) = caps b.
Proof. unfold record_events. by case_decide. Qed.

Lemma drain_caps now b d b' : Metrics.drain now b = (d, b') → caps b' = caps b.
Proof. unfold Metrics.drain. by intros [= _ <-]. Qed.

Lemma requeue_caps o b : caps (InFlight_drop o b) = caps b.
Proof.
  destruct o as [d|]; [|done]. unfold InFlight_drop. destruct (Drained_is_empty d); [done|].
  change (caps (requeue_front d b)) with (caps (fold_left (λ b x, requeue_sample x b) (rev (d_samples d)) b)).
  generalize (rev (d_samples d)) as l. intros l. revert b.
  induction l as [|x l IH]; intros b; cbn [fold_left]; [done|]. rewrite IH. unfold requeue_sample.
  case_match; [apply count_drop_caps|done].
Qed.

Definition session_caps s : nat * nat := caps (metrics (ss_runner s)).

Lemma main_step_caps u a s s' : session_step u (Main a) s = Some s' → session_caps s' = session_caps s.
Proof.
  intros Hs. cbn [session_step] in Hs. unfold main_step, session_caps in *.
  destruct (ss_main s) as [pc|res|res|[|n] res|n d msg res|[|n] res|n e msg res|res].
  { unfold select_step in Hs. destruct a as [i| | | | | |]; try done; [destruct i; try done|destruct (blocked s); [done|]|];
      try (apply fmap_Some in Hs as (st & Hp & ->); apply inbound_poll_buffers in Hp as [= E _]; cbn; by rewrite E).
    destruct (ss_notified s); by simplify_eq. }
  all: unfold finish_step in Hs; destruct a; try discriminate Hs; cbv zeta in Hs;
    try (repeat case_match; try discriminate Hs; injection Hs as <-; cbn; rewrite ?push_metrics; done).
  - destruct (Metrics.drain _ _) as [d b] eqn:Ed. apply drain_caps in Ed.
    case_match; injection Hs as <-; exact Ed.
  - destruct (blocked s); [done|]. destruct (ss_open s); injection Hs as <-; [|done].
    exact (f_equal caps (push_metrics msg s)).
  - destruct (blocked s); [done|]. destruct (ss_open s); injection Hs as <-; [|done].
    exact (f_equal caps (push_metrics msg s)).
Qed.

Lemma session_step_caps u a s s' : session_step u a s = Some s' → session_caps s' = session_caps s.
Proof.
  destruct a as [a|a|a|a|a|a|t|a]; [..|by apply main_step_caps]; cbn [session_step]; unfold session_caps.
  - destruct a; intros [= <-]; cbn; by rewrite ?record_caps, ?record_events_caps.
  - unfold net_step. destruct a; [case_match|]; by intros [= <-].
  - unfold hb_step. destruct a, (ss_hb s); try done; repeat case_match; intros [= <-];
      first [done|exact (f_equal caps (push_metrics _ s))].
  - unfold metrics_step. destruct a, (ss_metrics s) as [| | |[|n]|n d msg|]; try done;
      try (destruct (Metrics.drain _ _) as [d b] eqn:Ed; apply drain_caps in Ed);
      repeat case_match; intros [= <-];
      first [done|exact Ed|exact (f_equal caps (push_metrics _ s))|apply requeue_caps].
  - unfold logs_step. destruct a, (ss_logs s); try done; repeat case_match; intros [= <-];
      first [done|exact (f_equal caps (push_metrics _ s))].
  - unfold status_step. destruct a, (ss_status s); try done; repeat case_match; intros [= <-];
      first [done|exact (f_equal caps (push_metrics _ s))].
  - unfold cancel_step. repeat case_match; intros [= <-]; first [done|apply requeue_caps].
Qed.
(** ** What is still owed to the channel *)

Definition on_lane (t : TaskId) (m : AgentMessage) : bool := bool_decide (lane m = Some t).

(** The messages of a lane that a task may send before its next tick. *)
Definition hb_held (pc : HbPc) : nat := match pc with HbSending _ _ => 1 | _ => 0 end.
Definition logs_held (pc : LogPc) : nat := match pc with LSending _ => 1 | _ => 0 end.
Definition status_held (pc : StatusPc) : nat := match pc with SSnapshot | SSending _ => 1 | _ => 0 end.
Definition metrics_held (pc : FlushPc) : nat :=
  match pc with Round n => n | Sending n _ _ => S n | _ => 0 end.

(** And those the shutdown flush may. *)
Definition flush_reports_left (pc : @MainPc _) : nat :=
  match pc with
  | MSelect _ | MAborting _ | MLoad _ => MAX_SHUTDOWN_FLUSH_BATCHES
  | MFlushMetrics n _ => n
  | MFlushMetricsSend n _ _ _ => S n
  | MFlushLogs _ _ | MFlushLogsSend _ _ _ _ | MReturned _ => 0
  end.
Definition flush_logs_left (pc : @MainPc _) : nat :=
  match pc with
  | MFlushLogs n _ => n
  | MFlushLogsSend n _ _ _ => S n
  | MReturned _ => 0
  | _ => MAX_SHUTDOWN_FLUSH_BATCHES
  end.

Definition held (t : TaskId) s : nat :=
  match t with
  | THeartbeat => hb_held (ss_hb s)
  | TMetrics => metrics_held (ss_metrics s) + flush_reports_left (ss_main s)
  | TLogs => logs_held (ss_logs s) + flush_logs_left (ss_main s)
  | TStatus => status_held (ss_status s)
  end.

Definition accepted (t : TaskId) s : nat := count_if (on_lane t) (outbound (ss_runner s)).

(** What a tick of a task lets it send. *)
Definition grant (t : TaskId) (a : Action) s : nat :=
  match t, a with
  | THeartbeat, Hb (HbTick _) | TLogs, Log (LogTick _) | TStatus, Sta StaTick => 1
  | TMetrics, Met MetTick | TMetrics, Met MetWake => batches_per_tick (metrics (ss_runner s))
  | _, _ => 0
  end.

Lemma accepted_push t m s :
  ss_open s = true →
  accepted t (push m s) = accepted t s + (if decide (lane m = Some t) then 1 else 0).
Proof.
  intros Eo. unfold accepted, push. rewrite Eo. cbn. rewrite count_if_app. cbn. unfold on_lane.
  destruct (decide _) as [E|E]; [rewrite bool_decide_true by done|rewrite bool_decide_false by done]; lia.
Qed.

Lemma accepted_same t s s' :
  outbound (ss_runner s') = outbound (ss_runner s) → accepted t s' = accepted t s.
Proof. unfold accepted. by intros ->. Qed.

Definition credit (t : TaskId) s : nat := accepted t s + held t s.

(** A step that accepts nothing. *)
Lemma credit_idle t n s s' :
  outbound (ss_runner s') = outbound (ss_runner s) → held t s' ≤ held t s + n →
  credit t s' ≤ credit t s + n.
Proof. intros E Hh. unfold credit. rewrite (accepted_same t s s' E). lia. Qed.

(** A step in which a lane sends what it held. *)
Lemma credit_push t t0 m s s' :
  ss_open s = true → lane m = Some t0 → outbound (ss_runner s') = outbound (ss_runner (push m s)) →
  (if decide (t = t0) then S (held t s') ≤ held t s else held t s' ≤ held t s) →
  credit t s' ≤ credit t s.
Proof.
  intros Eo El E Hh. unfold credit. rewrite (accepted_same t (push m s) s' E), accepted_push by done.
  rewrite El. destruct (decide (t = t0)), (decide (Some t0 = Some t)); simplify_eq; lia.
Qed.

(** And one in which an acknowledgement goes out. *)
Lemma credit_ack t m s s' :
  ss_open s = true → lane m = None → outbound (ss_runner s') = outbound (ss_runner (push m s)) →
  held t s' = held t s → credit t s' ≤ credit t s.
Proof.
  intros Eo El E Hh. unfold credit. rewrite (accepted_same t (push m s) s' E), accepted_push by done.
  rewrite El. destruct (decide (None = Some t)); [done|]. lia.
Qed.

Lemma after_batch_held b count n : metrics_held (after_batch b count n) ≤ n.
Proof. unfold after_batch. case_match; cbn; lia. Qed.

(** [credit_idle] for a step after which less is held. *)
Ltac solve_idle t :=
  apply credit_idle; [reflexivity|];
  destruct t; unfold held; cbn; repeat match goal with E : _ = _ |- _ => rewrite E end; cbn; try lia.

(** The side condition of [credit_push]. *)
Ltac solve_held t :=
  destruct t; case_decide; try done; unfold held; cbn;
  repeat match goal with E : _ = _ |- _ => rewrite E end; cbn; lia.

Lemma select_step_credit t code cfg hooks nonce uid a pc s s' :
  ss_main s = MSelect pc → pending_ok code s →
  select_step cfg hooks nonce uid a pc s = Some s' → credit t s' ≤ credit t s + 0.
Proof.
  intros Ep Hp Hs. rewrite Nat.add_0_r.
  assert (∀ st, held t (after_poll s st) ≤ held t s) as Hh.
  { intros st. unfold held, after_poll. cbn. rewrite Ep. destruct t; try done; by destruct (st.1). }
  assert (∀ st, outbound st.2 = outbound (ss_runner s) →
    credit t (after_poll s st) ≤ credit t s) as Hidle.
  { intros st E. rewrite <- (Nat.add_0_r (credit t s)). apply credit_idle; [done|].
    specialize (Hh st). lia. }
  unfold select_step in Hs. destruct a as [i| | | | | |]; try done.
  - destruct i as [item|outcome|o| |]; try done; apply fmap_Some in Hs as (st & Hq & ->);
      apply Hidle; apply inbound_poll_outbound in Hq; rewrite Hq; by destruct pc.
  - destruct (blocked s); [done|]. apply fmap_Some in Hs as (st & Hq & ->).
    apply inbound_poll_outbound in Hq.
    destruct pc as [|h b|ack|cr|cr m|d|res]; try (apply Hidle; exact Hq).
    destruct (ss_open s) eqn:Eo; [|by apply Hidle].
    pose proof (po_main _ s Hp) as Hm. rewrite Ep in Hm. cbn in Hm.
    unfold credit. specialize (Hh st). unfold accepted. cbn [ss_runner after_poll set_main set_runner].
    rewrite Hq, count_if_app. cbn. unfold on_lane at 2. rewrite Hm, bool_decide_false by done. lia.
  - destruct (ss_notified s); [|done]. injection Hs as <-. rewrite <- (Nat.add_0_r (credit t s)).
    solve_idle t.
Qed.

Lemma finish_step_credit t code level a s s' :
  pending_ok code s → finish_step code level a (ss_main s) s = Some s' → credit t s' ≤ credit t s + 0.
Proof.
  intros Hp Hs. pose proof (po_main _ s Hp) as Hm. unfold finish_step in Hs.
  destruct a, (ss_main s) as [pc|res|res|[|n] res|n d msg res|[|n] res|n e msg res|res] eqn:Ep;
    try discriminate Hs; cbn [main_pending] in Hm; try (injection Hs as <-; solve_idle t; done).
  - cbv zeta in Hs. destruct (4 <=? _); injection Hs as <-; solve_idle t.
  - destruct (ss_stopping s); injection Hs as <-; solve_idle t.
  - destruct (Metrics.drain _ _) as [d b]. destruct (Metrics.batch_to_message _ _ _);
      [|destruct (Drained_is_empty d)]; injection Hs as <-; solve_idle t.
  - destruct (Logs.drain _) as [[[entries dropped] seq_] b].
    destruct (Logs.batch_to_message _ _ _ _ _); [|destruct (_ && _)]; injection Hs as <-; solve_idle t.
  - destruct (blocked s); [done|]. destruct (ss_open s) eqn:Eo; injection Hs as <-; [|solve_idle t].
    rewrite Nat.add_0_r. apply (credit_push t TMetrics msg); [done|by eapply reports_lane|done|].
    destruct (Drained_is_empty d); solve_held t.
  - destruct (blocked s); [done|]. destruct (ss_open s) eqn:Eo; injection Hs as <-; [|solve_idle t].
    rewrite Nat.add_0_r. apply (credit_push t TLogs msg); [done..|].
    destruct e; solve_held t.
Qed.

Lemma metrics_step_credit t code a s s' :
  pending_ok code s → metrics_step code a s = Some s' → credit t s' ≤ credit t s + grant t (Met a) s.
Proof.
  intros Hp Hs. pose proof (po_metrics _ s Hp) as Hm. unfold metrics_step in Hs.
  destruct a, (ss_metrics s) as [| | |[|n]|n d msg|] eqn:Ep; try discriminate Hs; cbn [metrics_pending] in Hm;
    try (injection Hs as <-; solve_idle t; done).
  - destruct (Metrics.flush_early _); [|done]. injection Hs as <-. solve_idle t.
  - destruct (Metrics.drain _ _) as [d b]. pose proof (after_batch_held b (length (d_samples d)) n).
    destruct (Metrics.batch_to_message _ _ _); injection Hs as <-; solve_idle t.
  - destruct (blocked s); [done|]. destruct (ss_open s) eqn:Eo; injection Hs as <-; [|solve_idle t].
    etransitivity; [apply (credit_push t TMetrics msg); [done|by eapply reports_lane|done|]|lia].
    pose proof (after_batch_held (metrics (ss_runner s)) (length (d_samples d)) n).
    solve_held t.
Qed.

(** A send of one of the other tasks. *)
Lemma task_step_credit t u a s s' :
  pending_ok (su_code u) s → is_main a = false → session_step u a s = Some s' →
  credit t s' ≤ credit t s + grant t a s.
Proof.
  intros Hp Hm Hs. destruct a as [a|a|a|a|a|a|x|a]; try discriminate Hm; cbn [session_step] in Hs.
  - destruct a; injection Hs as <-; solve_idle t.
  - unfold net_step in Hs. destruct a; [case_match; [|done]|]; injection Hs as <-; solve_idle t.
  - pose proof (po_hb _ s Hp) as Hk. unfold hb_step in Hs. destruct a, (ss_hb s) as [k|k m|] eqn:Ep; try done.
    + injection Hs as <-. solve_idle t.
    + destruct (blocked s); [done|]. destruct (ss_open s) eqn:Eo; injection Hs as <-; [|solve_idle t].
      etransitivity; [apply (credit_push t THeartbeat m); [done..|]|lia].
      solve_held t.
  - by apply metrics_step_credit with (su_code u).
  - pose proof (po_logs _ s Hp) as Hk. unfold logs_step in Hs. destruct a, (ss_logs s) as [|msg|] eqn:Ep; try done.
    + destruct (Logs.drain _) as [[[entries dropped] seq_] b]. case_match; injection Hs as <-; solve_idle t.
    + destruct (blocked s); [done|]. destruct (ss_open s) eqn:Eo; injection Hs as <-; [|solve_idle t].
      etransitivity; [apply (credit_push t TLogs msg); [done..|]|lia].
      solve_held t.
  - pose proof (po_status _ s Hp) as Hk. unfold status_step in Hs.
    destruct a, (ss_status s) as [| |msg|] eqn:Ep; try done; try (injection Hs as <-; solve_idle t; done).
    destruct (blocked s); [done|]. destruct (ss_open s) eqn:Eo; injection Hs as <-; [|solve_idle t].
    etransitivity; [apply (credit_push t TStatus msg); [done..|]|lia].
    solve_held t.
  - unfold cancel_step in Hs. destruct (_ <? _); [|done].
    destruct x; try destruct (at_await _); try done; injection Hs as <-; solve_idle t.
Qed.

Lemma session_step_credit t u a s s' :
  pending_ok (su_code u) s → session_step u a s = Some s' → credit t s' ≤ credit t s + grant t a s.
Proof.
  intros Hp Hs. destruct (is_main a) eqn:Em; [|by eapply task_step_credit].
  destruct a as [| | | | | | |a]; try discriminate Em.
  replace (grant t (Main a) s) with 0 by (by destruct t). cbn [session_step] in Hs. unfold main_step in Hs.
  destruct (ss_main s) eqn:Ep; [by eapply select_step_credit|..]; rewrite <- Ep in Hs;
    by eapply finish_step_credit.
Qed.
(** ** The pace *)

(** What the ticks and early rounds so far let a lane send, on a buffer of given
    caps. *)
Definition budget (B : nat) (t : TaskId) (ticks earlies : nat) : nat :=
  match t with
  | THeartbeat | TStatus => ticks
  | TLogs => ticks + MAX_SHUTDOWN_FLUSH_BATCHES
  | TMetrics => (ticks + earlies) * B + MAX_SHUTDOWN_FLUSH_BATCHES
  end.

(** What a tick, an early round and any other step grant. *)
Lemma grant_tick t x (a : Action) s :
  tick_of a = Some x →
  grant t a s = if decide (t = x) then
    match x with TMetrics => batches_per_tick (metrics (ss_runner s)) | _ => 1 end else 0.
Proof.
  destruct a as [| |[]|[]|[]|[]| |]; try done; cbn [tick_of]; intros E; injection E as <-; by destruct t.
Qed.

Lemma grant_wake t (a : Action) s :
  is_wake a = true →
  grant t a s = match t with TMetrics => batches_per_tick (metrics (ss_runner s)) | _ => 0 end.
Proof. by destruct a as [| | |[]| | | |]. Qed.

Lemma grant_none t (a : Action) s : tick_of a = None → is_wake a = false → grant t a s = 0.
Proof. destruct a as [| |[]|[]|[]|[]| |]; try done; by destruct t. Qed.

Lemma batches_caps b b' : caps b = caps b' → batches_per_tick b = batches_per_tick b'.
Proof. unfold batches_per_tick. by intros [= -> ->]. Qed.

Section pace.
Context (u : @SessionSetup _) (r : Runner) (t0 : Z).
Abbreviation interval := (tick_interval (su_cfg u)).
Abbreviation B := (batches_per_tick (metrics r)).

Local Open Scope Z_scope.

Record clock_inv (c : Clocked) : Prop := {
  ci_started : t0 + Z.of_nat (ck_earlies c) * EARLY_FLUSH_SPACING ≤ ck_started c ≤ ck_now c;
  ci_deadline : ∀ t, t0 + Z.of_nat (ck_ticks c t) * interval t ≤ ck_deadline c t;
  ci_burst : ck_deadline c THeartbeat = t0 + Z.of_nat (ck_ticks c THeartbeat) * interval THeartbeat;
  ci_ticks : ∀ t, (0 < ck_ticks c t)%nat → t0 + (Z.of_nat (ck_ticks c t) - 1) * interval t ≤ ck_now c;
  ci_caps : session_caps (ck_session c) = caps (metrics r);
  ci_pending : pending_ok (su_code u) (ck_session c);
  ci_channel : channel_inv (outbound r) (ck_session c);
  ci_credit : ∀ t, (credit t (ck_session c) ≤
    count_if (on_lane t) (outbound r) + budget B t (ck_ticks c t) (ck_earlies c))%nat
}.

Lemma clocked_init_inv has_status stopping : clock_inv (clocked_init r has_status stopping t0).
Proof.
  split; unfold clocked_init; cbn; try lia; try done.
  - apply session_init_pending.
  - split; unfold queued; cbn; [lia|lia|done].
  - intros t. unfold credit, accepted. destruct t; cbn; try lia. destruct has_status; cbn; lia.
Qed.

Lemma clock_step_inv x c c' :
  (∀ t, 0 < interval t) → clock_step u x c = Some c' → clock_inv c → clock_inv c'.
Proof.
  intros Hpos Hs [K1 K2 K3 K4 K5 K6 K7 K8]. destruct x as [d|late a]; cbn [clock_step] in Hs.
  { destruct (Z.leb_spec 0 d); [|done]. injection Hs as <-. split; cbn; try done; [lia|].
    intros t Ht. specialize (K4 t Ht). lia. }
  apply bind_Some in Hs as (s & Hs & Hc).
  assert (session_caps s = caps (metrics r)) as K5' by (by rewrite (session_step_caps _ _ _ _ Hs)).
  assert (pending_ok (su_code u) s) as K6' by (by eapply pending_step).
  assert (channel_inv (outbound r) s) as K7' by (eapply channel_step_inv, K7; by eapply session_step_channel).
  pose proof (λ t, session_step_credit t u a _ _ K6 Hs) as Kc.
  destruct (tick_of a) as [x|] eqn:Et.
  - destruct (Z.leb_spec (ck_deadline c x) (ck_now c)); [|done]. injection Hc as <-.
    assert (ck_deadline c x + interval x ≤
      next_deadline (tick_behavior x) late (ck_deadline c x) (ck_now c) (interval x)) as Hn
      by (unfold next_deadline; destruct (tick_behavior x), late; lia).
    split; cbn [ck_session ck_now ck_deadline ck_started ck_ticks ck_earlies]; try done.
    + case_decide; lia.
    + intros t. unfold update. case_decide; [subst t|done]. specialize (K2 x). lia.
    + unfold update. case_decide as Ex; [|done]. subst x. cbn [next_deadline tick_behavior]. lia.
    + intros t. unfold update. case_decide; [subst t|apply K4]. specialize (K2 x). lia.
    + intros t. specialize (Kc t). specialize (K8 t). rewrite (grant_tick t x), (batches_caps _ _ K5) in Kc by done.
      unfold update. destruct (decide (t = x)) as [->|]; [|lia]. destruct x; cbn in *; lia.
  - destruct (is_wake a) eqn:Ew.
    + destruct (Z.leb_spec (ck_started c + EARLY_FLUSH_SPACING) (ck_now c)); [|done]. injection Hc as <-.
      split; cbn [ck_session ck_now ck_deadline ck_started ck_ticks ck_earlies]; try done; [lia|].
      intros t. specialize (Kc t). specialize (K8 t). rewrite (grant_wake t), (batches_caps _ _ K5) in Kc by done.
      destruct t; cbn in *; lia.
    + injection Hc as <-.
      split; cbn [ck_session ck_now ck_deadline ck_started ck_ticks ck_earlies]; try done.
      intros t. specialize (Kc t). specialize (K8 t). rewrite (grant_none t) in Kc by done. lia.
Qed.

Lemma clock_run_inv xs c c' :
  (∀ t, 0 < interval t) → clock_run u xs c = Some c' → clock_inv c → clock_inv c'.
Proof.
  intros Hpos. revert c. induction xs as [|x xs IH]; intros c; cbn [clock_run]; [by intros [= <-]|].
  intros (c1 & E1 & E2)%bind_Some Hi. eapply IH; [done|]. by eapply clock_step_inv.
Qed.

(** The ticks a lane had by the present. *)
Lemma ticks_bound c t :
  0 < interval t → clock_inv c → Z.of_nat (ck_ticks c t) ≤ 1 + (ck_now c - t0) / interval t.
Proof.
  intros Hi [K1 _ _ K4 _ _ _ _]. destruct (decide (0 < ck_ticks c t)%nat) as [Hp|Hp].
  - enough (Z.of_nat (ck_ticks c t) - 1 ≤ (ck_now c - t0) / interval t) by lia.
    apply Z.div_le_lower_bound; [done|]. specialize (K4 t Hp). lia.
  - assert (0 ≤ (ck_now c - t0) / interval t); [|lia]. apply Z.div_pos; [|done].
    unfold EARLY_FLUSH_SPACING, from_secs, NANOS_PER_SEC in *. lia.
Qed.

Lemma earlies_bound c :
  clock_inv c → Z.of_nat (ck_earlies c) ≤ (ck_now c - t0) / EARLY_FLUSH_SPACING.
Proof. intros [K1 _ _ _ _ _ _ _]. apply Z.div_le_lower_bound; [done|]. lia. Qed.
End pace.
End time.

(** C31: the traffic of a session is bounded by its duration, however fast the host
    records, however late the tasks are scheduled and however the session ends: of
    the messages its channel accepted in a time [T], at most [1 + T / interval] are
    heartbeats and as many status reports, each with its interval; at most 16 more
    are log batches, for the shutdown flush; and the reports are at most those of
    [1 + T / interval] rounds and an early one a second, with [batches_per_tick]
    reports each, and 16 for the flush.  The heartbeat, whose ticker makes missed
    ticks up, keeps the phase of the session's start. *)
Theorem session_traffic_is_bounded `{!Json, !Base64, !Rfc3339, !Aead, !Hkdf, !BundleCodec, !Grpc}
    {Channel QuotaStatus : Type} (u : SessionSetup) (r : @Runner _ Channel QuotaStatus)
    has_status stopping t0 xs c :
  (∀ t, 0 < tick_interval (su_cfg u) t)%Z →
  clock_run u xs (clocked_init r has_status stopping t0) = Some c →
  let T := (ck_now c - t0)%Z in
  let rounds t := (1 + T / tick_interval (su_cfg u) t)%Z in
  ∃ new, outbound (ss_runner (ck_session c)) = outbound r ++ new ∧
    (Z.of_nat (count_if (on_lane THeartbeat) new) ≤ rounds THeartbeat)%Z ∧
    (Z.of_nat (count_if (on_lane TStatus) new) ≤ rounds TStatus)%Z ∧
    (Z.of_nat (count_if (on_lane TLogs) new) ≤ rounds TLogs + 16)%Z ∧
    (Z.of_nat (count_if (on_lane TMetrics) new) ≤
       (rounds TMetrics + T / EARLY_FLUSH_SPACING) * Z.of_nat (batches_per_tick (metrics r)) + 16)%Z ∧
    ck_deadline c THeartbeat =
      (t0 + Z.of_nat (ck_ticks c THeartbeat) * tick_interval (su_cfg u) THeartbeat)%Z.
Proof.
  intros Hpos Hr T rounds.
  pose proof (clock_run_inv u r t0 xs _ c Hpos Hr (clocked_init_inv u r t0 has_status stopping)) as Hi.
  pose proof (λ t, ticks_bound u r t0 c t (Hpos t) Hi) as Ht. pose proof (earlies_bound u r t0 c Hi) as He.
  destruct Hi as [_ _ Kb _ _ _ [_ _ [new Enew]] Kc]. exists new. split; [done|].
  assert (∀ t, count_if (on_lane t) new ≤ budget (batches_per_tick (metrics r)) t (ck_ticks c t) (ck_earlies c))
    as Hb.
  { intros t. specialize (Kc t). unfold credit, accepted in Kc. rewrite Enew, count_if_app in Kc. lia. }
  pose proof (Hb THeartbeat) as B1. pose proof (Hb TStatus) as B2. pose proof (Hb TLogs) as B3.
  pose proof (Hb TMetrics) as B4. cbn [budget] in B1, B2, B3, B4. unfold MAX_SHUTDOWN_FLUSH_BATCHES in *.
  fold T in He. pose proof (Ht THeartbeat) as T1. pose proof (Ht TStatus) as T2.
  pose proof (Ht TLogs) as T3. pose proof (Ht TMetrics) as T4. fold T in T1, T2, T3, T4. unfold rounds. split_and!; [lia|lia|lia| |done]. nia.
Qed.

(** ** The property on a concrete run *)

#[local] Existing Instance demo_grpc.

(** Heartbeats every 30 seconds that were held up for 65, and a status task that was
    held up as long. *)
Definition held_up : list (@ClockAction concrete_bundle unit) :=
  [Pass (from_secs 65)] ++
  concat (replicate 3 [Act true (Hb (HbTick 0)); Act false (Hb HbSend)]) ++
  [Act true (Sta StaTick);
   Act false (Sta (StaSnapshot {| snap_plugins := []; snap_warnings := []; snap_cluster := None;
                                  snap_secrets_digest := ""; snap_delivery_refusal := None |} 0));
   Act false (Sta StaSend)].

Definition held_up_end : @Clocked concrete_bundle unit unit :=
  default (clocked_init demo_runner true false 0)
    (clock_run demo_setup held_up (clocked_init demo_runner true false 0)).

(** The missed heartbeats are made up, the missed status report is not. *)
Lemma session_traffic_is_bounded_witness :
  length (outbound (ss_runner (ck_session held_up_end))) = 4 ∧
  count_if (on_lane THeartbeat) (outbound (ss_runner (ck_session held_up_end))) = 3 ∧
  (Z.of_nat (count_if (on_lane THeartbeat) (outbound (ss_runner (ck_session held_up_end)))) ≤
     1 + from_secs 65 / from_secs 30)%Z ∧
  ck_deadline held_up_end THeartbeat = from_secs 90 ∧ ck_deadline held_up_end TStatus = from_secs 125.
Proof.
  split; [vm_compute; reflexivity|]. split; [vm_compute; reflexivity|].
  split; [|split; vm_compute; reflexivity].
  destruct (session_traffic_is_bounded demo_setup demo_runner true false 0 held_up held_up_end)
    as (new & E & H & _).
  - intros t. destruct t; reflexivity.
  - vm_compute. reflexivity.
  - rewrite E. exact H.
Defined.
