(* ===== verification/Lifetime.v ===== *)
(** * The life of an agent: [run_loop] of [src/agent.rs] with its concurrent sessions

    [Agent] runs the loop over sessions that are functions; here the sessions are
    the concurrent ones of [Session], one after the other on the same runner.  The
    [abort]s at the end of a session only request the cancellation of its tasks, so
    the tasks of finished sessions stay in the state and may go on, beside the loop
    and beside the next session, until their cancellation takes effect; each still
    sends to the channel of its own session.  The host records through its handles
    all along. *)

From stdpp Require Import base list strings gmap.
From Stdlib Require Import ZArith QArith Lia Morphisms.
From S2P Require Import Prelude Time BTree Proto Text Serde Concrete Errors Token F64 Backoff.
From S2P Require Import Metrics MetricsFacts FlushLoop FlushLoopFacts Ledger Logs Status.
From S2P Require Import Crypto Dek Fs FsFacts Lkg LkgFacts License Creds Client Runner Inbound Control.
From S2P Require Import Agent LoopControl SessionFacts LoopFacts Session SessionSafety SessionWire.
From S2P Require Import SessionControl.

Local Open Scope string_scope.
Local Open Scope list_scope.

Section life.
Context `{!Json, !Base64, !Rfc3339, !Aead, !Hkdf, !BundleCodec, !Grpc}.
Context {Channel QuotaStatus : Type}.
Abbreviation Runner := (@Runner _ Channel QuotaStatus).
Abbreviation Session := (@Session _ Channel QuotaStatus).
Abbreviation Action := (@Action _ QuotaStatus).
Abbreviation LoopEnv := (@LoopEnv _ Channel QuotaStatus).
Abbreviation LoopStep := (@LoopStep _ Channel QuotaStatus).

(** What an agent is run with. *)
Record LifeSetup := {
  lf_code : ToolOutcome → Z;
  lf_level : ProtoLevel → Z;
  lf_cfg : AgentRunnerConfig;
  lf_hooks : @Hooks _;
  lf_status : bool
}.

Definition session_setup (v : LifeSetup) (env : LoopEnv) (uid : string) : SessionSetup := {|
  su_code := lf_code v; su_level := lf_level v; su_cfg := lf_cfg v; su_hooks := lf_hooks v;
  su_nonce := se_nonce (le_session env); su_uid := uid
|}.

(** Where [run_loop] is: at the head of the loop, past its load of [stopping], in
    [run_session] with the Channel open, or out of the loop. *)
Inductive LoopPc :=
| LpTop (b : Backoff)
| LpConnect (b : Backoff)
| LpIn (b : Backoff) (slept : list Duration) (env : LoopEnv) (u : @SessionSetup _) (s : Session)
| LpOver (o : LoopStep).

(** The shared runner is authoritative for the session in [LpIn]; a finished session
    keeps the messages its own channel accepted. *)
Record Life := {
  li_runner : Runner;
  li_loop : LoopPc;
  li_old : list (@SessionSetup _ * Session);
  li_stopping : bool;
  li_recorded : list ToolCallSample
}.

Definition life_init (b : Backoff) (r : Runner) : Life :=
  {| li_runner := r; li_loop := LpTop b; li_old := []; li_stopping := false; li_recorded := [] |}.

Definition with_outbound (msgs : list AgentMessage) (r : Runner) : Runner :=
  {| world := world r; client := client r; events := events r; metrics := metrics r; logs := logs r;
     quota_status := quota_status r; payload_dek := payload_dek r;
     applied_config_hash := applied_config_hash r; host_calls := host_calls r; outbound := msgs |}.

(** A session on the shared state. *)
Definition attach (r : Runner) (stopping : bool) (s : Session) : Session :=
  set_shutdown stopping (ss_notified s) (ss_aborts s) (set_runner r s).

Definition set_life (r : Runner) (loop : LoopPc) (l : Life) : Life :=
  {| li_runner := r; li_loop := loop; li_old := li_old l; li_stopping := li_stopping l;
     li_recorded := li_recorded l |}.

Definition set_old (r : Runner) (old : list (@SessionSetup _ * Session)) (l : Life) : Life :=
  {| li_runner := r; li_loop := li_loop l; li_old := old; li_stopping := li_stopping l;
     li_recorded := li_recorded l |}.

(** The host: its handles outlive every session; a notification reaches the session
    that is in its [select!]. *)
Definition life_host (a : HostAction) (l : Life) : Life :=
  let r := li_runner l in
  match a with
  | HostRecord sample =>
      {| li_runner := with_buffers (Metrics.record sample (metrics r)) (logs r) r;
         li_loop := li_loop l; li_old := li_old l; li_stopping := li_stopping l;
         li_recorded := (li_recorded l ++ [sample])%list |}
  | HostRecordEvents now name mode_ c =>
      set_life (with_buffers (record_events now name mode_ c (metrics r)) (logs r) r) (li_loop l) l
  | HostLog line => set_life (with_buffers (metrics r) (Logs.record line (logs r)) r) (li_loop l) l
  | HostTrigger =>
      {| li_runner := r; li_loop := li_loop l; li_old := li_old l; li_stopping := true;
         li_recorded := li_recorded l |}
  | HostNotify =>
      match li_loop l with
      | LpIn b slept env u s =>
          let waiting := match ss_main s with MSelect _ => true | _ => false end in
          set_life r (LpIn b slept env u
            (set_shutdown (ss_stopping s) (waiting || ss_notified s) (ss_aborts s) s)) l
      | _ => l
      end
  end.

(** The steps of the tasks of a session and of its transport; and those of
    [run_session] with them. *)
Definition task_action (a : Action) : bool :=
  match a with Host _ | Main _ => false | _ => true end.
Definition session_action (a : Action) : bool :=
  match a with Host _ => false | _ => true end.

(** The loop after an iteration. *)
Definition loop_goes (o : LoopStep) (l : Life) : Life :=
  set_life (step_runner o) (match o with LNext _ b _ => LpTop b | _ => LpOver o end) l.

(** The head of the loop. *)
Definition loop_head (b : Backoff) (l : Life) : Life :=
  let r := li_runner l in
  if li_stopping l then loop_goes (LReturn r) l else set_life r (LpConnect b) l.

(** From there to the open Channel: a shutdown that is requested meanwhile is seen by
    the new session's flag, but its notification reached nobody. *)
Definition loop_connect (v : LifeSetup) (env : LoopEnv) (b : Backoff) (l : Life) : Life :=
  match refresh_token (lf_cfg v) env (li_runner l) (λ slept r, LNext slept b r) with
  | LNext slept b r =>
      match channel_opened (lf_cfg v) (le_session env) r with
      | Some (uid, r) =>
          set_life r (LpIn b slept env (session_setup v env uid)
                        (session_init r (lf_status v) (li_stopping l))) l
      | None =>
          let '(res, r) :=
            run_session (lf_code v) (lf_level v) (lf_cfg v) (lf_hooks v) (le_session env) r in
          loop_goes (after_session (lf_cfg v) (lf_hooks v) env slept b res r) l
      end
  | o => loop_goes o l
  end.

(** One step of somebody. *)
Inductive LifeAction :=
| LifeHost (a : HostAction)
| LifeSession (a : Action)
| LifeOld (i : nat) (a : Action)
| LifeHead
| LifeConnect (env : LoopEnv)
| LifeReturned.

Definition life_step (v : LifeSetup) (a : LifeAction) (l : Life) : option Life :=
  match a, li_loop l with
  | LifeHost a, _ => Some (life_host a l)
  | LifeSession a, LpIn b slept env u s =>
      if session_action a then
        s ← session_step u a (attach (li_runner l) (li_stopping l) s);
        Some (set_life (ss_runner s) (LpIn b slept env u s) l)
      else None
  | LifeOld i a, _ =>
      if task_action a then
        us ← li_old l !! i;
        s ← session_step us.1 a
              (attach (with_outbound (outbound (ss_runner us.2)) (li_runner l)) (li_stopping l) us.2);
        Some (set_old (with_outbound (outbound (li_runner l)) (ss_runner s))
                (<[i := (us.1, s)]> (li_old l)) l)
      else None
  | LifeHead, LpTop b => Some (loop_head b l)
  | LifeConnect env, LpConnect b => Some (loop_connect v env b l)
  | LifeReturned, LpIn b slept env u s =>
      match ss_main s with
      | MReturned res =>
          let l := set_old (li_runner l) (li_old l ++ [(u, set_runner (li_runner l) s)])%list l in
          Some (loop_goes (after_session (lf_cfg v) (lf_hooks v) env slept b res (li_runner l)) l)
      | _ => None
      end
  | _, _ => None
  end.

Fixpoint life_run (v : LifeSetup) (acts : list LifeAction) (l : Life) : option Life :=
  match acts with
  | [] => Some l
  | a :: acts => l ← life_step v a l; life_run v acts l
  end.

Lemma life_run_app v acts acts' l :
  life_run v (acts ++ acts') l = life_run v acts l ≫= life_run v acts'.
Proof.
  revert l. induction acts as [|a acts IH]; intros l; [done|]. cbn.
  destruct (life_step v a l) as [l1|]; cbn; [apply IH|done].
Qed.

(** ** Conservation *)

Implicit Types (v : LifeSetup) (l : Life) (r : Runner) (s : Session) (o : LoopStep) (env : LoopEnv).

Definition current l : option Session :=
  match li_loop l with LpIn _ _ _ _ s => Some s | _ => None end.

(** The batches that left the buffer, in any session so far. *)
Definition life_out l : list Drained :=
  (from_option session_out [] (current l) ++ concat ((session_out ∘ snd) <$> li_old l))%list.

Definition life_billable l : Z :=
  sum_over batch_billable (life_out l) + ledger_billable (metrics (li_runner l)).
Definition life_non_billable l : Z :=
  sum_over batch_non_billable (life_out l) + ledger_non_billable (metrics (li_runner l)).

Definition life_inv (bb bn : Z) l : Prop :=
  ledger_ok bb bn (metrics (li_runner l)) (life_out l) (li_recorded l).

Definition life_action_ok (a : LifeAction) : Prop :=
  match a with LifeHost (HostRecordEvents _ _ _ c) => EventCounts_wf c | _ => True end.

Lemma step_recorded u a s s' :
  session_action a = true → session_step u a s = Some s' → ss_recorded s' = ss_recorded s.
Proof.
  intros Ha Hs. destruct a as [a|a|a|a|a|a|t|a]; try discriminate Ha; clear Ha; cbn [session_step] in Hs.
  - unfold net_step in Hs. destruct a; [case_match|]; by simplify_eq.
  - unfold hb_step in Hs. destruct a, (ss_hb s); try done; repeat case_match; by simplify_eq.
  - unfold metrics_step in Hs. destruct a, (ss_metrics s) as [| | |[|n]|n d msg|]; try done;
      repeat case_match; by simplify_eq.
  - unfold logs_step in Hs. destruct a, (ss_logs s); try done; repeat case_match; by simplify_eq.
  - unfold status_step in Hs. destruct a, (ss_status s); try done; repeat case_match; by simplify_eq.
  - unfold cancel_step in Hs. repeat case_match; by simplify_eq.
  - unfold main_step in Hs. destruct (ss_main s) as [pc|res|res|[|n] res|n d msg res|[|n] res|n e msg res|res].
    { unfold select_step in Hs. destruct a as [i| | | | | |]; try done; [destruct i; try done|destruct (blocked s); [done|]|];
        try (apply fmap_Some in Hs as (st & _ & ->); done). destruct (ss_notified s); by simplify_eq. }
    all: unfold finish_step in Hs; destruct a; try discriminate Hs; cbv zeta in Hs;
      repeat case_match; by simplify_eq.
Qed.

(** A step of one session on the common ledger. *)
Lemma session_step_ledger bb bn u a s s' rest recorded :
  session_action a = true → session_step u a s = Some s' →
  ledger_ok bb bn (metrics (ss_runner s)) (session_out s ++ rest) recorded →
  ledger_ok bb bn (metrics (ss_runner s')) (session_out s' ++ rest) recorded.
Proof.
  intros Ha Hs Hl. apply (ledger_frame _ _ _ _ _ _ (ss_recorded s)) in Hl as [Hr Hl].
  apply (ledger_frame _ _ _ _ _ _ (ss_recorded s')). split; [done|].
  rewrite (step_recorded u a s s' Ha Hs) in *.
  pose proof (session_step_inv _ _ u a s s' ltac:(by destruct a) Hs Hl) as Hi.
  unfold session_inv in Hi. by rewrite (step_recorded u a s s' Ha Hs) in Hi.
Qed.

(** A step that moves no batch and touches no metrics. *)
Lemma life_inv_keep bb bn l l' :
  metrics (li_runner l') = metrics (li_runner l) → life_out l' ≡ₚ life_out l →
  li_recorded l' = li_recorded l → life_inv bb bn l → life_inv bb bn l'.
Proof. unfold life_inv. intros -> Hp -> Hi. by eapply ledger_perm; [symmetry|]. Qed.

Lemma life_host_inv bb bn a l :
  life_action_ok (LifeHost a) → life_inv bb bn l → life_inv bb bn (life_host a l).
Proof.
  intros Ha Hi. destruct a; cbn [life_host]; unfold life_inv in *; cbn.
  - by apply ledger_record.
  - by apply ledger_record_events.
  - done.
  - done.
  - destruct (li_loop l) eqn:El; try done. eapply life_inv_keep; [..|exact Hi]; try done.
    unfold life_out, current. cbn. by rewrite El.
Qed.

Lemma old_out_insert i us s (old : list (@SessionSetup _ * Session)) :
  old !! i = Some us →
  ∃ rest, concat ((session_out ∘ snd) <$> old) ≡ₚ session_out us.2 ++ rest ∧
    concat ((session_out ∘ snd) <$> <[i := (us.1, s)]> old) ≡ₚ session_out s ++ rest.
Proof.
  intros Hi. pose proof (lookup_lt_Some _ _ _ Hi) as Hlt.
  exists (concat ((session_out ∘ snd) <$> take i old) ++ concat ((session_out ∘ snd) <$> drop (S i) old)).
  rewrite <- (take_drop_middle old i us Hi) at 1. rewrite insert_take_drop by done.
  rewrite !fmap_app, !fmap_cons, !concat_app. cbn [concat compose snd].
  split; solve_Permutation.
Qed.

Lemma life_old_inv bb bn v i a l l' :
  life_step v (LifeOld i a) l = Some l' → life_inv bb bn l → life_inv bb bn l'.
Proof.
  cbn. destruct (task_action a) eqn:Ea; [|done].
  intros (us & Hus & (s & Hs & [= <-])%bind_Some)%bind_Some Hi. unfold life_inv in *.
  destruct (old_out_insert i us s (li_old l) Hus) as (rest & E1 & E2).
  set (cur := from_option session_out [] (current l)).
  eapply (ledger_perm _ _ _ (session_out s ++ (cur ++ rest))).
  { unfold life_out. change (current (set_old _ _ l)) with (current l). cbn [li_old set_old].
    rewrite E2. fold cur. solve_Permutation. }
  assert (session_action a = true) as Ea' by (by destruct a).
  eapply (session_step_ledger _ _ _ _ _ _ _ _ Ea' Hs).
  eapply ledger_perm; [|exact Hi]. unfold life_out. rewrite E1. fold cur.
  change (session_out (attach _ _ us.2)) with (session_out us.2). solve_Permutation.
Qed.

Lemma life_session_inv bb bn v a l l' :
  life_step v (LifeSession a) l = Some l' → life_inv bb bn l → life_inv bb bn l'.
Proof.
  cbn. destruct (li_loop l) as [| |b slept env u s|] eqn:El; try done.
  destruct (session_action a) eqn:Ea; [|done]. intros (s' & Hs & [= <-])%bind_Some Hi.
  unfold life_inv, life_out, current in *. rewrite El in Hi. cbn in Hi |- *.
  by apply (session_step_ledger _ _ _ _ _ _ _ _ Ea Hs).
Qed.

(** The loop between sessions. *)
Lemma loop_goes_inv bb bn o l l' :
  li_old l' = li_old l → li_recorded l' = li_recorded l → current l = None →
  metrics (step_runner o) = metrics (li_runner l) → life_inv bb bn l → life_inv bb bn (loop_goes o l').
Proof.
  intros E1 E2 Hc Hm. apply life_inv_keep; [done| |done]. unfold life_out. rewrite Hc. cbn.
  unfold current. rewrite E1. by destruct o.
Qed.

(** A session that could not open its Channel. *)
Lemma unopened_fails code level cfg env r :
  channel_opened cfg (le_session env) r = None →
  ∃ e c, ∀ hooks, run_session code level cfg hooks (le_session env) r = (Err e, with_client c r).
Proof.
  unfold channel_opened, run_session. destruct (authed_client _ _) as [[[ch token]|e] c]; [|by eauto].
  destruct (channel_metadata _ _ _) as [md|st]; [|by eauto].
  destruct (se_channel _ ch md) as [[]|st]; [done|by eauto].
Qed.

Lemma channel_opened_metrics cfg (env : @SessionEnv _ Channel QuotaStatus) r uid r' :
  channel_opened cfg env r = Some (uid, r') → keeps r r'.
Proof.
  unfold channel_opened. repeat case_match; try done. by intros [= _ <-].
Qed.

Lemma loop_head_inv bb bn b l :
  li_loop l = LpTop b → life_inv bb bn l → life_inv bb bn (loop_head b l).
Proof.
  intros El Hi. assert (current l = None) as Hc by (unfold current; by rewrite El).
  unfold loop_head. destruct (li_stopping l); [by apply loop_goes_inv with l|].
  apply (life_inv_keep _ _ l); try done. unfold life_out. by rewrite Hc.
Qed.

Lemma loop_connect_inv bb bn v env b l :
  li_loop l = LpConnect b → life_inv bb bn l → life_inv bb bn (loop_connect v env b l).
Proof.
  intros El Hi. assert (current l = None) as Hc by (unfold current; by rewrite El).
  unfold loop_connect.
  pose proof (refresh_token_keeps (lf_cfg v) env (li_runner l) (λ slept r, LNext slept b r)
    ltac:(done)) as (Hm & _).
  destruct (refresh_token _ _ _ _) as [r'|e r'|slept b' r'|r'|r']; cbn [step_runner] in Hm;
    try by apply loop_goes_inv with l.
  destruct (channel_opened _ _ r') as [[uid r0]|] eqn:Eo.
  - destruct (channel_opened_metrics _ _ _ _ _ Eo) as (Hm' & _).
    apply (life_inv_keep _ _ l); try done; [cbn; congruence|].
    unfold life_out. rewrite Hc. done.
  - destruct (unopened_fails (lf_code v) (lf_level v) (lf_cfg v) env r' Eo) as (e & c & Hrs).
    rewrite Hrs.
    apply loop_goes_inv with l; try done.
    destruct (after_session_keeps (lf_cfg v) (lf_hooks v) env slept b' (Err e) (with_client c r')) as [-> _].
    done.
Qed.

Lemma life_returned_inv bb bn v l l' :
  life_step v LifeReturned l = Some l' → life_inv bb bn l → life_inv bb bn l'.
Proof.
  cbn. destruct (li_loop l) as [| |b slept env u s|] eqn:El; try done.
  destruct (ss_main s) as [| | | | | | |res] eqn:Em; try done. intros [= <-].
  destruct (after_session_keeps (lf_cfg v) (lf_hooks v) env slept b res (li_runner l)) as [Hm _].
  apply life_inv_keep; [done| |done]. unfold life_out, current. rewrite El. cbn.
  rewrite fmap_app, concat_app. cbn. rewrite app_nil_r.
  change (session_out (set_runner _ s)) with (session_out s).
  destruct (after_session _ _ _ _ _ _ _); cbn; solve_Permutation.
Qed.

(** A step of the run loop itself leaves the buffer, the flag and the record alone,
    and the session that returned with the finished ones. *)
Definition loop_action (a : LifeAction) : bool :=
  match a with LifeHead | LifeConnect _ | LifeReturned => true | _ => false end.

Lemma loop_step_frame v a l l' :
  loop_action a = true → life_step v a l = Some l' →
  metrics (li_runner l') = metrics (li_runner l) ∧ li_stopping l' = li_stopping l ∧
  li_recorded l' = li_recorded l ∧
  (li_old l' = li_old l ∨
   ∃ b slept env u s res, li_loop l = LpIn b slept env u s ∧ ss_main s = MReturned res ∧
     li_old l' = (li_old l ++ [(u, set_runner (li_runner l) s)])%list).
Proof.
  intros Ha Hs. destruct a as [a|a|i a| |env|]; try discriminate Ha; clear Ha; cbn in Hs.
  - destruct (li_loop l); try done. injection Hs as <-. unfold loop_head.
    destruct (li_stopping l) eqn:E; cbn; rewrite ?E; auto.
  - destruct (li_loop l) as [|b| |]; try done. injection Hs as <-. unfold loop_connect.
    pose proof (refresh_token_keeps (lf_cfg v) env (li_runner l) (λ slept r, LNext slept b r)
      ltac:(done)) as (Hm & _).
    destruct (refresh_token _ _ _ _) as [r|e r|slept b' r|r|r]; cbn [step_runner] in Hm;
      try (unfold loop_goes; cbn; rewrite Hm; auto).
    destruct (channel_opened _ _ r) as [[uid r']|] eqn:Eo.
    + destruct (channel_opened_metrics _ _ _ _ _ Eo) as (Hm' & _). cbn. split_and!; auto. congruence.
    + destruct (unopened_fails (lf_code v) (lf_level v) (lf_cfg v) env r Eo) as (e & c & Hrs). rewrite Hrs.
      destruct (after_session_keeps (lf_cfg v) (lf_hooks v) env slept b' (Err e) (with_client c r)) as [E _].
      unfold loop_goes. cbn [li_runner set_life]. rewrite E, <- Hm. auto.
  - destruct (li_loop l) as [| |b slept env u s|]; try done.
    destruct (ss_main s) as [| | | | | | |res] eqn:Em; try done. injection Hs as <-.
    destruct (after_session_keeps (lf_cfg v) (lf_hooks v) env slept b res (li_runner l)) as [E _].
    unfold loop_goes. cbn [li_runner set_life set_old]. split_and!; [by rewrite E|done|done|]. right.
    by exists b, slept, env, u, s, res.
Qed.

(** What every step keeps an execution keeps. *)
Lemma life_run_keeps v (P : Life → Prop) acts l l' :
  (∀ a l l', a ∈ acts → life_step v a l = Some l' → P l → P l') →
  life_run v acts l = Some l' → P l → P l'.
Proof.
  revert l. induction acts as [|a acts IH]; intros l Hk; cbn [life_run]; [by intros [= <-]|].
  intros (l1 & E1 & E2)%bind_Some Hp. eapply (IH l1); [|done|].
  - intros a' l2 l2' Hin. apply Hk. by right.
  - eapply Hk; [by left|done..].
Qed.

Lemma life_step_inv bb bn v a l l' :
  life_action_ok a → life_step v a l = Some l' → life_inv bb bn l → life_inv bb bn l'.
Proof.
  intros Ha Hs Hi. destruct a as [a|a|i a| |env|].
  - cbn in Hs. injection Hs as <-. by apply life_host_inv.
  - by eapply life_session_inv.
  - by eapply life_old_inv.
  - cbn in Hs. destruct (li_loop l) eqn:El; try done. injection Hs as <-. by apply loop_head_inv.
  - cbn in Hs. destruct (li_loop l) eqn:El; try done. injection Hs as <-. by apply loop_connect_inv.
  - by eapply life_returned_inv.
Qed.

Lemma life_run_inv bb bn v acts l l' :
  Forall life_action_ok acts → life_run v acts l = Some l' → life_inv bb bn l → life_inv bb bn l'.
Proof.
  intros Ha. apply life_run_keeps. intros a l1 l2 Hin. apply life_step_inv.
  by apply (proj1 (Forall_forall _ _) Ha).
Qed.

(** C1: no tool call is lost or counted twice over the life of an agent, through any
    number of sessions, reconnects and re-enrolments, in any interleaving of the run
    loop, the current session, the tasks of earlier sessions that were aborted and
    have not stopped yet, and the host: the billable calls that any session's channel
    accepted, that any session's task or flush holds or gave up, and that are in the
    buffer, drop counts included, are those the agent began with plus those recorded
    since (modulo the 64-bit counters); likewise the non-billable ones. *)
Theorem life_conserves_calls v b r acts l :
  Metrics.Inner_wf (metrics r) → Forall life_action_ok acts →
  life_run v acts (life_init b r) = Some l →
  eq64 (life_billable l)
    (ledger_billable (metrics r) + Z.of_nat (count_if billable (li_recorded l))) ∧
  eq64 (life_non_billable l)
    (ledger_non_billable (metrics r) + Z.of_nat (count_if non_billable_sample (li_recorded l))) ∧
  Metrics.Inner_wf (metrics (li_runner l)).
Proof.
  intros Hw Ha Hr.
  assert (life_inv (ledger_billable (metrics r)) (ledger_non_billable (metrics r)) l) as [K1 _ K2 K3].
  { eapply life_run_inv; [done..|]. split; cbn; [done|constructor| |]; apply eq64_of_eq; lia. }
  split_and!; done.
Qed.
End life.

(** ** A batch handed on from one session to the next *)

#[local] Existing Instance demo_grpc.

Definition life_setup : @LifeSetup concrete_bundle := {|
  lf_code := outcome_code; lf_level := λ _, 0%Z; lf_cfg := demo_runner_config;
  lf_hooks := rejecting_hooks; lf_status := false
|}.

Definition accepted_loop : @LoopEnv concrete_bundle unit unit := {|
  le_stopping := false; le_enroll := demo_register; le_session := accepted_env;
  le_factor := 1%Q; le_reenroll := demo_register
|}.

(** A session loses its stream while its metrics task is about to send a batch; the
    loop reconnects; the old task's cancellation takes effect only then and hands the
    batch back, and the new session reports it. *)
Definition handed_on : list (@LifeAction concrete_bundle unit unit) :=
  [LifeHead; LifeConnect accepted_loop; LifeHost (HostRecord call); LifeSession (Met MetTick);
   LifeSession (Met (MetDrain epoch)); LifeSession (Main (MainPoll (InItem (Some (Err rejection)))));
   LifeSession (Main MainAbort); LifeSession (Main MainAbort); LifeSession (Main MainAbort);
   LifeSession (Main MainAbort); LifeSession (Main MainLoad); LifeReturned;
   LifeHead; LifeConnect accepted_loop; LifeSession (Hb (HbTick 0)); LifeOld 0 (Cancel TMetrics);
   LifeSession (Met MetTick); LifeSession (Met (MetDrain epoch)); LifeSession (Met MetSend)].

Definition handed_on_end : @Life concrete_bundle unit unit :=
  default (life_init demo_backoff holder) (life_run life_setup handed_on (life_init demo_backoff holder)).

Lemma handed_on_reached :
  life_run life_setup handed_on (life_init demo_backoff holder) = Some handed_on_end.
Proof. apply some_default. vm_compute. reflexivity. Qed.

Lemma life_conserves_calls_witness :
  length (li_old handed_on_end) = 1%nat ∧ length <$> (ss_shipped <$> current handed_on_end) = Some 1%nat ∧
  count_if billable (li_recorded handed_on_end) = 1%nat ∧ eq64 (life_billable handed_on_end) 1.
Proof.
  split; [vm_compute; reflexivity|]. split; [vm_compute; reflexivity|]. split; [vm_compute; reflexivity|].
  assert (Forall life_action_ok handed_on) as Ha by (repeat constructor).
  exact (proj1 (life_conserves_calls life_setup demo_backoff holder handed_on handed_on_end
    (MetricsFacts.with_caps_wf _ _) Ha handed_on_reached)).
Defined.
