(* ===== verification/LifetimeRefinement.v ===== *)
(** * The life of an agent against the sequential run loop

    Every execution of [Lifetime] is, on the control state, an execution of
    [run_loop_from] of [Agent]: the concurrent sessions become sequential ones by
    [SessionControl], and the tasks that outlive their session do not reach the
    control state.  What is proved of [run_loop] thereby holds of the concurrent
    agent. *)

From stdpp Require Import base list strings gmap.
From Stdlib Require Import ZArith QArith Lia Morphisms.
From S2P Require Import Prelude Time BTree Proto Text Serde Concrete Errors Token F64 Backoff.
From S2P Require Import Metrics MetricsFacts FlushLoop FlushLoopFacts Ledger Logs Status.
From S2P Require Import Crypto Dek Fs FsFacts Lkg LkgFacts License Creds Client Runner Inbound Control.
From S2P Require Import Agent LoopControl SessionFacts LoopFacts Session SessionSafety SessionWire.
From S2P Require Import SessionControl Lifetime.

Local Open Scope string_scope.
Local Open Scope list_scope.

(** ** The sequential session works on the control state *)

Section sequential.
Context `{!Json, !Base64, !Rfc3339, !Aead, !Hkdf, !BundleCodec, !Grpc}.
Context {Channel QuotaStatus : Type}.
Abbreviation Runner := (@Runner _ Channel QuotaStatus).
Abbreviation LoopEnv := (@LoopEnv _ Channel QuotaStatus).
Abbreviation LoopStep := (@LoopStep _ Channel QuotaStatus).
Implicit Types (r : Runner) (o : LoopStep) (env : LoopEnv).

(** The same result over equivalent runners. *)
Definition same_result (x x' : Result () Error * Runner) : Prop := x.1 = x'.1 ∧ x.2 ≡ x'.2.

Lemma inbound_resume_equiv cfg hooks nonce uid open_ k (s s' : @InboundPc _ * Runner) :
  same_state s s' →
  same_state (inbound_resume cfg hooks nonce uid open_ k s) (inbound_resume cfg hooks nonce uid open_ k s').
Proof.
  revert s s'. induction k as [|k IH]; intros s s' Hs; [done|]. cbn [inbound_resume].
  assert (inbound_answer hooks open_ s = inbound_answer hooks open_ s') as ->.
  { destruct s as [pc r], s' as [pc' r'], Hs as [E H']. cbn in E, H'. subst pc'. unfold inbound_answer.
    cbn. by rewrite (host_calls_proper _ _ H'). }
  destruct (inbound_answer hooks open_ s') as [i|]; [|done]. cbn [mbind option_bind].
  assert (same_state s' s) as Hs' by (destruct Hs as [? E]; split; [done|by symmetry]).
  destruct (inbound_poll cfg hooks nonce uid i s) as [s1|] eqn:E1.
  - destruct (inbound_poll_proper _ _ _ _ _ _ _ _ Hs E1) as (s1' & -> & H1'). by apply IH.
  - destruct (inbound_poll cfg hooks nonce uid i s') as [s1'|] eqn:E1'; [|done].
    destruct (inbound_poll_proper _ _ _ _ _ _ _ _ Hs' E1') as (s1 & E1'' & _). congruence.
Qed.

Lemma handle_message_equiv cfg hooks nonce uid open_ msg r r' :
  r ≡ r' → same_result (handle_message cfg hooks nonce uid open_ msg r)
                       (handle_message cfg hooks nonce uid open_ msg r').
Proof.
  intros Hr. pose proof (inbound_resume_equiv cfg hooks nonce uid open_ 2 _ _
    (inbound_start_proper cfg hooks nonce uid msg _ _ Hr)) as Hs.
  rewrite !inbound_resume_handler in Hs. unfold same_result.
  destruct (handle_message _ _ _ _ _ _ r) as [[[]|e] r1], (handle_message _ _ _ _ _ _ r') as [[[]|e'] r1'];
    destruct Hs as [E1 E2]; by simplify_eq/=.
Qed.

Lemma read_inbound_equiv cfg hooks nonce uid stream r r' :
  r ≡ r' → same_result (read_inbound cfg hooks nonce uid stream r) (read_inbound cfg hooks nonce uid stream r').
Proof.
  revert r r'. induction stream as [|[[msg|st] open_] stream IH]; intros r r' Hr; [done| |done].
  cbn [read_inbound]. destruct (handle_message_equiv cfg hooks nonce uid open_ msg r r' Hr) as [E1 E2].
  destruct (handle_message _ _ _ _ _ _ r) as [[[]|e] r1], (handle_message _ _ _ _ _ _ r') as [[[]|e'] r1'];
    simplify_eq/=; [by apply IH|done].
Qed.

Lemma inbound_cut_equiv cfg hooks nonce uid n inside stream r r' :
  r ≡ r' → same_result (inbound_cut cfg hooks nonce uid n inside stream r)
                       (inbound_cut cfg hooks nonce uid n inside stream r').
Proof.
  intros Hr. unfold inbound_cut.
  destruct (read_inbound_equiv cfg hooks nonce uid (take n stream) r r' Hr) as [E1 E2].
  destruct (read_inbound _ _ _ _ _ r) as [[[]|e] r1], (read_inbound _ _ _ _ _ r') as [[[]|e'] r1'];
    simplify_eq/=; [|done].
  destruct inside as [k|]; [|done]. destruct (stream !! n) as [[[msg|st] open_]|]; [|done..].
  pose proof (inbound_resume_equiv cfg hooks nonce uid open_ k _ _
    (inbound_start_proper cfg hooks nonce uid msg _ _ E2)) as [F1 F2].
  destruct (inbound_resume _ _ _ _ _ _ (inbound_start _ _ _ _ _ r1)) as [pc r2],
    (inbound_resume _ _ _ _ _ _ (inbound_start _ _ _ _ _ r1')) as [pc' r2'].
  cbn [fst snd] in F1, F2. subst pc'. by destruct pc.
Qed.

Lemma session_inbound_equiv cfg hooks nonce uid stream cut r r' :
  r ≡ r' → same_result (session_inbound cfg hooks nonce uid stream cut r)
                       (session_inbound cfg hooks nonce uid stream cut r').
Proof.
  intros Hr. destruct cut as [[n inside]|]; [by apply inbound_cut_equiv|by apply read_inbound_equiv].
Qed.

Lemma run_session_equiv code level cfg hooks (env : @SessionEnv _ Channel QuotaStatus) r r' :
  r ≡ r' → same_result (run_session code level cfg hooks env r) (run_session code level cfg hooks env r').
Proof.
  intros Hr. unfold run_session. rewrite (client_proper _ _ Hr).
  destruct (authed_client _ _) as [[[ch token]|e] c]; [|split; [done|by apply with_client_proper]].
  cbn [client with_client]. destruct (match channel_metadata _ _ _ with Ok md => _ | Err _ => _ end);
    [|split; [done|by apply with_client_proper]].
  destruct (session_inbound_equiv cfg hooks (se_nonce env)
    (unwrap_str (t ← current_jwt c; jwt_instance_uid t)) (se_inbound env) (se_shutdown env)
    (emit ChannelConnected (with_client c r)) (emit ChannelConnected (with_client c r'))) as [E1 E2];
    [by apply emit_proper, with_client_proper|].
  unfold session_inbound in E1, E2.
  destruct (match se_shutdown env with Some _ => _ | None => _ end) as [res r1].
  destruct (match se_shutdown env with Some _ => _ | None => _ end) as [res' r1'].
  cbn [fst snd] in E1, E2. subst res'. destruct (se_background _ _) as [m1 l1], (se_background _ _) as [m2 l2].
  split; [done|]. cbn [snd]. destruct (se_stopping env).
  - rewrite !flush_remaining_equiv. exact E2.
  - exact E2.
Qed.

(** ** Iterations *)

Lemma loop_iteration_equiv code level cfg hooks env b r r' :
  r ≡ r' → loop_iteration code level cfg hooks env b r ≡ loop_iteration code level cfg hooks env b r'.
Proof.
  intros Hr. unfold loop_iteration. destruct (le_stopping env); [done|].
  apply refresh_token_equiv; [done|]. intros sl r1 r1' H1'.
  destruct (run_session_equiv code level cfg hooks (le_session env) r1 r1' H1') as [E1 E2].
  destruct (run_session _ _ _ _ _ r1) as [res r2], (run_session _ _ _ _ _ r1') as [res' r2'].
  cbn [fst snd] in E1, E2. subst res'. by apply after_session_proper.
Qed.

(** The environment of an iteration whose session received a given stream. *)
Definition with_session (senv : @SessionEnv _ Channel QuotaStatus) env : LoopEnv :=
  {| le_stopping := false; le_enroll := le_enroll env; le_session := senv;
     le_factor := le_factor env; le_reenroll := le_reenroll env |}.

(** The environment of an iteration that finds [stopping] set at its head and meets
    nothing. *)
Definition last_env : LoopEnv :=
  let nobody : @RegisterEnv Channel :=
    {| re_os := ""; re_arch := ""; re_var := λ _, None; re_attempts := [] |} in
  {| le_stopping := true; le_enroll := nobody; le_factor := 1%Q; le_reenroll := nobody;
     le_session := {| se_dial := λ _ _, Err (anyhow ""); se_nonce := ""; se_process_id := "";
       se_channel := λ _ _, Ok tt; se_inbound := []; se_shutdown := None;
       se_background := λ bufs, bufs; se_stopping := false; se_room := 0; se_now := λ _, epoch |} |}.

(** The loop forgets how long an iteration slept. *)
Definition forget_slept o : LoopStep := match o with LNext _ b r => LNext [] b r | o => o end.

Lemma forget_slept_equiv o o' : o ≡ o' → forget_slept o ≡ forget_slept o'.
Proof. destruct o, o'; try done. intros (_ & -> & E). cbn [forget_slept]. by split_and!. Qed.

Lemma run_loop_from_snoc code level cfg hooks envs env b r :
  run_loop_from code level cfg hooks (envs ++ [env]) b r =
  match run_loop_from code level cfg hooks envs b r with
  | LNext _ b r => forget_slept (loop_iteration code level cfg hooks env b r)
  | o => o
  end.
Proof.
  revert b r. induction envs as [|e envs IH]; intros b r; cbn [app run_loop_from].
  - by destruct (loop_iteration _ _ _ _ env b r).
  - destruct (loop_iteration _ _ _ _ e b r); try done.
Qed.

(** One more iteration, on a runner equivalent to the one the loop has. *)
Lemma run_loop_from_extend code level cfg hooks envs env b b1 r r1 :
  run_loop_from code level cfg hooks envs b r ≡ LNext [] b1 r1 →
  run_loop_from code level cfg hooks (envs ++ [env]) b r ≡
  forget_slept (loop_iteration code level cfg hooks env b1 r1).
Proof.
  intros E. rewrite run_loop_from_snoc. destruct (run_loop_from _ _ _ _ envs b r); try done.
  destruct E as (_ & -> & E). by apply forget_slept_equiv, loop_iteration_equiv.
Qed.
End sequential.

(** ** What the loop met *)

Section met.
Context `{!Json, !Base64, !Rfc3339, !Aead, !Hkdf, !BundleCodec, !Grpc}.
Context {Channel QuotaStatus : Type}.
Abbreviation Action := (@Action _ QuotaStatus).
Abbreviation LifeAction := (@LifeAction _ Channel QuotaStatus).
Abbreviation LoopEnv := (@LoopEnv _ Channel QuotaStatus).
Abbreviation Life := (@Life _ Channel QuotaStatus).

(** The iterations of an execution that went past the head of the loop: what each met,
    and the steps of its session. *)
Definition visit_step (vs : list (LoopEnv * list Action)) (a : LifeAction) : list (LoopEnv * list Action) :=
  match a with
  | LifeConnect env => vs ++ [(env, [])]
  | LifeSession a => alter (λ w, (w.1, w.2 ++ [a])) (pred (length vs)) vs
  | _ => vs
  end.
Definition visits (acts : list LifeAction) : list (LoopEnv * list Action) :=
  fold_left visit_step acts [].

(** The environment of such an iteration: with the items its reader was given, cut
    where it was dropped. *)
Definition visit_env (w : LoopEnv * list Action) : LoopEnv :=
  with_session (with_inbound (received (polls true w.2)) (cut_in w.2) (le_session w.1)) w.1.

(** The answers of the applier along an execution. *)
Definition life_answer (a : LifeAction) (l : Life) : list (nat * Result () string) :=
  match a with LifeSession a => session_answer a (li_runner l) | _ => [] end.

Fixpoint life_answers (v : LifeSetup) (acts : list LifeAction) (l : Life)
    : list (nat * Result () string) :=
  match acts with
  | [] => []
  | a :: acts => life_answer a l ++ from_option (life_answers v acts) [] (life_step v a l)
  end.

Lemma visits_met acts : Forall (λ w, LifeConnect w.1 ∈ acts) (visits acts).
Proof.
  induction acts as [|a acts IH] using rev_ind; [constructor|]. unfold visits. rewrite fold_left_app.
  fold (visits acts). cbn [fold_left].
  assert (Forall (λ w, LifeConnect w.1 ∈ acts ++ [a]) (visits acts)) as Hf.
  { eapply Forall_impl; [exact IH|]. simpl. intros w Hw. apply elem_of_app. by left. }
  destruct a; cbn [visit_step]; try done.
  - by apply Forall_alter.
  - apply Forall_app. split; [done|]. apply Forall_singleton, elem_of_app. right. by apply list_elem_of_singleton.
Qed.
End met.

(** ** The simulation *)

Section simulation.
Context `{!Json, !Base64, !Rfc3339, !Aead, !Hkdf, !BundleCodec, !Grpc}.
Context {Channel QuotaStatus : Type}.
Abbreviation Runner := (@Runner _ Channel QuotaStatus).
Abbreviation Session := (@Session _ Channel QuotaStatus).
Abbreviation LoopEnv := (@LoopEnv _ Channel QuotaStatus).
Abbreviation LoopStep := (@LoopStep _ Channel QuotaStatus).
Abbreviation Life := (@Life _ Channel QuotaStatus).
Abbreviation Visits := (list (LoopEnv * list (@Action _ QuotaStatus))).
Abbreviation Answers := (list (nat * Result () string)).
Context (v : LifeSetup) (b0 : Backoff) (r0 : Runner) (asked : Prop).
Implicit Types (r : Runner) (o : LoopStep) (env : LoopEnv) (s : Session) (l : Life)
  (vs : Visits) (log : Answers).

Definition sequential (ans : nat → Result () string) (envs : list LoopEnv) : LoopStep :=
  run_loop_from (lf_code v) (lf_level v) (lf_cfg v) (with_answers (lf_hooks v) ans) envs b0 r0.

(** The sequential loop gets to [o] on [envs], with every host that gave the answers of
    [log]. *)
Definition reaches log (envs : list LoopEnv) o : Prop := ∀ ans, agrees ans log → sequential ans envs ≡ o.

Lemma reaches_equiv log envs o o' : o ≡ o' → reaches log envs o → reaches log envs o'.
Proof. intros E Hr ans Ha. etransitivity; [by apply Hr|done]. Qed.

(** One answer a call, to the calls made so far. *)
Definition log_ok log r : Prop :=
  NoDup log.*1 ∧ Forall (λ n, (n < length (host_calls r))%nat) log.*1.

Lemma log_ok_le log r r' :
  (length (host_calls r) ≤ length (host_calls r'))%nat → log_ok log r → log_ok log r'.
Proof. intros Hle [Hn Hf]. split; [done|]. eapply Forall_impl; [exact Hf|]. simpl. lia. Qed.

Lemma log_ok_equiv log r r' : r' ≡ r → log_ok log r → log_ok log r'.
Proof. intros E. apply log_ok_le. by rewrite (host_calls_proper _ _ E). Qed.

Lemma log_ok_app log log' r r' :
  log_ok log r → NoDup log'.*1 →
  Forall (λ n, (length (host_calls r) ≤ n < length (host_calls r'))%nat) log'.*1 →
  (length (host_calls r) ≤ length (host_calls r'))%nat → log_ok (log ++ log') r'.
Proof.
  intros [Hn Hf] Hn' Hf' Hle. unfold log_ok. rewrite fmap_app. split.
  - apply NoDup_app. split_and!; [done| |done]. intros n Hin Hin'. rewrite Forall_forall in Hf, Hf'.
    specialize (Hf n Hin). specialize (Hf' n Hin'). lia.
  - apply Forall_app. split; eapply Forall_impl; try done; simpl; lia.
Qed.

(** An iteration on. *)
Lemma reaches_next log log' envs env b r o :
  reaches log envs (LNext [] b r) →
  (∀ ans, agrees ans log' →
     loop_iteration (lf_code v) (lf_level v) (lf_cfg v) (with_answers (lf_hooks v) ans) env b r ≡ o) →
  reaches (log ++ log') (envs ++ [env]) (forget_slept o).
Proof.
  intros Hr Hi ans [Ha Ha']%agrees_app.
  etransitivity; [by apply run_loop_from_extend, Hr|]. by apply forget_slept_equiv, Hi.
Qed.

(** A session of the loop: the iteration it belongs to, begun where the sequential
    loop is, and its reader so far. *)
Record in_session vs log (b : Backoff) (slept : list Duration) env (u : SessionSetup) s : Prop := {
  is_reached : ∃ before sacts log0 log1 r r1 uid r2,
    vs = before ++ [(env, sacts)] ∧ log = log0 ++ log1 ∧ log_ok log0 r ∧
    reaches log0 (visit_env <$> before) (LNext [] b r) ∧
    refresh_token (lf_cfg v) env r (λ slept r, LNext slept b r) = LNext slept b r1 ∧
    channel_opened (lf_cfg v) (le_session env) r1 = Some (uid, r2) ∧
    u = session_setup v env uid ∧ reader_ok u r2 sacts log1 s;
  is_pending : pending_ok (lf_code v) s
}.

Definition background_ok l : Prop :=
  Forall (λ us, su_code us.1 = lf_code v ∧ pending_ok (lf_code v) us.2) (li_old l) ∧
  (li_stopping l = true → asked).

(** The outcome of a loop that went through these iterations: at its head it returns
    only if it was asked to. *)
Definition ended vs log o : Prop :=
  match o with
  | LReturn _ => asked ∧ reaches log ((visit_env <$> vs) ++ [last_env]) o
  | LNext _ _ _ => False
  | _ => reaches log (visit_env <$> vs) o
  end.

Definition simulated vs log l : Prop :=
  background_ok l ∧
  match li_loop l with
  | LpTop b | LpConnect b =>
      log_ok log (li_runner l) ∧ reaches log (visit_env <$> vs) (LNext [] b (li_runner l))
  | LpIn b slept env u s =>
      in_session vs log b slept env u (attach (li_runner l) (li_stopping l) s)
  | LpOver o => log_ok log (li_runner l) ∧ ended vs log o ∧ step_runner o ≡ li_runner l
  end.

(** A session that is looked at, and one that ends an iteration. *)
Lemma in_session_keep vs log b slept env u s s' :
  ss_runner s' ≡ ss_runner s → (ss_notified s = true → ss_notified s' = true) →
  ss_main s' = ss_main s → ss_open s' = ss_open s → pending_ok (lf_code v) s' →
  in_session vs log b slept env u s → in_session vs log b slept env u s'.
Proof.
  intros E Hn Hm Ho Hp [(before & sacts & log0 & log1 & r & r1 & uid & r2 & K1 & K2 & K3 & K4 & K5 & K6 & K7 & K8) _].
  split; [|done]. exists before, sacts, log0, log1, r, r1, uid, r2. split_and!; try done.
  by eapply reader_ok_same.
Qed.

Lemma in_session_step vs log b slept env u a s s' :
  session_step u a s = Some s' → in_session vs log b slept env u s →
  in_session (visit_step vs (LifeSession a)) (log ++ session_answer a (ss_runner s)) b slept env u s'.
Proof.
  intros Hs [(before & sacts & log0 & log1 & r & r1 & uid & r2 & K1 & K2 & K3 & K4 & K5 & K6 & K7 & K8) Hp].
  assert (su_code u = lf_code v) as Eu by (by rewrite K7). split; [|by eapply pending_step].
  exists before, (sacts ++ [a]), log0, (log1 ++ session_answer a (ss_runner s)), r, r1, uid, r2.
  split_and!; try done.
  - rewrite K1. cbn [visit_step]. rewrite length_app. cbn [length]. rewrite Nat.add_1_r. cbn [pred].
    by rewrite alter_app_r_alt, Nat.sub_diag by done.
  - by rewrite K2, (assoc_L app).
  - eapply session_step_reader; [by rewrite Eu|done|done].
Qed.

(** The iteration of the sequential loop, the session apart. *)
Lemma iteration_unfold ans (senv : @SessionEnv _ Channel QuotaStatus) env b r :
  loop_iteration (lf_code v) (lf_level v) (lf_cfg v) (with_answers (lf_hooks v) ans)
    (with_session senv env) b r =
  match refresh_token (lf_cfg v) env r (λ slept r, LNext slept b r) with
  | LNext slept _ r =>
      let '(res, r) := run_session (lf_code v) (lf_level v) (lf_cfg v) (with_answers (lf_hooks v) ans)
        senv r in after_session (lf_cfg v) (lf_hooks v) env slept b res r
  | o => o
  end.
Proof. unfold loop_iteration. cbn [le_stopping with_session]. by rewrite (refresh_token_continue _ _ _ b). Qed.

Lemma in_session_end vs log b slept env u s res :
  in_session vs log b slept env u s → ss_main s = MReturned res →
  let o := after_session (lf_cfg v) (lf_hooks v) env slept b res (ss_runner s) in
  log_ok log (step_runner o) ∧ reaches log (visit_env <$> vs) (forget_slept o).
Proof.
  intros [(before & sacts & log0 & log1 & r & r1 & uid & r2 & -> & -> & K3 & K4 & K5 & K6 & -> & K8) _] Em o.
  destruct K8 as [_ K8]. rewrite Em in K8. cbn [main_result] in K8.
  destruct (reader_done_sequential _ _ _ _ _ _ K8) as (Hnd & Hb & Hlen & _ & Hans).
  pose proof (refresh_token_keeps (lf_cfg v) env r (λ slept r, LNext slept b r) ltac:(done)) as (_ & _ & Hk1).
  rewrite K5 in Hk1. cbn [step_runner] in Hk1.
  destruct (after_session_keeps (lf_cfg v) (lf_hooks v) env slept b res (ss_runner s)) as (_ & _ & Hk2).
  destruct (channel_opened_metrics _ _ _ _ _ K6) as (_ & _ & Hk3).
  split.
  { apply (log_ok_le _ (ss_runner s)); [done|].
    apply (log_ok_app _ _ r2); [by apply (log_ok_le _ r); [lia|]|done..]. }
  rewrite fmap_app. apply (reaches_next _ _ _ _ b r); [done|]. intros ans Ha.
  destruct (Hans ans Ha) as (r' & Hsi & E). unfold visit_env. cbn [fst snd].
  rewrite iteration_unfold, K5.
  destruct (run_session_opened (lf_code v) (lf_level v) (lf_cfg v) (with_answers (lf_hooks v) ans)
    (le_session env) r1 uid r2 (received (polls true sacts)) (cut_in sacts) K6) as [E1 E2].
  cbn [su_cfg su_hooks su_nonce su_uid session_setup] in Hsi. rewrite Hsi in E1, E2.
  destruct (run_session _ _ _ _ _ r1) as [res' r3]. cbn [fst snd] in E1, E2. subst res'.
  apply (after_session_proper (lf_cfg v) (lf_hooks v) env slept b res). by rewrite E2, E.
Qed.

(** ** Every step *)

Lemma attach_keep vs log r r' st st' b slept env u s :
  r' ≡ r → in_session vs log b slept env u (attach r st s) →
  in_session vs log b slept env u (attach r' st' s).
Proof. intros E Hi. eapply in_session_keep; [..|exact Hi]; try done. by destruct Hi as [_ []]. Qed.

(** A step that changes the control state no more than the tasks do. *)
Lemma simulated_keep vs log l l' :
  li_runner l' ≡ li_runner l → li_loop l' = li_loop l →
  background_ok l' → simulated vs log l → simulated vs log l'.
Proof.
  intros E El Ho [_ Hs]. split; [done|]. rewrite El. destruct (li_loop l) as [b|b|b slept env u s|o].
  1,2: (destruct Hs as [Hl Hs]; split; [by eapply log_ok_equiv|]; eapply reaches_equiv; [|done];
        split_and!; [done|done|by symmetry]).
  - by eapply attach_keep.
  - destruct Hs as (Hl & Hr & E'). split_and!; [by eapply log_ok_equiv|done|].
    etransitivity; [done|by symmetry].
Qed.

Lemma host_simulated vs log a l :
  (a = HostTrigger → asked) → simulated vs log l → simulated vs log (life_host a l).
Proof.
  intros Ha Hs. pose proof Hs as [Ho Hl]. destruct a; try (by apply (simulated_keep _ _ l)).
  { apply (simulated_keep _ _ l); try done. split; [apply Ho|auto]. }
  cbn. destruct (li_loop l) as [| |b slept env u s|] eqn:El; try done.
  split; [done|]. cbn. eapply in_session_keep; [..|exact Hl]; try done.
  - cbn. intros ->. apply orb_true_r.
  - by destruct Hl as [_ []].
Qed.

(** The messages of a finished session's channel aside. *)
Lemma outbound_apart msgs r r' :
  r' ≡ with_outbound msgs r → with_outbound (outbound r) r' ≡ r.
Proof. solve_control. Qed.

Lemma old_simulated vs log i a l l' :
  life_step v (LifeOld i a) l = Some l' → simulated vs log l → simulated vs log l'.
Proof.
  cbn. destruct (task_action a) eqn:Ea; [|done].
  intros (us & Hus & (s & Hs & [= <-])%bind_Some)%bind_Some Hsim. pose proof Hsim as [[Ho Hst] _].
  pose proof (proj1 (Forall_lookup _ _) Ho i us Hus) as [Eu Hp].
  set (s0 := attach _ _ us.2) in Hs.
  assert (pending_ok (su_code us.1) s0) as Hp0 by (rewrite Eu; by destruct Hp).
  destruct (other_step_control us.1 a s0 s Hp0 ltac:(by destruct a) Hs) as [E _].
  apply (simulated_keep _ _ l); [by apply outbound_apart in E|done| |done].
  split; [|done]. apply Forall_insert; [done|]. split; [done|]. rewrite <- Eu. by eapply pending_step.
Qed.

(** The loop after an iteration. *)
Lemma loop_goes_simulated vs log o l' :
  (∀ r, o ≠ LReturn r) → background_ok l' → log_ok log (step_runner o) →
  reaches log (visit_env <$> vs) (forget_slept o) → simulated vs log (loop_goes o l').
Proof. intros Hne Ho Hl Hr. split; [done|]. cbn. destruct o as [r|e r|sl b r|r|r]; try done. by destruct (Hne r). Qed.

(** Nothing but the flag makes the loop return. *)
Lemma refresh_token_goes_on cfg env r b r' :
  refresh_token cfg env r (λ slept r, LNext slept b r) ≠ LReturn r'.
Proof.
  unfold refresh_token. case_match; [|done]. case_match; [|done].
  unfold after_register. by repeat case_match.
Qed.

Lemma after_session_goes_on cfg hooks env slept b res r r' :
  after_session cfg hooks env slept b res r ≠ LReturn r'.
Proof. unfold after_session, after_register. by repeat case_match. Qed.

(** An iteration that opens no session. *)
Lemma loop_goes_iteration vs log o env b l :
  li_loop l = LpConnect b → simulated vs log l → (∀ r, o ≠ LReturn r) →
  (length (host_calls (li_runner l)) ≤ length (host_calls (step_runner o)))%nat →
  (∀ ans, loop_iteration (lf_code v) (lf_level v) (lf_cfg v) (with_answers (lf_hooks v) ans)
       (visit_env (env, [])) b (li_runner l) ≡ o) → simulated (vs ++ [(env, [])]) log (loop_goes o l).
Proof.
  intros El [Hb Hl] Hne Hle Hi. rewrite El in Hl. destruct Hl as [Hlog Hr].
  apply loop_goes_simulated; [done|done|by eapply log_ok_le|].
  rewrite <- (app_nil_r log), fmap_app. by apply (reaches_next _ _ _ _ b (li_runner l)).
Qed.

Lemma loop_head_simulated vs log b l :
  li_loop l = LpTop b → simulated vs log l → simulated vs log (loop_head b l).
Proof.
  intros El [Hb Hl]. rewrite El in Hl. unfold loop_head.
  destruct (li_stopping l) eqn:Est; [|by split]. destruct Hl as [Hlog Hr].
  split; [done|]. cbn. split; [done|]. split; [|done]. split; [by apply Hb|].
  rewrite <- (app_nil_r log).
  by apply (reaches_next log [] (visit_env <$> vs) last_env b (li_runner l) (LReturn (li_runner l))).
Qed.

(** A Channel that does not open, whatever would have come down it. *)
Lemma unopened_inbound code level cfg hooks env stream cut r :
  channel_opened cfg (le_session env) r = None →
  run_session code level cfg hooks (with_inbound stream cut (le_session env)) r =
  run_session code level cfg hooks (le_session env) r.
Proof.
  unfold channel_opened, run_session.
  change (se_dial (with_inbound stream cut (le_session env))) with (se_dial (le_session env)).
  destruct (authed_client _ _) as [[[ch token]|e] c]; [|done].
  change (channel_metadata cfg (with_inbound stream cut (le_session env)) token)
    with (channel_metadata cfg (le_session env) token).
  destruct (channel_metadata _ _ _) as [md|st]; [|done]. cbn [se_channel with_inbound].
  by destruct (se_channel _ ch md) as [[]|st].
Qed.

Lemma loop_connect_simulated vs log env b l :
  li_loop l = LpConnect b → simulated vs log l →
  simulated (visit_step vs (LifeConnect env)) log (loop_connect v env b l).
Proof.
  intros El Hs. unfold loop_connect. cbn [visit_step].
  destruct (refresh_token_keeps (lf_cfg v) env (li_runner l) (λ slept r, LNext slept b r)
    ltac:(done)) as (_ & _ & Hk).
  pose proof (refresh_token_goes_on (lf_cfg v) env (li_runner l) b) as Hne.
  pose proof (λ ans senv, iteration_unfold ans senv env b (li_runner l)) as Hit.
  destruct (refresh_token _ _ _ _) as [r'|e r'|slept b' r'|r'|r'] eqn:Et; cbn [step_runner] in Hk;
    try (apply (loop_goes_iteration _ _ _ _ b); try done; intros ans; unfold visit_env; by rewrite Hit).
  pose proof (refresh_token_next _ _ _ _ _ _ _ Et) as ->.
  destruct (channel_opened _ _ r') as [[uid r2]|] eqn:Eo.
  - destruct Hs as [Ho Hl]. rewrite El in Hl. destruct Hl as [Hlog Hr]. split; [done|]. cbn [li_loop set_life].
    split; [|apply session_init_pending]. exists vs, [], log, [], (li_runner l), r', uid, r2.
    split_and!; try done; [by rewrite app_nil_r|]. apply session_init_reader.
  - destruct (unopened_fails (lf_code v) (lf_level v) (lf_cfg v) env r' Eo) as (e & c & Hrs).
    rewrite Hrs. apply (loop_goes_iteration _ _ _ _ b); [done|done|apply after_session_goes_on| |].
    + destruct (after_session_keeps (lf_cfg v) (lf_hooks v) env slept b (Err e) (with_client c r'))
        as (_ & _ & Hk'). cbn [host_calls with_client] in Hk'. lia.
    + intros ans. unfold visit_env. rewrite Hit. cbn [fst snd]. by rewrite unopened_inbound, Hrs.
Qed.

Lemma life_step_simulated vs log a l l' :
  (a = LifeHost HostTrigger → asked) → life_step v a l = Some l' → simulated vs log l →
  simulated (visit_step vs a) (log ++ life_answer a l) l'.
Proof.
  intros Ha Hs Hsim. destruct a as [a|a|i a| |env|]; cbn [life_answer]; rewrite ?app_nil_r.
  - injection Hs as <-. apply host_simulated; [|done]. intros ->. auto.
  - cbn in Hs. destruct (li_loop l) as [| |b slept env u s|] eqn:El; try done.
    destruct (session_action a); [|done]. apply bind_Some in Hs as (s' & Hs & [= <-]).
    destruct Hsim as [Ho Hl]. rewrite El in Hl. split; [done|].
    pose proof (in_session_step _ _ _ _ _ _ _ _ _ Hs Hl) as Hi.
    cbn [li_loop set_life li_runner li_stopping]. eapply in_session_keep; [..|exact Hi]; try done.
    by destruct Hi as [_ []].
  - by eapply old_simulated.
  - cbn in Hs. destruct (li_loop l) eqn:El; try done. injection Hs as <-. by apply loop_head_simulated.
  - cbn in Hs. destruct (li_loop l) eqn:El; try done. injection Hs as <-.
    by apply loop_connect_simulated.
  - cbn in Hs. destruct (li_loop l) as [| |b slept env u s|] eqn:El; try done.
    destruct (ss_main s) as [| | | | | | |res] eqn:Em; try done. injection Hs as <-.
    destruct Hsim as [[Ho Hst] Hl]. rewrite El in Hl.
    destruct (in_session_end _ _ _ _ _ _ _ res Hl Em) as [Hlog Hr].
    destruct Hl as [(before & sacts & log0 & log1 & r & r1 & uid & r2 & _ & _ & _ & _ & _ & _ & Eu & _) Hp].
    apply loop_goes_simulated; [apply after_session_goes_on| |exact Hlog|exact Hr].
    split; [|done]. cbn. apply Forall_app. split; [done|].
    apply Forall_singleton. cbn. rewrite Eu. split; [done|]. by destruct Hp.
Qed.

Lemma life_run_simulated vs log acts l l' :
  (LifeHost HostTrigger ∈ acts → asked) → life_run v acts l = Some l' → simulated vs log l →
  simulated (fold_left visit_step acts vs) (log ++ life_answers v acts l) l'.
Proof.
  revert vs log l. induction acts as [|a acts IH]; intros vs log l Ha; cbn [life_run life_answers fold_left].
  - intros [= <-]. by rewrite app_nil_r.
  - intros (l1 & E1 & E2)%bind_Some Hsim. rewrite E1. cbn [from_option]. rewrite (assoc_L app).
    apply IH; [intros Hin; apply Ha; by right|done|].
    eapply life_step_simulated; [|done|done]. intros ->. apply Ha. by left.
Qed.

Lemma life_init_simulated : simulated [] [] (life_init b0 r0).
Proof. split; [by split; [constructor|]|]. split; [by split; constructor|]. by intros ans _. Qed.
End simulation.

Section refinement.
Context `{!Json, !Base64, !Rfc3339, !Aead, !Hkdf, !BundleCodec, !Grpc}.
Context {Channel QuotaStatus : Type}.
Implicit Types (v : LifeSetup) (r : @Runner _ Channel QuotaStatus) (l : @Life _ Channel QuotaStatus)
  (acts : list (@LifeAction _ Channel QuotaStatus)).

Lemma life_sequential v b r acts l :
  life_run v acts (life_init b r) = Some l →
  simulated v b r (LifeHost HostTrigger ∈ acts) (visits acts) (life_answers v acts (life_init b r)) l.
Proof.
  intros Hr. by apply (life_run_simulated v b r (LifeHost HostTrigger ∈ acts) [] [] acts _ l
    ltac:(done) Hr (life_init_simulated v b r _)).
Qed.

(** The answers were to different calls, so there is a host that gives them. *)
Lemma life_answers_agree v b r acts l :
  life_run v acts (life_init b r) = Some l →
  agrees (answers_of (life_answers v acts (life_init b r))) (life_answers v acts (life_init b r)).
Proof.
  intros Hr. apply answers_of_agrees. destruct (life_sequential v b r acts l Hr) as [_ Hl].
  destruct (li_loop l) as [b'|b'|b' slept env u s|o]; [apply Hl|apply Hl| |apply Hl].
  destruct Hl as [(before & sacts & log0 & log1 & r1 & r2 & uid & r3 & _ & -> & K3 & _ & K5 & K6 & _ & K8) _].
  pose proof (refresh_token_keeps (lf_cfg v) env r1 (λ slept r, LNext slept b' r) ltac:(done)) as (_ & _ & Hk1).
  rewrite K5 in Hk1. cbn [step_runner] in Hk1.
  destruct (channel_opened_metrics _ _ _ _ _ K6) as (_ & _ & Hk2).
  destruct (reader_ok_answers _ _ _ _ _ K8) as (Hnd & Hb & Hle).
  apply (log_ok_app _ _ r3 (ss_runner (attach (li_runner l) (li_stopping l) s))); try done.
  by apply (log_ok_le _ r1); [lia|].
Qed.

(** C3: the concurrent agent refines the sequential one: in every execution of the
    agent's life, however its sessions, the tasks they leave behind, the host and the
    transport are interleaved, the run loop has the outcome, the backoff and the
    control state (disk and clock, client, payload key, quota, configuration hash,
    host calls, events but heartbeats, acknowledgements) of [run_loop_from] on the
    iterations it went through, in their order: each with the dials, registrations and
    jitter it met and exactly the items its session's reader was polled with, cut
    where the [select!] dropped the reader if it did; then one that finds [stopping]
    set at its head if the loop has returned, which it has only if the host asked for
    a shutdown; and with a host that gives the applier's calls the answers they got.
    While a session goes on, this holds of the iterations before. *)
Theorem life_refines_run_loop v b r acts l :
  life_run v acts (life_init b r) = Some l →
  let log := life_answers v acts (life_init b r) in
  agrees (answers_of log) log ∧
  ∀ ans, agrees ans log →
    let run ws := run_loop_from (lf_code v) (lf_level v) (lf_cfg v) (with_answers (lf_hooks v) ans) ws b r in
    match li_loop l with
    | LpTop b' | LpConnect b' => run (visit_env <$> visits acts) ≡ LNext [] b' (li_runner l)
    | LpIn b' _ env _ _ =>
        ∃ before sacts r', visits acts = before ++ [(env, sacts)] ∧
          run (visit_env <$> before) ≡ LNext [] b' r'
    | LpOver (LReturn r') =>
        LifeHost HostTrigger ∈ acts ∧ r' ≡ li_runner l ∧
        run ((visit_env <$> visits acts) ++ [last_env]) ≡ LReturn r'
    | LpOver (LNext _ _ _) => False
    | LpOver o => run (visit_env <$> visits acts) ≡ o ∧ step_runner o ≡ li_runner l
    end.
Proof.
  intros Hr. split; [by eapply life_answers_agree|]. intros ans Ha.
  destruct (life_sequential v b r acts l Hr) as [_ Hl]. cbv zeta.
  destruct (li_loop l) as [b'|b'|b' slept env u s|o].
  1,2: (destruct Hl as [_ Hl]; by apply Hl).
  - destruct Hl as [(before & sacts & log0 & log1 & r1 & r2 & uid & r3 & K1 & K2 & _ & K4 & _) _].
    exists before, sacts, r1. split; [done|]. apply K4. rewrite K2 in Ha. by apply agrees_app in Ha as [? _].
  - destruct Hl as (_ & He & E). destruct o; try done; try (split; [by apply He|done]).
    destruct He as [Hasked He]. split_and!; [done|done|by apply He].
Qed.

(** What the run loop is at, whatever it met. *)
Lemma life_loop_ok v r acts l :
  cfg_ok (lf_cfg v) → (∀ env, LifeConnect env ∈ acts → env_ok env) →
  life_run v acts (life_init
    (Backoff_new (rc_backoff_initial (lf_cfg v)) (rc_backoff_max (lf_cfg v)) true) r) = Some l →
  match li_loop l with
  | LpTop b | LpConnect b | LpIn b _ _ _ _ => loop_backoff b
  | LpOver (LReturn _) => LifeHost HostTrigger ∈ acts
  | LpOver (LPending _) => True
  | LpOver _ => False
  end.
Proof.
  intros Hcfg Henv Hr. pose proof (life_answers_agree _ _ _ _ _ Hr) as Ha.
  destruct (life_sequential _ _ _ _ _ Hr) as [_ Hl].
  assert (∀ before, (∃ after, visits acts = before ++ after) → Forall env_ok (visit_env <$> before)) as Hok.
  { intros before [after E]. pose proof (visits_met acts) as Hm. rewrite E in Hm.
    apply Forall_app in Hm as [Hm _]. apply Forall_fmap. eapply Forall_impl; [exact Hm|].
    intros w Hw. cbn. by destruct (Henv _ Hw). }
  assert (∃ after, visits acts = visits acts ++ after) as Hself by (exists []; by rewrite app_nil_r).
  revert Ha. generalize (answers_of (life_answers v acts (life_init
    (Backoff_new (rc_backoff_initial (lf_cfg v)) (rc_backoff_max (lf_cfg v)) true) r))). intros ans Ha.
  assert (∀ ws o, Forall env_ok ws → sequential v
    (Backoff_new (rc_backoff_initial (lf_cfg v)) (rc_backoff_max (lf_cfg v)) true) r ans ws ≡ o →
    match o with LNext _ b _ => loop_backoff b | LReturn _ | LPending _ => True | _ => False end) as Hend.
  { intros ws o Hw E. pose proof (run_loop_from_ok (lf_code v) (lf_level v) (lf_cfg v)
      (with_answers (lf_hooks v) ans) ws _ r Hcfg Hw (loop_backoff_new _ Hcfg)) as Hend.
    unfold sequential in E. destruct (run_loop_from _ _ _ _ _ _ _), o; try done.
    destruct E as (_ & <- & _). apply Hend. }
  destruct (li_loop l) as [b'|b'|b' slept env u s|o].
  1,2: (destruct Hl as [_ Hl]; by apply (Hend _ _ (Hok _ Hself) (Hl _ Ha))).
  - destruct Hl as [(before & sacts & log0 & log1 & r1 & r2 & uid & r3 & K1 & K2 & _ & K4 & _) _].
    rewrite K2 in Ha. apply agrees_app in Ha as [Ha _].
    by apply (Hend _ _ (Hok before (ex_intro _ _ K1)) (K4 _ Ha)).
  - destruct Hl as (_ & He & _).
    destruct o as [r'|e r'|sl b' r'|r'|r']; try done; [by destruct He| |];
      by apply (Hend _ _ (Hok _ Hself) (He _ Ha)).
Qed.

End refinement.

(** ** The properties on a concrete execution *)

#[local] Existing Instance demo_grpc.

(** The agent after a session the control plane ended by rejecting its token. *)
Definition reenrolled : @Life concrete_bundle unit unit :=
  default (life_init demo_backoff holder)
    (life_run life_setup (take 12 handed_on) (life_init demo_backoff holder)).

Lemma reenrolled_reached :
  life_run life_setup (take 12 handed_on) (life_init demo_backoff holder) = Some reenrolled.
Proof. apply some_default. vm_compute. reflexivity. Qed.

Lemma life_refines_run_loop_witness :
  (λ w, received (polls true w.2)) <$> visits (take 12 handed_on) = [[(Err rejection, true)]] ∧
  match run_loop_from outcome_code (λ _, 0%Z) demo_runner_config
      (with_answers rejecting_hooks (λ _, Ok tt)) (visit_env <$> visits (take 12 handed_on))
      demo_backoff holder with
  | LNext _ _ r => r ≡ li_runner reenrolled ∧ current_jwt (client r) = Some (rr_instance_jwt demo_response)
  | _ => False
  end.
Proof.
  split; [reflexivity|].
  destruct (life_refines_run_loop life_setup demo_backoff holder (take 12 handed_on) reenrolled
    reenrolled_reached) as [_ E].
  assert (life_answers life_setup (take 12 handed_on) (life_init demo_backoff holder) = []) as El
    by (vm_compute; reflexivity).
  rewrite El in E. specialize (E (λ _, Ok tt) (List.Forall_nil _)).
  assert (∃ b, li_loop reenrolled = LpTop b) as [b Eb] by (eexists; vm_compute; reflexivity).
  rewrite Eb in E. cbn [lf_code lf_level lf_cfg lf_hooks life_setup] in E.
  destruct (run_loop_from _ _ _ _ _ _ _) as [r|e r|sl b' r|r|r]; try (exfalso; exact E).
  destruct E as (_ & _ & E). split; [exact E|]. rewrite (client_proper _ _ E). vm_compute. reflexivity.
Defined.

