(* ===== verification/Shutdown.v ===== *)
(** * Graceful shutdown: [AgentShutdown] of [src/agent.rs]

    The threads of a shutdown and their interleavings: the caller of [trigger],
    the run loop, and a caller of [finished].  Each step is one atomic access to a
    flag or to a [tokio::sync::Notify].  Of [Notify] the model has its documented
    behaviour: [notify_waiters] reaches exactly the [Notified] futures that exist
    at that moment, polled or not, and stores no permit for later ones. *)

From stdpp Require Import base relations.
From Stdlib Require Import ZArith Lia.
From S2P Require Import Prelude.

(** Where the run loop is. *)
Inductive RunnerPc :=
| RCheck      (** at the load of [stopping] at the loop's head *)
| RConnect    (** past it: token check, connect, the Channel call *)
| RSession    (** in the [select!] of [run_session], its [Notified] created *)
| REnded      (** after the [select!], before the load of [stopping] there *)
| RSleep      (** between a session and the loop's head *)
| RFinish     (** about to store [shutdown_finished] *)
| RNotify     (** about to call [shutdown_done.notify_waiters] *)
| RReturned.

(** Where a caller of [trigger] is. *)
Inductive TriggerPc := TIdle | TStored | TDone.

(** Where a caller of [finished] is. *)
Inductive FinishedPc :=
| FFirstLoad
| FCreate
| FSecondLoad
| FAwait
| FReturned.

#[export] Instance RunnerPc_eq_dec : EqDecision RunnerPc.
Proof. solve_decision. Defined.
#[export] Instance TriggerPc_eq_dec : EqDecision TriggerPc.
Proof. solve_decision. Defined.
#[export] Instance FinishedPc_eq_dec : EqDecision FinishedPc.
Proof. solve_decision. Defined.

Record Shutdown := {
  stopping : bool;
  finished_flag : bool;
  runner : RunnerPc;
  trigger_pc : TriggerPc;
  finished_pc : FinishedPc;
  (** the run loop's current [Notified] was reached by a notification *)
  runner_woken : bool;
  (** the waiter of [finished] was reached by a notification *)
  finished_woken : bool;
  (** [flush_remaining] has run *)
  flushed : bool;
  (** sessions that were entered with [stopping] already set *)
  late_sessions : nat
}.

Definition shutdown_init : Shutdown := {|
  stopping := false; finished_flag := false; runner := RCheck; trigger_pc := TIdle;
  finished_pc := FFirstLoad; runner_woken := false; finished_woken := false; flushed := false;
  late_sessions := 0
|}.

Definition set_runner (pc : RunnerPc) (s : Shutdown) : Shutdown :=
  {| stopping := stopping s; finished_flag := finished_flag s; runner := pc;
     trigger_pc := trigger_pc s; finished_pc := finished_pc s; runner_woken := runner_woken s;
     finished_woken := finished_woken s; flushed := flushed s; late_sessions := late_sessions s |}.

Definition set_finished_pc (pc : FinishedPc) (s : Shutdown) : Shutdown :=
  {| stopping := stopping s; finished_flag := finished_flag s; runner := runner s;
     trigger_pc := trigger_pc s; finished_pc := pc; runner_woken := runner_woken s;
     finished_woken := finished_woken s; flushed := flushed s; late_sessions := late_sessions s |}.

(** [notify_waiters] on the shutdown [Notify]. *)
Definition notify_runner (s : Shutdown) : bool :=
  if decide (runner s = RSession) then true else runner_woken s.

(** A waiter of [finished] exists. *)
Definition has_waiter (pc : FinishedPc) : bool :=
  match pc with FSecondLoad | FAwait => true | _ => false end.

(** ** The threads *)

(** [AgentShutdown::trigger]. *)
Inductive trigger_step : Shutdown → Shutdown → Prop :=
| trigger_store s :
    trigger_pc s ≠ TStored →
    trigger_step s
      {| stopping := true; finished_flag := finished_flag s; runner := runner s;
         trigger_pc := TStored; finished_pc := finished_pc s; runner_woken := runner_woken s;
         finished_woken := finished_woken s; flushed := flushed s;
         late_sessions := late_sessions s |}
| trigger_notify s :
    trigger_pc s = TStored →
    trigger_step s
      {| stopping := stopping s; finished_flag := finished_flag s; runner := runner s;
         trigger_pc := TDone; finished_pc := finished_pc s; runner_woken := notify_runner s;
         finished_woken := finished_woken s; flushed := flushed s;
         late_sessions := late_sessions s |}.

(** [AgentShutdown::finished]. *)
Inductive finished_step : Shutdown → Shutdown → Prop :=
| finished_load1 s :
    finished_pc s = FFirstLoad →
    finished_step s (set_finished_pc (if finished_flag s then FReturned else FCreate) s)
| finished_create s :
    finished_pc s = FCreate →
    finished_step s
      {| stopping := stopping s; finished_flag := finished_flag s; runner := runner s;
         trigger_pc := trigger_pc s; finished_pc := FSecondLoad; runner_woken := runner_woken s;
         finished_woken := false; flushed := flushed s; late_sessions := late_sessions s |}
| finished_load2 s :
    finished_pc s = FSecondLoad →
    finished_step s (set_finished_pc (if finished_flag s then FReturned else FAwait) s)
| finished_wake s :
    finished_pc s = FAwait → finished_woken s = true →
    finished_step s (set_finished_pc FReturned s).

(** The run loop. *)
Inductive runner_step : Shutdown → Shutdown → Prop :=
| run_check s :
    runner s = RCheck → runner_step s (set_runner (if stopping s then RFinish else RConnect) s)
| run_connect_failed s :
    runner s = RConnect → runner_step s (set_runner RSleep s)
| run_connected s :
    runner s = RConnect →
    runner_step s
      {| stopping := stopping s; finished_flag := finished_flag s; runner := RSession;
         trigger_pc := trigger_pc s; finished_pc := finished_pc s; runner_woken := false;
         finished_woken := finished_woken s; flushed := flushed s;
         late_sessions := if stopping s then S (late_sessions s) else late_sessions s |}
| run_stream_ended s :
    runner s = RSession → runner_step s (set_runner REnded s)
| run_notified s :
    runner s = RSession → runner_woken s = true → runner_step s (set_runner REnded s)
| run_after_session s pc :
    runner s = REnded → (pc = RSleep ∨ pc = RCheck) →
    runner_step s
      {| stopping := stopping s; finished_flag := finished_flag s; runner := pc;
         trigger_pc := trigger_pc s; finished_pc := finished_pc s; runner_woken := runner_woken s;
         finished_woken := finished_woken s;
         flushed := if stopping s then true else flushed s; late_sessions := late_sessions s |}
| run_slept s :
    runner s = RSleep → runner_step s (set_runner RCheck s)
| run_finish s :
    runner s = RFinish →
    runner_step s
      {| stopping := stopping s; finished_flag := true; runner := RNotify;
         trigger_pc := trigger_pc s; finished_pc := finished_pc s; runner_woken := runner_woken s;
         finished_woken := finished_woken s; flushed := flushed s;
         late_sessions := late_sessions s |}
| run_notify s :
    runner s = RNotify →
    runner_step s
      {| stopping := stopping s; finished_flag := finished_flag s; runner := RReturned;
         trigger_pc := trigger_pc s; finished_pc := finished_pc s; runner_woken := runner_woken s;
         finished_woken := if has_waiter (finished_pc s) then true else finished_woken s;
         flushed := flushed s; late_sessions := late_sessions s |}.

Inductive shutdown_step (s s' : Shutdown) : Prop :=
| step_trigger : trigger_step s s' → shutdown_step s s'
| step_finished : finished_step s s' → shutdown_step s s'
| step_runner : runner_step s s' → shutdown_step s s'.

Definition shutdown_reachable (s : Shutdown) : Prop := rtc shutdown_step shutdown_init s.

(** ** Invariant *)

Record shutdown_inv (s : Shutdown) : Prop := {
  (** the flag and the loop's position agree *)
  si_finished : finished_flag s = true ↔ runner s = RNotify ∨ runner s = RReturned;
  (** the loop stops only because it was asked to *)
  si_stopping : runner s = RFinish ∨ finished_flag s = true → stopping s = true;
  (** a waiting caller of [finished] has a notification coming or received *)
  si_await : finished_pc s = FAwait → runner s = RReturned → finished_woken s = true;
  (** sessions entered after the request *)
  si_late : late_sessions s ≤ 1;
  si_late_head : stopping s = false → late_sessions s = 0;
  si_late_now : stopping s = true → runner s = RConnect → late_sessions s = 0
}.

Lemma shutdown_inv_init : shutdown_inv shutdown_init.
Proof. split; simpl; try done; [naive_solver|naive_solver|lia]. Qed.

Lemma trigger_step_inv s s' : trigger_step s s' → shutdown_inv s → shutdown_inv s'.
Proof.
  intros Hstep [H1 H2 H3 H4 H5 H6]. destruct Hstep as [s Ht|s Ht]; split; simpl in *; auto;
    try discriminate.
  intros _ Hr. destruct (stopping s); auto.
Qed.

Lemma finished_step_inv s s' : finished_step s s' → shutdown_inv s → shutdown_inv s'.
Proof.
  intros Hstep [H1 H2 H3 H4 H5 H6].
  destruct Hstep as [s Hf|s Hf|s Hf|s Hf Hw]; split; simpl in *; auto; try done.
  - intros Ha Hr. by destruct (finished_flag s).
  - intros Ha Hr. destruct (finished_flag s) eqn:E; [done|].
    assert (false = true) by (apply H1; auto). done.
Qed.

Lemma runner_step_inv s s' : runner_step s s' → shutdown_inv s → shutdown_inv s'.
Proof.
  intros Hstep [H1 H2 H3 H4 H5 H6].
  assert (finished_flag s = false ∨ runner s = RNotify ∨ runner s = RReturned) as Hff.
  { destruct (finished_flag s); [right; by apply H1|by left]. }
  destruct Hstep as [s Hr|s Hr|s Hr|s Hr|s Hr Hw|s pc Hr Hpc|s Hr|s Hr|s Hr]; rewrite Hr in *;
    split; simpl in *; try (destruct Hpc; subst); try destruct (stopping s) eqn:Es;
    intuition (try congruence; try lia).
  match goal with Hf : finished_pc _ = FAwait |- _ => by rewrite Hf end.
Qed.

Lemma shutdown_reachable_inv s : shutdown_reachable s → shutdown_inv s.
Proof.
  unfold shutdown_reachable. revert s.
  apply (rtc_ind_r (R := shutdown_step) shutdown_inv shutdown_init); [apply shutdown_inv_init|].
  intros y z _ [Ht|Hf|Hn] Hy;
    [by eapply trigger_step_inv|by eapply finished_step_inv|by eapply runner_step_inv].
Qed.

(** ** Main properties *)

(** A caller of [finished] at or past its first load, on its own. *)
Lemma finished_returns_alone s :
  finished_flag s = true → (finished_pc s = FAwait → finished_woken s = true) →
  ∃ s', rtc finished_step s s' ∧ finished_pc s' = FReturned.
Proof.
  intros Hf Hw. destruct (finished_pc s) eqn:E.
  - eexists. split; [apply rtc_once, finished_load1, E|]. by rewrite Hf.
  - eexists. split.
    + eapply rtc_l; [by apply finished_create|]. eapply rtc_l; [by apply finished_load2|]. apply rtc_refl.
    + simpl. by rewrite Hf.
  - eexists. split; [apply rtc_once, finished_load2, E|]. by rewrite Hf.
  - eexists. split; [apply rtc_once, finished_wake; auto|done].
  - by exists s.
Qed.

(** C23: [finished] never misses the end: once the run loop has returned, a caller
    of [finished], wherever it is in the function, returns by its own steps
    alone; and it has not returned before the loop has raised the flag, which the
    loop does only after a request. *)
Theorem finished_never_hangs s :
  shutdown_reachable s → runner s = RReturned →
  stopping s = true ∧ finished_flag s = true ∧
  ∃ s', rtc finished_step s s' ∧ finished_pc s' = FReturned.
Proof.
  intros Hr Hret. destruct (shutdown_reachable_inv s Hr) as [H1 H2 H3 _ _ _].
  assert (finished_flag s = true) as Hf by (apply H1; auto).
  split; [auto|]. split; [done|]. apply finished_returns_alone; auto.
Qed.

(** After a request at most one more session is started (the one whose connect
    was already under way), and the loop returns only if it was asked to. *)
Theorem at_most_one_session_after_trigger s :
  shutdown_reachable s →
  late_sessions s ≤ 1 ∧ (runner s = RReturned → stopping s = true) ∧
  (stopping s = true → runner s = RCheck → ∀ s', runner_step s s' → runner s' = RFinish).
Proof.
  intros Hr. destruct (shutdown_reachable_inv s Hr) as [H1 H2 _ H4 _ _]. split_and!; [done| |].
  - intros E. apply H2. right. apply H1. auto.
  - intros Hs Hc s' Hstep. destruct Hstep; simplify_eq/=; rewrite ?Hs; congruence.
Qed.

(** A request that arrives while the agent is connecting is lost to the session
    it is about to start: a state is reachable in which [trigger] has returned, the
    agent is in that session, and no step of the run loop is possible but the end
    of the stream, so the shutdown waits for the control plane to close it. *)
Theorem trigger_during_connect_is_lost :
  ∃ s, shutdown_reachable s ∧ trigger_pc s = TDone ∧ stopping s = true ∧ runner s = RSession ∧
    flushed s = false ∧
    ∀ s', runner_step s s' → s' = set_runner REnded s ∧ runner_woken s = false.
Proof.
  eexists. split.
  { eapply rtc_l; [apply step_runner, run_check; reflexivity|].
    eapply rtc_l; [apply step_trigger, trigger_store; discriminate|].
    eapply rtc_l; [apply step_trigger, trigger_notify; reflexivity|].
    eapply rtc_l; [apply step_runner, run_connected; reflexivity|]. apply rtc_refl. }
  simpl. split_and!; try done. intros s' Hstep. by inversion Hstep; simplify_eq/=.
Qed.

(** [finished] can return without anything having been shipped: when the
    request arrives while no session is open, the loop returns at once and the
    buffers are not flushed. *)
Theorem finish_without_flush_reachable :
  ∃ s, shutdown_reachable s ∧ runner s = RReturned ∧ finished_flag s = true ∧ flushed s = false.
Proof.
  eexists. split.
  { eapply rtc_l; [apply step_trigger, trigger_store; discriminate|].
    eapply rtc_l; [apply step_runner, run_check; reflexivity|].
    eapply rtc_l; [apply step_runner, run_finish; reflexivity|].
    eapply rtc_l; [apply step_runner, run_notify; reflexivity|]. apply rtc_refl. }
  by simpl.
Qed.

(** ** The properties on a concrete run *)

Definition returned_run : Shutdown := {|
  stopping := true; finished_flag := true; runner := RReturned; trigger_pc := TStored;
  finished_pc := FAwait; runner_woken := false; finished_woken := true; flushed := false;
  late_sessions := 0
|}.

Lemma returned_run_reachable : shutdown_reachable returned_run.
Proof.
  eapply rtc_l; [apply step_finished, finished_load1; reflexivity|].
  eapply rtc_l; [apply step_finished, finished_create; reflexivity|].
  eapply rtc_l; [apply step_finished, finished_load2; reflexivity|].
  eapply rtc_l; [apply step_trigger, trigger_store; discriminate|].
  eapply rtc_l; [apply step_runner, run_check; reflexivity|].
  eapply rtc_l; [apply step_runner, run_finish; reflexivity|].
  eapply rtc_l; [apply step_runner, run_notify; reflexivity|]. apply rtc_refl.
Qed.

Lemma finished_never_hangs_witness :
  ∃ s', rtc finished_step returned_run s' ∧ finished_pc s' = FReturned.
Proof. apply (finished_never_hangs returned_run returned_run_reachable eq_refl). Defined.

Lemma at_most_one_session_after_trigger_witness : late_sessions returned_run ≤ 1.
Proof. apply (at_most_one_session_after_trigger returned_run returned_run_reachable). Defined.
