(* ===== verification/LifetimeShutdown.v ===== *)
(** * Graceful shutdown of the whole agent

    A shutdown requested of the agent of [Lifetime]: the session that is in its
    [select!] is told, or nobody is; the loop opens no further session and returns.
    Once nothing but the reader can delay it, a stopped agent has a bounded number of
    steps left, and can take each of them or waits for room in the Channel.  A request
    that comes while the agent connects reaches nobody: the session it is about to
    open ends only with its stream. *)

From stdpp Require Import base list strings gmap relations.
From Stdlib Require Import ZArith QArith Lia Morphisms.
From S2P Require Import Prelude Shutdown Time BTree Proto Text Serde Concrete Errors Token F64 Backoff.
From S2P Require Import Metrics MetricsFacts FlushLoop FlushLoopFacts Ledger Logs Status.
From S2P Require Import Crypto Dek Fs FsFacts Lkg LkgFacts License Creds Client Runner Inbound Control.
From S2P Require Import Agent LoopControl SessionFacts LoopFacts Session SessionSafety SessionWire.
From S2P Require Import SessionControl Lifetime LifetimeRefinement.

Local Open Scope string_scope.
Local Open Scope list_scope.

Section shutdown.
Context `{!Json, !Base64, !Rfc3339, !Aead, !Hkdf, !BundleCodec, !Grpc}.
Context {Channel QuotaStatus : Type}.
Abbreviation Runner := (@Runner _ Channel QuotaStatus).
Abbreviation Session := (@Session.Session _ Channel QuotaStatus).
Abbreviation Life := (@Life _ Channel QuotaStatus).
Abbreviation LifeAction := (@LifeAction _ Channel QuotaStatus).
Implicit Types (v : @LifeSetup _) (l : Life) (s : Session) (r : Runner) (o : @LoopStep _ Channel QuotaStatus).

(** ** A stopped agent *)

(** A stopped agent whose loop is only delayed by what it has begun: it connects to
    nothing, and its session knows. *)
Definition winding_down l : Prop :=
  li_stopping l = true ∧
  match li_loop l with
  | LpConnect _ => False
  | LpIn _ _ _ _ s => ss_notified s = true ∨ past_select s
  | _ => True
  end.

Definition is_told l : bool :=
  li_stopping l &&
  match li_loop l with LpConnect _ => false | LpIn _ _ _ _ s => ss_notified s | _ => true end.

Lemma is_told_winding_down l : is_told l = true → winding_down l.
Proof. unfold is_told, winding_down. intros [-> Hw]%andb_true_iff. split; [done|]. by destruct (li_loop l); [| |left|]. Qed.

(** A step of the run loop other than a poll of the reader. *)
Definition loop_own (a : LifeAction) : bool :=
  match a with
  | LifeHead | LifeConnect _ | LifeReturned => true
  | LifeSession (Main (MainPoll _)) | LifeSession (Main MainAck) => false
  | LifeSession (Main _) => true
  | _ => false
  end.

(** Steps the loop has left, at most. *)
Definition session_rank s : nat :=
  match ss_main s with MSelect _ => 72 | _ => main_rank s end.

Definition life_rank l : nat :=
  match li_loop l with
  | LpTop _ => 1
  | LpConnect _ => 0
  | LpIn _ _ _ _ s => 2 + session_rank s
  | LpOver _ => 0
  end.

(** The sessions opened so far. *)
Definition sessions_opened l : nat :=
  length (li_old l) + match li_loop l with LpIn _ _ _ _ _ => 1 | _ => 0 end.

(** ** Each step *)

Lemma rank_past s : past_select s → session_rank s = main_rank s.
Proof. unfold past_select, session_rank. by destruct (ss_main s). Qed.

Lemma select_or_past s : (∃ pc, ss_main s = MSelect pc) ∨ past_select s.
Proof. unfold past_select. destruct (ss_main s); eauto. Qed.

(** The reader's steps, and the end of its [select!]. *)
Lemma after_poll_rank s (st : @InboundPc _ * Runner) pc :
  ss_main s = MSelect pc → (session_rank (after_poll s st) ≤ session_rank s)%nat ∧
  ss_notified (after_poll s st) = ss_notified s.
Proof.
  intros Em. split; [|done]. unfold session_rank, main_rank, after_poll. rewrite Em.
  destruct st as [[] r]; cbn; unfold metrics_rank, logs_rank, MAX_SHUTDOWN_FLUSH_BATCHES; lia.
Qed.

Lemma select_step_rank u a s s' pc :
  ss_main s = MSelect pc → session_step u (Main a) s = Some s' →
  ((if loop_own (LifeSession (Main a)) then 1 else 0) + session_rank s' ≤ session_rank s)%nat ∧
  ss_notified s' = ss_notified s.
Proof.
  intros Em. cbn [session_step]. unfold main_step. rewrite Em. unfold select_step.
  destruct a as [i| | | | | |]; try done.
  - destruct i; try done; intros (st & _ & ->)%fmap_Some; by eapply after_poll_rank.
  - destruct (blocked s); [done|]. intros (st & _ & ->)%fmap_Some. by eapply after_poll_rank.
  - destruct (ss_notified s) eqn:En; [|done]. intros [= <-]. split; [|done].
    unfold session_rank, main_rank. rewrite Em. cbn.
    unfold metrics_rank, logs_rank, MAX_SHUTDOWN_FLUSH_BATCHES. lia.
Qed.

(** Only the reader's steps and a notification touch [Notified]. *)
Lemma other_step_notified u a s s' :
  session_action a = true → is_main a = false → session_step u a s = Some s' →
  ss_notified s' = ss_notified s.
Proof.
  destruct a as [a|a|a|a|a|a|t|a]; intros Hs Hm; try discriminate; clear Hs Hm; cbn [session_step].
  - unfold net_step. destruct a; [case_match|]; by intros [= <-].
  - unfold hb_step. destruct a, (ss_hb s); try done; repeat case_match; by intros [= <-].
  - unfold metrics_step. destruct a, (ss_metrics s) as [| | |[|n]|n d msg|]; try done;
      repeat case_match; by intros [= <-].
  - unfold logs_step. destruct a, (ss_logs s); try done; repeat case_match; by intros [= <-].
  - unfold status_step. destruct a, (ss_status s); try done; repeat case_match; by intros [= <-].
  - unfold cancel_step. repeat case_match; by intros [= <-].
Qed.

Definition told s : Prop := ss_notified s = true ∨ past_select s.

Lemma session_step_rank u a s s' :
  session_action a = true → session_step u a s = Some s' →
  ((if loop_own (LifeSession a) then 1 else 0) + session_rank s' ≤ session_rank s)%nat ∧
  (told s → told s').
Proof.
  intros Ha Hs. destruct (is_main a) eqn:Em.
  - destruct a as [| | | | | | |a]; try discriminate Em.
    destruct (select_or_past s) as [[pc Ep]|Hp].
    + destruct (select_step_rank u a s s' pc Ep Hs) as [Hr En]. split; [done|].
      unfold told, past_select at 1. rewrite Ep, En. intros [Hn|[]]. by left.
    + destruct (session_run_rank u [Main a] s s') as (Hp' & Hr & _); [done|cbn [session_run]; by rewrite Hs|].
      rewrite !rank_past by done. cbn [count_if is_main] in Hr. split; [|by right].
      destruct (loop_own _); lia.
  - destruct (other_step_main u a s s' Em Hs) as [E1 E2].
    pose proof (other_step_notified u a s s' Ha Em Hs) as En.
    assert (loop_own (LifeSession a) = false) as -> by (by destruct a).
    unfold session_rank, main_rank, told, past_select. rewrite E1, E2, En. split; [lia|done].
Qed.

Lemma attach_rank r st s : session_rank (attach r st s) = session_rank s.
Proof. done. Qed.

(** ** The end of the agent *)

Lemma after_session_stopped v b slept env res l :
  li_stopping l = true →
  winding_down (loop_goes (after_session (lf_cfg v) (lf_hooks v) env slept b res (li_runner l)) l) ∧
  (life_rank (loop_goes (after_session (lf_cfg v) (lf_hooks v) env slept b res (li_runner l)) l) ≤ 1)%nat.
Proof.
  intros Hst. unfold winding_down, life_rank, loop_goes. cbn [li_stopping li_loop set_life].
  destruct (after_session _ _ _ _ _ _ _); split; try lia; by split.
Qed.

Lemma life_step_stopped v a l l' :
  winding_down l → life_step v a l = Some l' →
  winding_down l' ∧ sessions_opened l' = sessions_opened l ∧
  ((if loop_own a then 1 else 0) + life_rank l' ≤ life_rank l)%nat.
Proof.
  intros [Hst Hw] Hs. destruct a as [a|a|i a| |env|].
  - injection Hs as <-. unfold winding_down, sessions_opened, life_rank in *.
    destruct a; cbn in *; try done. destruct (li_loop l) as [| |b slept env u s|] eqn:El; rewrite ?El; try done.
    cbn. split_and!; try done. change (past_select (set_shutdown _ _ _ s)) with (past_select s).
    destruct Hw as [->|Hp]; [left; apply orb_true_r|by right].
  - cbn in Hs. destruct (li_loop l) as [| |b slept env u s|] eqn:El; try done.
    destruct (session_action a) eqn:Ea; [|done]. apply bind_Some in Hs as (s' & Hs & [= <-]).
    destruct (session_step_rank _ _ _ _ Ea Hs) as [Hr Ht].
    unfold winding_down, sessions_opened, life_rank. rewrite El. cbn [li_loop set_life li_stopping li_old].
    split_and!; [done|by apply Ht|done|]. rewrite attach_rank in Hr. lia.
  - cbn in Hs. destruct (task_action a) eqn:Ea; [|done].
    apply bind_Some in Hs as (us & _ & (s & _ & [= <-])%bind_Some).
    unfold winding_down, sessions_opened, life_rank in *. cbn. rewrite length_insert. done.
  - cbn in Hs. destruct (li_loop l) eqn:El; try done. injection Hs as <-.
    unfold loop_head. rewrite Hst. unfold winding_down, sessions_opened, life_rank. rewrite El. done.
  - cbn in Hs. by destruct (li_loop l).
  - cbn in Hs. destruct (li_loop l) as [| |b slept env u s|] eqn:El; try done.
    destruct (ss_main s) as [| | | | | | |res] eqn:Em; try done. injection Hs as <-.
    set (l1 := set_old _ _ _).
    destruct (after_session_stopped v b slept env res l1 Hst) as [K1 K2].
    change (li_runner l) with (li_runner l1).
    split_and!; [exact K1| |unfold life_rank at 2; rewrite El; cbn [loop_own]; lia].
    unfold sessions_opened at 2. rewrite El. unfold sessions_opened, loop_goes, l1. cbn.
    rewrite length_app. cbn. destruct (after_session _ _ _ _ _ _ _); lia.
Qed.

Lemma life_run_stopped v acts l l' :
  winding_down l → life_run v acts l = Some l' →
  winding_down l' ∧ sessions_opened l' = sessions_opened l ∧
  (count_if loop_own acts + life_rank l' ≤ life_rank l)%nat.
Proof.
  revert l. induction acts as [|a acts IH]; intros l Hw; cbn [life_run count_if]; [by intros [= <-]|].
  intros (l1 & E1 & E2)%bind_Some. destruct (life_step_stopped v a l l1 Hw E1) as (Hw1 & Hn1 & Hr1).
  destruct (IH l1 Hw1 E2) as (Hw2 & Hn2 & Hr2). split_and!; [done|congruence|lia].
Qed.

(** No loop has more steps than a session's, whole. *)
Lemma goes_rank o l : (life_rank (loop_goes o l) ≤ 74)%nat.
Proof. unfold life_rank, loop_goes. cbn. destruct o; lia. Qed.

Lemma life_step_bound v a l l' :
  life_step v a l = Some l' → (life_rank l ≤ 74)%nat → (life_rank l' ≤ 74)%nat.
Proof.
  destruct a as [a|a|i a| |env|]; cbn [life_step].
  - intros [= <-]. unfold life_rank. destruct a; try done. cbn.
    destruct (li_loop l) eqn:El; cbn; rewrite ?El; done.
  - destruct (li_loop l) as [| |b slept env u s|] eqn:El; try done.
    destruct (session_action a) eqn:Ea; [|done]. intros (s' & Hs & [= <-])%bind_Some.
    destruct (session_step_rank _ _ _ _ Ea Hs) as [Hr _]. rewrite attach_rank in Hr.
    unfold life_rank. rewrite El. cbn [li_loop set_life]. lia.
  - destruct (task_action a); [|done]. by intros (us & _ & (s & _ & [= <-])%bind_Some)%bind_Some.
  - destruct (li_loop l); try done. intros [= <-] _. unfold loop_head.
    destruct (li_stopping l); [apply goes_rank|cbn; lia].
  - destruct (li_loop l); try done. intros [= <-] _. unfold loop_connect.
    destruct (refresh_token _ _ _ _) as [r|e r|slept b' r|r|r]; try apply goes_rank.
    destruct (channel_opened _ _ r) as [[uid r']|]; [done|].
    destruct (run_session _ _ _ _ _ r) as [res r']. apply goes_rank.
  - destruct (li_loop l) as [| |b slept env u s|]; try done. destruct (ss_main s); try done.
    intros [= <-] _. apply goes_rank.
Qed.

Lemma life_run_bound v acts l l' :
  life_run v acts l = Some l' → (life_rank l ≤ 74)%nat → (life_rank l' ≤ 74)%nat.
Proof. apply (life_run_keeps v (λ l, (life_rank l ≤ 74)%nat)). intros a l1 l2 _. apply life_step_bound. Qed.

(** A message waits for room in the session's Channel, and the transport can make it. *)
Definition waits_for_room v l : Prop :=
  (∃ s, current l = Some s ∧ blocked (attach (li_runner l) (li_stopping l) s) = true) ∧
  is_Some (life_step v (LifeSession (Net NetTake)) l).

Lemma session_goes v a l b slept env u s :
  li_loop l = LpIn b slept env u s → session_action a = true →
  is_Some (session_step u a (attach (li_runner l) (li_stopping l) s)) →
  is_Some (life_step v (LifeSession a) l).
Proof. intros El Ea [s' Hs]. cbn. rewrite El, Ea, Hs. by eexists. Qed.

Lemma stopped_progress v l :
  winding_down l →
  (∃ o, li_loop l = LpOver o) ∨ (∃ a, loop_own a = true ∧ is_Some (life_step v a l)) ∨ waits_for_room v l.
Proof.
  intros [_ Hw]. destruct (li_loop l) as [b|b|b slept env u s|o] eqn:El; [| |  |by left; eexists].
  - right. left. exists LifeHead. split; [done|]. cbn. rewrite El. by eexists.
  - done.
  - set (s0 := attach (li_runner l) (li_stopping l) s). destruct (select_or_past s0) as [[pc Ep]|Hp].
    + right. left. exists (LifeSession (Main MainNotified)). split; [done|].
      eapply session_goes; [done..|]. cbn [session_step]. unfold main_step. fold s0. rewrite Ep.
      assert (ss_notified s0 = true) as Hn.
      { destruct Hw as [Hn|Hp]; [done|]. unfold past_select in Hp. change (ss_main s) with (ss_main s0) in Hp.
        by rewrite Ep in Hp. }
      cbn [select_step]. rewrite Hn. by eexists.
    + destruct (finish_progress u s0 Hp) as [[res Em]|[[a Ha]|[Hb Ht]]].
      * right. left. exists LifeReturned. split; [done|]. cbn. rewrite El.
        change (ss_main s) with (ss_main s0). rewrite Em. by eexists.
      * right. left. exists (LifeSession (Main a)). split; [|by eapply session_goes].
        destruct Ha as [s' Hs]. cbn [session_step] in Hs. unfold main_step, past_select in *.
        destruct (ss_main s0); try done; by destruct a.
      * right. right. split; [|by eapply session_goes]. exists s. unfold current. by rewrite El.
Qed.

(** A Register none of whose attempts was answered. *)
Definition unanswered (cfg : AgentRunnerConfig) (reg : @RegisterEnv Channel) : Prop :=
  ∃ r slept r', register_fresh cfg reg r = RegPending slept r'.

(** Where a stopped agent with this session, or with none, gets to. *)
Definition ends_of v (env : option (@LoopEnv _ Channel QuotaStatus)) l : Prop :=
  match li_loop l with
  | LpIn _ _ env' _ _ => env = Some env'
  | LpTop _ => True
  | LpOver (LPending _) => ∃ env', env = Some env' ∧ unanswered (lf_cfg v) (le_reenroll env')
  | LpOver o => True
  | LpConnect _ => False
  end.

Lemma after_session_pending cfg hooks env slept b res r r' :
  after_session cfg hooks env slept b res r = LPending r' → unanswered cfg (le_reenroll env).
Proof.
  unfold after_session, after_register, unanswered. intros Hs. repeat case_match; try done. eauto.
Qed.

Lemma life_step_ends_of v env a l l' :
  winding_down l → life_step v a l = Some l' → ends_of v env l → ends_of v env l'.
Proof.
  intros [Hst Hw] Hs He. unfold ends_of in *. destruct a as [a|a|i a| |env'|].
  - injection Hs as <-. destruct a; try done. cbn. by destruct (li_loop l) eqn:El; cbn; rewrite ?El.
  - cbn in Hs. destruct (li_loop l); try done. destruct (session_action a); [|done].
    by apply bind_Some in Hs as (s' & _ & [= <-]).
  - cbn in Hs. destruct (task_action a); [|done].
    by apply bind_Some in Hs as (us & _ & (s & _ & [= <-])%bind_Some).
  - cbn in Hs. destruct (li_loop l); try done. injection Hs as <-. unfold loop_head. by rewrite Hst.
  - cbn in Hs. by destruct (li_loop l).
  - cbn in Hs. destruct (li_loop l) as [| |b slept env' u s|]; try done. subst env.
    destruct (ss_main s) as [| | | | | | |res]; try done. injection Hs as <-. cbn.
    destruct (after_session _ _ _ _ _ _ _) eqn:Eo; try done.
    exists env'. split; [done|]. by eapply after_session_pending.
Qed.

(** C5: a stopped agent ends: once a shutdown is requested while the agent is at the
    head of its loop, or in a session that was told of it, no further session is
    opened, the run loop has at most 74 further steps besides the reader's polls,
    whatever the host, the tasks of this and of earlier sessions and the transport do
    meanwhile, and at every moment it has returned, can take such a step, or waits for
    room in the Channel that the transport can make.  The one exception is a session
    that ends with rejected credentials: its loop then enrols again first, and stays
    there if no attempt of that Register is answered.  (An agent that is connecting
    when the request is made is not among these: [request_while_connecting_is_lost].) *)
Theorem stopped_agent_ends v r acts l acts' l' :
  cfg_ok (lf_cfg v) → (∀ env, LifeConnect env ∈ acts ++ acts' → env_ok env) →
  life_run v acts (life_init
    (Backoff_new (rc_backoff_initial (lf_cfg v)) (rc_backoff_max (lf_cfg v)) true) r) = Some l →
  winding_down l → (∀ o, li_loop l ≠ LpOver o) → life_run v acts' l = Some l' →
  sessions_opened l' = sessions_opened l ∧ (count_if loop_own acts' ≤ 74)%nat ∧
  ((∃ r', li_loop l' = LpOver (LReturn r')) ∨
   (∃ r' b slept env u s, li_loop l' = LpOver (LPending r') ∧ li_loop l = LpIn b slept env u s ∧
      unanswered (lf_cfg v) (le_reenroll env)) ∨
   (∃ a, loop_own a = true ∧ is_Some (life_step v a l')) ∨
   waits_for_room v l').
Proof.
  intros Hcfg Henv Hr Hw Hne Hr'. destruct (life_run_stopped v acts' l l' Hw Hr') as (Hw' & Hn & Hk).
  pose proof (life_run_bound v acts _ l Hr ltac:(cbn; lia)) as Hb.
  split_and!; [done|lia|].
  destruct (stopped_progress v l' Hw') as [[o Eo]|[Hstep|Hroom]]; [|by auto|by auto].
  set (env := match li_loop l with LpIn _ _ env _ _ => Some env | _ => None end).
  assert (ends_of v env l') as He.
  { assert (winding_down l' ∧ ends_of v env l') as [_ He]; [|done].
    eapply (life_run_keeps v (λ l, winding_down l ∧ ends_of v env l)); [|exact Hr'|].
    - intros a l1 l2 _ Hs [Hw1 He1]. split; [by eapply life_step_stopped|by eapply life_step_ends_of].
    - split; [done|]. unfold ends_of, env. destruct Hw as [_ Hw]. destruct (li_loop l); try done.
      by destruct (Hne o0). }
  assert (life_run v (acts ++ acts') (life_init
    (Backoff_new (rc_backoff_initial (lf_cfg v)) (rc_backoff_max (lf_cfg v)) true) r) = Some l') as Hrr
    by (by rewrite life_run_app, Hr).
  pose proof (life_loop_ok v r (acts ++ acts') l' Hcfg Henv Hrr) as Hok. unfold ends_of in He. rewrite Eo in *.
  destruct o as [r'|e r'|sl b' r'|r'|r']; try done; [by left; exists r'|].
  right. left. destruct He as (env' & E & Hu). unfold env in E. destruct (li_loop l) as [| |b slept env1 u s|] eqn:El; try done.
  injection E as ->. by exists r', b, slept, env', u, s.
Qed.

(** A request that is made anywhere but while the agent connects stops it. *)
Lemma request_winds_down v l :
  (∀ b, li_loop l ≠ LpConnect b) →
  ∃ l', life_run v [LifeHost HostTrigger; LifeHost HostNotify] l = Some l' ∧ winding_down l'.
Proof.
  intros Hn. eexists. split; [done|]. unfold winding_down. cbn.
  destruct (li_loop l) as [|b|b slept env u s|] eqn:El; cbn; rewrite ?El; try done; [by destruct (Hn b)|].
  split; [done|]. destruct (select_or_past s) as [[pc Ep]|Hp]; [left; by rewrite Ep|by right].
Qed.

(** ** A request that reaches nobody *)

(** The reader's part of [select!]. *)
Definition reader_poll (a : LifeAction) : bool :=
  match a with
  | LifeSession (Main (MainPoll _)) | LifeSession (Main MainAck) => true
  | _ => false
  end.

Definition in_select l : Prop := ∃ s pc, current l = Some s ∧ ss_main s = MSelect pc.

(** A stopping session that was not told of it. *)
Definition untold l : Prop := li_stopping l = true ∧ ∃ s, current l = Some s ∧ ss_notified s = false.

Lemma session_step_notified u a s s' :
  session_action a = true → session_step u a s = Some s' → ss_notified s' = ss_notified s.
Proof.
  intros Ha Hs. destruct (is_main a) eqn:Em; [|by eapply other_step_notified].
  destruct a as [| | | | | | |a]; try discriminate Em.
  destruct (select_or_past s) as [[pc Ep]|Hp]; [by eapply select_step_rank|].
  cbn [session_step] in Hs. unfold main_step, past_select, finish_step in *.
  destruct (ss_main s) as [pc|res|res|[|n] res|n d msg res|[|n] res|n e msg res|res] eqn:Ep; try done;
    destruct a; try discriminate Hs; cbv zeta in Hs; repeat case_match; simplify_eq; done.
Qed.

Lemma life_step_untold v a l l' :
  a ≠ LifeHost HostNotify → a ≠ LifeReturned → life_step v a l = Some l' → untold l → untold l'.
Proof.
  intros Hn Hret Hs [Hst (s & Hc & Hu)]. unfold current in Hc.
  destruct (li_loop l) as [| |b slept env u s1|] eqn:El; try done. injection Hc as ->.
  unfold untold, current. destruct a as [a|a|i a| |env'|]; cbn [life_step] in Hs; try rewrite El in Hs; try done.
  - injection Hs as <-. destruct a; try done; cbn; rewrite El; eauto.
  - destruct (session_action a) eqn:Ea; [|done]. apply bind_Some in Hs as (s' & Hs & [= <-]). cbn.
    split; [done|]. exists s'. split; [done|]. by rewrite (session_step_notified _ _ _ _ Ea Hs).
  - destruct (task_action a); [|done]. apply bind_Some in Hs as (us & _ & (s' & _ & [= <-])%bind_Some).
    cbn. rewrite El. eauto.
Qed.

Lemma life_run_untold v acts l l' :
  LifeHost HostNotify ∉ acts → LifeReturned ∉ acts → life_run v acts l = Some l' → untold l → untold l'.
Proof.
  intros Hn Hr. apply life_run_keeps. intros a l1 l2 Hin. apply life_step_untold; by intros ->.
Qed.

(** Only the reader ends the [select!] of an untold session. *)
Lemma untold_ends_with_stream v a l l' :
  life_step v a l = Some l' → untold l → in_select l → ¬ in_select l' → reader_poll a = true.
Proof.
  intros Hs [_ (s & Hc & Hu)] (s1 & pc & Hc1 & Ep) Hout. simplify_eq. unfold current in Hc.
  destruct (li_loop l) as [| |b slept env u s1|] eqn:El; try done. injection Hc as ->.
  destruct a as [a|a|i a| |env'|]; cbn [life_step] in Hs; try rewrite El in Hs; try done.
  - injection Hs as <-. destruct Hout. unfold in_select, current. destruct a; cbn; rewrite El; cbn; eauto.
  - destruct (session_action a) eqn:Ea; [|done]. apply bind_Some in Hs as (s' & Hs & [= <-]).
    destruct (is_main a) eqn:Em.
    + destruct a as [| | | | | | |a]; try discriminate Em. cbn [session_step] in Hs.
      unfold main_step in Hs. cbn [ss_main attach set_shutdown set_runner] in Hs. rewrite Ep in Hs.
      destruct a; try done. cbn in Hs. by rewrite Hu in Hs.
    + destruct (other_step_main _ _ _ _ Em Hs) as [E _]. destruct Hout. exists s', pc.
      split; [done|]. by rewrite E.
  - destruct (task_action a); [|done]. apply bind_Some in Hs as (us & _ & (s' & _ & [= <-])%bind_Some).
    destruct Hout. exists s, pc. unfold current. cbn. by rewrite El.
  - by rewrite Ep in Hs.
Qed.

(** C24: a shutdown requested while the agent connects is lost: if the connect
    succeeds, then as long as that session lasts and nobody requests again, whatever
    anybody does, the session is not told, although the flag is set; and a step that
    ends its [select!] is a step of the reader, so that the agent serves until the
    control plane closes the stream. *)
Theorem request_while_connecting_is_lost v env l l1 acts l2 :
  (∃ b, li_loop l = LpConnect b) →
  life_run v [LifeHost HostTrigger; LifeHost HostNotify; LifeConnect env] l = Some l1 →
  is_Some (current l1) → life_run v acts l1 = Some l2 →
  LifeHost HostNotify ∉ acts → LifeReturned ∉ acts →
  li_stopping l2 = true ∧ life_step v (LifeSession (Main MainNotified)) l2 = None ∧
  ∀ a l3, life_step v a l2 = Some l3 → in_select l2 → ¬ in_select l3 → reader_poll a = true.
Proof.
  intros [b El] Hr [s1 Hs1] Hr2 Hn Hret.
  set (l0 := life_host HostTrigger l).
  assert (l1 = loop_connect v env b l0) as ->.
  { cbn in Hr. rewrite El in Hr. by injection Hr as <-. }
  assert (untold l2) as Hu.
  { eapply life_run_untold; [done..|]. unfold loop_connect in *. cbv zeta in *.
    assert (∀ o : @LoopStep _ Channel QuotaStatus, current (loop_goes o l0) = None) as Hg by (by intros []).
    destruct (refresh_token _ _ _ _) as [r|e r|slept b' r|r|r]; try (by rewrite Hg in Hs1).
    destruct (channel_opened _ _ r) as [[uid r']|]; [by split; [|exists (session_init r' (lf_status v) (li_stopping l0))]|].
    destruct (run_session _ _ _ _ _ r) as [res r']. by rewrite Hg in Hs1. }
  pose proof Hu as [Hst (s & Hc & Hs)]. split_and!; [done| |intros a l3; by intros; eapply untold_ends_with_stream].
  unfold current in Hc. destruct (li_loop l2) as [| |b2 slept env2 u s2|] eqn:El2; try done. injection Hc as ->.
  cbn [life_step]. rewrite El2. cbn [session_action session_step]. unfold main_step.
  destruct (select_or_past (attach (li_runner l2) (li_stopping l2) s)) as [[pc Ep]|Hp].
  - rewrite Ep. cbn. by rewrite Hs.
  - unfold past_select in Hp. destruct (ss_main (attach _ _ s)); done.
Qed.

(** ** The protocol of [AgentShutdown] *)

(** Where the run loop of [Shutdown] is while that of the agent is in [pc]; a loop
    that hangs in Register stays where it was. *)
Definition session_shown s : RunnerPc :=
  match ss_main s with MSelect _ => RSession | MAborting _ | MLoad _ => REnded | _ => RSleep end.

Definition shown (pc : @LoopPc _ Channel QuotaStatus) (p : RunnerPc) : Prop :=
  match pc with
  | LpTop _ => p = RCheck
  | LpConnect _ => p = RConnect
  | LpIn _ _ _ _ s => p = session_shown s
  | LpOver (LReturn _) => p = RReturned
  | LpOver _ => p = RConnect ∨ p = RSleep
  end.

Record shows l (st : Shutdown.Shutdown) : Prop := {
  sh_stopping : stopping st = li_stopping l;
  sh_runner : shown (li_loop l) (runner st);
  sh_woken : ∀ s pc, current l = Some s → ss_main s = MSelect pc → runner_woken st = ss_notified s;
  sh_stored : trigger_pc st = TStored → stopping st = true
}.

(** A step of [trigger] or of the run loop. *)
Definition loop_or_trigger (st st' : Shutdown.Shutdown) : Prop := trigger_step st st' ∨ runner_step st st'.

Lemma by_loop st st' : runner_step st st' → rtc loop_or_trigger st st'.
Proof. intros. apply rtc_once. by right. Qed.

Lemma by_trigger st st' : trigger_step st st' → rtc loop_or_trigger st st'.
Proof. intros. apply rtc_once. by left. Qed.

(** Nothing that the protocol sees. *)
Lemma shows_keep l l' st :
  li_stopping l' = li_stopping l → li_loop l' = li_loop l → shows l st →
  ∃ st', rtc loop_or_trigger st st' ∧ shows l' st'.
Proof.
  intros E1 E2 [K1 K2 K3 K4]. exists st. split; [apply rtc_refl|].
  split; [by rewrite E1|by rewrite E2|unfold current in *; by rewrite E2|done].
Qed.

Lemma host_shows a l st :
  (a = HostNotify → li_stopping l = true) → shows l st →
  ∃ st', rtc loop_or_trigger st st' ∧ shows (life_host a l) st'.
Proof.
  intros Ha Hs. pose proof Hs as [K1 K2 K3 K4].
  destruct a; try (by apply (shows_keep l)).
  - destruct (decide (trigger_pc st = TStored)) as [E|E].
    + exists st. split; [apply rtc_refl|]. split; try done. cbn. auto.
    + eexists. split; [by apply by_trigger, trigger_store|]. by split.
  - assert (∃ st1, rtc loop_or_trigger st st1 ∧ shows l st1 ∧ trigger_pc st1 = TStored) as (st1 & Hr & [L1 L2 L3 L4] & E).
    { destruct (decide (trigger_pc st = TStored)) as [E|E]; [exists st; split; [apply rtc_refl|done]|].
      eexists. split; [by apply by_trigger, trigger_store|]. split; [|done].
      split; try done; cbn; by rewrite Ha. }
    eexists. split; [etransitivity; [exact Hr|by apply by_trigger, trigger_notify]|].
    destruct (li_loop l) as [| |b slept env u s|] eqn:El; (split; cbn; rewrite ?El; try done).
    all: unfold current; rewrite ?El; cbn; intros s' pc [= <-] Ep. cbn in Ep |- *.
    rewrite Ep. unfold notify_runner. cbn in L2. unfold session_shown in L2.
    rewrite Ep in L2. by rewrite decide_True.
Qed.

(** A step of a session, as far as the protocol sees it. *)
Lemma session_step_shown u a s s' :
  session_step u a s = Some s' →
  session_shown s' = session_shown s ∨
  (session_shown s = RSession ∧ session_shown s' = REnded) ∨
  (session_shown s = REnded ∧ session_shown s' = RSleep).
Proof.
  intros Hs. destruct (is_main a) eqn:Em.
  2: { destruct (other_step_main u a s s' Em Hs) as [E _]. left. unfold session_shown. by rewrite E. }
  destruct a as [| | | | | | |a]; try discriminate Em. cbn [session_step] in Hs.
  unfold main_step, session_shown in *.
  destruct (ss_main s) as [pc|res|res|[|n] res|n d msg res|[|n] res|n e msg res|res] eqn:Ep.
  { assert (∀ st, session_shown (after_poll s st) = RSession ∨ session_shown (after_poll s st) = REnded) as Hp.
    { intros [[] r]; unfold session_shown, after_poll; cbn; auto. }
    unfold select_step, session_shown in *. destruct a as [i| | | | | |]; try done.
    - destruct i; try done; apply fmap_Some in Hs as (st & _ & ->); destruct (Hp st); auto.
    - destruct (blocked s); [done|]. apply fmap_Some in Hs as (st & _ & ->); destruct (Hp st); auto.
    - destruct (ss_notified s); [|done]. injection Hs as <-. auto. }
  all: unfold finish_step in Hs; destruct a; try discriminate Hs; cbv zeta in Hs;
    repeat case_match; simplify_eq/=; auto; congruence.
Qed.

Lemma session_shows v a l l' st b slept env u s :
  li_loop l = LpIn b slept env u s → life_step v (LifeSession a) l = Some l' → shows l st →
  ∃ st', rtc loop_or_trigger st st' ∧ shows l' st'.
Proof.
  intros El Hs [K1 K2 K3 K4]. cbn in Hs. rewrite El in *. destruct (session_action a) eqn:Ea; [|done].
  apply bind_Some in Hs as (s' & Hs & [= <-]). unfold current in K3. rewrite El in K3. cbn [shown] in K2.
  pose proof (session_step_notified _ _ _ _ Ea Hs) as En.
  assert (∀ st', stopping st' = stopping st → runner st' = session_shown s' →
    runner_woken st' = runner_woken st → trigger_pc st' = trigger_pc st →
    (session_shown s' = RSession → session_shown s = RSession) →
    shows (set_life (ss_runner s') (LpIn b slept env u s') l) st') as Hshow.
  { intros st' E1 E2 E3 E4 Hb. split; cbn; try congruence; [|by rewrite E1, E4].
    intros s1 pc [= <-] Ep. rewrite E3, En. cbn. unfold session_shown in Hb. rewrite Ep in Hb.
    destruct (ss_main s) as [pc0| | | | | | |] eqn:Ep0; try (by specialize (Hb eq_refl)). by eapply K3. }
  destruct (session_step_shown _ _ _ _ Hs) as [E|[[E1 E2]|[E1 E2]]];
    change (session_shown (attach _ _ s)) with (session_shown s) in *.
  - exists st. split; [apply rtc_refl|]. apply Hshow; congruence.
  - eexists. split; [apply by_loop, run_stream_ended; congruence|]. by apply Hshow.
  - eexists. split; [apply by_loop, (run_after_session _ RSleep); [congruence|by left]|].
    apply Hshow; try done. by rewrite E2.
Qed.

(** The loop between sessions never returns of itself. *)
Lemma refresh_no_return cfg (env : @LoopEnv _ Channel QuotaStatus) b r r' :
  refresh_token cfg env r (λ slept r, LNext slept b r) ≠ LReturn r'.
Proof.
  unfold refresh_token. cbv zeta. destruct (expires_within _ _ _); [|done].
  destruct (extract_token _); [|done]. by destruct (register_fresh _ _ _).
Qed.

Lemma after_session_no_return cfg hooks (env : @LoopEnv _ Channel QuotaStatus) slept b res r r' :
  after_session cfg hooks env slept b res r ≠ LReturn r'.
Proof.
  unfold after_session, after_register. repeat case_match; try done.
Qed.

Lemma loop_goes_shows o l st p :
  (∀ r, o ≠ LReturn r) → stopping st = li_stopping l → (trigger_pc st = TStored → stopping st = true) →
  runner st = p → p = RConnect ∨ p = RSleep →
  ∃ st', rtc loop_or_trigger st st' ∧ shows (loop_goes o l) st'.
Proof.
  intros Ho E1 E2 Ep Hp.
  assert (∃ st1, rtc loop_or_trigger st st1 ∧ runner st1 = RSleep ∧ stopping st1 = stopping st ∧
    trigger_pc st1 = trigger_pc st) as (st1 & Hr & F1 & F2 & F3).
  { destruct Hp as [->| ->]; [|by exists st; split; [apply rtc_refl|]].
    eexists. split; [by apply by_loop, run_connect_failed|]. done. }
  destruct o as [r|e r|sl b r|r|r]; [by destruct (Ho r)|..].
  2: { eexists. split; [etransitivity; [exact Hr|by apply by_loop, run_slept]|].
       split; cbn; [by rewrite F2|done|done|by rewrite F2, F3]. }
  all: exists st1; (split; [done|]); split; cbn; [by rewrite F2|by right|done|by rewrite F2, F3].
Qed.

(** [trigger] sets the flag before it notifies. *)
Definition flag_first (a : LifeAction) l : Prop := a = LifeHost HostNotify → li_stopping l = true.

Lemma life_step_shows v a l l' st :
  flag_first a l → life_step v a l = Some l' → shows l st →
  ∃ st', rtc loop_or_trigger st st' ∧ shows l' st'.
Proof.
  intros Ha Hs Hsh. pose proof Hsh as [K1 K2 K3 K4]. destruct a as [a|a|i a| |env|].
  - injection Hs as <-. apply host_shows; [|done]. intros ->. by apply Ha.
  - destruct (li_loop l) eqn:El; try (cbn in Hs; by rewrite El in Hs). by eapply session_shows.
  - cbn in Hs. destruct (task_action a); [|done]. apply bind_Some in Hs as (us & _ & (s & _ & [= <-])%bind_Some).
    by apply (shows_keep l).
  - cbn in Hs. destruct (li_loop l) as [b| | |] eqn:El; try done. injection Hs as <-. cbn in K2.
    unfold loop_head. rewrite <- K1. destruct (stopping st) eqn:Est.
    + eexists. split.
      { eapply rtc_l; [right; by apply run_check|]. rewrite Est.
        eapply rtc_l; [right; by apply run_finish|]. by apply by_loop, run_notify. }
      split; cbn; by rewrite ?Est.
    + eexists. split; [by apply by_loop, run_check|]. rewrite Est. split; cbn; by rewrite ?Est.
  - cbn in Hs. destruct (li_loop l) as [|b| |] eqn:El; try done. injection Hs as <-. cbn in K2.
    unfold loop_connect. pose proof (refresh_no_return (lf_cfg v) env b (li_runner l)) as Hno.
    destruct (refresh_token _ _ _ _) as [r|e r|slept b' r|r|r]; [by destruct (Hno r)|..];
      try (eapply loop_goes_shows; by eauto).
    destruct (channel_opened _ _ r) as [[uid r']|].
    + eexists. split; [by apply by_loop, run_connected|]. split; try done. cbn. by intros s pc [= <-].
    + destruct (run_session _ _ _ _ _ r) as [res r'].
      by eapply (loop_goes_shows _ _ _ RConnect); [intros r2; apply after_session_no_return|..|left].
  - cbn in Hs. destruct (li_loop l) as [| |b slept env u s|] eqn:El; try done.
    destruct (ss_main s) as [| | | | | | |res] eqn:Em; try done. injection Hs as <-.
    cbn in K2. unfold session_shown in K2. rewrite Em in K2.
    by eapply (loop_goes_shows _ _ _ RSleep); [intros r2; apply after_session_no_return|..|right].
Qed.

(** A caller of [finished] goes on beside the agent. *)
Lemma finished_step_shows l st st' : finished_step st st' → shows l st → shows l st'.
Proof. intros Hs [K1 K2 K3 K4]. by destruct Hs; split. Qed.

Lemma loop_or_trigger_reachable st st' :
  rtc loop_or_trigger st st' → shutdown_reachable st → shutdown_reachable st'.
Proof.
  intros Hr Hs. unfold shutdown_reachable in *. etransitivity; [exact Hs|].
  eapply rtc_subrel; [|exact Hr]. intros x y [H'|H']; by constructor.
Qed.

Fixpoint flags_first (acts : list LifeAction) (asked : bool) : bool :=
  match acts with
  | [] => true
  | LifeHost HostTrigger :: acts => flags_first acts true
  | LifeHost HostNotify :: acts => asked && flags_first acts asked
  | _ :: acts => flags_first acts asked
  end.

Lemma life_step_stopping v a l l' :
  life_step v a l = Some l' → a ≠ LifeHost HostTrigger → li_stopping l' = li_stopping l.
Proof.
  intros Hs Hn. destruct (loop_action a) eqn:Ea; [by apply (loop_step_frame v a l l' Ea Hs)|].
  destruct a as [a|a|i a| |env|]; try discriminate Ea; cbn [life_step] in Hs.
  - injection Hs as <-. destruct a; try done. cbn. by destruct (li_loop l).
  - destruct (li_loop l); try done. destruct (session_action a); [|done].
    by apply bind_Some in Hs as (s' & _ & [= <-]).
  - destruct (task_action a); [|done]. by apply bind_Some in Hs as (us & _ & (s & _ & [= <-])%bind_Some).
Qed.

Lemma flags_first_cons v a acts l l' :
  flags_first (a :: acts) (li_stopping l) = true → life_step v a l = Some l' →
  flag_first a l ∧ flags_first acts (li_stopping l') = true.
Proof.
  intros Hf Hs. unfold flag_first. destruct a as [[]| | | | |];
    try (rewrite (life_step_stopping _ _ _ _ Hs) by done; by cbn in Hf).
  - injection Hs as <-. done.
  - rewrite (life_step_stopping _ _ _ _ Hs) by done. cbn in Hf. apply andb_true_iff in Hf as [Ha Hf]. auto.
Qed.

(** C6: the agent implements the protocol of [AgentShutdown]: whatever it does between
    two moments, with the flag set before anybody is notified, the run loop and the
    callers of [trigger] of the protocol can do it too, and a caller of [finished],
    wherever it is, may go on beside them; and when the agent's loop has returned the
    caller returns by its own steps. *)
Theorem life_refines_shutdown v acts l l' st :
  shutdown_reachable st → shows l st → flags_first acts (li_stopping l) = true →
  life_run v acts l = Some l' →
  ∃ st', rtc loop_or_trigger st st' ∧ shutdown_reachable st' ∧ shows l' st' ∧
    (∀ st2, finished_step st' st2 → shows l' st2) ∧
    (∀ r, li_loop l' = LpOver (LReturn r) →
       li_stopping l' = true ∧ ∃ st2, rtc finished_step st' st2 ∧ finished_pc st2 = FReturned).
Proof.
  intros Hr Hsh Hf Hrun.
  assert (∃ st', rtc loop_or_trigger st st' ∧ shows l' st') as (st' & Hst & Hsh').
  { clear Hr. revert l st Hsh Hf Hrun. induction acts as [|a acts IH]; intros l st Hsh Hf; cbn [life_run].
    - intros [= <-]. exists st. split; [apply rtc_refl|done].
    - intros (l1 & E1 & E2)%bind_Some. destruct (flags_first_cons v a acts l l1 Hf E1) as [Ha Hf1].
      destruct (life_step_shows v a l l1 st Ha E1 Hsh) as (st1 & Hr1 & Hsh1).
      destruct (IH l1 st1 Hsh1 Hf1 E2) as (st' & Hr2 & Hsh'). exists st'. split; [by transitivity st1|done]. }
  exists st'. pose proof (loop_or_trigger_reachable _ _ Hst Hr) as Hr'.
  split_and!; [done..|intros st2 Hs; by eapply finished_step_shows|].
  intros r El. destruct Hsh' as [K1 K2 _ _]. rewrite El in K2. cbn in K2.
  destruct (shutdown_reachable_inv st' Hr') as [H1' H2' H3' _ _ _].
  assert (finished_flag st' = true) as Hff by (apply H1'; by right).
  rewrite <- K1. split; [by apply H2'; right|]. apply finished_returns_alone; auto.
Qed.
End shutdown.

(** ** The properties on concrete executions *)

#[local] Existing Instance demo_grpc.

Abbreviation demo_life := (@Lifetime.Life concrete_bundle unit unit).
Abbreviation demo_actions := (list (@Lifetime.LifeAction concrete_bundle unit unit)).

(** A call is recorded while a Channel is open, and a shutdown is requested. *)
Definition requested : demo_actions :=
  [LifeHead; LifeConnect accepted_loop; LifeHost (HostRecord call);
   LifeHost HostTrigger; LifeHost HostNotify].

Definition has_returned (l : demo_life) : bool :=
  match li_loop l with LpOver (LReturn _) => true | _ => false end.

Lemma has_returned_spec (l : demo_life) : has_returned l = true → ∃ r, li_loop l = LpOver (LReturn r).
Proof. unfold has_returned. destruct (li_loop l) as [| | |[]]; try done. eauto. Qed.

(** The session ends with its flush, and the loop returns. *)
Definition wound_down : demo_actions :=
  (LifeSession <$> [Main MainNotified; Main MainAbort; Main MainAbort; Main MainAbort; Main MainAbort;
    Cancel TMetrics; Main MainLoad; Main (MainDrain epoch); Main MainSend; Main (MainDrain epoch);
    Main (MainDrain epoch)]) ++ [LifeReturned; LifeHead].

Definition life_at (acts : demo_actions) : demo_life :=
  default (life_init demo_backoff holder) (life_run life_setup acts (life_init demo_backoff holder)).

Lemma requested_reached :
  life_run life_setup requested (life_init demo_backoff holder) = Some (life_at requested).
Proof. apply some_default. vm_compute. reflexivity. Qed.

Definition stopped_end : demo_life :=
  default (life_init demo_backoff holder) (life_run life_setup wound_down (life_at requested)).

Lemma stopped_reached : life_run life_setup wound_down (life_at requested) = Some stopped_end.
Proof. apply some_default. vm_compute. reflexivity. Qed.

Lemma requested_envs_ok (env : @LoopEnv concrete_bundle unit unit) :
  LifeConnect env ∈ requested ++ wound_down → env_ok env.
Proof.
  intros Hin.
  apply (list_elem_of_fmap_2 (λ a, match a with LifeConnect e => e | _ => accepted_loop end)) in Hin.
  change (env ∈ replicate 18 accepted_loop) in Hin. apply elem_of_replicate in Hin as [-> _].
  split; [split; discriminate|apply demo_factors|apply demo_factors].
Qed.

Lemma requested_winding : winding_down (life_at requested).
Proof. apply is_told_winding_down. vm_compute. reflexivity. Qed.

Definition going_on (l : demo_life) : bool := match li_loop l with LpOver _ => false | _ => true end.

Lemma going_on_spec (l : demo_life) : going_on l = true → ∀ o, li_loop l ≠ LpOver o.
Proof. unfold going_on. by destruct (li_loop l). Qed.

Lemma requested_not_over : ∀ o, li_loop (life_at requested) ≠ LpOver o.
Proof. apply going_on_spec. vm_compute. reflexivity. Qed.

Lemma stopped_agent_ends_witness :
  winding_down (life_at requested) ∧ sessions_opened stopped_end = sessions_opened (life_at requested) ∧
  (∃ r, li_loop stopped_end = LpOver (LReturn r)) ∧ (count_if loop_own wound_down ≤ 74)%nat.
Proof.
  pose proof (stopped_agent_ends life_setup holder requested (life_at requested) wound_down
    stopped_end demo_cfg_ok requested_envs_ok) as H.
  change (Backoff_new _ _ true) with demo_backoff in H.
  destruct (H requested_reached requested_winding requested_not_over stopped_reached) as (K1 & K2 & _).
  split; [exact requested_winding|]. split; [exact K1|].
  split; [apply has_returned_spec; vm_compute; reflexivity|exact K2].
Defined.

(** A shutdown requested at the wrong moment, and the control plane's next message. *)
Definition untold_session : demo_actions :=
  [LifeHost HostTrigger; LifeHost HostNotify; LifeConnect accepted_loop].

Definition untold_at (acts : demo_actions) : demo_life :=
  default (life_init demo_backoff holder) (life_run life_setup acts (life_at [LifeHead])).

Definition selecting (l : demo_life) : bool :=
  match current l with Some s => match ss_main s with MSelect _ => true | _ => false end | None => false end.

Lemma selecting_spec (l : demo_life) : selecting l = true → in_select l.
Proof.
  unfold selecting, in_select. destruct (current l) as [s|]; [|done].
  destruct (ss_main s) as [pc| | | | | | |] eqn:E; try done. by exists s, pc.
Qed.

Lemma request_while_connecting_is_lost_witness :
  li_stopping (untold_at untold_session) = true ∧ in_select (untold_at untold_session) ∧
  life_step life_setup (LifeSession (Main MainNotified)) (untold_at untold_session) = None.
Proof.
  assert (life_run life_setup untold_session (life_at [LifeHead]) = Some (untold_at untold_session)) as Hr
    by (apply some_default; vm_compute; reflexivity).
  assert (in_select (untold_at untold_session)) as Hsel by (apply selecting_spec; vm_compute; reflexivity).
  assert (is_Some (current (untold_at untold_session))) as Hc by (destruct Hsel as (s & _ & Hs & _); by exists s).
  destruct (request_while_connecting_is_lost life_setup accepted_loop (life_at [LifeHead])
    (untold_at untold_session) [] (untold_at untold_session)) as (K1 & K2 & _);
    [exists demo_backoff; vm_compute; reflexivity|exact Hr|exact Hc|reflexivity
    |apply not_elem_of_nil|apply not_elem_of_nil|].
  split; [exact K1|]. split; [exact Hsel|exact K2].
Defined.

Lemma life_refines_shutdown_witness :
  ∃ st, shutdown_reachable st ∧ shows stopped_end st ∧
    ∃ st', rtc finished_step st st' ∧ finished_pc st' = FReturned.
Proof.
  assert (shows (life_init demo_backoff holder : demo_life) shutdown_init) as Hi by (split; done).
  assert (life_run life_setup (requested ++ wound_down) (life_init demo_backoff holder) = Some stopped_end)
    as Hr by (rewrite life_run_app, requested_reached; exact stopped_reached).
  destruct (life_refines_shutdown life_setup (requested ++ wound_down) _ stopped_end shutdown_init
    ltac:(apply rtc_refl) Hi ltac:(vm_compute; reflexivity) Hr) as (st & _ & K1 & K2 & _ & K3).
  exists st. split; [exact K1|]. split; [exact K2|].
  assert (∃ r, li_loop stopped_end = LpOver (LReturn r)) as [r El]
    by (apply has_returned_spec; vm_compute; reflexivity).
  exact (proj2 (K3 r El)).
Defined.
