(* ===== verification/LifetimeBilling.v ===== *)
(** * What a graceful shutdown of the agent ships

    The concurrent agent of [Lifetime] from the moment a shutdown's session starts
    its flush: if the metrics tasks have stopped by then, the stream stays open and
    the host records no more calls, the loop returns with an empty buffer, so that
    the reports that left in all the sessions of its life account for every call that
    was ever recorded. *)

From stdpp Require Import base list strings gmap.
From Stdlib Require Import ZArith QArith Lia Morphisms.
From S2P Require Import Prelude Time BTree Proto Text Serde Concrete Errors Token F64 Backoff.
From S2P Require Import Metrics MetricsFacts FlushLoop FlushLoopFacts Ledger Logs Status.
From S2P Require Import Crypto Dek Fs FsFacts Lkg LkgFacts License Creds Client Runner Inbound Control.
From S2P Require Import Agent LoopControl SessionFacts LoopFacts Session SessionSafety SessionWire.
From S2P Require Import SessionControl SessionTime Lifetime LifetimeRefinement LifetimeShutdown.

Local Open Scope string_scope.
Local Open Scope list_scope.

#[local] Arguments Metrics.drain : simpl never.
#[local] Arguments Metrics.record : simpl never.
#[local] Arguments Logs.drain : simpl never.
#[local] Arguments InFlight_drop : simpl never.
#[local] Arguments record_events : simpl never.
#[local] Arguments Metrics.batch_to_message : simpl never.
#[local] Arguments Logs.batch_to_message : simpl never.

(** ** The buffer during the flush *)

(** Nothing but samples is left to report; nothing at all is. *)
Definition counted (b : Metrics.Inner) : Prop :=
  Metrics.dropped_overflow b = 0%Z ∧ Metrics.dropped_non_billable b = 0%Z ∧ Metrics.events b = EventsRollup_default.

Definition emptied (b : Metrics.Inner) : Prop := samples (Metrics.buf b) = [] ∧ counted b.

Lemma drain_counted now b d b' : Metrics.drain now b = (d, b') → counted b'.
Proof.
  intros E. pose proof (drain_spec now b) as K. rewrite E in K.
  destruct K as (_ & _ & _ & _ & _ & _ & _ & K1 & K2 & K3 & _). done.
Qed.

(** A round takes a batch off what is left. *)
Lemma drain_left now b d b' n :
  Metrics.drain now b = (d, b') → (length (samples (Metrics.buf b)) ≤ S n * Metrics.batch_cap b)%nat →
  (length (samples (Metrics.buf b')) ≤ n * Metrics.batch_cap b')%nat.
Proof.
  intros E. pose proof (drain_spec now b) as K. rewrite E in K.
  destruct K as (K1 & K2 & _ & _ & _ & _ & _ & _ & _ & _ & _ & K3 & _). rewrite <- K1 in *.
  rewrite K3. rewrite length_app in *. lia.
Qed.

(** A drain that finds nothing has found the buffer empty. *)
Lemma drain_nothing now b d b' :
  (1 ≤ Metrics.batch_cap b)%nat → Metrics.drain now b = (d, b') → Drained_is_empty d = true → emptied b'.
Proof.
  intros Hb E (Hd & _ & _)%Drained_is_empty_zero. split; [|by eapply drain_counted].
  pose proof (drain_spec now b) as K. rewrite E in K. destruct K as (K1 & K2 & _).
  rewrite Hd in K1, K2. change (length []) with 0%nat in K2. rewrite app_nil_l in K1. rewrite K1.
  apply nil_length_inv. lia.
Qed.

Section billing.
Context `{!Json, !Base64, !Rfc3339, !Aead, !Hkdf, !BundleCodec, !Grpc}.
Context {Channel QuotaStatus : Type}.
Abbreviation Runner := (@Runner _ Channel QuotaStatus).
Abbreviation Session := (@Session.Session _ Channel QuotaStatus).
Abbreviation Life := (@Life _ Channel QuotaStatus).
Abbreviation LifeAction := (@LifeAction _ Channel QuotaStatus).
Implicit Types (v : @LifeSetup _) (l : Life) (s : Session) (r : Runner) (u : @SessionSetup _).

(** What the flush has left to ship, from the load of [stopping] on. *)
Definition flushing (pc : @MainPc _) (b : Metrics.Inner) : Prop :=
  match pc with
  | MSelect _ | MAborting _ => False
  | MLoad _ => (length (samples (Metrics.buf b)) ≤ MAX_SHUTDOWN_FLUSH_BATCHES * Metrics.batch_cap b)%nat
  | MFlushMetrics n _ =>
      (length (samples (Metrics.buf b)) ≤ n * Metrics.batch_cap b)%nat ∧
      (n = MAX_SHUTDOWN_FLUSH_BATCHES ∨ counted b)
  | MFlushMetricsSend n d _ _ =>
      (length (samples (Metrics.buf b)) ≤ n * Metrics.batch_cap b)%nat ∧ counted b ∧
      Drained_is_empty d = false
  | MFlushLogs _ _ | MFlushLogsSend _ _ _ _ | MReturned _ => emptied b
  end.

Definition flush_buf s : Metrics.Inner := metrics (ss_runner s).

(** A session whose flush loses nothing. *)
Record flush_ok s : Prop := {
  fo_task : ss_metrics s = Closed;
  fo_open : ss_open s = true;
  fo_lost : ss_lost s = [];
  fo_flushing : flushing (ss_main s) (flush_buf s)
}.

Lemma finish_flush_ok code level a s s' :
  ss_stopping s = true → (1 ≤ Metrics.batch_cap (flush_buf s))%nat →
  finish_step code level a (ss_main s) s = Some s' → flush_ok s → flush_ok s'.
Proof.
  intros Hst Hb Hs [K1 K2 K3 K4]. unfold finish_step, flush_buf in *. cbv zeta in Hs.
  destruct a, (ss_main s) as [pc|res|res|[|n] res|n d msg res|[|n] res|n e msg res|res] eqn:Ep;
    try discriminate Hs; try done.
  - injection Hs as <-. rewrite Hst. split; try done. cbn. split; [exact K4|by left].
  - injection Hs as <-. split; try done. cbn. destruct K4 as [Hl [Hn|Hc]]; [done|].
    split; [by destruct (samples _); [|cbn in Hl; lia]|done].
  - destruct (Metrics.drain now _) as [d b] eqn:Ed. destruct K4 as [Hl _].
    pose proof (drain_left _ _ _ _ _ Ed Hl) as Hl'. pose proof (drain_counted _ _ _ _ Ed) as Hc.
    destruct (Metrics.batch_to_message _ _ d) as [msg|] eqn:Em; injection Hs as <-; split; try done; cbn.
    + split_and!; [done|done|]. unfold Metrics.batch_to_message in Em. by destruct (Drained_is_empty d).
    + destruct (Drained_is_empty d) eqn:Ee; cbn; [by eapply drain_nothing|auto].
  - injection Hs as <-. by split.
  - destruct (Logs.drain _) as [[[entries dropped] seq_] b].
    destruct (Logs.batch_to_message _ _ _ _ _); injection Hs as <-; split; try done; cbn; by destruct (_ && _).
  - destruct (blocked s); [done|]. rewrite K2 in Hs. injection Hs as <-. destruct K4 as (Hl & Hc & ->).
    split; try done. unfold flush_buf. cbn. rewrite K2. auto.
  - destruct (blocked s); [done|]. rewrite K2 in Hs. injection Hs as <-. unfold flush_buf in *.
    split; try done. unfold flush_buf. cbn. rewrite K2. by destruct e.
Qed.

(** Beside it the tasks go on, but for the metrics task, which is gone. *)
Lemma task_step_closed u a s s' :
  task_action a = true → session_step u a s = Some s' → ss_metrics s = Closed →
  flush_buf s' = flush_buf s ∧ ss_metrics s' = Closed ∧ ss_lost s' = ss_lost s ∧
  (a ≠ Net NetClose → ss_open s' = ss_open s) ∧ ss_main s' = ss_main s.
Proof.
  intros Ha Hs Hc. assert (is_main a = false) as Hm by (by destruct a).
  destruct (other_step_main u a s s' Hm Hs) as [-> _]. unfold flush_buf.
  destruct a as [a|a|a|a|a|a|t|a]; try discriminate Ha; clear Ha Hm; cbn [session_step] in Hs.
  - unfold net_step in Hs. destruct a; [case_match eqn:E; [|done]|]; simplify_eq; split_and!; try done.
    intros _. by apply andb_true_iff in E as [-> _].
  - unfold hb_step in Hs. destruct a, (ss_hb s); try done; [by simplify_eq|].
    destruct (blocked s); [done|]. destruct (ss_open s) eqn:Eo; simplify_eq; split_and!; try done;
      cbn; by rewrite Eo.
  - unfold metrics_step in Hs. rewrite Hc in Hs. by destruct a.
  - unfold logs_step in Hs. destruct a, (ss_logs s); try done.
    + destruct (Logs.drain _) as [[[entries dropped] seq_] b]. case_match; by simplify_eq.
    + destruct (blocked s); [done|]. destruct (ss_open s) eqn:Eo; simplify_eq; split_and!; try done;
        cbn; by rewrite Eo.
  - unfold status_step in Hs. destruct a, (ss_status s); try done; try (by simplify_eq).
    destruct (blocked s); [done|]. destruct (ss_open s) eqn:Eo; simplify_eq; split_and!; try done;
      cbn; by rewrite Eo.
  - unfold cancel_step in Hs. destruct (_ <? _)%nat; [|done].
    destruct t; try (by simplify_eq). rewrite Hc in Hs. done.
Qed.

(** ** The agent during the flush *)

Definition finished_session (us : @SessionSetup _ * Session) : Prop :=
  ss_metrics us.2 = Closed ∧ ss_lost us.2 = [].

Record shipping l : Prop := {
  sp_stopping : li_stopping l = true;
  sp_cap : (1 ≤ Metrics.batch_cap (metrics (li_runner l)))%nat;
  sp_old : Forall finished_session (li_old l);
  sp_loop : match li_loop l with
            | LpIn _ _ _ _ s => flush_ok (attach (li_runner l) (li_stopping l) s)
            | LpConnect _ => False
            | _ => emptied (metrics (li_runner l))
            end
}.

(** No call is recorded any more, and the stream stays open. *)
Definition quiet (a : LifeAction) : bool :=
  match a with
  | LifeHost (HostRecord _) | LifeHost (HostRecordEvents _ _ _ _) | LifeSession (Net NetClose) => false
  | _ => true
  end.

(** A step that leaves the metrics buffer and the sessions alone. *)
Lemma shipping_keep l l' :
  metrics (li_runner l') = metrics (li_runner l) → li_stopping l' = li_stopping l →
  Forall finished_session (li_old l') →
  match li_loop l, li_loop l' with
  | LpIn _ _ _ _ s, LpIn _ _ _ _ s' =>
      ss_metrics s' = ss_metrics s ∧ ss_open s' = ss_open s ∧ ss_lost s' = ss_lost s ∧ ss_main s' = ss_main s
  | LpIn _ _ _ _ _, _ | _, LpIn _ _ _ _ _ | _, LpConnect _ => False
  | _, _ => True
  end → shipping l → shipping l'.
Proof.
  intros Em Es Ho Hl [K1 K2 K3 K4]. split; [by rewrite Es|by rewrite Em|done|]. rewrite ?Em.
  destruct (li_loop l) as [| |b slept env u s|] eqn:El, (li_loop l') as [| |b' slept' env' u' s'|]; try done.
  destruct Hl as (E1 & E2 & E3 & E4), K4 as [F1 F2 F3 F4]. unfold flush_buf in *. cbn in *.
  split; unfold flush_buf; cbn; congruence.
Qed.

Lemma shipping_host a l : quiet (LifeHost a) = true → shipping l → shipping (life_host a l).
Proof.
  intros Ha Hs. pose proof Hs as [K1 K2 K3 K4].
  destruct a; try discriminate Ha; apply (shipping_keep l); try done; cbn; try (by destruct (li_loop l)).
  all: destruct (li_loop l) as [| |b slept env u s|] eqn:El; cbn; rewrite ?El; done.
Qed.

Lemma shipping_session v a l l' :
  quiet (LifeSession a) = true → life_step v (LifeSession a) l = Some l' → shipping l → shipping l'.
Proof.
  intros Hq Hs [K1 K2 K3 K4]. cbn in Hs. destruct (li_loop l) as [| |b slept env u s|] eqn:El; try done.
  destruct (session_action a) eqn:Ea; [|done]. apply bind_Some in Hs as (s' & Hs & [= <-]).
  set (s0 := attach _ _ s) in *.
  assert (flush_buf s0 = metrics (li_runner l)) as E0 by done.
  assert (flush_ok s' ∧ Metrics.batch_cap (flush_buf s') = Metrics.batch_cap (flush_buf s0)) as [Hf Hc].
  { split; [|pose proof (session_step_caps u a s0 s' Hs) as E; by injection E].
    destruct (is_main a) eqn:Em.
    - destruct a as [| | | | | | |a]; try discriminate Em. cbn [session_step] in Hs. unfold main_step in Hs.
      pose proof (fo_flushing _ K4) as Hfl. destruct (ss_main s0) eqn:Ep; try done;
        rewrite <- Ep in Hs; exact (finish_flush_ok _ _ a s0 s' K1 K2 Hs K4).
    - pose proof K4 as [F1 F2 F3 F4]. assert (task_action a = true) as Ht by (by destruct a).
      destruct (task_step_closed u a s0 s' Ht Hs F1) as (G1 & G2 & G3 & G4 & G5).
      split; [done| |congruence|by rewrite G1, G5]. rewrite G4; [done|]. by intros ->. }
  split; cbn; [done|by rewrite <- E0, <- Hc in K2|done|].
  destruct Hf as [F1 F2 F3 F4]. by split.
Qed.

Lemma shipping_old v i a l l' :
  life_step v (LifeOld i a) l = Some l' → shipping l → shipping l'.
Proof.
  intros Hs Hsh. cbn in Hs. destruct (task_action a) eqn:Ea; [|done].
  apply bind_Some in Hs as (us & Hus & (s & Hs & [= <-])%bind_Some).
  destruct (proj1 (Forall_lookup _ _) (sp_old _ Hsh) i us Hus) as [F1 F2].
  destruct (task_step_closed _ a _ s Ea Hs F1) as (G1 & G2 & G3 & _).
  apply (shipping_keep l); try done.
  - cbn. apply Forall_insert; [apply Hsh|]. split; [exact G2|exact (eq_trans G3 F2)].
  - cbn. destruct (li_loop l) eqn:El; try done. destruct Hsh as [_ _ _ K]. by rewrite El in K.
Qed.

Lemma shipping_step v a l l' :
  quiet a = true → life_step v a l = Some l' → shipping l → shipping l'.
Proof.
  intros Hq Hs Hsh. destruct a as [a|a|i a| |env|].
  - injection Hs as <-. by apply shipping_host.
  - by eapply shipping_session.
  - by eapply shipping_old.
  - cbn in Hs. destruct (li_loop l) as [b| | |] eqn:El; try done. injection Hs as <-. unfold loop_head.
    rewrite (sp_stopping _ Hsh). apply (shipping_keep l); try done; [apply Hsh|]. by rewrite El.
  - cbn in Hs. destruct (li_loop l) eqn:El; try done. destruct Hsh as [_ _ _ K]. by rewrite El in K.
  - cbn in Hs. destruct (li_loop l) as [| |b slept env u s|] eqn:El; try done.
    destruct (ss_main s) as [| | | | | | |res] eqn:Em; try done. injection Hs as <-.
    destruct Hsh as [K1 K2 K3 K4]. rewrite El in K4. destruct K4 as [F1 F2 F3 F4]. cbn in F4. rewrite Em in F4.
    destruct (after_session_keeps (lf_cfg v) (lf_hooks v) env slept b res (li_runner l)) as [Ek _].
    split; cbn; [done|by rewrite Ek|by apply Forall_app; split; [|apply Forall_singleton]|].
    rewrite Ek. by destruct (after_session _ _ _ _ _ _ _).
Qed.

Lemma shipping_run v acts l l' :
  forallb quiet acts = true → life_run v acts l = Some l' → shipping l → shipping l'.
Proof.
  intros Hq. apply life_run_keeps. intros a l1 l2 Hin. apply shipping_step.
  by eapply forallb_forall in Hq; [|apply list_elem_of_In].
Qed.

(** ** Before the flush *)

(** Only a session that saw the request gives batches up. *)
Definition lost_ok s : Prop :=
  match ss_main s with
  | MSelect _ | MAborting _ | MLoad _ => ss_lost s = []
  | MReturned _ => ss_stopping s = true ∨ ss_lost s = []
  | _ => ss_stopping s = true
  end.

Lemma task_step_lost u a s s' :
  task_action a = true → session_step u a s = Some s' →
  ss_lost s' = ss_lost s ∧ ss_stopping s' = ss_stopping s.
Proof.
  destruct a as [a|a|a|a|a|a|t|a]; intros Ha; try discriminate Ha; clear Ha; cbn [session_step].
  - unfold net_step. destruct a; [case_match|]; by intros [= <-].
  - unfold hb_step. destruct a, (ss_hb s); try done; repeat case_match; by intros [= <-].
  - unfold metrics_step. destruct a, (ss_metrics s) as [| | |[|n]|n d msg|]; try done;
      repeat case_match; by intros [= <-].
  - unfold logs_step. destruct a, (ss_logs s); try done; repeat case_match; by intros [= <-].
  - unfold status_step. destruct a, (ss_status s); try done; repeat case_match; by intros [= <-].
  - unfold cancel_step. repeat case_match; by intros [= <-].
Qed.

Lemma main_step_lost u a s s' : session_step u (Main a) s = Some s' → lost_ok s → lost_ok s'.
Proof.
  cbn [session_step]. unfold main_step, lost_ok.
  destruct (ss_main s) as [pc|res|res|[|n] res|n d msg res|[|n] res|n e msg res|res] eqn:Ep.
  { assert (∀ st, ss_lost s = [] → lost_ok (after_poll s st)) as Hp by (intros [[] r] Hl; exact Hl).
    unfold select_step. destruct a as [i| | | | | |]; try done.
    - destruct i; try done; intros (st & _ & ->)%fmap_Some; apply Hp.
    - destruct (blocked s); [done|]. intros (st & _ & ->)%fmap_Some; apply Hp.
    - destruct (ss_notified s); [|done]. by intros [= <-]. }
  all: unfold finish_step; destruct a; try discriminate; cbv zeta; intros Hs;
    repeat case_match; simplify_eq/=; auto; congruence.
Qed.

Lemma main_step_stopping u a s s' : session_step u (Main a) s = Some s' → ss_stopping s' = ss_stopping s.
Proof.
  cbn [session_step]. unfold main_step.
  destruct (ss_main s) as [pc|res|res|[|n] res|n d msg res|[|n] res|n e msg res|res].
  { unfold select_step. destruct a as [i| | | | | |]; try done.
    - destruct i; try done; by intros (st & _ & ->)%fmap_Some.
    - destruct (blocked s); [done|]. by intros (st & _ & ->)%fmap_Some.
    - destruct (ss_notified s); [|done]. by intros [= <-]. }
  all: unfold finish_step; destruct a; try discriminate; cbv zeta; intros Hs;
    repeat case_match; by simplify_eq/=.
Qed.

Definition old_lost_nothing l : Prop := Forall (λ us, ss_lost us.2 = []) (li_old l).

Definition nothing_lost l : Prop :=
  match li_loop l with
  | LpTop _ | LpOver _ => li_stopping l = true ∨ old_lost_nothing l
  | LpConnect _ => old_lost_nothing l
  | LpIn _ _ _ _ s => old_lost_nothing l ∧ lost_ok (attach (li_runner l) (li_stopping l) s)
  end.

Lemma lost_ok_stopping r r' st s :
  lost_ok (attach r st s) → lost_ok (attach r' true s).
Proof. unfold lost_ok. cbn. destruct (ss_main s); try done. by left. Qed.

Lemma goes_nothing_lost o l :
  li_stopping l = true ∨ old_lost_nothing l → nothing_lost (loop_goes o l).
Proof. intros H'. by destruct o. Qed.

Lemma life_step_nothing_lost v a l l' :
  life_step v a l = Some l' → nothing_lost l → nothing_lost l'.
Proof.
  intros Hs Hn. destruct a as [a|a|i a| |env|]; cbn [life_step] in Hs.
  - injection Hs as <-. unfold nothing_lost in *. destruct a; cbn; try done;
      destruct (li_loop l) as [| |b slept env u s|] eqn:El; cbn; rewrite ?El; auto.
    destruct Hn as [Ho Hl]. split; [done|]. by eapply lost_ok_stopping.
  - unfold nothing_lost in Hn. destruct (li_loop l) as [| |b slept env u s|] eqn:El; try done.
    destruct (session_action a) eqn:Ea; [|done]. apply bind_Some in Hs as (s' & Hs & [= <-]).
    destruct Hn as [Ho Hl]. split; [done|]. cbn. set (s0 := attach _ _ s) in *.
    assert (lost_ok s' ∧ ss_stopping s' = ss_stopping s0) as [Hl' Es].
    { destruct (is_main a) eqn:Em.
      - destruct a as [| | | | | | |a]; try discriminate Em.
        split; [by eapply main_step_lost|by eapply main_step_stopping].
      - assert (task_action a = true) as Ht by (by destruct a).
        destruct (task_step_lost u a s0 s' Ht Hs) as [E1 E2].
        destruct (other_step_main u a s0 s' Em Hs) as [E3 _]. split; [|done].
        unfold lost_ok in *. by rewrite E1, E2, E3. }
    unfold lost_ok in *. cbn. rewrite Es in Hl'. exact Hl'.
  - destruct (task_action a) eqn:Ea; [|done].
    apply bind_Some in Hs as (us & Hus & (s & Hs & [= <-])%bind_Some).
    destruct (task_step_lost _ _ _ _ Ea Hs) as [E _].
    assert (old_lost_nothing l → old_lost_nothing
      (set_old (with_outbound (outbound (li_runner l)) (ss_runner s)) (<[i:=(us.1, s)]> (li_old l)) l)) as Ho.
    { intros Ho. apply Forall_insert; [done|]. cbn. rewrite E. exact (proj1 (Forall_lookup _ _) Ho i us Hus). }
    unfold nothing_lost in *. cbn [li_loop set_old]. destruct (li_loop l); naive_solver.
  - unfold nothing_lost in Hn. destruct (li_loop l) eqn:El; try done. injection Hs as <-. unfold loop_head.
    destruct (li_stopping l) eqn:Est; [by left|]. by destruct Hn.
  - unfold nothing_lost in Hn. destruct (li_loop l) eqn:El; try done. injection Hs as <-. unfold loop_connect.
    destruct (refresh_token _ _ _ _) as [r|e r|slept b' r|r|r]; try (apply goes_nothing_lost; by right).
    destruct (channel_opened _ _ r) as [[uid r']|]; [by split|].
    destruct (run_session _ _ _ _ _ r) as [res r']. apply goes_nothing_lost. by right.
  - unfold nothing_lost in Hn. destruct (li_loop l) as [| |b slept env u s|] eqn:El; try done.
    destruct (ss_main s) as [| | | | | | |res] eqn:Em; try done. injection Hs as <-.
    apply goes_nothing_lost. destruct Hn as [Ho Hl]. unfold lost_ok in Hl. cbn in Hl. rewrite Em in Hl.
    destruct Hl as [Hl|Hl]; [by left|right]. apply Forall_app. split; [done|]. by apply Forall_singleton.
Qed.

Lemma life_run_nothing_lost v acts l l' :
  life_run v acts l = Some l' → nothing_lost l → nothing_lost l'.
Proof. apply life_run_keeps. intros a l1 l2 _. apply life_step_nothing_lost. Qed.

(** The caps of the buffer are the agent's, for life. *)
Definition life_caps l : nat * nat := caps (metrics (li_runner l)).

Lemma life_step_caps v a l l' : life_step v a l = Some l' → life_caps l' = life_caps l.
Proof.
  unfold life_caps. intros Hs. destruct (loop_action a) eqn:Ea.
  { by destruct (loop_step_frame v a l l' Ea Hs) as (-> & _). }
  destruct a as [a|a|i a| |env|]; try discriminate Ea; cbn [life_step] in Hs.
  - injection Hs as <-. destruct a; cbn; rewrite ?record_caps, ?record_events_caps; try done.
    by destruct (li_loop l).
  - destruct (li_loop l) as [| |b slept env u s|]; try done. destruct (session_action a); [|done].
    apply bind_Some in Hs as (s' & Hs & [= <-]). exact (session_step_caps u a _ s' Hs).
  - destruct (task_action a); [|done]. apply bind_Some in Hs as (us & _ & (s & Hs & [= <-])%bind_Some).
    exact (session_step_caps us.1 a _ s Hs).
Qed.

Lemma life_run_caps v acts l l' : life_run v acts l = Some l' → life_caps l' = life_caps l.
Proof.
  intros Hr. eapply (life_run_keeps v (λ l', life_caps l' = life_caps l)); [|exact Hr|done].
  intros a l1 l2 _ Hs <-. by eapply life_step_caps.
Qed.

(** Finished sessions have returned. *)
Definition old_returned l : Prop := Forall (λ us, main_flight (ss_main us.2) = None) (li_old l).

Lemma life_step_returned v a l l' : life_step v a l = Some l' → old_returned l → old_returned l'.
Proof.
  unfold old_returned. intros Hs Ho. destruct (loop_action a) eqn:Ea.
  { destruct (loop_step_frame v a l l' Ea Hs) as (_ & _ & _ & [->|(b & slept & env & u & s & res & _ & Em & ->)]);
      [done|]. apply Forall_app. split; [done|]. apply Forall_singleton. cbn. by rewrite Em. }
  destruct a as [a|a|i a| |env|]; try discriminate Ea; cbn [life_step] in Hs.
  - injection Hs as <-. destruct a; try done. cbn. by destruct (li_loop l).
  - destruct (li_loop l); try done. destruct (session_action a); [|done].
    by apply bind_Some in Hs as (s' & Hs & [= <-]).
  - destruct (task_action a) eqn:Et; [|done]. assert (is_main a = false) as Em by (by destruct a).
    apply bind_Some in Hs as (us & Hus & (s & Hs & [= <-])%bind_Some).
    destruct (other_step_main _ _ _ _ Em Hs) as [E _].
    apply Forall_insert; [done|]. cbn. rewrite E. exact (proj1 (Forall_lookup _ _) Ho i us Hus).
Qed.

Lemma life_run_returned v acts l l' : life_run v acts l = Some l' → old_returned l → old_returned l'.
Proof. apply life_run_keeps. intros a l1 l2 _. apply life_step_returned. Qed.

(** ** The end *)

(** The session of a requested shutdown is about to load [stopping]: the stream is
    open, and the metrics tasks of all sessions have stopped. *)
Definition about_to_flush l : Prop :=
  li_stopping l = true ∧ Forall (λ us, ss_metrics us.2 = Closed) (li_old l) ∧
  ∃ b slept env u s res, li_loop l = LpIn b slept env u s ∧
    ss_main s = MLoad res ∧ ss_open s = true ∧ ss_metrics s = Closed.

(** The batches that left the agent, in all its sessions. *)
Definition life_shipped l : list Drained :=
  from_option ss_shipped [] (current l) ++ concat ((ss_shipped ∘ snd) <$> li_old l).

Lemma about_to_flush_shipping l :
  (1 ≤ Metrics.batch_cap (metrics (li_runner l)))%nat →
  (length (samples (Metrics.buf (metrics (li_runner l)))) ≤
     MAX_SHUTDOWN_FLUSH_BATCHES * Metrics.batch_cap (metrics (li_runner l)))%nat →
  nothing_lost l → about_to_flush l → shipping l.
Proof.
  intros Hb Hlen Hn (Hst & Hold & b & slept & env & u & s & res & El & Em & Ho & Hc).
  unfold nothing_lost, lost_ok in Hn. rewrite El in Hn. cbn in Hn. rewrite Em in Hn. destruct Hn as [Hol Hl].
  split; [done|done| |].
  - unfold old_lost_nothing in Hol. rewrite Forall_forall in *. intros us Hus. split; auto.
  - rewrite El. split; try done. cbn. by rewrite Em.
Qed.

(** Nothing is held anywhere. *)
Lemma shipped_all l :
  shipping l → old_returned l → current l = None → life_out l = life_shipped l.
Proof.
  intros [_ _ Ho _] Hr Hc. unfold life_out, life_shipped. rewrite Hc. cbn. f_equal.
  unfold old_returned in Hr. rewrite Forall_forall in Ho, Hr. apply list_fmap_ext. intros i us Hus%list_elem_of_lookup_2.
  destruct (Ho us Hus) as [E1 E2]. unfold session_out. cbn. by rewrite E1, E2, (Hr us Hus).
Qed.

Lemma quiet_action_ok a : quiet a = true → life_action_ok a.
Proof. by destruct a as [[]| | | | |]. Qed.

Lemma quiet_step_recorded v a l l' :
  quiet a = true → life_step v a l = Some l' → li_recorded l' = li_recorded l.
Proof.
  intros Hq Hs. destruct (loop_action a) eqn:Ea; [by apply (loop_step_frame v a l l' Ea Hs)|].
  destruct a as [a|a|i a| |env|]; try discriminate Ea; cbn [life_step] in Hs.
  - injection Hs as <-. destruct a; try done. cbn. by destruct (li_loop l).
  - destruct (li_loop l); try done. destruct (session_action a); [|done].
    by apply bind_Some in Hs as (s' & Hs & [= <-]).
  - destruct (task_action a); [|done]. by apply bind_Some in Hs as (us & Hus & (s & Hs & [= <-])%bind_Some).
Qed.

Lemma quiet_run v acts l l' :
  forallb quiet acts = true → life_run v acts l = Some l' →
  Forall life_action_ok acts ∧ li_recorded l' = li_recorded l.
Proof.
  intros Hq Hr. assert (∀ a, a ∈ acts → quiet a = true) as Hall.
  { intros a Hin. by eapply forallb_forall in Hq; [|apply list_elem_of_In]. }
  split; [apply Forall_forall; intros a Hin; by apply quiet_action_ok, Hall|].
  eapply (life_run_keeps v (λ l', li_recorded l' = li_recorded l)); [|exact Hr|done].
  intros a l1 l2 Hin Hs <-. eapply quiet_step_recorded; [by apply Hall|done].
Qed.

Lemma shipping_emptied l : shipping l → current l = None → emptied (metrics (li_runner l)).
Proof. intros [_ _ _ K] Hc. unfold current in Hc. by destruct (li_loop l). Qed.

(** C2: a graceful shutdown bills every call of the agent's life: if the session of
    the request finds the metrics tasks stopped and the stream stays open, and nothing
    is recorded any more, then whatever the other tasks, the tasks of earlier sessions
    and the transport do, when the session is over the buffer is empty and the reports
    accepted in all the sessions account, drop counts included, for every call the
    agent began with or recorded since, billable and not (modulo the 64-bit
    counters). *)
Theorem graceful_shutdown_bills_every_call v b r acts l acts' l' :
  Metrics.Inner_wf (metrics r) → (1 ≤ Metrics.batch_cap (metrics r))%nat →
  (Metrics.cap (metrics r) `max` 1 ≤ MAX_SHUTDOWN_FLUSH_BATCHES * Metrics.batch_cap (metrics r))%nat →
  Forall life_action_ok acts → life_run v acts (life_init b r) = Some l → about_to_flush l →
  forallb quiet acts' = true → life_run v acts' l = Some l' → current l' = None →
  emptied (metrics (li_runner l')) ∧ li_recorded l' = li_recorded l ∧
  eq64 (sum_over batch_billable (life_shipped l'))
    (ledger_billable (metrics r) + Z.of_nat (count_if billable (li_recorded l))) ∧
  eq64 (sum_over batch_non_billable (life_shipped l'))
    (ledger_non_billable (metrics r) + Z.of_nat (count_if non_billable_sample (li_recorded l))).
Proof.
  intros Hw Hb Hcap Ha Hr Habout Hq Hr' Hc.
  pose proof (life_run_caps v acts _ l Hr) as E. injection E as Ec Eb.
  pose proof (life_run_inv (ledger_billable (metrics r)) (ledger_non_billable (metrics r)) v acts _ l Ha Hr) as Hi.
  assert (life_inv (ledger_billable (metrics r)) (ledger_non_billable (metrics r)) l) as Hl.
  { apply Hi. split; cbn; [done|constructor| |]; apply eq64_of_eq; lia. }
  clear Hi. pose proof (iw_len _ (lo_wf _ _ _ _ _ Hl)) as Hlen.
  assert (shipping l) as Hsh.
  { apply about_to_flush_shipping; [by rewrite Eb|rewrite Eb; rewrite Ec in Hlen; lia| |done].
    eapply life_run_nothing_lost; [exact Hr|]. right. constructor. }
  pose proof (shipping_run v acts' l l' Hq Hr' Hsh) as Hsh'.
  assert (old_returned l') as Hret.
  { eapply life_run_returned; [exact Hr'|]. eapply life_run_returned; [exact Hr|]. constructor. }
  destruct (quiet_run v acts' l l' Hq Hr') as [Ha' Erec].
  pose proof (life_run_inv _ _ v acts' l l' Ha' Hr' Hl) as [_ _ K1 K2].
  pose proof (shipping_emptied l' Hsh' Hc) as He. pose proof He as (E1 & E2 & E3 & _).
  rewrite (shipped_all l' Hsh' Hret Hc), Erec in K1, K2.
  unfold ledger_billable at 1 in K1. unfold ledger_non_billable at 1 in K2. rewrite E1, E2 in K1. rewrite E1, E3 in K2.
  cbn in K1, K2. rewrite Z.add_0_r in K1, K2. done.
Qed.
End billing.

(** ** The property on a concrete execution *)

#[local] Existing Instance demo_grpc.

Definition is_about_to_flush (l : demo_life) : bool :=
  li_stopping l &&
  forallb (λ us, match ss_metrics us.2 with Closed => true | _ => false end) (li_old l) &&
  match li_loop l with
  | LpIn _ _ _ _ s =>
      match ss_main s, ss_metrics s with MLoad _, Closed => ss_open s | _, _ => false end
  | _ => false
  end.

Lemma is_about_to_flush_spec (l : demo_life) : is_about_to_flush l = true → about_to_flush l.
Proof.
  unfold is_about_to_flush. intros [[Hst Ho]%andb_true_iff Hl]%andb_true_iff. split_and!; [done| |].
  - apply Forall_forall. intros us Hin%list_elem_of_In. eapply forallb_forall in Ho; [|done].
    by destruct (ss_metrics us.2).
  - destruct (li_loop l) as [| |b slept env u s|]; try done.
    destruct (ss_main s) as [| |res| | | | |] eqn:Em, (ss_metrics s) eqn:Ec; try done.
    by exists b, slept, env, u, s, res.
Qed.

(** The execution of the graceful shutdown, cut where the flush begins. *)
Definition flush_begins : demo_actions := requested ++ take 6 wound_down.

Lemma flush_begins_reached :
  life_run life_setup flush_begins (life_init demo_backoff holder) = Some (life_at flush_begins).
Proof. apply some_default. vm_compute. reflexivity. Qed.

Definition billed_end : demo_life :=
  default (life_init demo_backoff holder) (life_run life_setup (drop 6 wound_down) (life_at flush_begins)).

Lemma billed_reached : life_run life_setup (drop 6 wound_down) (life_at flush_begins) = Some billed_end.
Proof. apply some_default. vm_compute. reflexivity. Qed.

Lemma graceful_shutdown_bills_every_call_witness :
  length (samples (Metrics.buf (metrics (li_runner (life_at flush_begins))))) = 1%nat ∧
  samples (Metrics.buf (metrics (li_runner billed_end))) = [] ∧
  eq64 (sum_over batch_billable (life_shipped billed_end)) 1.
Proof.
  assert (Forall life_action_ok flush_begins) as Ha by (repeat constructor).
  assert (about_to_flush (life_at flush_begins)) as Hf
    by (apply is_about_to_flush_spec; vm_compute; reflexivity).
  assert (current billed_end = None) as Hc by (vm_compute; reflexivity).
  destruct (graceful_shutdown_bills_every_call life_setup demo_backoff holder flush_begins
    (life_at flush_begins) (drop 6 wound_down) billed_end (MetricsFacts.with_caps_wf _ _)
    ltac:(apply Nat.leb_le; vm_compute; reflexivity) ltac:(apply Nat.leb_le; vm_compute; reflexivity)
    Ha flush_begins_reached Hf ltac:(vm_compute; reflexivity) billed_reached Hc) as ([K1 _] & _ & K2 & _).
  split; [vm_compute; reflexivity|]. split; [exact K1|].
  assert (count_if billable (li_recorded (life_at flush_begins)) = 1%nat) as E by (vm_compute; reflexivity).
  rewrite E in K2. exact K2.
Defined.
