(* ===== verification/LifetimeFlush.v ===== *)
(** * The agent's flush tasks

    For the metrics buffer the concurrent agent of [Lifetime] is the system of flush
    tasks of [FlushLoop]: the tasks of the sessions it opened, those of the earlier
    ones in any stage of their cancellation, and the host, on one buffer. *)

From stdpp Require Import base list strings gmap relations.
From Stdlib Require Import ZArith QArith Lia.
From S2P Require Import Prelude Time BTree Proto Text Serde Concrete Errors Token F64 Backoff.
From S2P Require Import Metrics MetricsFacts FlushLoop FlushLoopFacts Ledger Logs Status.
From S2P Require Import Crypto Dek Fs FsFacts Lkg LkgFacts License Creds Client Runner Inbound Control.
From S2P Require Import Agent LoopControl SessionFacts LoopFacts Session SessionSafety SessionWire.
From S2P Require Import SessionRefinement SessionControl Lifetime LifetimeBilling.

#[local] Arguments record_events : simpl never.
#[local] Arguments Metrics.record : simpl never.

Section life_flush.
Context `{!Json, !Base64, !Rfc3339, !Aead, !Hkdf, !BundleCodec, !Grpc}.
Context {Channel QuotaStatus : Type}.
Abbreviation Life := (@Life _ Channel QuotaStatus).
Abbreviation Session := (@Session _ Channel QuotaStatus).
Abbreviation LifeAction := (@LifeAction _ Channel QuotaStatus).
Implicit Types (l : Life) (s : Session) (v : @LifeSetup _) (y : FlushSystem).

(** The flush tasks of all sessions so far, oldest first. *)
Definition life_tasks l : list FlushPc :=
  ((λ us, ss_metrics us.2) <$> li_old l) ++ option_list (ss_metrics <$> current l).

(** Not a step of the shutdown flush. *)
Definition life_no_flush (a : LifeAction) : Prop :=
  match a with LifeSession a => no_flush a | _ => True end.

Record life_sim v l y : Prop := {
  lm_buf : fl_buf y = metrics (li_runner l);
  lm_tasks : fl_tasks y = life_tasks l;
  lm_shipped : fl_shipped y ≡ₚ life_shipped l;
  lm_recorded : fl_recorded y = li_recorded l;
  lm_main : ∀ s, current l = Some s → main_flight (ss_main s) = None;
  lm_old : Forall (λ us, main_flight (ss_main us.2) = None) (li_old l);
  lm_code : ∀ b slept env u s, li_loop l = LpIn b slept env u s → su_code u = lf_code v;
  lm_codes : Forall (λ us, su_code us.1 = lf_code v) (li_old l)
}.

(** A step of the session whose task is the [i]-th. *)
Lemma system_task_or_not code y i pc st :
  fl_tasks y !! i = Some pc → st = focus pc y ∨ flush_task_step code (focus pc y) st →
  ∃ y', (y' = y ∨ system_step code y y') ∧ fl_buf y' = fs_buf st ∧
    fl_tasks y' = <[i:=fs_pc st]> (fl_tasks y) ∧ fl_shipped y' = fs_shipped st ∧
    fl_recorded y' = fl_recorded y.
Proof.
  intros Hi [->|Hst].
  - exists y. split; [by left|]. split; [done|]. split; [|done].
    change (fs_pc (focus pc y)) with pc. by rewrite list_insert_id.
  - exists (unfocus (<[i:=fs_pc st]> (fl_tasks y)) st).
    split; [right; by apply (system_task code y i pc)|]. split_and!; [done..|].
    change (fl_recorded y) with (fs_recorded (focus pc y)). cbn [unfocus fl_recorded]. by destruct Hst.
Qed.

Lemma old_shipped_insert i us s (old : list (@SessionSetup _ * Session)) :
  old !! i = Some us →
  ∃ rest, concat ((ss_shipped ∘ snd) <$> old) ≡ₚ ss_shipped us.2 ++ rest ∧
    concat ((ss_shipped ∘ snd) <$> <[i := (us.1, s)]> old) ≡ₚ ss_shipped s ++ rest.
Proof.
  intros Hi. pose proof (lookup_lt_Some _ _ _ Hi) as Hlt.
  exists (concat ((ss_shipped ∘ snd) <$> take i old) ++ concat ((ss_shipped ∘ snd) <$> drop (S i) old)).
  rewrite <- (take_drop_middle old i us Hi) at 1. rewrite insert_take_drop by done.
  rewrite !fmap_app, !fmap_cons, !concat_app. cbn [concat compose snd].
  split; solve_Permutation.
Qed.

Lemma life_sim_old v i a l l' y :
  life_step v (LifeOld i a) l = Some l' → life_sim v l y →
  ∃ y', (y' = y ∨ system_step (lf_code v) y y') ∧ life_sim v l' y'.
Proof.
  cbn. destruct (task_action a) eqn:Ea; [|done].
  intros (us & Hus & (s & Hs & [= <-])%bind_Some)%bind_Some [K1 K2 K3 K4 K5 K6 K7 K8].
  destruct (old_shipped_insert i us s (li_old l) Hus) as (rest & P1 & P2).
  pose proof (proj1 (Forall_lookup _ _) K6 i us Hus) as Hmain.
  pose proof (proj1 (Forall_lookup _ _) K8 i us Hus) as Hcode.
  set (cur := from_option ss_shipped [] (current l)).
  assert (fl_tasks y !! i = Some (ss_metrics us.2)) as Hi.
  { rewrite K2. unfold life_tasks. rewrite lookup_app_l by (rewrite length_fmap; by eapply lookup_lt_Some).
    by rewrite list_lookup_fmap, Hus. }
  destruct (session_step_sim us.1 a _ s (cur ++ rest) (focus (ss_metrics us.2) y)
    ltac:(by destruct a) Hs) as (st & Hst & [S1 S2 S3 S4]).
  { split; try done. cbn. rewrite K3. unfold life_shipped. fold cur. rewrite P1. solve_Permutation. }
  rewrite Hcode in Hst.
  destruct (system_task_or_not _ _ _ _ _ Hi Hst) as (y' & Hy & E1 & E2 & E3 & E4).
  exists y'. split; [done|]. split.
  - by rewrite E1, S1.
  - rewrite E2, K2, S2. unfold life_tasks. cbn.
    rewrite insert_app_l by (rewrite length_fmap; by eapply lookup_lt_Some).
    by rewrite list_fmap_insert.
  - rewrite E3, S3. unfold life_shipped. change (current (set_old _ _ l)) with (current l). fold cur.
    cbn [li_old set_old]. rewrite P2. solve_Permutation.
  - by rewrite E4.
  - done.
  - by apply Forall_insert.
  - done.
  - by apply Forall_insert.
Qed.

Lemma life_sim_session v a l l' y :
  no_flush a → life_step v (LifeSession a) l = Some l' → life_sim v l y →
  ∃ y', (y' = y ∨ system_step (lf_code v) y y') ∧ life_sim v l' y'.
Proof.
  cbn. destruct (li_loop l) as [| |b slept env u s|] eqn:El; try done. intros Hn.
  destruct (session_action a) eqn:Ea; [|done]. intros (s' & Hs & [= <-])%bind_Some [K1 K2 K3 K4 K5 K6 K7 K8].
  assert (current l = Some s) as Ec by (unfold current; by rewrite El).
  assert (fl_tasks y !! length (li_old l) = Some (ss_metrics s)) as Hi.
  { rewrite K2. unfold life_tasks. rewrite Ec, lookup_app_r by (by rewrite length_fmap).
    by rewrite length_fmap, Nat.sub_diag. }
  set (rest := concat ((ss_shipped ∘ snd) <$> li_old l)).
  destruct (session_step_sim u a _ s' rest (focus (ss_metrics s) y)
    ltac:(by destruct a) Hs) as (st & Hst & [S1 S2 S3 S4]).
  { split; try done; [|cbn; by apply K5]. cbn. rewrite K3. unfold life_shipped. by rewrite Ec. }
  rewrite (K7 _ _ _ _ _ El) in Hst.
  destruct (system_task_or_not _ _ _ _ _ Hi Hst) as (y' & Hy & E1 & E2 & E3 & E4).
  exists y'. split; [done|]. split.
  - by rewrite E1, S1.
  - rewrite E2, K2, S2. unfold life_tasks. rewrite Ec. cbn.
    rewrite <- (length_fmap (λ us, ss_metrics us.2) (li_old l)).
    rewrite insert_app_r_alt, Nat.sub_diag by done. done.
  - by rewrite E3, S3.
  - by rewrite E4.
  - by intros ? [= <-].
  - done.
  - intros ????? [= <- <- <- <- <-]. by eapply K7.
  - done.
Qed.

Lemma life_sim_host v a l y :
  life_action_ok (LifeHost a : LifeAction) → life_sim v l y →
  ∃ y', (y' = y ∨ system_step (lf_code v) y y') ∧ life_sim v (life_host a l) y'.
Proof.
  intros Ha [K1 K2 K3 K4 K5 K6 K7 K8].
  destruct a as [sample|now name mode_ c|line| |]; cbn [life_host].
  - eexists. split; [right; apply (system_host _ y Closed), (step_record _ sample)|].
    split; try done; cbn; [by rewrite K1|by rewrite K4].
  - eexists. split; [right; by apply (system_host _ y Closed), (step_record_events _ now name mode_ c)|].
    split; try done; cbn. by rewrite K1.
  - exists y. split; [by left|]. by split.
  - exists y. split; [by left|]. by split.
  - exists y. split; [by left|]. destruct (li_loop l) as [| |b slept env u s|] eqn:El;
      try (split; try done; by rewrite El).
    assert (current l = Some s) as Ec by (unfold current; by rewrite El).
    unfold life_tasks, life_shipped in *. rewrite Ec in *.
    split; try done; cbn; [intros s' [= <-]; exact (K5 s eq_refl)|].
    intros ????? [= <- <- <- <- <-]. by eapply K7.
Qed.

(** Where the loop goes when it has no session. *)
Lemma life_sim_goes v o l y :
  metrics (step_runner o) = metrics (li_runner l) → current l = None → life_sim v l y →
  life_sim v (loop_goes o l) y.
Proof.
  intros Hm Hc [K1 K2 K3 K4 K5 K6 K7 K8].
  assert (current (loop_goes o l) = None) as Hc' by (unfold current; by destruct o).
  unfold life_tasks, life_shipped in *. rewrite Hc in *.
  split; unfold life_tasks, life_shipped; rewrite ?Hc'; cbn; try done; [congruence|].
  by destruct o.
Qed.

Lemma life_sim_connect v env b l y :
  li_loop l = LpConnect b → life_sim v l y →
  ∃ y', (y' = y ∨ system_step (lf_code v) y y') ∧ life_sim v (loop_connect v env b l) y'.
Proof.
  intros El Hi. assert (current l = None) as Hc by (unfold current; by rewrite El).
  unfold loop_connect.
  pose proof (refresh_token_keeps (lf_cfg v) env (li_runner l) (λ slept r, LNext slept b r)
    ltac:(done)) as (Hm & _).
  destruct (refresh_token _ _ _ _) as [r'|e r'|slept b' r'|r'|r']; cbn [step_runner] in Hm;
    try (exists y; split; [by left|by apply life_sim_goes]).
  destruct (channel_opened _ _ r') as [[uid r0]|] eqn:Eo.
  - destruct (channel_opened_metrics _ _ _ _ _ Eo) as (Hm' & _).
    destruct Hi as [K1 K2 K3 K4 K5 K6 K7 K8]. unfold life_tasks, life_shipped in *. rewrite Hc in *.
    exists (unfocus (fl_tasks y ++ [Starting]) (focus Closed y)). split; [right; apply system_spawn|].
    split; unfold life_tasks, life_shipped; cbn; try done.
    + by rewrite K1, Hm', Hm.
    + by rewrite K2, app_nil_r.
    + by intros ? [= <-].
    + by intros ????? [= _ _ _ <- _].
  - destruct (unopened_fails (lf_code v) (lf_level v) (lf_cfg v) env r' Eo) as (e & c & Hrs).
    rewrite Hrs. exists y. split; [by left|]. apply life_sim_goes; [|done..].
    destruct (after_session_keeps (lf_cfg v) (lf_hooks v) env slept b' (Err e) (with_client c r')) as [-> _].
    by rewrite <- Hm.
Qed.

Lemma life_sim_returned v l l' y :
  life_step v LifeReturned l = Some l' → life_sim v l y → life_sim v l' y.
Proof.
  cbn. destruct (li_loop l) as [| |b slept env u s|] eqn:El; try done.
  destruct (ss_main s) as [| | | | | | |res] eqn:Em; try done. intros [= <-] [K1 K2 K3 K4 K5 K6 K7 K8].
  assert (current l = Some s) as Ec by (unfold current; by rewrite El).
  destruct (after_session_keeps (lf_cfg v) (lf_hooks v) env slept b res (li_runner l)) as [Hm _].
  set (o := after_session _ _ _ _ _ _ _) in *.
  set (l0 := set_old _ _ l). assert (current (loop_goes o l0) = None) as Hc by (unfold current; by destruct o).
  unfold life_tasks, life_shipped in *. rewrite Ec in *. cbn in K2, K3.
  split; unfold life_tasks, life_shipped; rewrite ?Hc; cbn; rewrite ?fmap_app, ?concat_app; cbn.
  - by rewrite Hm.
  - by rewrite app_nil_r.
  - rewrite K3, app_nil_r. solve_Permutation.
  - done.
  - done.
  - apply Forall_app. split; [done|]. repeat constructor. cbn. by rewrite Em.
  - by destruct o.
  - apply Forall_app. split; [done|]. repeat constructor. cbn. by eapply K7.
Qed.

Lemma life_step_sim v a l l' y :
  life_action_ok a → life_no_flush a → life_step v a l = Some l' → life_sim v l y →
  ∃ y', (y' = y ∨ system_step (lf_code v) y y') ∧ life_sim v l' y'.
Proof.
  intros Ha Hn Hs Hi. destruct a as [a|a|i a| |env|].
  - cbn in Hs. injection Hs as <-. by apply life_sim_host.
  - by eapply life_sim_session.
  - by eapply life_sim_old.
  - exists y. split; [by left|]. cbn in Hs. destruct (li_loop l) eqn:El; try done. injection Hs as <-.
    assert (current l = None) as Hc by (unfold current; by rewrite El).
    unfold loop_head. destruct (li_stopping l); [by apply life_sim_goes|].
    destruct Hi as [K1 K2 K3 K4 K5 K6 K7 K8]. unfold life_tasks, life_shipped in *. rewrite Hc in *.
    by split.
  - cbn in Hs. destruct (li_loop l) eqn:El; try done. injection Hs as <-. by apply life_sim_connect.
  - exists y. split; [by left|]. by eapply life_sim_returned.
Qed.

(** C10: until a shutdown flush begins every execution of the concurrent agent is, for
    the metrics buffer, an execution of the system of flush tasks, each step one of a
    task, of the host or none: with the buffer of the agent, the tasks of all its
    sessions where they are, those of earlier sessions in any stage of their
    cancellation, the samples recorded, and the batches the channels accepted. *)
Theorem life_refines_flush_tasks v c bc b r acts l :
  metrics r = Metrics.with_caps c bc → Forall life_action_ok acts → Forall life_no_flush acts →
  life_run v acts (life_init b r) = Some l →
  ∃ y, system_reachable (lf_code v) c bc y ∧ fl_buf y = metrics (li_runner l) ∧
    fl_tasks y = life_tasks l ∧ fl_recorded y = li_recorded l ∧ fl_shipped y ≡ₚ life_shipped l.
Proof.
  intros Hb Ha Hn Hr.
  assert (∃ y, system_reachable (lf_code v) c bc y ∧ life_sim v l y) as (y & Hy & Hsim).
  { eapply (life_run_keeps v (λ l, ∃ y, system_reachable (lf_code v) c bc y ∧ life_sim v l y));
      [|exact Hr|].
    - intros a l1 l2 Hin Hs (y & Hy & Hi). rewrite Forall_forall in Ha, Hn.
      destruct (life_step_sim v a l1 l2 y (Ha a Hin) (Hn a Hin) Hs Hi) as (y' & [->|Hst] & Hi').
      + by exists y.
      + exists y'. split; [|done]. by eapply rtc_r.
    - exists (system_init (Metrics.with_caps c bc)). split; [apply rtc_refl|].
      split; try done; cbn; by constructor. }
  exists y. split_and!; [done|apply Hsim..].
Qed.
End life_flush.

(** ** The property on a concrete execution *)

#[local] Existing Instance demo_grpc.

(** The execution in which the task of a first session, cancelled late, hands its batch
    to the second. *)
Lemma life_refines_flush_tasks_witness :
  length (life_tasks handed_on_end) = 2%nat ∧ length (life_shipped handed_on_end) = 1%nat ∧
  ∃ y, system_reachable outcome_code Metrics.DEFAULT_BUFFER_CAP Metrics.DEFAULT_BATCH_CAP y ∧
    fl_tasks y = life_tasks handed_on_end ∧ fl_shipped y ≡ₚ life_shipped handed_on_end.
Proof.
  split; [vm_compute; reflexivity|]. split; [vm_compute; reflexivity|].
  assert (Forall life_action_ok handed_on) as Ha by (repeat constructor).
  assert (Forall life_no_flush handed_on) as Hn by (repeat constructor).
  destruct (life_refines_flush_tasks life_setup Metrics.DEFAULT_BUFFER_CAP Metrics.DEFAULT_BATCH_CAP
    demo_backoff holder handed_on handed_on_end eq_refl Ha Hn handed_on_reached)
    as (y & Hy & _ & Ht & _ & Hs).
  exists y. split; [exact Hy|]. split; [exact Ht|exact Hs].
Defined.
