(* ===== verification/TestMetrics.v ===== *)
(** * The unit tests of [src/metrics.rs] on the model

    Every test of the module's [mod tests], translated assertion by assertion and
    evaluated on the definitions of [Metrics] and [FlushLoop]: the model behaves on
    the authors' own examples as the authors expect of the code.  [Utc::now] is a
    fixed time; the wire numbering of outcomes and BLAKE3 are arguments, as in the
    model.  Where a test measures time, the model's clock stands for it. *)

From stdpp Require Import base list strings.
From Stdlib Require Import ZArith Lia.
From S2P Require Import Prelude Time BTree Proto Text Metrics MetricsFacts FlushLoop FlushTime.

Module metrics_tests.
Import SampleOutcome.

Section tests.
Context (now : DateTime) (tool_outcome_i32 : ToolOutcome → Z) (blake3_hex : string → string).

(** A message that is expected to be a [MetricsReport]. *)
Definition expect_report (m : option AgentMessage) (check : MetricsReport → bool) : bool :=
  match m with
  | Some {| kind := Some (KMetricsReport r) |} => check r
  | _ => false
  end.

Definition record_all (l : list ToolCallSample) (b : Inner) : Inner :=
  fold_left (λ b s, record s b) l b.

Definition sample (plugin tool : string) (o : SampleOutcome) (dur : Duration) : ToolCallSample :=
  {| plugin_id := plugin; tool_name := tool; binding_id := None; started_at := now;
     duration := dur; outcome := o; error_code := None; error_hash := None; request_id := None;
     caller_subject := None; request_payload := None; response_payload := None;
     payload_encrypted := false; dek_version := 0 |}.

(** [n] calls that took [from], [from + 1], ... milliseconds. *)
Definition timed (n : nat) (from : Z) : list ToolCallSample :=
  (λ i, sample "p" "t" Ok (from_millis (from + Z.of_nat i))) <$> List.seq 0 n.

(** [n] calls named [prefix]0, [prefix]1, ... *)
Definition named (plugin prefix : string) (n : nat) : list ToolCallSample :=
  (λ i, sample plugin (prefix +:+ to_string (Z.of_nat i)) Ok (from_millis 1)) <$> List.seq 0 n.

Definition nth_duration (l : list ToolCallSample) (i : nat) : option Duration := duration <$> l !! i.

Definition record_and_drain_round_trip : bool :=
  let batch := (drain now (record_all (timed 3 10) MetricsBuffer_new)).1 in
  let drained := d_samples batch in
  bool_decide (length drained = 3) &&
  bool_decide (d_dropped_overflow batch = 0%Z) &&
  bool_decide (d_seq batch = 1%Z) &&
  bool_decide (nth_duration drained 0 = Some (from_millis 10)) &&
  bool_decide (nth_duration drained 2 = Some (from_millis 12)).

Definition batch (l : list ToolCallSample) (dropped : Z) : Drained :=
  {| d_samples := l; d_dropped_overflow := dropped; d_dropped_non_billable := 0; d_seq := 1;
     d_events := [] |}.

Definition event_deliveries_roll_up_per_type_and_reach_the_report : bool :=
  let counts d n := {| delivered := d; abandoned := 0; ingested := 0; ec_bytes := n |} in
  let b := with_caps 10 10 in
  let b := record_events now "orders.created" "webhook" (counts 2 200)%Z b in
  let b := record_events now "orders.created" "webhook" (counts 1 50)%Z b in
  let b := record_events now "invoices.paid" "webhook" EventCounts_default b in
  let b := record_events now "orders.created" "inbound"
             {| delivered := 0; abandoned := 0; ingested := 4; ec_bytes := 40 |} b in
  let '(drained, b) := drain now b in
  negb (Drained_is_empty drained) &&
  bool_decide (length (d_events drained) = 2) &&
  bool_decide (eu_counts <$> List.find (λ u, String.eqb (mode u) "webhook") (d_events drained)
               = Some (counts 3 250)%Z) &&
  expect_report (batch_to_message tool_outcome_i32 (timestamp_secs now) drained) (λ report,
    let find m := List.find (λ e, String.eqb (eus_mode e) m) (mr_events report) in
    bool_decide ((λ e, (eus_event_name e, eus_delivered e)) <$> find "webhook"%string
                 = Some ("orders.created"%string, 3%Z)) &&
    bool_decide ((λ e, (eus_ingested e, eus_delivered e)) <$> find "inbound"%string
                 = Some (4%Z, 0%Z))) &&
  let '(again, b) := drain now b in
  vec_is_empty (d_events again) &&
  let b := record_events now "orders.created" "webhook" (counts 1 10)%Z b in
  let '(batch, b) := drain now b in
  let b := requeue_front batch b in
  let b := record_events now "orders.created" "webhook" (counts 1 10)%Z b in
  bool_decide (eu_counts <$> head (d_events (drain now b).1) = Some (counts 2 20)%Z).

Definition outcomes (l : list ToolCallSample) : list SampleOutcome := outcome <$> l.

Definition overflow_of_refusals_counts_no_billable_drop : bool :=
  let b := record_all (replicate 5 (sample "p" "t" QuotaExceeded (from_millis 1))) (with_caps 3 10) in
  let batch := (drain now b).1 in
  bool_decide (length (d_samples batch) = 3) &&
  bool_decide (d_dropped_overflow batch = 0%Z) &&
  bool_decide (d_dropped_non_billable batch = 2%Z).

Definition a_full_buffer_drops_non_billable_samples_first : bool :=
  let rec l b := record_all ((λ o, sample "p" "t" o (from_millis 1)) <$> l) b in
  let b := rec [Ok; PolicyDenied; ServerError; Ok; IdempotentReplay] (with_caps 3 10) in
  let '(batch, b) := drain now b in
  bool_decide (outcomes (d_samples batch) = [Ok; ServerError; Ok]) &&
  bool_decide (d_dropped_overflow batch = 0%Z) &&
  bool_decide (d_dropped_non_billable batch = 2%Z) &&
  let b := rec [Ok; ServerError; QuotaExceeded; ClientError] b in
  let '(batch, b) := drain now b in
  bool_decide (outcomes (d_samples batch) = [Ok; ServerError; ClientError]) &&
  bool_decide (d_dropped_overflow batch = 0%Z) &&
  bool_decide (d_dropped_non_billable batch = 1%Z) &&
  let b := rec [Ok; Ok; Ok; ClientError] b in
  let batch := (drain now b).1 in
  bool_decide (d_dropped_overflow batch = 1%Z) &&
  bool_decide (d_dropped_non_billable batch = 0%Z).

Definition billable_outcomes_are_the_ones_that_ran : bool :=
  forallb (λ '(o, billable), Bool.eqb (is_billable o) billable)
    [(Ok, true); (ClientError, true); (ServerError, true); (PolicyDenied, false);
     (QuotaExceeded, false); (IdempotentReplay, false)].

(** The sizes of the reports among messages. *)
Definition report_sizes (msgs : list AgentMessage) : list nat :=
  (λ m, match kind m with Some (KMetricsReport r) => length (mr_invocations r) | _ => 0 end) <$> msgs.

Definition one_flush_tick_ships_the_whole_buffer : bool :=
  let b := record_all (named "p" "t" (Z.to_nat 1234)) (with_caps (Z.to_nat 5000) (Z.to_nat 500)) in
  let '(msgs, b, closed) := flush_round tool_outcome_i32 (batches_per_tick b) 64 now b in
  bool_decide (report_sizes msgs = Z.to_nat <$> [500%Z; 500%Z; 234%Z]) &&
  bool_decide (buffered b = 0) && negb closed.

(** One burst of [a_filling_buffer_ships_before_its_tick]: the records leave a
    permit, the loop takes it instead of its tick, and its round ships the burst. *)
Definition burst_ships_early (b : Inner) (n : nat) : option (nat * Z * Inner) :=
  let b := record_all (named "p" (to_string (Z.of_nat n) +:+ "-") 90) b in
  if flush_early b then
    let b := set_flush_early b false in
    let '(msgs, b, _) := flush_round tool_outcome_i32 (batches_per_tick b) 1024 now b in
    let dropped m := match kind m with
                     | Some (KMetricsReport r) => (mr_dropped_overflow r + mr_dropped_non_billable r)%Z
                     | _ => 0%Z
                     end in
    Some (list_sum (report_sizes msgs), foldr (λ m acc, (dropped m + acc)%Z) 0%Z msgs, b)
  else None.

Definition a_filling_buffer_ships_before_its_tick : bool :=
  let b := (flush_round tool_outcome_i32 10 1024 now (with_caps 100 10)).1.2 in
  match s0 ← burst_ships_early b 0;
        s1 ← burst_ships_early s0.2 1;
        s2 ← burst_ships_early s1.2 2;
        Some (s0.1.1 + s1.1.1 + s2.1.1, (s0.1.2 + s1.1.2 + s2.1.2)%Z) with
  | Some (shipped, dropped) => bool_decide (shipped = 270) && bool_decide (dropped = 0%Z)
  | None => false
  end.

(** The bursts of [early_flushes_are_spaced], each recorded when the report of the
    previous one arrives: the arrivals, from a round that started at [started]. *)
Fixpoint burst_arrivals (n : nat) (b : Inner) (started : Z) : option (list Z) :=
  match n with
  | 0 => Some []
  | S n =>
      '(_, _, b) ← burst_ships_early b n;
      let at_ := early_start started started in
      (at_ ::.) <$> burst_arrivals n b at_
  end.

Definition early_flushes_are_spaced : bool :=
  let b := (flush_round tool_outcome_i32 1 1024 now (with_caps 100 100)).1.2 in
  let slack := from_millis 100 in
  match burst_arrivals 4 b 0 with
  | Some arrivals =>
      bool_decide (length arrivals = 4) &&
      forallb (λ '(a0, a1), (EARLY_FLUSH_SPACING <=? a1 - a0 + slack)%Z) (zip arrivals (tail arrivals))
  | None => false
  end.

Definition a_requeued_batch_counts_what_no_longer_fits_by_billability : bool :=
  let back := {| d_samples := [sample "p" "a" PolicyDenied (from_millis 0); sample "p" "b" Ok (from_millis 0); sample "p" "c" Ok (from_millis 0)];
                 d_dropped_overflow := 4; d_dropped_non_billable := 5; d_seq := 1; d_events := [] |} in
  let b := record (sample "p" "d" Ok (from_millis 0)) (with_caps 2 10) in
  let batch := (drain now (requeue_front back b)).1 in
  bool_decide (tool_name <$> d_samples batch = ["c"; "d"]%string) &&
  bool_decide (d_dropped_overflow batch = 5%Z) &&
  bool_decide (d_dropped_non_billable batch = 6%Z).

Definition overflow_drops_oldest_and_increments_counter : bool :=
  let batch := (drain now (record_all (timed 5 10) (with_caps 3 10))).1 in
  let drained := d_samples batch in
  bool_decide (length drained = 3) &&
  bool_decide (d_dropped_overflow batch = 2%Z) &&
  bool_decide (d_dropped_non_billable batch = 0%Z) &&
  bool_decide (nth_duration drained 0 = Some (from_millis 12)) &&
  bool_decide (nth_duration drained 2 = Some (from_millis 14)).

Definition batch_cap_respected_on_drain : bool :=
  let drained := d_samples (drain now (record_all (timed 20 0) (with_caps 100 5))).1 in
  bool_decide (length drained = 5) &&
  bool_decide (nth_duration drained 0 = Some (from_millis 0)) &&
  bool_decide (nth_duration drained 4 = Some (from_millis 4)).

Definition dropped_counter_resets_on_drain : bool :=
  let '(first, b) := drain now (record_all (timed 5 0) (with_caps 2 10)) in
  bool_decide (d_dropped_overflow first = 3%Z) &&
  bool_decide (d_dropped_overflow (drain now b).1 = 0%Z).

Definition batch_to_message_skips_empty_no_drops : bool :=
  match batch_to_message tool_outcome_i32 (timestamp_secs now) (batch [] 0) with
  | None => true
  | Some _ => false
  end.

Definition batch_to_message_emits_when_only_drops : bool :=
  expect_report (batch_to_message tool_outcome_i32 (timestamp_secs now) (batch [] 5)) (λ m,
    vec_is_empty (mr_invocations m) &&
    bool_decide (mr_dropped_overflow m = 5%Z) && bool_decide (mr_dropped_non_billable m = 0%Z)) &&
  let refusals := {| d_samples := []; d_dropped_overflow := 0; d_dropped_non_billable := 7;
                     d_seq := 1; d_events := [] |} in
  expect_report (batch_to_message tool_outcome_i32 (timestamp_secs now) refusals) (λ m,
    bool_decide (mr_dropped_overflow m = 0%Z) && bool_decide (mr_dropped_non_billable m = 7%Z)).

Definition hash_error_is_stable : bool :=
  let h1 := hash_error blake3_hex "connection refused" in
  let h2 := hash_error blake3_hex "connection refused" in
  bool_decide (h1 = h2) && bool_decide (is_Some h1) && bool_decide (hash_error blake3_hex "" = None).

(** The flush loop blocks in its send with the batch in the guard, and is aborted. *)
Definition an_aborted_flush_returns_its_batch_to_the_buffer : bool :=
  let b := record_all (named "github" "t" 5) MetricsBuffer_new in
  let '(d, b) := drain now b in
  match batch_to_message tool_outcome_i32 (timestamp_secs now) d with
  | Some msg =>
      let pc := Sending (batches_per_tick b - 1) d msg in
      at_await pc &&
      let recovered := d_samples (drain now (InFlight_drop (in_flight pc) b)).1 in
      bool_decide (length recovered = 5) &&
      bool_decide (tool_name <$> recovered = ["t0"; "t1"; "t2"; "t3"; "t4"]%string)
  | None => false
  end.

Definition a_failed_send_returns_its_batch_to_the_buffer : bool :=
  let b := record (sample "github" "list_repos" Ok (from_millis 1)) MetricsBuffer_new in
  let '(msgs, b, closed) := flush_round tool_outcome_i32 (batches_per_tick b) 0 now b in
  closed && vec_is_empty msgs && bool_decide (length (d_samples (drain now b).1) = 1).

(** A single call with a payload flag and key version, on the wire. *)
Definition on_the_wire (payload : option bytes) (encrypted : bool) (version : Z)
    (check : ToolInvocationSample → bool) : bool :=
  let s := {| plugin_id := "github"; tool_name := "list_repos"; binding_id := None;
              started_at := now; duration := from_millis 5; outcome := Ok; error_code := None;
              error_hash := None; request_id := None; caller_subject := None;
              request_payload := payload; response_payload := None;
              payload_encrypted := encrypted; dek_version := version |} in
  expect_report (batch_to_message tool_outcome_i32 (timestamp_secs now) (batch [s] 0)) (λ m,
    match mr_invocations m with [i] => check i | _ => false end).

Definition batch_to_message_carries_payload_encrypted_flag_and_version : bool :=
  let blob := as_bytes "ciphertext-blob" in
  on_the_wire (Some blob) true 7 (λ i,
    tis_payload_encrypted i && bool_decide (tis_dek_version i = 7%Z) &&
    bool_decide (tis_request_payload i = blob)).

Definition batch_to_message_strips_dek_version_when_not_encrypted : bool :=
  on_the_wire None false 99 (λ i,
    negb (tis_payload_encrypted i) && bool_decide (tis_dek_version i = 0%Z)).

Definition batch_to_message_carries_outcome_correctly : bool :=
  let s := sample "github" "list_repos" ServerError (from_millis 50) in
  expect_report (batch_to_message tool_outcome_i32 (timestamp_secs now) (batch [s] 0)) (λ m,
    match mr_invocations m with
    | [i] => bool_decide (tis_outcome i = tool_outcome_i32 ToolServerError) &&
             bool_decide (tis_duration_ms i = 50%Z)
    | _ => false
    end).

Definition all : list bool :=
  [record_and_drain_round_trip; event_deliveries_roll_up_per_type_and_reach_the_report;
   overflow_of_refusals_counts_no_billable_drop; a_full_buffer_drops_non_billable_samples_first;
   billable_outcomes_are_the_ones_that_ran; one_flush_tick_ships_the_whole_buffer;
   a_filling_buffer_ships_before_its_tick; early_flushes_are_spaced;
   a_requeued_batch_counts_what_no_longer_fits_by_billability;
   overflow_drops_oldest_and_increments_counter; batch_cap_respected_on_drain;
   dropped_counter_resets_on_drain; batch_to_message_skips_empty_no_drops;
   batch_to_message_emits_when_only_drops; hash_error_is_stable;
   an_aborted_flush_returns_its_batch_to_the_buffer;
   a_failed_send_returns_its_batch_to_the_buffer;
   batch_to_message_carries_payload_encrypted_flag_and_version;
   batch_to_message_strips_dek_version_when_not_encrypted;
   batch_to_message_carries_outcome_correctly].
End tests.
End metrics_tests.

(** The tests of [src/metrics.rs] pass, with the outcomes numbered in order and the
    identity in place of BLAKE3. *)
Theorem metrics_unit_tests_pass :
  let number o := match o with
                  | ToolOk => 1 | ToolClientError => 2 | ToolServerError => 3
                  | ToolPolicyDenied => 4 | ToolQuotaExceeded => 5 | ToolIdempotentReplay => 6
                  end%Z in
  forallb id (metrics_tests.all (mkDateTime 1700000000 0) number id) = true.
Proof. vm_compute. reflexivity. Qed.
