(* ===== verification/TestLanes.v ===== *)
(** * The unit tests of [src/logs.rs], [src/status.rs] and [src/backoff.rs] on the model

    The tests of these modules, translated assertion by assertion and evaluated on
    [Logs], [Status] and [Backoff].  [Utc::now] and the wire numbering of levels are
    arguments. *)

From stdpp Require Import base list strings.
From Stdlib Require Import ZArith QArith Lia.
From S2P Require Import Prelude Time Proto Text Logs Status Backoff.

Local Open Scope nat_scope.

#[export] Instance DeliveryRefusal_eq_dec : EqDecision DeliveryRefusal.
Proof. solve_decision. Defined.

Module logs_tests.
Section tests.
Context (now : DateTime) (level_i32 : ProtoLevel → Z).

Definition line (msg : string) (l : LogLevel.LogLevel) : LogLineSample :=
  {| at_ := now; level := l; target := "mcpg::test"; message := msg; plugin_id := None |}.

(** [for i in 0..n { b.record(line(&format!("m{i}"), level)) }]. *)
Definition record_n (n : nat) (l : LogLevel.LogLevel) (b : Inner) : Inner :=
  fold_left (λ b i, record (line ("m" +:+ to_string (Z.of_nat i)) l) b) (List.seq 0 n) b.

Definition message_at (lines : list LogLineSample) (i : nat) : option string :=
  message <$> lines !! i.

(** A message that is expected to be a [LogBatch]. *)
Definition expect_log_batch (m : option AgentMessage) (check : LogBatch → bool) : bool :=
  match m with
  | Some {| kind := Some (KLogBatch b) |} => check b
  | _ => false
  end.

Definition record_and_drain_round_trip : bool :=
  let '((drained, dropped, seq_), _) := drain (record_n 3 LogLevel.Info LogBuffer_new) in
  bool_decide (length drained = 3) && bool_decide (dropped = 0%Z) && bool_decide (seq_ = 1%Z) &&
  bool_decide (message_at drained 0 = Some "m0"%string) &&
  bool_decide (message_at drained 2 = Some "m2"%string).

Definition overflow_drops_oldest_and_counts : bool :=
  let '((drained, dropped, _), _) := drain (record_n 5 LogLevel.Warn (with_caps 3 10)) in
  bool_decide (length drained = 3) && bool_decide (dropped = 2%Z) &&
  bool_decide (message_at drained 0 = Some "m2"%string).

Definition batch_cap_respected : bool :=
  let '((drained, _, _), _) := drain (record_n 20 LogLevel.Debug (with_caps 100 5)) in
  bool_decide (length drained = 5) && bool_decide (message_at drained 0 = Some "m0"%string).

Definition dropped_resets_on_drain : bool :=
  let '((_, first, _), b) := drain (record_n 5 LogLevel.Error (with_caps 2 10)) in
  let '((_, second, _), _) := drain b in
  bool_decide (first = 3%Z) && bool_decide (second = 0%Z).

Definition skips_empty_no_drops : bool :=
  match batch_to_message level_i32 (timestamp_secs now) [] 0 1 with None => true | Some _ => false end.

Definition emits_when_only_drops : bool :=
  expect_log_batch (batch_to_message level_i32 (timestamp_secs now) [] 7 1) (λ b,
    vec_is_empty (lb_lines b) && bool_decide (lb_dropped_overflow b = 7%Z) &&
    bool_decide (lb_seq b = 1%Z)).

Definition batch_carries_level_target_message : bool :=
  let l := {| at_ := now; level := LogLevel.Error; target := "mcpg::dispatch"; message := "boom";
              plugin_id := Some "github"%string |} in
  expect_log_batch (batch_to_message level_i32 (timestamp_secs now) [l] 0 3) (λ b,
    match lb_lines b with
    | [l] => bool_decide (ll_level l = level_i32 ProtoError) &&
             bool_decide (ll_target l = "mcpg::dispatch"%string) &&
             bool_decide (ll_message l = "boom"%string) &&
             bool_decide (ll_plugin_id l = "github"%string)
    | _ => false
    end).

Definition all : list bool :=
  [record_and_drain_round_trip; overflow_drops_oldest_and_counts; batch_cap_respected;
   dropped_resets_on_drain; skips_empty_no_drops; emits_when_only_drops;
   batch_carries_level_target_message].
End tests.
End logs_tests.

Module status_tests.
Section tests.
Context (now : Z).

(** A message that is expected to be a [StatusReport]. *)
Definition expect_status_report (m : AgentMessage) (check : StatusReport → bool) : bool :=
  match kind m with Some (KStatusReport r) => check r | _ => false end.

Definition snapshot_maps_cluster_section_onto_the_wire : bool :=
  let snap :=
    {| snap_plugins := [{| pss_id := "dev.mcpg.cluster.nats"; pss_version := "1.0.0";
                           pss_state := "loaded"; pss_error := ""; pss_invocations := 0 |}];
       snap_warnings := [];
       snap_cluster := Some {| css_kind := "nats"; css_backend_up := Some true;
                               css_peers := Some 3%Z |};
       snap_secrets_digest := ""; snap_delivery_refusal := None |} in
  expect_status_report (snapshot_to_message now snap "hash-1") (λ r,
    bool_decide (sr_config_hash r = "hash-1"%string) &&
    bool_decide (length (sr_plugins r) = 1) &&
    match sr_cluster r with
    | Some c => bool_decide (cs_kind c = "nats"%string) &&
                bool_decide (cs_backend_up c = Some true) && bool_decide (cs_peers c = Some 3%Z)
    | None => false
    end).

Definition single_node_snapshot_keeps_options_unset : bool :=
  let snap :=
    {| snap_plugins := []; snap_warnings := [];
       snap_cluster := Some {| css_kind := "single_node"; css_backend_up := None;
                               css_peers := None |};
       snap_secrets_digest := ""; snap_delivery_refusal := None |} in
  expect_status_report (snapshot_to_message now snap "") (λ r,
    match sr_cluster r with
    | Some c => bool_decide (cs_kind c = "single_node"%string) &&
                bool_decide (cs_backend_up c = None) && bool_decide (cs_peers c = None)
    | None => false
    end &&
    bool_decide (sr_delivery_refusal r = None)).

Definition a_refused_delivery_rides_on_the_report : bool :=
  let snap :=
    {| snap_plugins := []; snap_warnings := []; snap_cluster := None; snap_secrets_digest := "";
       snap_delivery_refusal := Some {| drs_reason := "proof_refused"; drs_proof_kid := "kid-1" |} |} in
  expect_status_report (snapshot_to_message now snap "") (λ r,
    bool_decide (sr_delivery_refusal r =
                 Some {| dr_reason := "proof_refused"; dr_proof_kid := "kid-1" |})).

Definition all : list bool :=
  [snapshot_maps_cluster_section_onto_the_wire; single_node_snapshot_keeps_options_unset;
   a_refused_delivery_rides_on_the_report].
End tests.
End status_tests.

Module backoff_tests.
Section tests.
(** The factor a draw would give; without jitter none is drawn. *)
Context (factor : Q).

(** The delays of [n] calls. *)
Definition first_delays (n : nat) (b : Backoff) : list (option Duration) * Backoff :=
  delays (replicate n factor) b.

Definition first_attempt_uses_initial : bool :=
  let b := Backoff_new (from_secs 1) (from_secs 60) false in
  bool_decide ((next_delay factor b).1 = Some (from_secs 1)).

Definition doubles_until_max : bool :=
  let b := Backoff_new (from_secs 1) (from_secs 8) false in
  bool_decide ((first_delays 5 b).1 =
    (λ s, Some (from_secs s)) <$> [1%Z; 2%Z; 4%Z; 8%Z; 8%Z]).

Definition reset_returns_to_initial : bool :=
  let b := Backoff_new (from_secs 1) (from_secs 60) false in
  let b := reset (first_delays 2 b).2 in
  bool_decide ((next_delay factor b).1 = Some (from_secs 1)).

Definition all : list bool :=
  [first_attempt_uses_initial; doubles_until_max; reset_returns_to_initial].
End tests.
End backoff_tests.

(** The tests of the three modules pass, with the levels numbered in order. *)
Theorem lane_unit_tests_pass :
  let number l := match l with
                  | ProtoTrace => 1 | ProtoDebug => 2 | ProtoInfo => 3
                  | ProtoWarn => 4 | ProtoError => 5
                  end%Z in
  forallb id (logs_tests.all (mkDateTime 1700000000 0) number ++
              status_tests.all 1700000000 ++ backoff_tests.all 1) = true.
Proof. vm_compute. reflexivity. Qed.
