(* ===== verification/TestStorage.v ===== *)
(** * The unit tests of [src/payload_dek.rs], [src/lkg.rs] and [src/license_delivery.rs]

    The tests of these modules, translated assertion by assertion and evaluated on
    [Dek], [Lkg] and [License] with the concrete codecs of [Concrete] and [Crypto] in
    place of AES-GCM, HKDF, JSON and base64.  A [tempdir] is an empty world whose one
    directory exists; a literal JSON document is printed from its tree. *)

From stdpp Require Import base list strings countable gmap.
From Stdlib Require Import ZArith Lia.
From Stdlib.Strings Require Byte.
From S2P Require Import Prelude Time Proto Text Serde Concrete Errors Crypto Dek Fs Lkg License.

Local Open Scope rust_scope.

(** [x ^ 0x01] on the last byte. *)
Definition flip_last (b : bytes) : bytes :=
  alter (λ x, default x (Byte.of_N (N.lxor (Byte.to_N x) 1))) (length b - 1) b.

Module dek_tests.
Section tests.
Context `{Aead} (entropy : nat → byte).

(** The nonce of the [i]-th encryption. *)
Definition nonce_at (i : nat) : bytes := entropy <$> seq (DEK_NONCE_LEN * i) DEK_NONCE_LEN.

Definition fake_dek : bytes :=
  (λ i, default Byte.x00 (Byte.of_N (N.of_nat i))) <$> seq 0 32.

(** [DekHandle::from_proto(..).unwrap().unwrap()]. *)
Definition with_dek (version_ : Z) (check : DekHandle → bool) : bool :=
  match from_proto fake_dek version_ with Ok (Some d) => check d | _ => false end.

(** [.unwrap()]. *)
Definition unwrap_then {A E} (r : Result A E) (check : A → bool) : bool :=
  match r with Ok a => check a | Err _ => false end.

Definition from_proto_empty_returns_none : bool :=
  unwrap_then (from_proto [] 0) (λ got, bool_decide (got = None)).

Definition from_proto_rejects_short_key : bool :=
  match from_proto [Byte.x01; Byte.x02; Byte.x03] 1 with
  | Err (BadKeyLen 3) => true
  | _ => false
  end.

Definition from_proto_rejects_zero_version_with_key_present : bool :=
  match from_proto fake_dek 0 with Err ZeroVersion => true | _ => false end.

Definition round_trip_encrypts_and_decrypts : bool :=
  with_dek 7 (λ dek,
    let pt := as_bytes "hello payload, 12345" in
    unwrap_then (dek_encrypt dek (nonce_at 0) pt) (λ blob,
      bool_decide (length blob = 12 + 16 + length pt) &&
      unwrap_then (decrypt_for_test dek blob) (λ back, bool_decide (back = pt)))).

Definition fresh_nonce_per_encrypt : bool :=
  with_dek 7 (λ dek,
    let pt := as_bytes "same plaintext" in
    unwrap_then (dek_encrypt dek (nonce_at 0) pt) (λ a,
      unwrap_then (dek_encrypt dek (nonce_at 1) pt) (λ b,
        bool_decide (a ≠ b) && bool_decide (take 12 a ≠ take 12 b)))).

Definition tampered_ciphertext_rejected : bool :=
  with_dek 7 (λ dek,
    unwrap_then (dek_encrypt dek (nonce_at 0) (as_bytes "sensitive")) (λ blob,
      match decrypt_for_test dek (flip_last blob) with Err (Encrypt _) => true | _ => false end)).

Definition aad_separation_blocks_cross_context_decrypt : bool :=
  with_dek 7 (λ dek,
    unwrap_then (dek_encrypt dek (nonce_at 0) (as_bytes "payload")) (λ blob,
      match aes_new_from_slice (raw dek), split_first_chunk 12 blob with
      | Some cipher, Some (nonce, ct) =>
          bool_decide (aes_decrypt cipher nonce ct (as_bytes "different-context") = None)
      | _, _ => false
      end)).

Definition version_is_carried : bool :=
  with_dek 42 (λ dek, bool_decide (version dek = 42%Z)).

Definition all : list bool :=
  [from_proto_empty_returns_none; from_proto_rejects_short_key;
   from_proto_rejects_zero_version_with_key_present; round_trip_encrypts_and_decrypts;
   fresh_nonce_per_encrypt; tampered_ciphertext_rejected;
   aad_separation_blocks_cross_context_decrypt; version_is_carried].
End tests.
End dek_tests.

(** A test that performs I/O: it passes when it runs to its end and every assertion
    holds.  The asserted condition guards what follows. *)
Definition assert_ (b : bool) : IO () := if b then ret tt else throw (anyhow "assertion failed").

Definition passes (t : IO ()) (w : World) : bool := match (t w).1 with Ok _ => true | Err _ => false end.

(** [.unwrap()] of an [Option]. *)
Definition unwrap {A} (o : option A) : IO A := lift_opt o (anyhow "unwrap on None").

(** [.is_err()]. *)
Definition is_err {A} (r : Result A Error) : bool := match r with Ok _ => false | Err _ => true end.

Module lkg_tests.

(** The messages the tests build, as far as they fill them in. *)
Record PluginSet := { id : string; content_hash : string }.

Record Bundle := {
  schema_version : Z;
  config_toml : bytes;
  plugin_set : option PluginSet;
  license_jwt : string
}.

(** A bundle as a JSON array of its fields, for its protobuf encoding. *)
Definition Bundle_value (b : Bundle) : Value :=
  Arr [Num (PosInt (schema_version b)); Str (of_bytes (config_toml b));
       match plugin_set b with
       | Some p => Arr [Str (id p); Str (content_hash p)]
       | None => Null
       end; Str (license_jwt b)].

Definition Bundle_of_value (v : Value) : option Bundle :=
  match v with
  | Arr [Num (PosInt n); Str toml; ps; Str jwt] =>
      Some {| schema_version := n; config_toml := as_bytes toml;
              plugin_set := match ps with
                            | Arr [Str i; Str h] => Some {| id := i; content_hash := h |}
                            | _ => None
                            end;
              license_jwt := jwt |}
  | _ => None
  end.

#[export] Instance bundle_codec : BundleCodec := {|
  ConfigBundle := Bundle;
  bundle_encode b := Some (json_print (Bundle_value b));
  bundle_decode x := json_parse x ≫= Bundle_of_value
|}.

Section tests.
Context (dir : string).

Definition cache : LkgCache := in_state_dir dir.

Definition sample_bundle : Bundle :=
  {| schema_version := 1; config_toml := as_bytes "foo = 1";
     plugin_set := Some {| id := "ps-1"; content_hash := "abc" |}; license_jwt := "" |}.

Definition round_trip_save_load : IO () :=
  save cache "hash-xyz" sample_bundle;!
  loaded ←! load_bundle cache;
  found ←! unwrap loaded;
  let '(h, loaded) := found in
  assert_ (bool_decide (h = "hash-xyz"%string));!
  assert_ (bool_decide (config_toml loaded = config_toml sample_bundle));!
  ps ←! unwrap (plugin_set loaded);
  assert_ (bool_decide (id ps = "ps-1"%string)).

Definition missing_returns_none : IO () :=
  loaded ←! load_bundle cache;
  assert_ (match loaded with None => true | Some _ => false end).

(** [windows(n).all(|w| w != needle)]. *)
Definition never_occurs (needle raw : bytes) : bool :=
  forallb (λ i, bool_decide (take (length needle) (drop i raw) ≠ needle))
    (seq 0 (length raw - length needle + 1)).

Definition ciphertext_does_not_leak_plaintext : IO () :=
  let needle := as_bytes "VERY_DISTINCTIVE_MARKER" in
  let bundle := {| schema_version := 1; config_toml := needle; plugin_set := None;
                   license_jwt := "" |} in
  save cache "h" (bundle : ConfigBundle);!
  raw ←! read (path cache);
  assert_ (bool_decide (head raw = Some FILE_VERSION));!
  assert_ (1 + NONCE_LEN <? length raw)%nat;!
  assert_ (never_occurs needle raw).

Definition tamper_detection_rejects_modified_ciphertext : IO () :=
  save cache "h" (sample_bundle : ConfigBundle);!
  raw ←! read (path cache);
  write (path cache) (flip_last raw);!
  r ←! attempt (load_bundle cache);
  assert_ (is_err r).

Definition all : list (IO ()) :=
  [round_trip_save_load; missing_returns_none; ciphertext_does_not_leak_plaintext;
   tamper_detection_rejects_modified_ciphertext].
End tests.
End lkg_tests.

Module license_tests.
Section tests.
Context `{Json} (dir : string).

Definition delivery (jwt : string) (failing : bool) : LicenseDelivery :=
  {| license_jwt := jwt; org_slug := "acme"; refresh_failing := failing; delivery_proof := "";
     channel_nonce := ""; instance_uid := "" |}.

(** [assert_eq!(load_cached(dir), expected)]. *)
Definition loads (expected : option LicenseDelivery) : IO () :=
  got ←! load_cached dir;
  assert_ (bool_decide (got = expected)).

Definition a_delivery_round_trips_and_replaces_the_previous_one : IO () :=
  loads None;!
  save_cached dir (delivery "a.b.c" true);!
  loads (Some (delivery "a.b.c" true));!
  save_cached dir (delivery "" false);!
  loads (Some (delivery "" false));!
  left_over ←! exists_ (with_extension "json.tmp" (cache_path dir));
  assert_ (negb left_over).

Definition the_proof_is_kept_with_its_nonce_and_instance : IO () :=
  let proven := {| license_jwt := "a.b.c"; org_slug := "acme"; refresh_failing := false;
                   delivery_proof := "proof.of.delivery"; channel_nonce := "nonce-of-this-channel";
                   instance_uid := "gw-1" |} in
  save_cached dir proven;!
  loads (Some proven);!
  write (cache_path dir) (json_print (Obj [("license_jwt", Str "a.b.c"); ("org_slug", Str "acme");
                                           ("refresh_failing", Bool false)]%string));!
  older ←! load_cached dir;
  older ←! unwrap older;
  assert_ (bool_decide (license_jwt older = "a.b.c"%string));!
  assert_ (str_is_empty (delivery_proof older) && str_is_empty (instance_uid older)).

Definition an_unreadable_cache_is_no_delivery : IO () :=
  write (cache_path dir) (as_bytes "not json");!
  loads None.

Definition all : list (IO ()) :=
  [a_delivery_round_trips_and_replaces_the_previous_one;
   the_proof_is_kept_with_its_nonce_and_instance; an_unreadable_cache_is_no_delivery].
End tests.
End license_tests.

(** A fresh temporary directory, and random bytes that do not repeat soon. *)
Definition TMP : string := "/tmp/test".
Definition counting_entropy (i : nat) : byte := default Byte.x00 (Byte.of_N (N.of_nat (i mod 251))).
Definition tempdir : World := {|
  disk := ∅; dirs := {[ TMP ]}; new_mode := 420; faults := []; entropy := counting_entropy;
  drawn := 0; clock := λ _, mkDateTime 1700000000 0; readings := 0; past := []
|}.

(** The tests of the three modules pass, each in its own directory. *)
Theorem storage_unit_tests_pass :
  forallb Datatypes.id (dek_tests.all counting_entropy) &&
  forallb (λ t, passes t tempdir) (lkg_tests.all TMP ++ license_tests.all TMP) = true.
Proof. vm_compute. reflexivity. Qed.
