(* ===== verification/TestAgent.v ===== *)
(** * The tests of [src/agent.rs] on the model

    The tests of the module, translated assertion by assertion and evaluated on
    [Token], [Errors], [Runner], [Agent] and [Shutdown].  A literal JSON document is
    printed from its tree, nonces come from an argument, the clock stands still, and
    a jitter factor is 1.  In the tests against a control plane the fake of the
    source, [fake_cp], answers the calls the run loop makes; aborting the task is
    modelled by cutting the reader when it has read what the fake sent, and the
    time between two Channel opens by the delays the loop slept.  That two runners
    draw different process ids is a fact about the generator and is left out. *)

From stdpp Require Import base list strings gmap.
From Stdlib Require Import ZArith QArith Lia SpecFloat Ascii.
From Stdlib.Strings Require Byte.
From S2P Require Import Prelude Time Proto Text Serde Concrete Errors Token F64 Backoff.
From S2P Require Import Metrics Logs Crypto Dek Fs Lkg LkgFacts License Creds Client Runner Inbound Agent.
From S2P Require Import Shutdown TestStorage.

Local Open Scope string_scope.
Local Open Scope nat_scope.

Module agent_tests.

(** ** Unit tests *)

Section unit_tests.
Context (now : DateTime) (code : ToolOutcome → Z) (level : ProtoLevel → Z).
Context `{!Json, !Base64, !BundleCodec} (b64url_encode : bytes → string).

(** A call of the shutdown flush test. *)
Definition buffered_sample (i : nat) : ToolCallSample := {|
  Metrics.plugin_id := "github"; tool_name := "t" +:+ to_string (Z.of_nat i); binding_id := None;
  started_at := now; duration := from_millis 1; outcome := SampleOutcome.Ok; error_code := None;
  error_hash := None; request_id := None; caller_subject := None; request_payload := None;
  response_payload := None; payload_encrypted := false; Metrics.dek_version := 0
|}.

Definition a_shutdown_flush_ships_what_is_still_buffered : bool :=
  let runner : @Runner _ unit unit := AgentRunner_new (AgentRunnerConfig_default "uuid" "1.0") tempdir in
  let m := fold_left (λ b i, Metrics.record (buffered_sample i) b) (List.seq 0 3) (metrics runner) in
  let runner := flush_remaining code level 8 (λ _, now) (with_buffers m (logs runner) runner) in
  match head (outbound runner) with
  | Some {| kind := Some (KMetricsReport report) |} => bool_decide (length (mr_invocations report) = 3)
  | _ => false
  end &&
  vec_is_empty (d_samples (Metrics.drain now (metrics runner)).1).

(** [FakeApplier::apply]. *)
Definition FakeApplier (ok : bool) (_ : ConfigBundle) : Result () string :=
  if ok then Ok tt else Err "apply rejected".

Definition config_applier_trait_contract (default_bundle : ConfigBundle) : bool :=
  match FakeApplier true default_bundle with Ok _ => true | Err _ => false end &&
  match FakeApplier false default_bundle with
  | Err e => bool_decide (e = "apply rejected")
  | Ok _ => false
  end.

(** The operation of the retry test, on the number of calls so far. *)
Definition transient_outage (n : nat) : Result string Error * nat :=
  (if n <? 2 then Err (anyhow ("transient outage " +:+ to_string (Z.of_nat n)))
   else Ok ("registered-" +:+ to_string (Z.of_nat n)), S n).

Definition retry_with_backoff_recovers_after_transient_failures : bool :=
  match retry_with_backoff (from_millis 1) (from_millis 2) (replicate 10 (transient_outage, 1%Q)) 0 with
  | RDone out _ calls => bool_decide (out = "registered-2") && bool_decide (calls = 3)
  | _ => false
  end.

(** [jwt_with_payload]. *)
Definition jwt_with_payload (payload : Value) : string :=
  let b64 v := b64url_encode (json_print v) in
  b64 (Obj [("alg", Str "EdDSA"); ("typ", Str "JWT")]) +:+ "." +:+ b64 payload +:+ ".sig".

(** [str::rsplit_once]. *)
Definition rsplit_once (c : ascii) (s : string) : option (string * string) :=
  (λ p, (str_rev p.2, str_rev p.1)) <$> split_once c (str_rev s).

Definition num (n : Z) : Value := Num (PosInt n).

Definition jwt_exp_reads_the_payload_claim : bool :=
  bool_decide (jwt_exp (jwt_with_payload (Obj [("sub", Str "instance:x"); ("exp", num 1700000000)]))
               = Some 1700000000%Z) &&
  (let padded := unwrap_str (fst <$> rsplit_once "."%char (jwt_with_payload (Obj [("exp", num 42)])))
                 +:+ "==" in
   bool_decide (jwt_exp (padded +:+ ".sig") = Some 42%Z)) &&
  bool_decide (jwt_exp (jwt_with_payload (Obj [("exp", Num (Float (f64_of_int 42)))])) = Some 42%Z).

(** ["bm90IGpzb24"] is the base64url form of ["not json"]. *)
Definition jwt_exp_is_none_for_malformed_or_missing : bool :=
  forallb (λ t, bool_decide (jwt_exp t = None))
    [""; "not-a-jwt"; "a.!!!.c"; "a." +:+ b64url_encode (as_bytes "not json") +:+ ".c";
     jwt_with_payload (Obj [("sub", Str "instance:x")]);
     jwt_with_payload (Obj [("exp", Str "soon")])].

Definition the_instance_uid_comes_from_the_instance_token : bool :=
  bool_decide (jwt_instance_uid (jwt_with_payload (Obj [("instance_uid", Str "gw-1"); ("exp", num 1)]))
               = Some "gw-1") &&
  bool_decide (jwt_instance_uid (jwt_with_payload (Obj [("exp", num 1)])) = None) &&
  bool_decide (jwt_instance_uid (jwt_with_payload (Obj [("instance_uid", Str " ")])) = None) &&
  bool_decide (jwt_instance_uid "not-a-jwt" = None).

Definition expires_within_treats_unreadable_as_expired : bool :=
  let window := from_secs 300 in
  expires_within None 1000 window && expires_within (Some 900%Z) 1000 window &&
  expires_within (Some 1000%Z) 1000 window && expires_within (Some 1300%Z) 1000 window &&
  negb (expires_within (Some 1301%Z) 1000 window).

Definition token_refresh_window_is_five_minutes_or_three_heartbeats : bool :=
  bool_decide (token_refresh_window (from_secs 30) = from_secs 300) &&
  bool_decide (token_refresh_window (from_secs 120) = from_secs 360).

(** A status without metadata, and its verdict. *)
Definition status (c : Code) (m : string) : Status :=
  {| Errors.code := c; Errors.message := m; Errors.metadata := [] |}.

Definition rejected (c : Code) (m : string) : bool :=
  is_credential_rejection (from_cause (CStatus (status c m))).

Definition credential_rejection_is_unauthenticated_or_a_named_permission_denied : bool :=
  rejected Unauthenticated "instance-token: ExpiredSignature" &&
  rejected Unauthenticated "missing instance-token" &&
  rejected PermissionDenied "Instance-Token revoked for this instance" &&
  rejected PermissionDenied "instance token no longer accepted" &&
  negb (rejected PermissionDenied
    "peer cert SPIFFE URI spiffe://a does not match JWT identity spiffe://b") &&
  negb (rejected (OtherCode "Unavailable") "connection reset") &&
  negb (rejected (OtherCode "Internal") "db down") &&
  negb (rejected (OtherCode "Cancelled") "stream closed") &&
  is_credential_rejection
    {| top := CMsg "opening Channel";
       sources := [CStatus (status Unauthenticated "instance-token: x")] |} &&
  negb (is_credential_rejection (anyhow "no instance JWT cached; call register() first")).

Definition all_unit_tests (default_bundle : ConfigBundle) : list bool :=
  [a_shutdown_flush_ships_what_is_still_buffered; config_applier_trait_contract default_bundle;
   retry_with_backoff_recovers_after_transient_failures; jwt_exp_reads_the_payload_claim;
   jwt_exp_is_none_for_malformed_or_missing; the_instance_uid_comes_from_the_instance_token;
   expires_within_treats_unreadable_as_expired;
   token_refresh_window_is_five_minutes_or_three_heartbeats;
   credential_rejection_is_unauthenticated_or_a_named_permission_denied].
End unit_tests.

(** A caller of [finished] that starts when the flag is up returns at once, whatever
    else the system does. *)
Definition finished_resolves_when_the_agent_already_stopped : Prop :=
  ∀ s, finished_flag s = true → finished_pc s = FFirstLoad →
    (∃ s', finished_step s s') ∧ ∀ s', finished_step s s' → finished_pc s' = FReturned.

Lemma finished_test : finished_resolves_when_the_agent_already_stopped.
Proof.
  intros s Hf Hpc. split; [eexists; by apply finished_load1|].
  intros s' Hs. destruct Hs; try congruence. simpl. by rewrite Hf.
Qed.

(** ** Tests against a control plane *)

Section fake_cp.
Context `{!Json, !Base64, !Rfc3339, !Aead, !Hkdf, !BundleCodec, !Grpc}.
Context (now : DateTime) (code : ToolOutcome → Z) (level : ProtoLevel → Z).
Context (b64url_encode : bytes → string) (new_nonce : nat → string) (dir : string).
Abbreviation jwt_with_payload := (jwt_with_payload b64url_encode).
Abbreviation Runner := (@Runner _ unit unit).

(** The metadata one Channel opened with. *)
Record Opened := { o_nonce : string; o_version : string; o_process : string; o_heartbeat_ms : string }.

(** [FakeCp] and its [Inner]; the streams it keeps open have no state here. *)
Record FakeCp := {
  fresh_jwt : string;
  channel_tokens : list string;
  channel_opens : list Opened;
  registers : nat;
  license : option LicenseUpdate;
  held_opens : nat;
  held_ms : Z
}.

(** [FakeCp::new]. *)
Definition FakeCp_new : FakeCp := {|
  fresh_jwt := jwt_with_payload (Obj [("exp", num (timestamp_secs now + 3600));
                                      ("instance_uid", Str "fake-instance")]);
  channel_tokens := []; channel_opens := []; registers := 0; license := None; held_opens := 0; held_ms := 0
|}.

(** [FakeCp::deliver_license]. *)
Definition deliver_license (license_jwt org_slug : string) (cp : FakeCp) : FakeCp := {|
  fresh_jwt := fresh_jwt cp; channel_tokens := channel_tokens cp; channel_opens := channel_opens cp;
  registers := registers cp; license := Some {| lu_license_jwt := license_jwt; lu_org_slug := org_slug;
                     lu_refresh_failing := true; lu_delivery_proof := "p.r.f" |};
  held_opens := held_opens cp; held_ms := held_ms cp
|}.

(** [FakeCp::hold_slot]. *)
Definition hold_slot (opens : nat) (frees_in_ms : Z) (cp : FakeCp) : FakeCp := {|
  fresh_jwt := fresh_jwt cp; channel_tokens := channel_tokens cp; channel_opens := channel_opens cp;
  registers := registers cp; license := license cp; held_opens := opens; held_ms := frees_in_ms
|}.

(** [FakeCp::register]; it does not look at the request. *)
Definition fake_register (cp : FakeCp) : RegisterResponse * FakeCp :=
  ({| rr_instance_id := "11111111-1111-7111-8111-111111111111"; rr_instance_jwt := fresh_jwt cp;
      rr_cp_endpoint := "http://fake"; rr_client_cert_pem := ""; rr_client_key_pem := "";
      rr_ca_chain_pem := ""; rr_payload_dek := []; rr_payload_dek_version := 0 |},
   {| fresh_jwt := fresh_jwt cp; channel_tokens := channel_tokens cp;
      channel_opens := channel_opens cp; registers := S (registers cp); license := license cp;
      held_opens := held_opens cp; held_ms := held_ms cp |}).

(** [FakeCp::channel] on the request's metadata: the messages of the stream it
    opens, or the refusal. *)
Definition fake_channel (md : list (string * string)) (cp : FakeCp)
    : Result (list (@ServerMessage _ unit)) Status * FakeCp :=
  let header key := unwrap_str (v ← metadata_get key md; header_to_str v) in
  let token := header "mcpg-instance-token" in
  let opened := {| o_nonce := header DELIVERY_NONCE_HEADER; o_version := header AGENT_VERSION_HEADER;
                   o_process := header AGENT_PROCESS_HEADER;
                   o_heartbeat_ms := header AGENT_HEARTBEAT_HEADER |} in
  let seen held := {| fresh_jwt := fresh_jwt cp; channel_tokens := channel_tokens cp ++ [token];
                      channel_opens := channel_opens cp ++ [opened];
                      registers := registers cp; license := license cp;
                      held_opens := held; held_ms := held_ms cp |}%list in
  if negb (String.eqb token (fresh_jwt cp))
  then (Err (status Unauthenticated "instance-token: ExpiredSignature"), seen (held_opens cp))
  else match held_opens cp with
  | S held =>
      (Err {| Errors.code := AlreadyExists; Errors.message := "the slot is held";
              Errors.metadata := [(CHANNEL_RETRY_AFTER_HEADER, to_string (held_ms cp))] |}, seen held)
  | O => (Ok (option_list ((λ u, {| server_kind := Some (SLicenseUpdate u) |}) <$> license cp)),
          seen 0)
  end.

(** [write_cached_creds]. *)
Definition write_cached_creds (jwt : string) : IO () :=
  bind (create_dir_all dir) (λ _,
  write (creds_path dir) (json_print (StoredCreds_serialize {|
    instance_id := "cached-instance"; instance_jwt := jwt; Creds.cp_endpoint := ""; issued_at := now;
    Creds.client_cert_pem := ""; Creds.client_key_pem := ""; Creds.ca_chain_pem := "";
    payload_dek_b64 := ""; payload_dek_version := 0 |}))).

(** The configuration of [runner_against]. *)
Definition runner_config (version_ : string) (initial_ max_ : Duration) : AgentRunnerConfig := {|
  rc_cp_endpoint := "http://127.0.0.1:1"; rc_enrollment_url := "http://fake/enroll/v1#token=ENROL-abc";
  rc_instance_uid := "reenrol-test"; rc_version := version_; rc_state_dir := dir;
  rc_heartbeat_interval := from_millis 100; rc_backoff_initial := initial_; rc_backoff_max := max_;
  rc_bootstrap_ca_pem := None; rc_metrics_flush_interval := None
|}.

Definition test_config : AgentRunnerConfig := runner_config "1.0" (from_millis 5) (from_millis 20).

(** ** Running against the fake *)

(** Every dial succeeds and every Register reaches the fake. *)
Definition register_env (cp : FakeCp) : @RegisterEnv unit := {|
  re_os := "linux"; re_arch := "x86_64"; re_var := λ _, None;
  re_attempts := [(λ _ _, Ok tt, λ _ _, Ok (fake_register cp).1, 1%Q)]
|}.

(** The session in which the Channel is opened with nonce number [i]. *)
Definition session_env (cp : FakeCp) (i : nat) : @SessionEnv _ unit unit :=
  {| se_dial := λ _ _, Ok tt; se_nonce := new_nonce (S i); se_process_id := new_nonce 0;
     se_channel := λ _ md, match (fake_channel md cp).1 with Ok _ => Ok tt | Err s => Err s end;
     se_inbound := (λ m, (Ok m, true)) <$>
       option_list ((λ u, {| server_kind := Some (SLicenseUpdate u) |}) <$> license cp);
     se_shutdown := Some (1, None); se_background := id; se_stopping := false; se_room := 64;
     se_now := λ _, now |}.

Definition loop_env (cp : FakeCp) (i : nat) : @LoopEnv _ unit unit := {|
  le_stopping := false; le_enroll := register_env cp; le_session := session_env cp i;
  le_factor := 1%Q; le_reenroll := register_env cp
|}.

Definition is_connected (e : AgentEvent) : bool :=
  match e with ChannelConnected => true | _ => false end.
Definition is_registered (e : AgentEvent) : bool :=
  match e with Registered _ => true | _ => false end.

(** The fake after the Register calls that took the runner from [r] to [r']: each of
    them succeeds at once and is announced. *)
Definition after_registers (r r' : Runner) (cp : FakeCp) : FakeCp :=
  let count r := length (List.filter is_registered (events r)) in
  Nat.iter (count r' - count r) (λ cp, (fake_register cp).2) cp.

(** The fake after the Channel call of an iteration, which presents the token the
    runner holds when the session starts. *)
Definition after_channel (cfg : AgentRunnerConfig) (i : nat) (b : Backoff) (r : Runner) (cp : FakeCp)
    : FakeCp :=
  match refresh_token cfg (loop_env cp i) r (λ slept r, LNext slept b r) with
  | LNext _ _ r =>
      match t ← current_jwt (client r);
            match channel_metadata cfg (session_env cp i) t with Ok md => Some md | Err _ => None end with
      | Some md => (fake_channel md cp).2
      | None => cp
      end
  | _ => cp
  end.

(** The iterations of the loop until a Channel connects: the fake, the runner and
    the delays slept. *)
Fixpoint until_connected (fuel : nat) (cfg : AgentRunnerConfig) (hooks : Hooks) (cp : FakeCp) (i : nat)
    (b : Backoff) (slept : list Duration) (r : Runner) : option (FakeCp * Runner * list Duration) :=
  match fuel with
  | O => None
  | S fuel =>
      if existsb is_connected (events r) then Some (cp, r, slept)
      else match loop_iteration code level cfg hooks (loop_env cp i) b r with
      | LNext slept' b' r' =>
          until_connected fuel cfg hooks (after_registers r r' (after_channel cfg i b r cp)) (S i) b'
            (slept ++ slept')%list r'
      | _ => None
      end
  end.

(** [runner.run()] in a directory where [before] has run. *)
Definition run_against (cfg : AgentRunnerConfig) (hooks : Hooks) (cp : FakeCp) (before : IO ())
    (check : FakeCp → Runner → list Duration → bool) : bool :=
  match before tempdir with
  | (Err _, _) => false
  | (Ok _, w) =>
      let r0 := AgentRunner_new cfg w in
      match run code level cfg hooks (register_env cp) [] r0 with
      | LNext slept b r =>
          match until_connected 5 cfg hooks (after_registers r0 r cp) 0 b slept r with
          | Some (cp, r, slept) => check cp r slept
          | None => false
          end
      | _ => false
      end
  end.

Definition no_hooks : @Hooks _ := {| config_applier := None; license_applier := false |}.
Definition license_hooks : @Hooks _ := {| config_applier := None; license_applier := true |}.

(** A token the client takes for valid and the fake refuses. *)
Definition stale_jwt : string :=
  jwt_with_payload (Obj [("sub", Str "stale"); ("exp", num (timestamp_secs now + 3600))]).

Definition rejected_token_is_replaced_by_a_fresh_register : bool :=
  run_against test_config no_hooks FakeCp_new (write_cached_creds stale_jwt) (λ cp r _,
    existsb (λ e, match e with
                  | ChannelDisconnected reason => contains "Unauthenticated" reason
                  | _ => false
                  end) (events r) &&
    match position is_registered (events r), position is_connected (events r) with
    | Some registered, Some connected => registered <? connected
    | _, _ => false
    end &&
    bool_decide (head (channel_tokens cp) = Some stale_jwt) &&
    bool_decide (last (channel_tokens cp) = Some (fresh_jwt cp)) &&
    bool_decide (registers cp = 1) &&
    match (read_stored_creds dir (world r)).1 with
    | Ok on_disk => bool_decide (Creds.instance_jwt on_disk = fresh_jwt cp)
    | Err _ => false
    end).

Definition a_delivered_licence_reaches_the_host_and_the_disk : bool :=
  run_against test_config license_hooks (deliver_license "h.p.s" "acme" FakeCp_new) (ret tt) (λ cp r _,
    match last (channel_opens cp), host_calls r with
    | Some opened, [HApplyLicense delivered] =>
        let expected := {| license_jwt := "h.p.s"; org_slug := "acme"; refresh_failing := true;
                           delivery_proof := "p.r.f"; channel_nonce := o_nonce opened;
                           instance_uid := "fake-instance" |} in
        bool_decide (delivered = expected) &&
        match (load_cached dir (world r)).1 with
        | Ok kept => bool_decide (kept = Some expected)
        | Err _ => false
        end
    | _, _ => false
    end).

Definition each_channel_opens_with_a_fresh_nonce_and_the_running_version : bool :=
  let cfg := runner_config "9.8.7-rc.6" (from_millis 5) (from_millis 20) in
  run_against cfg no_hooks FakeCp_new (write_cached_creds stale_jwt) (λ cp _ _,
    forallb (λ o, bool_decide (String.length (o_nonce o) = 43) &&
                  bool_decide (o_version o = "9.8.7-rc.6") &&
                  bool_decide (String.length (o_process o) = 43) &&
                  bool_decide (o_heartbeat_ms o = "100")) (channel_opens cp) &&
    match channel_opens cp with
    | [o0; o1] => bool_decide (o_nonce o0 ≠ o_nonce o1) && bool_decide (o_process o0 = o_process o1)
    | _ => false
    end).

Definition a_channel_refused_for_a_held_slot_opens_again_when_the_slot_frees : bool :=
  let cfg := runner_config "1.0" (from_secs 30) (from_secs 60) in
  let cp := hold_slot 1 300 FakeCp_new in
  run_against cfg license_hooks cp (write_cached_creds (fresh_jwt cp)) (λ cp r slept,
    match host_calls r with
    | [HSlotHeld retry_in] => bool_decide (retry_in = from_millis 550)
    | _ => false
    end &&
    existsb is_connected (events r) &&
    bool_decide (length (channel_opens cp) = 2) &&
    let waited := foldr Z.add 0%Z slept in
    (from_millis 500 <=? waited)%Z && (waited <=? from_secs 5)%Z).

Definition expired_cached_token_is_replaced_before_connecting : bool :=
  let expired := jwt_with_payload (Obj [("exp", num (timestamp_secs now - 60))]) in
  run_against test_config no_hooks FakeCp_new (write_cached_creds expired) (λ cp r _,
    existsb is_connected (events r) &&
    negb (existsb (λ e, match e with ChannelDisconnected _ => true | _ => false end) (events r)) &&
    bool_decide (channel_tokens cp = [fresh_jwt cp])).

Definition all_fake_cp_tests : list bool :=
  [rejected_token_is_replaced_by_a_fresh_register; a_delivered_licence_reaches_the_host_and_the_disk;
   each_channel_opens_with_a_fresh_nonce_and_the_running_version;
   a_channel_refused_for_a_held_slot_opens_again_when_the_slot_frees;
   expired_cached_token_is_replaced_before_connecting].
End fake_cp.
End agent_tests.

(** The unit tests of [src/agent.rs] pass. *)
Theorem agent_unit_tests_pass :
  forallb id (agent_tests.all_unit_tests (mkDateTime 1700000000 0) (λ _, 0%Z) (λ _, 0%Z)
                hex_encode demo_bundle) = true ∧
  agent_tests.finished_resolves_when_the_agent_already_stopped.
Proof. split; [vm_compute; reflexivity|apply agent_tests.finished_test]. Qed.

#[local] Existing Instance demo_grpc.

(** A nonce of 43 characters with its number in it. *)
Definition numbered_nonce (i : nat) : string :=
  of_bytes (replicate 42 Byte.x6e) +:+ to_string (Z.of_nat (i mod 10)).

(** Run against the fake control plane, the runner does what the five
    integration tests assert: a refused token is replaced through one Register before
    the next connect and the new credentials are on disk; a delivered licence reaches
    the host and the disk with the Channel's nonce and instance; every Channel opens
    with a nonce of its own and the same process id; a held slot is retried just after
    it frees; and an expired cached token is never presented. *)
Theorem fake_cp_tests_pass :
  forallb id (agent_tests.all_fake_cp_tests (mkDateTime 1700000000 0) (λ _, 0%Z) (λ _, 0%Z)
                hex_encode numbered_nonce TMP) = true.
Proof. vm_compute. reflexivity. Qed.
